(* ===== verification/_CoqProject ===== *)
-Q . S2P
Prelude.v
SeqArith.v
Bytes.v
Rss.v
Queues.v
MemPool.v
SendBuffer.v
Intervals.v
RingBuffer.v
Reassembly.v
AddrPool.v
Mtcp.v
TcpUtil.v
Output.v
Events.v
Fhash.v
Lists.v
TcpStream.v
TcpOut.v
Timer.v
TcpIn.v
NetIn.v
Sockets.v
Core.v
Api.v
Frame.v
StackInv.v
ListOps.v
Benign.v
StreamLife.v
OutSafe.v
TimerSafe.v
StateMachine.v
InSafe.v
NetSafe.v
CoreSafe.v
ApiSafe.v
Stack.v
System.v
Ring.v
Epoll.v
Pipes.v
Flush.v
Transfer.v
Connections.v
Widths.v
CString.v
Config.v
ConfigSafe.v
Routes.v
Threads.v
ThreadsSafe.v
Logger.v
Dpdk.v
DpdkSafe.v
Dates.v
DatesOk.v
Http.v
AppBuffer.v
