(* ===== verification/Prelude.v ===== *)
(** * mTCP: a shallow embedding of a user-level TCP stack

    The program ([src/mtcp/src]) is a TCP/IP stack that runs as one thread per core next to
    the application.  A thread owns a manager ([struct mtcp_manager]): the streams of its
    connections, the lists that say what is to be done with them, the flow and listener
    tables, the sockets, the event queues and the pools their memory comes from.  A round of
    the main loop takes frames from the devices, runs the timers, takes over what the
    application has asked for, and writes segments.  The application calls [mtcp_recv],
    [mtcp_write], [mtcp_close] and so on; a call works on the shared streams and buffers and
    hands streams to the stack through lock-free queues; events go the other way.

    ** The embedding

    This file has what the others share: record update ([r <| f := v |>]), machine integers
    as [Z] with the wrap-around written out ([u8] ... [u64], [i32]), memory as lists, and the
    monad [M S A] of code that reads and writes a state [S] and returns or faults.  A fault is
    what would be a crash or a hang in C: a failed assertion, a null or dangling pointer, an
    access out of bounds, a corrupted list, a division by zero, an oversized shift, [exit], a
    list walk that does not end, and fuel that ran out.  [wp] is total correctness; [wpe E]
    is correctness up to the faults of [E]; [stable] says that code keeps an invariant and a
    relation, and its tactics ([stab], [descend]) follow the structure of the code.

    A pointer is an address, 0 is [NULL]; objects that are shared by pointer (streams, send
    buffers, fragments, sockets, listeners, epolls, pipes) are finite maps in the state, so
    aliasing is visible and freeing an object removes it: using it afterwards is the fault
    [DanglingPointer].  Intrusive [TAILQ] lists are lists of addresses, with the flag in the
    object that says whether it is on the list; removing an object from a list it is not on
    is the fault [CorruptList].  Frames that were written are kept in [tx].

    What is not code of the stack is the class [Platform] of [Mtcp.v]: whether the device has
    a transmit buffer, the answers of [dev_ioctl], the addresses and the contents of fresh
    memory, random numbers.  Each is a function of the number of calls made so far, so that
    nothing is assumed about it; the theorems hold for every platform, their witnesses for a
    concrete one.  The time and the frames of a round are arguments of the round.

    The configuration of the build is the one of the sources: DPDK as the only packet
    library, timestamps on, selective acknowledgements, blocking sockets and large receive
    offload off, the pool of [memory_mgt.c].  The makefile switches assertions off; the model
    keeps them as faults, so that a theorem which excludes [AssertFail] says that the condition
    holds, with assertions or without.

    ** Components

    - [SeqArith] ([include/tcp_in.h]): comparison of sequence numbers.
    - [Bytes]: byte order of headers.
    - [Rss] ([rss.c]): the Toeplitz hash and the choice of a core.
    - [Queues] ([tcp_stream_queue.c], [tcp_sb_queue.c], [tcp_rb_frag_queue.c]): bounded queues;
      module [Spsc] has the operations as steps of a producer and a consumer that interleave.
    - [MemPool] ([memory_mgt.c]): chunks.  The classes [ChunkPool] and [BoundedFifo] say what a
      pool and a queue promise to the buffers that use them.
    - [SendBuffer] ([tcp_send_buffer.c]), [Intervals], [RingBuffer], [Reassembly]
      ([tcp_ring_buffer.c]): the two buffers of a connection.
    - [AddrPool] ([addr_pool.c]): local addresses for connections that are opened.
    - [Mtcp] (the headers): the state of a stack thread.
    - [TcpUtil] ([tcp_util.c], option code of [tcp_out.c]), [Output] ([eth_out.c], [arp.c],
      [ip_out.c], [ps.h]), [Events] and the epoll part of [Sockets] ([eventpoll.c]), [Fhash]
      ([fhash.c]), [Lists] (list code of [tcp_out.c] and [timer.c]), [TcpStream]
      ([tcp_stream.c]), [TcpOut] ([tcp_out.c]), [Timer] ([timer.c]), [TcpIn] ([tcp_in.c]),
      [NetIn] ([eth_in.c], [ip_in.c], [icmp.c]), [Sockets] ([socket.c], [pipe.c]), [Core]
      ([core.c]), [Api] ([api.c]).
    - [CString]: strings and numbers of the C library, as far as the parsers use them.
    - [Config] ([config.c], the DPDK branch of [io_module.c], [mtcp_init] and [mtcp_setconf] of
      [core.c]): from the text of the configuration files to the tables of the stack.  The
      answers of the operating system are an argument ([host]).
    - [Threads] (the rest of [core.c]): the global variables and the threads of a process.
      Functions that wait are split there; the parts interleave.
    - [Logger] ([logger.c], [debug.c]): the log thread and the thread that prints, whose steps
      end where a mutex is released.  The pipe between them is unbounded, and the number and
      size of the buffers are a parameter with the numbers of the code as an instance.
    - [Dpdk] ([dpdk_module.c]): the tables of packets to send and of received packets.  The
      card is an environment that answers and takes what it likes.
    - [Dates], [Http], [AppBuffer] ([src/util]): dates, headers and buffers of the applications.

    Definitions carry the names of the C functions.  A long function is cut into pieces with
    names of their own, in the order of the source.  The result of a call of the application
    is [Ret], [Errno] or [Block]; a call that waits on a condition variable answers [Block],
    and the code that runs when it is woken is a definition of its own ([epoll_wake],
    [accept_wake], [connect_poll], [pipe_read_wait], ...).

    ** What is proved

    - Data structures, each from its creation on and for every sequence of calls: queues are
      linearizable bounded lists, pools hand out disjoint chunks, the send buffer is a window
      on the byte stream, the receive buffer delivers a prefix of the peer's stream whatever
      the order of the segments, address pools lease each address once and only addresses of
      their core, pipes are byte queues, event queues deliver each raised event once and in
      order.
    - Formats: options and timestamps survive generation and parsing, checksums verify, the
      optimised hash is the Toeplitz hash.
    - Memory safety of the stack.  [StackInv] defines the invariant: every stream is on
      exactly the lists its flags say, once on each, the counters are right, the flow table
      holds the live streams under their hash, streams lie on allocated chunks.  [Frame],
      [ListOps], [Benign], [StreamLife], [OutSafe], [TimerSafe], [InSafe], [NetSafe], [CoreSafe]
      and [ApiSafe] show that the list operations, creation and destruction, output, timers,
      segment input, any received frame, the main loop and the calls of the application keep
      it and never corrupt a list, follow a pointer to a freed stream or walk a list for
      ever.  [Stack] has these statements per part, [System] for every history of rounds and
      calls that starts with the creation of the manager.
    - Protocol.  [StateMachine] and [Connections]: a segment changes the stream of its own
      connection only, and moves its state along a table of transitions.  [Flush]: what a
      flush of the send buffer puts on the wire, and that it respects both windows and the
      maximal segment size.  [Transfer]: the frames of a flush let the receive buffer of a
      peer deliver a prefix of what the send buffer holds.
    - Types.  [Widths]: in every history each number stays in the range of its C type, which
      is what makes the unbounded integers of the model those of the code.
    - Start and end.  [ConfigSafe]: whatever the files say, [mtcp_init] ends, and a
      configuration that it accepts is one from which the stack can be created and run.
      [Routes]: a route that is printed is read back, and packets leave by the interface that
      the routes name.  [ThreadsSafe]: no history of creations, signals and ends of threads
      follows a null pointer or a freed context, signals end the threads, and a thread gives
      back all it had.
    - Logs and packets.  [Logger]: the file is what was printed, in order, unless a buffer was
      dropped, and is complete when the log thread ends.  [DpdkSafe]: every packet buffer has
      one owner at any time, and packets are sent in order, each once.
    - Applications.  [DatesOk]: dates are read back as they were printed, up to a wrong test for
      leap years.  [Http]: the end of a header and the value of a field.  [AppBuffer]: relays
      neither lose nor reorder bytes.
    - Errors of the code, as theorems about inputs that show them: a TCP option that hangs the
      parser, a fragment that is put into the pool although it came from [calloc], a stream
      that is destroyed by a timer between [mtcp_close] and the next round,
      [mtcp_epoll_queue_wait], which drops what it waits for, a thread without a device, whose
      creator waits for ever, a log buffer and packet buffers that are lost, and others.

    Safety theorems about the whole stack exclude the faults that matter for memory (a
    corrupted list, a dangling pointer, an endless walk over streams or sockets: [benign] is
    the complement).  The other faults are possible in the code, for instance when no route
    leads to a peer ([assert]), when the peer sends no MSS option (a division by zero), when
    an IP length exceeds the frame, or when an option parser or a flush does not end; these
    theorems say nothing about such a run.  The conditions on a round and on a call ([enabled]) cannot be dropped:
    [close_races_timeout] violates the first.

    ** Fuel

    Two faults tell loops apart.  [EndlessLoop] is a walk that visits more than it should: a
    list of streams has as much fuel as elements, draining a queue as many as it holds, the
    timer wheel the ticks between its clock and the present, the search for a free socket the
    number of free sockets, waiting for events two passes, because a pass that delivers
    nothing has emptied the queues.  The safety theorems exclude it; for the search for a
    socket under the condition [allocatable], without which the code really spins.

    [OutOfFuel] is the fault of the other loops, and theorems of their own say when the fuel
    is enough: the fragments of a receive buffer ([Reassembly]); the bytes of a send buffer
    that is flushed, enough because every segment carries data, which needs a maximal segment
    size above the length of the options ([Flush]; the code loops without it); the length of
    the options for the parser, enough unless an unknown option is shorter than two bytes
    (both directions are in [TcpUtil]).  Sending the queued acknowledgements has their number
    as fuel, of which each round takes one off; that it suffices is not stated as a theorem.

    The parsers of configuration, dates and headers recurse on the text; the binary search for
    a name has the length of its table as fuel, which [DatesOk] shows to be enough.  The loop
    that sends packets has the answers of the card as fuel: it ends with the answer that
    accepts the last packet, and for ever repeats without one.  The log thread is a relation
    of steps; [Logger] gives a measure for its end.

    ** Not modelled

    - [cpu.c] (pinning of threads), [libos_api.c] (wrappers for another run-time system), the
      functions of [debug.c] that only format packets, and everything that only prints.
    - [dpdk_load_module] and [check_all_ports_link_status], which program the card by calls of
      DPDK, and the statistics that the drivers collect.
    - [netmap_module.c], [onvm_module.c], [psio_module.c] and the branches of [io_module.c] for
      them: drivers of other packet libraries, compiled out.  [src/io_engine] is a kernel
      driver; only the header checksum of [ps.h] is code of the stack.
    - Interleavings inside a call: the code between two waits is one step.  Only the queues
      between application and stack, the logger and the threads are modelled as steps of
      several threads.
    - Code that is compiled out, and functions that only free memory at the end of the program.
    - The sockets and options of [src/util/netlib.c] beyond parsing, [src/util/cpu.c],
      [src/util/rss.c] (a copy of the hash of the stack) and [src/apps]: example programs. *)

From Stdlib Require Export ZArith Lia.
From stdpp Require Export base gmap list numbers option.

(** ** Record update

    The C code mutates the fields of large structures one at a time.  A record
    type declares its eta-expansion once ([Settable]); the setter of each field is
    then computed from it, and [r <| f := v |>] is the record [r] with field [f]
    replaced. *)

Class Settable (R : Type) := eta_record : R -> R.

Class Setter {R T : Type} (proj : R -> T) := upd : (T -> T) -> R -> R.
#[global] Arguments upd {R T} proj {_} f r : assert.

Ltac solve_setter :=
  match goal with
  | |- @Setter ?R ?T ?p =>
      let i := constr:(_ : Settable R) in
      let e := eval hnf in i in
      let e' := eval pattern p in e in
      match e' with
      | ?g _ =>
          let t := eval cbv beta in (fun (f : T -> T) => g (fun r => f (p r))) in
          exact t
      end
  end.

#[export] Hint Extern 1 (Setter _) => solve_setter : typeclass_instances.

Declare Scope mtcp_scope.
Delimit Scope mtcp_scope with mtcp.
Open Scope mtcp_scope.
Open Scope Z_scope.

Notation "r <| f := v |>" := (upd f (fun _ => v) r)
  (at level 1, left associativity, f at level 99, v at level 200) : mtcp_scope.
Notation "r <| f ::= g |>" := (upd f g r)
  (at level 1, left associativity, f at level 99, g at level 200) : mtcp_scope.
Notation "f ↦ v" := (upd f (fun _ => v)) (at level 60, v at level 59) : mtcp_scope.

(** ** Machine integers

    An integer of width [w] is a [Z]; every C operation that can leave the range of
    its type is followed by the conversion of that type. *)

Definition u8 (z : Z) : Z := z mod 256.
Definition u16 (z : Z) : Z := z mod 65536.
Definition u32 (z : Z) : Z := z mod 4294967296.
Definition u64 (z : Z) : Z := z mod 18446744073709551616.
Definition i32 (z : Z) : Z := (z + 2147483648) mod 4294967296 - 2147483648.

(** A value is representable in its type. *)
Definition is_u8 (z : Z) : Prop := 0 <= z < 256.
Definition is_u16 (z : Z) : Prop := 0 <= z < 65536.
Definition is_u32 (z : Z) : Prop := 0 <= z < 4294967296.

Create HintDb mtcp.
Create Rewrite HintDb mtcp.

(** [mlia] is [lia] after the machine-integer conversions are unfolded and their
    [mod] is replaced by its defining equations. *)
Ltac mlia :=
  unfold u8, u16, u32, u64, i32, is_u8, is_u16, is_u32 in *;
  Z.div_mod_to_equations; lia.

Lemma u32_range z : is_u32 (u32 z).
Proof. mlia. Qed.

Lemma u32_small z : is_u32 z -> u32 z = z.
Proof. intros. unfold u32. apply Z.mod_small. done. Qed.

Lemma i32_small z : -2147483648 <= z < 2147483648 -> i32 z = z.
Proof. intros. mlia. Qed.

Lemma u32_u32 z : u32 (u32 z) = u32 z.
Proof. apply u32_small, u32_range. Qed.

Lemma u32_add_l a b : u32 (u32 a + b) = u32 (a + b).
Proof. unfold u32. apply Zplus_mod_idemp_l. Qed.

Lemma u32_add_r a b : u32 (a + u32 b) = u32 (a + b).
Proof. unfold u32. apply Zplus_mod_idemp_r. Qed.

Lemma u32_sub_l a b : u32 (u32 a - b) = u32 (a - b).
Proof. unfold u32. apply Zminus_mod_idemp_l. Qed.

Lemma u32_sub_r a b : u32 (a - u32 b) = u32 (a - b).
Proof. unfold u32. apply Zminus_mod_idemp_r. Qed.

Lemma i32_u32 z : i32 (u32 z) = i32 z.
Proof. mlia. Qed.

#[export] Hint Rewrite u32_u32 u32_add_l u32_add_r u32_sub_l u32_sub_r : mtcp.
#[export] Hint Resolve u32_range : mtcp.

(** ** Byte memory

    A block of memory is the list of its bytes.  A copy that would leave the block
    is undefined behaviour in C; it has no result here. *)

Definition zlen {A} (l : list A) : Z := Z.of_nat (length l).

Definition mem_read {A} (m : list A) (off len : Z) : option (list A) :=
  if (0 <=? off) && (0 <=? len) && (off + len <=? zlen m)
  then Some (take (Z.to_nat len) (drop (Z.to_nat off) m))
  else None.

Definition mem_write {A} (m : list A) (off : Z) (src : list A) : option (list A) :=
  if (0 <=? off) && (off + zlen src <=? zlen m)
  then Some (take (Z.to_nat off) m ++ src ++ drop (Z.to_nat off + length src) m)
  else None.

Lemma zlen_app {A} (l k : list A) : zlen (l ++ k) = zlen l + zlen k.
Proof. unfold zlen. rewrite length_app. lia. Qed.

Lemma zlen_cons {A} (x : A) l : zlen (x :: l) = 1 + zlen l.
Proof. unfold zlen. cbn. lia. Qed.

Lemma zlen_nonneg {A} (l : list A) : 0 <= zlen l.
Proof. unfold zlen. lia. Qed.

Lemma mem_read_ok {A} (m : list A) off len :
  0 <= off -> 0 <= len -> off + len <= zlen m ->
  mem_read m off len = Some (take (Z.to_nat len) (drop (Z.to_nat off) m)).
Proof.
  intros. unfold mem_read.
  by rewrite !(proj2 (Z.leb_le _ _)) by done.
Qed.

Lemma mem_read_length {A} (m : list A) off len r :
  mem_read m off len = Some r -> zlen r = len.
Proof.
  unfold mem_read, zlen. destruct (_ && _) eqn:E; [|done].
  rewrite !andb_true_iff, !Z.leb_le in E. intros [= <-].
  rewrite length_take, length_drop. lia.
Qed.

Lemma mem_write_ok {A} (m : list A) off src :
  0 <= off -> off + zlen src <= zlen m ->
  mem_write m off src =
    Some (take (Z.to_nat off) m ++ src ++ drop (Z.to_nat off + length src) m).
Proof.
  intros. unfold mem_write. by rewrite !(proj2 (Z.leb_le _ _)) by done.
Qed.

Lemma mem_write_bounds {A} (m : list A) off src m' :
  mem_write m off src = Some m' -> 0 <= off /\ off + zlen src <= zlen m.
Proof.
  unfold mem_write. destruct (_ && _) eqn:E; [|done].
  rewrite !andb_true_iff, !Z.leb_le in E. done.
Qed.

Lemma mem_write_length {A} (m : list A) off src m' :
  mem_write m off src = Some m' -> length m' = length m.
Proof.
  intros H. pose proof (mem_write_bounds _ _ _ _ H) as [? Hb].
  rewrite mem_write_ok in H by done. injection H as <-.
  unfold zlen in *. rewrite !length_app, length_take, length_drop. lia.
Qed.

(** The contents after a copy: the source inside the copied range, the old contents
    outside it. *)
Lemma mem_write_lookup {A} (m : list A) off src m' (i : nat) :
  mem_write m off src = Some m' ->
  m' !! i = if bool_decide (off <= Z.of_nat i < off + zlen src)
            then src !! (i - Z.to_nat off)%nat else m !! i.
Proof.
  intros H. pose proof (mem_write_bounds _ _ _ _ H) as [? Hb].
  rewrite mem_write_ok in H by done. injection H as <-.
  unfold zlen in *. case_bool_decide as Hi.
  - rewrite lookup_app_r by (rewrite length_take; lia).
    rewrite lookup_app_l by (rewrite length_take; lia).
    f_equal. rewrite length_take. lia.
  - destruct (decide (Z.of_nat i < off)).
    + rewrite lookup_app_l by (rewrite length_take; lia).
      rewrite lookup_take_lt by lia. done.
    + rewrite !lookup_app_r by (rewrite ?length_take; lia).
      rewrite length_take, lookup_drop. f_equal. lia.
Qed.

Lemma mem_read_lookup {A} (m : list A) off len r (i : nat) :
  mem_read m off len = Some r -> Z.of_nat i < len ->
  r !! i = m !! (Z.to_nat off + i)%nat.
Proof.
  unfold mem_read. destruct (_ && _) eqn:E; [|done].
  intros [= <-] ?. rewrite lookup_take_lt by lia. by rewrite lookup_drop.
Qed.

(** ** Places

    [recount] proves that a list is a permutation of another from the same of lists with the
    same parts in another order: an object that moves from one place to another. *)
Ltac recount :=
  rewrite !(Permutation_count_occ Z.eq_dec);
  let Hx := fresh in let z := fresh in intros Hx z; specialize (Hx z); revert Hx;
  rewrite ?count_occ_app; cbn [count_occ app]; rewrite ?count_occ_app; cbn [count_occ app]; rewrite ?count_occ_app;
  repeat match goal with |- context [Z.eq_dec ?a ?b] => destruct (Z.eq_dec a b) end; lia.

(** ** Tail queues

    The intrusive [TAILQ] lists of the source are lists of the addresses of their
    elements.  Removing an element that is not on the list corrupts the list in C;
    it has no result here. *)

Fixpoint TAILQ_REMOVE (l : list Z) (x : Z) : option (list Z) :=
  match l with
  | [] => None
  | y :: k => if y =? x then Some k else cons y <$> TAILQ_REMOVE k x
  end.

Definition TAILQ_INSERT_TAIL (l : list Z) (x : Z) : list Z := l ++ [x].
Definition TAILQ_INSERT_HEAD (l : list Z) (x : Z) : list Z := x :: l.

(** The element behind [a], [None] at the end of the list. *)
Fixpoint TAILQ_NEXT (l : list Z) (a : Z) : option Z :=
  match l with
  | [] => None
  | b :: l' => if b =? a then hd_error l' else TAILQ_NEXT l' a
  end.

Lemma TAILQ_REMOVE_split l k x :
  TAILQ_REMOVE l x = Some k -> exists l1 l2, l = l1 ++ x :: l2 /\ k = l1 ++ l2 /\ x ∉ l1.
Proof.
  revert k. induction l as [|y l IH]; intros k; cbn; [done|].
  destruct (Z.eqb_spec y x) as [->|Hne].
  - intros [= <-]. exists [], l. repeat split; try done. apply not_elem_of_nil.
  - intros (k' & Hk & ->)%fmap_Some. destruct (IH _ Hk) as (l1 & l2 & -> & -> & ?).
    exists (y :: l1), l2. split_and!; try done. rewrite not_elem_of_cons. split; congruence.
Qed.

Lemma TAILQ_REMOVE_elem l x : x ∈ l -> exists k, TAILQ_REMOVE l x = Some k.
Proof.
  induction l as [|y l IH]; [by intros ?%elem_of_nil|].
  cbn. intros H. destruct (Z.eqb_spec y x); [eauto|].
  apply elem_of_cons in H as [->|H]; [done|].
  destruct (IH H) as [k ->]. eauto.
Qed.

Lemma TAILQ_REMOVE_perm l k x : TAILQ_REMOVE l x = Some k -> l ≡ₚ x :: k.
Proof.
  intros (l1 & l2 & -> & -> & _)%TAILQ_REMOVE_split. by rewrite Permutation_middle.
Qed.

Lemma TAILQ_REMOVE_length l k x :
  TAILQ_REMOVE l x = Some k -> length l = S (length k).
Proof. by intros ->%TAILQ_REMOVE_perm. Qed.

Lemma TAILQ_REMOVE_NoDup l k x :
  TAILQ_REMOVE l x = Some k -> NoDup l ->
  NoDup k /\ forall y, y ∈ k <-> y ∈ l /\ y <> x.
Proof.
  intros Hp%TAILQ_REMOVE_perm Hnd. rewrite Hp in Hnd.
  apply list.NoDup_cons in Hnd as [Hx Hk]. split; [done|].
  intros y. rewrite Hp, elem_of_cons. naive_solver.
Qed.

(** The elements of [l] other than [a]. *)
Definition strip (a : Z) (l : list Z) : list Z := filter (fun b => b <> a) l.

Lemma strip_app a l k : strip a (l ++ k) = strip a l ++ strip a k.
Proof. apply list.filter_app. Qed.

Lemma strip_same a k : strip a (a :: k) = strip a k.
Proof. unfold strip. by rewrite list.filter_cons_False by naive_solver. Qed.

Lemma strip_notin a l : a ∉ l -> strip a l = l.
Proof.
  intros Ha. unfold strip. induction l as [|b l IH]; [done|]. rewrite list.filter_cons_True by set_solver.
  f_equal. apply IH. set_solver.
Qed.

Lemma strip_insert_tail a l : strip a (TAILQ_INSERT_TAIL l a) = strip a l.
Proof. unfold TAILQ_INSERT_TAIL. rewrite strip_app, strip_same. apply app_nil_r. Qed.

Lemma strip_insert_head a l : strip a (TAILQ_INSERT_HEAD l a) = strip a l.
Proof. apply strip_same. Qed.

Lemma strip_remove a l k : TAILQ_REMOVE l a = Some k -> strip a k = strip a l.
Proof. intros (l1 & l2 & -> & -> & _)%TAILQ_REMOVE_split. by rewrite !strip_app, strip_same. Qed.

(** *** Walking a list that changes

    [span l cur last n]: the walk is at [cur] and has at most [n] elements to visit, of
    which the last one is [last]; what lies behind it in [l] is not visited.
    [tail_from l cur n]: the walk is at [cur] and visits the rest of [l]. *)

Definition span (l : list Z) (cur last : option Z) (n : nat) : Prop :=
  exists p w e, l = p ++ w ++ e /\ hd_error w = cur /\ list.last w = last /\ (length w <= n)%nat.

Definition tail_from (l : list Z) (cur : option Z) (n : nat) : Prop :=
  exists p w, l = p ++ w /\ hd_error w = cur /\ (length w <= n)%nat.

Lemma TAILQ_NEXT_mid p a w : a ∉ p -> TAILQ_NEXT (p ++ a :: w) a = hd_error w.
Proof.
  induction p as [|b p IH]; cbn; intros Ha; [by rewrite Z.eqb_refl|].
  destruct (Z.eqb_spec b a); [set_solver|]. apply IH. set_solver.
Qed.

Lemma strip_mid p a w : NoDup (p ++ a :: w) -> a ∉ p /\ strip a (p ++ a :: w) = p ++ w.
Proof.
  intros (_ & Hd & [Ha _]%list.NoDup_cons)%list.NoDup_app.
  assert (Hp : a ∉ p) by (intros Hin; apply (Hd a Hin); set_solver).
  split; [done|]. by rewrite strip_app, strip_same, !strip_notin.
Qed.

Lemma TAILQ_REMOVE_strip l k a : NoDup l -> TAILQ_REMOVE l a = Some k -> k = strip a l.
Proof. intros Hn (p & w & -> & -> & Hp)%TAILQ_REMOVE_split. by rewrite (proj2 (strip_mid _ _ _ Hn)). Qed.

Lemma span_start l : span l (hd_error l) (list.last l) (length l).
Proof. exists [], l, []. by rewrite app_nil_r. Qed.

Lemma span_elem l a last n : span l (Some a) last n -> a ∈ l.
Proof. intros (p & [|b w] & e & -> & [= ->] & _). set_solver. Qed.

Lemma span_step l a last n : NoDup l -> span l (Some a) last n -> exists n', n = S n' /\
  (Some a <> last -> let next := TAILQ_NEXT l a in
   span l next last n' /\ span (strip a l) next last n' /\
   span (TAILQ_INSERT_TAIL (strip a l) a) next last n').
Proof.
  intros Hn (p & [|b w] & e & -> & Hb & Hl & Hle); [done|]. injection Hb as ->.
  destruct n as [|n']; cbn in Hle; [lia|]. exists n'. split; [done|]. intros Hne. cbn [app] in Hn |- *.
  destruct (strip_mid _ _ _ Hn) as [Hp ->]. rewrite TAILQ_NEXT_mid by done.
  destruct w as [|c w]; [by destruct Hne|]. cbn in Hl, Hle. cbn [app hd_error]. unfold TAILQ_INSERT_TAIL.
  split; [|split].
  - exists (p ++ [a]), (c :: w), e. rewrite <- app_assoc. repeat split; [done|cbn; lia].
  - exists p, (c :: w), e. repeat split; [done|cbn; lia].
  - exists p, (c :: w), (e ++ [a]). repeat split; [|done|cbn; lia]. rewrite <- app_assoc; cbn; by rewrite <- app_assoc.
Qed.

Lemma tail_start l : tail_from l (hd_error l) (length l).
Proof. by exists [], l. Qed.

Lemma tail_elem l a n : tail_from l (Some a) n -> a ∈ l.
Proof. intros (p & [|b w] & -> & [= ->] & _). set_solver. Qed.

Lemma tail_step l a n : NoDup l -> tail_from l (Some a) n -> exists n', n = S n' /\
  tail_from l (TAILQ_NEXT l a) n' /\ tail_from (strip a l) (TAILQ_NEXT l a) n'.
Proof.
  intros Hn (p & [|b w] & -> & Hb & Hle); [done|]. injection Hb as ->.
  destruct n as [|n']; cbn in Hle; [lia|]. exists n'. split; [done|].
  destruct (strip_mid _ _ _ Hn) as [Hp ->]. rewrite TAILQ_NEXT_mid by done. split.
  - exists (p ++ [a]), w. rewrite <- app_assoc. repeat split. lia.
  - exists p, w. repeat split. lia.
Qed.

(** ** Stateful code that can fault

    A C function that reads and writes the shared state is a function of the state.
    It either returns a value with the new state or faults: a failed [assert], a null
    pointer, a pointer to an object that was freed, a memory or list operation outside
    its block, a division by zero, a shift by the width of its operand or more, a call to
    [exit], a loop over a list or over the ticks of a clock that outlives its bound
    ([EndlessLoop]), or another loop whose fuel ran out. *)

Inductive fault : Set :=
| AssertFail
| NullPointer
| DanglingPointer
| FreedListener
| OutOfBounds
| CorruptList
| DivByZero
| BadShift
| ProcessExit
| EndlessLoop
| OutOfFuel.

Inductive outcome (S A : Type) : Type :=
| Ok (a : A) (s : S)
| Fault (e : fault).
#[global] Arguments Ok {S A} a s.
#[global] Arguments Fault {S A} e.

Definition M (S A : Type) : Type := S -> outcome S A.

#[export] Instance M_ret S : MRet (M S) := fun A a s => Ok a s.
#[export] Instance M_bind S : MBind (M S) := fun A B k m s =>
  match m s with
  | Ok a s' => k a s'
  | Fault e => Fault e
  end.

Section Monad.
Context {S : Type}.

Definition get : M S S := fun s => Ok s s.
Definition put (s : S) : M S unit := fun _ => Ok tt s.
Definition modify (f : S -> S) : M S unit := fun s => Ok tt (f s).
Definition throw {A} (e : fault) : M S A := fun _ => Fault e.
Definition assertM (b : bool) : M S unit := if b then mret tt else throw AssertFail.
Definition whenM (b : bool) (m : M S unit) : M S unit := if b then m else mret tt.
Definition unwrap {A} (e : fault) (o : option A) : M S A :=
  match o with Some a => mret a | None => throw e end.

(** Running code of a component on the field of the state that holds the component. *)
Definition zoom {T A} (proj : S -> T) `{!Setter proj} (m : M T A) : M S A := fun s =>
  match m (proj s) with
  | Ok a t => Ok a (upd proj (fun _ => t) s)
  | Fault e => Fault e
  end.

(** [wp m Q s]: run from [s], [m] returns without a fault, and its result and final
    state satisfy [Q]. *)
Definition wp {A} (m : M S A) (Q : A -> S -> Prop) (s : S) : Prop :=
  match m s with
  | Ok a s' => Q a s'
  | Fault _ => False
  end.

Lemma wp_ret {A} (a : A) Q s : wp (mret a) Q s <-> Q a s.
Proof. done. Qed.

Lemma wp_bind {A B} (m : M S A) (k : A -> M S B) Q s :
  wp (mbind k m) Q s <-> wp m (fun a => wp (k a) Q) s.
Proof. unfold wp, mbind, M_bind. by destruct (m s). Qed.

Lemma wp_get Q s : wp get Q s <-> Q s s.
Proof. done. Qed.

Lemma wp_put s' Q s : wp (put s') Q s <-> Q tt s'.
Proof. done. Qed.

Lemma wp_modify f Q s : wp (modify f) Q s <-> Q tt (f s).
Proof. done. Qed.

Lemma wp_when b m Q s :
  wp (whenM b m) Q s <-> (b = true -> wp m Q s) /\ (b = false -> Q tt s).
Proof. destruct b; cbn; naive_solver. Qed.

Lemma wp_assert b Q s : wp (assertM b) Q s <-> b = true /\ Q tt s.
Proof. destruct b; cbn; naive_solver. Qed.

Lemma wp_unwrap {A} e (o : option A) Q s :
  wp (unwrap e o) Q s <-> exists a, o = Some a /\ Q a s.
Proof. destruct o; cbn; naive_solver. Qed.

Lemma wp_mono {A} (m : M S A) (P Q : A -> S -> Prop) s :
  wp m P s -> (forall a s', P a s' -> Q a s') -> wp m Q s.
Proof. unfold wp. destruct (m s); naive_solver. Qed.

Lemma wp_elim {A} (m : M S A) Q s :
  wp m Q s -> exists a s', m s = Ok a s' /\ Q a s'.
Proof. unfold wp. destruct (m s); naive_solver. Qed.

End Monad.

(** ** Code that keeps an invariant

    [wpe E m Q s]: run from [s], [m] either returns with a result and a state that satisfy
    [Q], or faults with a fault in [E].  [stable E I R m]: from every state that satisfies
    [I], [m] returns to such a state, related to the first by [R], or faults in [E]. *)

Definition wpe {S A} (E : fault -> Prop) (m : M S A) (Q : A -> S -> Prop) (s : S) : Prop :=
  match m s with
  | Ok a s' => Q a s'
  | Fault e => E e
  end.

Definition stable {S A} (E : fault -> Prop) (I : S -> Prop) (R : S -> S -> Prop) (m : M S A) : Prop :=
  forall s, I s -> wpe E m (fun _ s' => I s' /\ R s s') s.

Section Stable.
Context {S : Type} (E : fault -> Prop).

Lemma wpe_ret {A} (a : A) Q (s : S) : wpe E (mret a) Q s <-> Q a s.
Proof. done. Qed.

Lemma wpe_bind {A B} (m : M S A) (k : A -> M S B) Q s :
  wpe E (mbind k m) Q s <-> wpe E m (fun a => wpe E (k a) Q) s.
Proof. unfold wpe, mbind, M_bind. by destruct (m s). Qed.

Lemma wpe_get Q (s : S) : wpe E get Q s <-> Q s s.
Proof. done. Qed.

Lemma wpe_put s' Q (s : S) : wpe E (put s') Q s <-> Q tt s'.
Proof. done. Qed.

Lemma wpe_modify f Q (s : S) : wpe E (modify f) Q s <-> Q tt (f s).
Proof. done. Qed.

Lemma wpe_throw {A} e (Q : A -> S -> Prop) s : wpe E (throw e) Q s <-> E e.
Proof. done. Qed.

Lemma wpe_assert b Q (s : S) : wpe E (assertM b) Q s <-> if b then Q tt s else E AssertFail.
Proof. by destruct b. Qed.

Lemma wpe_when b m Q (s : S) : wpe E (whenM b m) Q s <-> if b then wpe E m Q s else Q tt s.
Proof. by destruct b. Qed.

Lemma wpe_unwrap {A} e (o : option A) Q (s : S) :
  wpe E (unwrap e o) Q s <-> match o with Some a => Q a s | None => E e end.
Proof. by destruct o. Qed.

Lemma wpe_mono {A} (m : M S A) (P Q : A -> S -> Prop) s :
  wpe E m P s -> (forall a s', P a s' -> Q a s') -> wpe E m Q s.
Proof. unfold wpe. destruct (m s); auto. Qed.

Context (I : S -> Prop) (R : S -> S -> Prop) `{!PreOrder R}.

Lemma stable_ret {A} (a : A) : stable E I R (mret a).
Proof. intros s Hs. split; [done|reflexivity]. Qed.

Lemma stable_get : stable E I R get.
Proof. intros s Hs. split; [done|reflexivity]. Qed.

Lemma stable_bind {A B} (m : M S A) (k : A -> M S B) :
  stable E I R m -> (forall a, stable E I R (k a)) -> stable E I R (mbind k m).
Proof.
  intros Hm Hk s Hs. rewrite wpe_bind. eapply wpe_mono; [by apply Hm|].
  intros a s1 [H1 R1]. eapply wpe_mono; [by apply Hk|]. intros b s2 [H2 R2].
  split; [done|by etransitivity].
Qed.

Lemma stable_throw {A} e : E e -> stable E I R (throw (A := A) e).
Proof. by intros He s Hs. Qed.

Lemma stable_assert b : E AssertFail -> stable E I R (assertM b).
Proof. destruct b; [intros _; apply stable_ret|apply stable_throw]. Qed.

Lemma stable_when b m : stable E I R m -> stable E I R (whenM b m).
Proof. destruct b; [done|intros _; apply stable_ret]. Qed.

Lemma stable_unwrap {A} e (o : option A) : E e -> stable E I R (unwrap e o).
Proof. destruct o; [intros _; apply stable_ret|apply stable_throw]. Qed.

Lemma stable_modify f : (forall s, I s -> I (f s) /\ R s (f s)) -> stable E I R (modify f).
Proof. intros Hf s Hs. by apply Hf. Qed.

End Stable.

Lemma stable_zoom {S T A} E (I : S -> Prop) R (J : T -> Prop) (Q : T -> T -> Prop)
    (proj : S -> T) `{!Setter proj} (m : M T A) :
  stable E J Q m -> (forall s, I s -> J (proj s)) ->
  (forall s t, I s -> J t -> Q (proj s) t -> I (upd proj (fun _ => t) s) /\ R s (upd proj (fun _ => t) s)) ->
  stable E I R (zoom proj m).
Proof.
  intros Hm HJ HR s Hs. specialize (Hm (proj s) (HJ s Hs)). unfold wpe, zoom in *.
  destruct (m (proj s)) as [a t|e]; [|done]. destruct Hm. by apply HR.
Qed.

Lemma wp_zoom {S T A} (proj : S -> T) `{!Setter proj} (m : M T A) Q s :
  wp (zoom proj m) Q s <-> wp m (fun a t => Q a (upd proj (fun _ => t) s)) (proj s).
Proof. unfold wp, zoom. by destruct (m (proj s)). Qed.

Lemma wpe_zoom {S T A} E (proj : S -> T) `{!Setter proj} (m : M T A) Q s :
  wpe E (zoom proj m) Q s <-> wpe E m (fun a t => Q a (upd proj (fun _ => t) s)) (proj s).
Proof. unfold wpe, zoom. by destruct (m (proj s)). Qed.

Lemma wpe_of_wp {S A} E (m : M S A) Q s : wp m Q s -> wpe E m Q s.
Proof. unfold wp, wpe. by destruct (m s). Qed.

(** A relation that says nothing, for code of which only the faults matter. *)
Definition top_rel {S} (_ _ : S) : Prop := True.

#[export] Instance top_rel_preorder {S} : PreOrder (@top_rel S).
Proof. by split. Qed.

Notation only E m := (stable E (fun _ => True) top_rel m).

(** [stab] decomposes a [stable] goal along the structure of the code; the leaves it does
    not know are found in the hint database [stab] or left to the user. *)
Create HintDb stab.

Ltac stab_step :=
  match goal with
  | |- stable _ _ _ (mbind _ _) => apply stable_bind; [typeclasses eauto| |intros ?]
  | |- stable _ _ _ (mret _) => apply stable_ret; typeclasses eauto
  | |- stable _ _ _ get => apply stable_get; typeclasses eauto
  | |- stable _ _ _ (throw _) => apply stable_throw; try solve [eauto with stab]
  | |- stable _ _ _ (assertM _) => apply stable_assert; [typeclasses eauto|try solve [eauto with stab]]
  | |- stable _ _ _ (whenM _ _) => apply stable_when; [typeclasses eauto|]
  | |- stable _ _ _ (unwrap _ _) => apply stable_unwrap; [typeclasses eauto|try solve [eauto with stab]]
  | |- stable _ _ _ (let _ := _ in _) => cbv zeta
  | |- stable _ _ _ (if ?b then _ else _) => destruct b eqn:?
  | |- stable _ _ _ (match ?x with _ => _ end) => destruct x eqn:?
  | |- stable _ _ _ _ => progress eauto 6 with stab
  end.

Ltac stab := repeat stab_step.

(** [descend] is one step of the same decomposition, unfolding what the code calls: [pre] is
    tried before the structure of the code, [leaf] on what has none, [fault] on the faults. *)
Ltac code_head f := match f with ?g _ => code_head g | _ => f end.

Ltac descend pre leaf fault :=
  match goal with
  | |- stable _ _ _ _ => pre
  | |- stable _ _ _ (mbind _ _) => apply stable_bind; [typeclasses eauto| |intros ?]
  | |- stable _ _ _ (mret _) => apply stable_ret; typeclasses eauto
  | |- stable _ _ _ get => apply stable_get; typeclasses eauto
  | |- stable _ _ _ (throw _) => apply stable_throw; fault
  | |- stable _ _ _ (assertM _) => apply stable_assert; [typeclasses eauto|fault]
  | |- stable _ _ _ (whenM _ _) => apply stable_when; [typeclasses eauto|]
  | |- stable _ _ _ (unwrap _ _) => apply stable_unwrap; [typeclasses eauto|fault]
  | |- stable _ _ _ (let _ := _ in _) => cbv zeta
  | |- stable _ _ _ (if ?b then _ else _) => destruct b
  | |- stable _ _ _ (match ?x with _ => _ end) => destruct x
  | |- stable _ _ _ _ => leaf
  | |- stable _ _ _ ?f => let h := code_head f in progress unfold h
  end.
