(* ===== verification/SeqArith.v ===== *)
(** * Sequence-number arithmetic

    The comparison macros of [include/tcp_in.h] and the minimum and maximum of
    [tcp_ring_buffer.c].  Sequence numbers are 32-bit and wrap; the theorems say on
    which numbers the wrapped comparisons are a linear order. *)

From S2P Require Import Prelude.

(** ** Definitions *)

(** [#define TCP_SEQ_LT(a,b) ((int32_t)((a)-(b)) < 0)] and its companions. *)
Definition TCP_SEQ_LT (a b : Z) : bool := i32 (u32 (a - b)) <? 0.
Definition TCP_SEQ_LEQ (a b : Z) : bool := i32 (u32 (a - b)) <=? 0.
Definition TCP_SEQ_GT (a b : Z) : bool := 0 <? i32 (u32 (a - b)).
Definition TCP_SEQ_GEQ (a b : Z) : bool := 0 <=? i32 (u32 (a - b)).
Definition TCP_SEQ_BETWEEN (a b c : Z) : bool := TCP_SEQ_GEQ a b && TCP_SEQ_LEQ a c.

Definition MAXSEQ : Z := 4294967295.

Definition GetMinSeq (a b : Z) : Z :=
  if a =? b then a
  else if a <? b then (if u32 (b - a) <=? MAXSEQ / 2 then a else b)
  else (if u32 (a - b) <=? MAXSEQ / 2 then b else a).

Definition GetMaxSeq (a b : Z) : Z :=
  if a =? b then a
  else if a <? b then (if u32 (b - a) <=? MAXSEQ / 2 then b else a)
  else (if u32 (a - b) <=? MAXSEQ / 2 then a else b).

(** ** Lemmas *)

(** Two offsets closer than half the number space compare as integers. *)
Definition half_space : Z := 2147483648.

Lemma seq_lt_offset base x y :
  -half_space <= x - y < half_space ->
  TCP_SEQ_LT (u32 (base + x)) (u32 (base + y)) = (x <? y).
Proof.
  unfold TCP_SEQ_LT, half_space. intros H.
  autorewrite with mtcp. rewrite i32_u32. replace (base + x - (base + y)) with (x - y) by lia.
  rewrite i32_small by lia. apply eq_true_iff_eq. rewrite !Z.ltb_lt. lia.
Qed.

Lemma seq_leq_offset base x y :
  -half_space <= x - y < half_space ->
  TCP_SEQ_LEQ (u32 (base + x)) (u32 (base + y)) = (x <=? y).
Proof.
  unfold TCP_SEQ_LEQ, half_space. intros H.
  autorewrite with mtcp. rewrite i32_u32. replace (base + x - (base + y)) with (x - y) by lia.
  rewrite i32_small by lia. apply eq_true_iff_eq. rewrite !Z.leb_le. lia.
Qed.

Lemma seq_gt_lt a b : TCP_SEQ_GT a b = negb (TCP_SEQ_LEQ a b).
Proof. unfold TCP_SEQ_GT, TCP_SEQ_LEQ. apply Z.ltb_antisym. Qed.

Lemma seq_geq_lt a b : TCP_SEQ_GEQ a b = negb (TCP_SEQ_LT a b).
Proof. unfold TCP_SEQ_GEQ, TCP_SEQ_LT. apply Z.leb_antisym. Qed.

Lemma seq_leq_refl a : TCP_SEQ_LEQ a a = true.
Proof. unfold TCP_SEQ_LEQ. by rewrite Z.sub_diag. Qed.

Lemma GetMinSeq_offset base x y :
  -half_space < x - y < half_space ->
  GetMinSeq (u32 (base + x)) (u32 (base + y)) = u32 (base + Z.min x y).
Proof.
  unfold GetMinSeq, half_space, MAXSEQ. intros H.
  repeat case_match; rewrite ?Z.eqb_eq, ?Z.eqb_neq, ?Z.ltb_lt, ?Z.ltb_ge, ?Z.leb_le,
    ?Z.leb_gt in *; autorewrite with mtcp in *;
  destruct (Z.min_spec x y) as [[? ->]|[? ->]]; mlia.
Qed.

Lemma GetMaxSeq_offset base x y :
  -half_space < x - y < half_space ->
  GetMaxSeq (u32 (base + x)) (u32 (base + y)) = u32 (base + Z.max x y).
Proof.
  unfold GetMaxSeq, half_space, MAXSEQ. intros H.
  repeat case_match; rewrite ?Z.eqb_eq, ?Z.eqb_neq, ?Z.ltb_lt, ?Z.ltb_ge, ?Z.leb_le,
    ?Z.leb_gt in *; autorewrite with mtcp in *;
  destruct (Z.max_spec x y) as [[? ->]|[? ->]]; mlia.
Qed.

(** Equal numbers on one window have equal offsets. *)
Lemma u32_offset_inj base x y :
  -4294967296 < x - y < 4294967296 -> u32 (base + x) = u32 (base + y) -> x = y.
Proof. intros. mlia. Qed.

(** ** Properties *)

(** on any window of the sequence space no wider than half of it, the
    wrapped comparison of two numbers of the window is the comparison of their
    offsets, whatever the position of the window. *)
Theorem seq_order_window (base x y : Z) :
  0 <= x < half_space -> 0 <= y < half_space ->
  TCP_SEQ_LT (u32 (base + x)) (u32 (base + y)) = (x <? y) /\
  TCP_SEQ_LEQ (u32 (base + x)) (u32 (base + y)) = (x <=? y) /\
  GetMinSeq (u32 (base + x)) (u32 (base + y)) = u32 (base + Z.min x y) /\
  GetMaxSeq (u32 (base + x)) (u32 (base + y)) = u32 (base + Z.max x y).
Proof.
  intros. split_and!.
  - apply seq_lt_offset. lia.
  - apply seq_leq_offset. lia.
  - apply GetMinSeq_offset. lia.
  - apply GetMaxSeq_offset. lia.
Qed.

Lemma seq_order_window_witness :
  TCP_SEQ_LT (u32 (4294967290 + 3)) (u32 (4294967290 + 20)) = true.
Proof.
  apply (seq_order_window 4294967290 3 20); unfold half_space; lia.
Defined.
