(* ===== verification/Bytes.v ===== *)
(** * Byte order

    The machine is little-endian; network headers are big-endian.  A multi-byte field of
    a header is the number its bytes denote in memory, and [htons]/[htonl] (their own
    inverses) convert between that number and the value it stands for. *)

From S2P Require Import Prelude.

Definition htons (v : Z) : Z := v mod 256 * 256 + v / 256 mod 256.
Definition htonl (v : Z) : Z :=
  v mod 256 * 16777216 + v / 256 mod 256 * 65536 + v / 65536 mod 256 * 256
  + v / 16777216 mod 256.
Definition ntohs := htons.
Definition ntohl := htonl.

(** The bytes of a number in memory, and the number two or four bytes denote. *)
Definition bytes16 (v : Z) : list Z := [v mod 256; v / 256 mod 256].
Definition bytes32 (v : Z) : list Z :=
  [v mod 256; v / 256 mod 256; v / 65536 mod 256; v / 16777216 mod 256].
Definition load16 (a b : Z) : Z := a + 256 * b.
Definition load32 (a b c d : Z) : Z := a + 256 * b + 65536 * c + 16777216 * d.

Lemma htons_range v : is_u16 (htons v).
Proof. unfold htons, is_u16. Z.div_mod_to_equations. lia. Qed.

Lemma htonl_range v : is_u32 (htonl v).
Proof. unfold htonl, is_u32. Z.div_mod_to_equations. lia. Qed.

(** The four bytes of a 32-bit number. *)
Lemma digits32 v : is_u32 v -> exists a b c d,
  v = load32 a b c d /\ is_u8 a /\ is_u8 b /\ is_u8 c /\ is_u8 d.
Proof.
  intros Hv. exists (v mod 256), (v / 256 mod 256), (v / 65536 mod 256), (v / 16777216 mod 256).
  unfold load32, is_u8, is_u32 in *.
  pose proof (Z.div_mod v 256 ltac:(lia)) as H1.
  pose proof (Z.div_mod (v / 256) 256 ltac:(lia)) as H2.
  pose proof (Z.div_mod (v / 65536) 256 ltac:(lia)) as H3.
  rewrite Z.div_div in H2 by lia. rewrite Z.div_div in H3 by lia.
  change (256 * 256) with 65536 in H2. change (65536 * 256) with 16777216 in H3.
  rewrite (Z.mod_small (v / 16777216)) by (Z.div_mod_to_equations; lia).
  split_and!; try (apply Z.mod_pos_bound; lia); Z.div_mod_to_equations; lia.
Qed.

Lemma load32_digits a b c d : is_u8 a -> is_u8 b -> is_u8 c -> is_u8 d ->
  load32 a b c d mod 256 = a /\ load32 a b c d / 256 mod 256 = b /\
  load32 a b c d / 65536 mod 256 = c /\ load32 a b c d / 16777216 mod 256 = d.
Proof.
  unfold is_u8, load32. intros.
  assert (Hsum : a + 256 * b + 65536 * c + 16777216 * d =
               a + (b + (c + d * 256) * 256) * 256) by lia.
  rewrite Hsum. change 16777216 with (256 * 256 * 256). change 65536 with (256 * 256).
  rewrite <- !Z.div_div by lia. rewrite Z.mod_add by lia.
  rewrite !Z.div_add by lia. rewrite (Z.div_small a) by lia. rewrite Z.add_0_l.
  rewrite !Z.mod_add by lia. rewrite !Z.div_add by lia. rewrite (Z.div_small b) by lia.
  rewrite Z.add_0_l, Z.mod_add by lia. rewrite !Z.div_add by lia.
  rewrite (Z.div_small c) by lia. rewrite Z.add_0_l. rewrite !Z.mod_small by lia. done.
Qed.

Lemma htons_involutive v : is_u16 v -> htons (htons v) = v.
Proof. unfold htons, is_u16. intros. Z.div_mod_to_equations. lia. Qed.

Lemma htonl_load a b c d : is_u8 a -> is_u8 b -> is_u8 c -> is_u8 d ->
  htonl (load32 a b c d) = load32 d c b a.
Proof.
  intros Ha Hb Hc Hd. unfold htonl. destruct (load32_digits a b c d Ha Hb Hc Hd) as (-> & -> & -> & ->).
  unfold load32. lia.
Qed.

Lemma htonl_involutive v : is_u32 v -> htonl (htonl v) = v.
Proof.
  intros (a & b & c & d & -> & Ha & Hb & Hc & Hd)%digits32.
  by rewrite !htonl_load.
Qed.

Lemma htonl_inj v w : is_u32 v -> is_u32 w -> htonl v = htonl w -> v = w.
Proof.
  intros Hv Hw E. rewrite <- (htonl_involutive v), <- (htonl_involutive w) by done. by f_equal.
Qed.

Lemma htons_inj v w : is_u16 v -> is_u16 w -> htons v = htons w -> v = w.
Proof.
  intros Hv Hw E. rewrite <- (htons_involutive v), <- (htons_involutive w) by done. by f_equal.
Qed.

(** Storing a value in network order puts its most significant byte first. *)
Lemma bytes32_htonl v : is_u32 v -> exists a b c d,
  v = load32 a b c d /\ bytes32 (htonl v) = [d; c; b; a] /\
  is_u8 a /\ is_u8 b /\ is_u8 c /\ is_u8 d.
Proof.
  intros (a & b & c & d & -> & Ha & Hb & Hc & Hd)%digits32.
  exists a, b, c, d. split_and!; try done; try apply Ha; try apply Hb; try apply Hc; try apply Hd.
  rewrite htonl_load by done. unfold bytes32.
  by destruct (load32_digits d c b a Hd Hc Hb Ha) as (-> & -> & -> & ->).
Qed.

#[export] Hint Resolve htons_range htonl_range : mtcp.
