(* ===== verification/Rss.v ===== *)
(** * Receive-side scaling ([rss.c])

    The Toeplitz hash that predicts the core the NIC delivers a flow to.  The source
    caches the key windows and shifts the input left; [toeplitz] is the textbook
    definition over the 96-bit input. *)

From S2P Require Import Prelude.

(** ** Definitions *)

Definition NBBY : Z := 8.
Definition KEY_CACHE_LEN : nat := 96.
Definition MSB32 : Z := 2147483648.
Definition MSB16 : Z := 32768.
Definition RSS_BIT_MASK : Z := 127.

(** [static const uint8_t key[]]: forty bytes [0x05]. *)
Definition rss_key : list Z := repeat 5 40.

Definition key_byte (i : Z) : Z := nth (Z.to_nat i) rss_key 0.

(** The loop of [BuildKeyCache]; [n] iterations are left. *)
Fixpoint BuildKeyCache_loop (n : nat) (result idx : Z) : list Z :=
  match n with
  | O => []
  | S n' =>
      let shift := u8 (idx mod NBBY) in
      let bit := if Z.land (Z.shiftl (key_byte (idx / NBBY)) shift) 128 =? 0 then 0 else 1 in
      result :: BuildKeyCache_loop n' (u32 (Z.lor (Z.shiftl result 1) bit)) (u32 (idx + 1))
  end.

Definition BuildKeyCache (cache_len : nat) : list Z :=
  let result := Z.lor (Z.lor (Z.lor (Z.shiftl (key_byte 0) 24) (Z.shiftl (key_byte 1) 16))
                             (Z.shiftl (key_byte 2) 8)) (key_byte 3) in
  BuildKeyCache_loop cache_len result 32.

(** One of the four loops of [GetRSSHash]: [x] is shifted left in a type with top bit
    [msb], [cache] is the part of the key cache the loop reads. *)
Fixpoint rss_loop (msb : Z) (cache : list Z) (x res : Z) : Z :=
  match cache with
  | [] => res
  | c :: cache' =>
      rss_loop msb cache' (Z.shiftl x 1 mod (2 * msb))
        (if Z.land x msb =? 0 then res else Z.lxor res c)
  end.

Definition GetRSSHash (sip dip sp dp : Z) : Z :=
  let key_cache := BuildKeyCache KEY_CACHE_LEN in
  let res := rss_loop MSB32 (take 32 key_cache) sip 0 in
  let res := rss_loop MSB32 (take 32 (drop 32 key_cache)) dip res in
  let res := rss_loop MSB16 (take 16 (drop 64 key_cache)) sp res in
  rss_loop MSB16 (take 16 (drop 80 key_cache)) dp res.

(** [static const uint32_t off[4] = {3, 1, -1, -3}]. *)
Definition rss_off : list Z := [3; 1; u32 (-1); u32 (-3)].

(** [None] is the division by zero of [masked % num_queues]. *)
Definition GetRSSCPUCore (sip dip sp dp num_queues : Z) (endian_check : bool) : option Z :=
  let masked := Z.land (GetRSSHash sip dip sp dp) RSS_BIT_MASK in
  let masked := if endian_check
                then u32 (masked + nth (Z.to_nat (Z.land masked 3)) rss_off 0)
                else masked in
  if u32 num_queues =? 0 then None else Some (i32 (masked mod u32 num_queues)).

(** The textbook hash: the exclusive or, over the set bits of the input taken from
    the most significant one, of the 32-bit window of the key at the same position. *)
Definition key_bits : Z := fold_left (fun acc b => acc * 256 + b) rss_key 0.

Definition key_window (i : nat) : Z :=
  Z.shiftr key_bits (320 - 32 - Z.of_nat i) mod 4294967296.

Definition toeplitz (width : nat) (input : Z) (first : nat) : Z :=
  fold_left (fun res i =>
      if Z.testbit input (Z.of_nat (width - 1 - i))
      then Z.lxor res (key_window (first + i)) else res)
    (seq 0 width) 0.

Definition toeplitz_flow (sip dip sp dp : Z) : Z :=
  toeplitz 96 (sip * 2 ^ 64 + dip * 2 ^ 32 + sp * 2 ^ 16 + dp) 0.

(** ** Lemmas *)

(** Both hashes select the cached windows of the set bits of the input, from bit [k]
    downwards. *)
Fixpoint sel (cache : list Z) (x k res : Z) : Z :=
  match cache with
  | [] => res
  | c :: cache' => sel cache' x (k - 1) (if Z.testbit x k then Z.lxor res c else res)
  end.

Lemma land_msb x n : 0 <= n -> (Z.land x (2 ^ n) =? 0) = negb (Z.testbit x n).
Proof.
  intros Hn. destruct (Z.eqb_spec (Z.land x (2 ^ n)) 0) as [E|E].
  - assert (Z.testbit (Z.land x (2 ^ n)) n = false) as H by (by rewrite E, Z.bits_0).
    rewrite Z.land_spec, Z.pow2_bits_true, andb_true_r in H by done. by rewrite H.
  - destruct (Z.testbit x n) eqn:Hb; [done|]. exfalso. apply E.
    apply Z.bits_inj'. intros m Hm. rewrite Z.land_spec, Z.bits_0, Z.pow2_bits_eqb by done.
    destruct (Z.eqb_spec n m) as [->|]; [by rewrite Hb|by rewrite andb_false_r].
Qed.

Lemma rss_loop_sel w cache x d res :
  0 < w -> 0 <= d ->
  rss_loop (2 ^ (w - 1)) cache (Z.shiftl x d mod 2 ^ w) res = sel cache x (w - 1 - d) res.
Proof.
  intros Hw. revert d res. induction cache as [|c cache IH]; intros d res Hd; [done|].
  cbn [rss_loop sel]. rewrite land_msb, Z.mod_pow2_bits_low, Z.shiftl_spec by lia.
  replace (2 * 2 ^ (w - 1)) with (2 ^ w) by (rewrite <- Z.pow_succ_r by lia; f_equal; lia).
  replace (Z.shiftl (Z.shiftl x d mod 2 ^ w) 1 mod 2 ^ w) with (Z.shiftl x (d + 1) mod 2 ^ w).
  - rewrite IH by lia. replace (w - 1 - (d + 1)) with (w - 1 - d - 1) by lia.
    by destruct (Z.testbit x (w - 1 - d)).
  - rewrite <- Z.shiftl_shiftl, !(Z.shiftl_mul_pow2 _ 1) by lia.
    by rewrite Zmult_mod_idemp_l.
Qed.

Lemma rss_loop_sel0 w cache x res :
  0 < w -> 0 <= x < 2 ^ w ->
  rss_loop (2 ^ (w - 1)) cache x res = sel cache x (w - 1) res.
Proof.
  intros Hw Hx. pose proof (rss_loop_sel w cache x 0 res Hw ltac:(lia)) as H.
  by rewrite Z.shiftl_0_r, Z.mod_small, Z.sub_0_r in H.
Qed.

Lemma sel_res cache x k res : sel cache x k res = Z.lxor res (sel cache x k 0).
Proof.
  revert k res. induction cache as [|c cache IH]; intros k res; cbn [sel].
  - by rewrite Z.lxor_0_r.
  - destruct (Z.testbit x k).
    + rewrite (IH _ (Z.lxor res c)), (IH _ (Z.lxor 0 c)).
      by rewrite Z.lxor_0_l, Z.lxor_assoc.
    + apply IH.
Qed.

Lemma sel_app c1 c2 x k res :
  sel (c1 ++ c2) x k res = sel c2 x (k - zlen c1) (sel c1 x k res).
Proof.
  revert k res. induction c1 as [|c c1 IH]; intros k res.
  - cbn. by rewrite Z.sub_0_r.
  - cbn [app sel]. rewrite IH, zlen_cons. f_equal. lia.
Qed.

Lemma sel_ext c x y k j res :
  (forall n, 0 <= n < zlen c -> Z.testbit x (k - n) = Z.testbit y (j - n)) ->
  sel c x k res = sel c y j res.
Proof.
  revert k j res. induction c as [|a c IH]; intros k j res H; [done|]. cbn [sel].
  assert (Z.testbit x k = Z.testbit y j) as ->.
  { specialize (H 0). rewrite !Z.sub_0_r in H. apply H. rewrite zlen_cons.
    pose proof (zlen_nonneg c). lia. }
  apply IH. intros n Hn. rewrite <- !Z.sub_add_distr. apply H. rewrite zlen_cons. lia.
Qed.

Lemma toeplitz_fold_sel (w : nat) input first n i res :
  (i + n = w)%nat ->
  fold_left (fun r j => if Z.testbit input (Z.of_nat (w - 1 - j))
                        then Z.lxor r (key_window (first + j)) else r) (seq i n) res =
  sel (map (fun j => key_window (first + j)) (seq i n)) input (Z.of_nat w - 1 - Z.of_nat i) res.
Proof.
  revert i res. induction n as [|n IH]; intros i res Hw; [done|].
  cbn [seq fold_left map sel]. rewrite IH by lia.
  replace (Z.of_nat (w - 1 - i)) with (Z.of_nat w - 1 - Z.of_nat i) by lia.
  f_equal. lia.
Qed.

(** The cached windows are the windows of the key. *)
Lemma key_cache_windows : BuildKeyCache 96 = map (fun j => key_window (0 + j)) (seq 0 96).
Proof. vm_compute. reflexivity. Qed.

(** The parts of the key cache the four loops read. *)
Definition cache_part (n first : nat) : list Z := take n (drop first (BuildKeyCache 96)).

(** The test key has period sixteen, so the windows do too. *)
Lemma key_cache_period :
  cache_part 32 32 = cache_part 32 0 /\ cache_part 16 80 = cache_part 16 64.
Proof. split; vm_compute; reflexivity. Qed.

Lemma testbit_field x lo w n :
  0 <= lo -> 0 <= n < w -> Z.testbit x (lo + n) = Z.testbit ((x / 2 ^ lo) mod 2 ^ w) n.
Proof.
  intros. rewrite Z.mod_pow2_bits_low by lia.
  rewrite Z.div_pow2_bits by lia. f_equal. lia.
Qed.

Lemma GetRSSHash_sel sip dip sp dp :
  is_u32 sip -> is_u32 dip -> is_u16 sp -> is_u16 dp ->
  GetRSSHash sip dip sp dp =
    sel (cache_part 16 80) dp 15 (sel (cache_part 16 64) sp 15
      (sel (cache_part 32 32) dip 31 (sel (cache_part 32 0) sip 31 0))).
Proof.
  intros H1 H2 H3 H4. unfold GetRSSHash, KEY_CACHE_LEN.
  change MSB32 with (2 ^ (32 - 1)). change MSB16 with (2 ^ (16 - 1)).
  unfold is_u32, is_u16 in *. by rewrite !rss_loop_sel0 by lia.
Qed.

Lemma toeplitz_flow_sel sip dip sp dp :
  let x := sip * 2 ^ 64 + dip * 2 ^ 32 + sp * 2 ^ 16 + dp in
  toeplitz_flow sip dip sp dp =
    sel (cache_part 16 80) x 15 (sel (cache_part 16 64) x 31
      (sel (cache_part 32 32) x 63 (sel (cache_part 32 0) x 95 0))).
Proof.
  intros x. unfold toeplitz_flow, toeplitz. rewrite (toeplitz_fold_sel 96) by done.
  rewrite <- key_cache_windows.
  replace (BuildKeyCache 96)
    with (cache_part 32 0 ++ cache_part 32 32 ++ cache_part 16 64 ++ cache_part 16 80)
    by (vm_compute; reflexivity).
  by rewrite !sel_app.
Qed.

(** A field of the input selects like the number stored in it. *)
Lemma sel_field c x lo w v res :
  0 <= lo -> zlen c = w -> (x / 2 ^ lo) mod 2 ^ w = v ->
  sel c x (lo + w - 1) res = sel c v (w - 1) res.
Proof.
  intros Hlo Hc Hv. apply sel_ext. intros n Hn.
  replace (lo + w - 1 - n) with (lo + (w - 1 - n)) by lia.
  rewrite (testbit_field x lo w) by lia. by rewrite Hv.
Qed.

Ltac rss_field x :=
  match goal with
  | |- zlen _ = _ => vm_compute; reflexivity
  | |- _ mod _ = _ =>
      unfold x; change (2 ^ 64) with 18446744073709551616;
      change (2 ^ 32) with 4294967296; change (2 ^ 16) with 65536;
      change (2 ^ 0) with 1; Z.div_mod_to_equations; lia
  | |- _ => lia
  end.

(** ** Properties *)

(** C36: the shifting loops over the key cache compute the Toeplitz hash of the 96-bit
    tuple (source address, destination address, source port, destination port). *)
Theorem GetRSSHash_toeplitz (sip dip sp dp : Z) :
  is_u32 sip -> is_u32 dip -> is_u16 sp -> is_u16 dp ->
  GetRSSHash sip dip sp dp = toeplitz_flow sip dip sp dp.
Proof.
  intros H1 H2 H3 H4. rewrite GetRSSHash_sel, toeplitz_flow_sel by done.
  unfold is_u32, is_u16 in *.
  set (x := sip * 2 ^ 64 + dip * 2 ^ 32 + sp * 2 ^ 16 + dp).
  rewrite (sel_field (cache_part 32 0) x 64 32 sip) by rss_field x.
  rewrite (sel_field (cache_part 32 32) x 32 32 dip) by rss_field x.
  rewrite (sel_field (cache_part 16 64) x 16 16 sp) by rss_field x.
  by rewrite (sel_field (cache_part 16 80) x 0 16 dp) by rss_field x.
Qed.

Lemma GetRSSHash_toeplitz_witness :
  GetRSSHash 3232235777 167772161 80 40000 = toeplitz_flow 3232235777 167772161 80 40000.
Proof. apply GetRSSHash_toeplitz; unfold is_u32, is_u16; lia. Defined.

Lemma GetRSSCPUCore_swap sip dip sp dp num_queues endian_check :
  is_u32 sip -> is_u32 dip -> is_u16 sp -> is_u16 dp ->
  GetRSSCPUCore sip dip sp dp num_queues endian_check =
  GetRSSCPUCore dip sip dp sp num_queues endian_check.
Proof.
  intros H1 H2 H3 H4. unfold GetRSSCPUCore. rewrite !GetRSSHash_sel by done.
  destruct key_cache_period as [-> ->].
  rewrite !(sel_res _ _ _ (sel _ _ _ _)).
  rewrite (Z.lxor_comm (sel _ sip _ _)), !Z.lxor_assoc.
  by rewrite (Z.lxor_comm (sel _ sp _ _)).
Qed.

(** the predicted core does not depend on the direction of the flow: the pool that
    hashes (server, client) tuples and the lookup that hashes (client, server) tuples
    agree, for every number of queues and either endianness of the NIC table. *)
Theorem GetRSSCPUCore_symmetric (sip dip sp dp num_queues : Z) (endian_check : bool) :
  is_u32 sip -> is_u32 dip -> is_u16 sp -> is_u16 dp ->
  GetRSSCPUCore sip dip sp dp num_queues endian_check =
  GetRSSCPUCore dip sip dp sp num_queues endian_check.
Proof. apply GetRSSCPUCore_swap. Qed.

Lemma GetRSSCPUCore_symmetric_witness :
  GetRSSCPUCore 3232235777 167772161 80 40000 16 true =
  GetRSSCPUCore 167772161 3232235777 40000 80 16 true.
Proof. apply GetRSSCPUCore_symmetric; unfold is_u32, is_u16; lia. Defined.
