(* ===== verification/Queues.v ===== *)
(** * Pointer queues

    The bounded queues of the stack: the lock-free single-producer single-consumer
    ring of [tcp_stream_queue.c], [tcp_sb_queue.c] and [tcp_rb_frag_queue.c] (one
    algorithm, three element types), and the counted ring [stream_queue_int] that is
    private to the stack thread.  Pointers are addresses, [0] is [NULL].

    - [BoundedFifo] is the contract the clients of a queue rely on;
    - Module [Click] models the lock-free ring and discharges the contract for calls
      that do not overlap;
    - Module [Spsc] splits the two operations at their shared-memory accesses and lets
      a producer and a consumer thread interleave them (sequentially consistent
      accesses; the source separates them with compiler barriers only);
    - Module [Internal] models the counted ring and discharges the contract. *)

From S2P Require Import Prelude.

(** ** The contract of a queue *)

Class BoundedFifo (Q : Type) := {
  fifo_inv : Q -> Prop;
  fifo_cap : Q -> Z;
  fifo_view : Q -> list Z;
  fifo_enq : Z -> M Q Z;
  fifo_deq : M Q Z;
  fifo_enq_room q v :
    fifo_inv q -> v <> 0 -> zlen (fifo_view q) < fifo_cap q ->
    exists q', fifo_enq v q = Ok 0 q' /\ fifo_inv q' /\
      fifo_view q' = fifo_view q ++ [v] /\ fifo_cap q' = fifo_cap q;
  fifo_enq_full q v :
    fifo_inv q -> fifo_cap q <= zlen (fifo_view q) -> fifo_enq v q = Ok (-1) q;
  fifo_deq_some q v l :
    fifo_inv q -> fifo_view q = v :: l ->
    exists q', fifo_deq q = Ok v q' /\ fifo_inv q' /\
      fifo_view q' = l /\ fifo_cap q' = fifo_cap q;
  fifo_deq_none q : fifo_inv q -> fifo_view q = [] -> fifo_deq q = Ok 0 q;
  fifo_inv_cap q : fifo_inv q -> zlen (fifo_view q) <= fifo_cap q;
  fifo_inv_nonnull q v : fifo_inv q -> v ∈ fifo_view q -> v <> 0
}.

(** ** The circular array behind both rings *)

(** The [n] cells of [q] from index [h] on, wrapping at the end of the array. *)
Definition ring_cell (q : list Z) (i : Z) : Z := nth (Z.to_nat (i mod zlen q)) q 0.

Fixpoint ring (q : list Z) (h : Z) (n : nat) : list Z :=
  match n with
  | O => []
  | S n' => ring_cell q h :: ring q (h + 1) n'
  end.

Lemma ring_length q h n : length (ring q h n) = n.
Proof. revert h. induction n; cbn; intros; [done|]. by rewrite IHn. Qed.

Lemma ring_cell_mod q i : ring_cell q (i mod zlen q) = ring_cell q i.
Proof. unfold ring_cell. by rewrite Zmod_mod. Qed.

Lemma ring_mod q h n : ring q (h mod zlen q) n = ring q h n.
Proof.
  revert h. induction n as [|n IH]; intros h; cbn; [done|].
  rewrite ring_cell_mod, <- (IH (h mod zlen q + 1)), <- (IH (h + 1)).
  by rewrite Zplus_mod_idemp_l.
Qed.

Lemma ring_snoc q h n : ring q h (S n) = ring q h n ++ [ring_cell q (h + Z.of_nat n)].
Proof.
  revert h. induction n as [|n IH]; intros h.
  - cbn. do 2 f_equal. lia.
  - change (ring_cell q h :: ring q (h + 1) (S n) =
            ring_cell q h :: ring q (h + 1) n ++ [ring_cell q (h + Z.of_nat (S n))]).
    rewrite IH. do 4 f_equal. lia.
Qed.

Lemma ring_cell_insert q i j v :
  0 < zlen q -> 0 <= i < zlen q ->
  ring_cell (<[Z.to_nat i := v]> q) j =
    if bool_decide (j mod zlen q = i) then v else ring_cell q j.
Proof.
  intros Hq Hi. unfold ring_cell, zlen. rewrite length_insert. fold (zlen q).
  pose proof (Z.mod_pos_bound j (zlen q) Hq) as Hj.
  rewrite !nth_lookup, list_lookup_insert.
  case_bool_decide as E.
  - rewrite E. rewrite decide_True; [done|]. unfold zlen in *. lia.
  - rewrite decide_False; [done|]. lia.
Qed.

Lemma ring_insert_other q i h v n :
  0 < zlen q -> 0 <= i < zlen q ->
  (forall k, 0 <= k < Z.of_nat n -> (h + k) mod zlen q <> i) ->
  ring (<[Z.to_nat i := v]> q) h n = ring q h n.
Proof.
  intros Hq Hi. revert h. induction n as [|n IH]; intros h Hk; [done|]. cbn.
  rewrite IH.
  - rewrite ring_cell_insert by done. rewrite bool_decide_eq_false_2; [done|].
    rewrite <- (Z.add_0_r h). apply Hk. lia.
  - intros k Hkn. replace (h + 1 + k) with (h + (k + 1)) by lia. apply Hk. lia.
Qed.

(** Storing behind the last of [n] occupied cells appends to the contents. *)
Lemma ring_insert_end q h t n v :
  0 <= h < zlen q -> 0 <= t < zlen q -> (t - h) mod zlen q = Z.of_nat n ->
  ring (<[Z.to_nat t := v]> q) h (S n) = ring q h n ++ [v].
Proof.
  intros Hh Ht Hn.
  assert (HN : 0 < zlen q) by lia.
  pose proof (Z.mod_pos_bound (t - h) (zlen q) HN) as Hb. rewrite Hn in Hb.
  rewrite ring_snoc, ring_insert_other, ring_cell_insert; try done.
  - rewrite bool_decide_eq_true_2; [done|].
    rewrite <- Hn, Zplus_mod_idemp_r. replace (h + (t - h)) with t by lia.
    by apply Z.mod_small.
  - intros k Hk E. subst t.
    rewrite Zminus_mod_idemp_l in Hn. replace (h + k - h) with k in Hn by lia.
    rewrite Z.mod_small in Hn by lia. lia.
Qed.

(** The distance of two indices after one of them advances. *)
Lemma dist_succ_tail t h N :
  0 <= h < N -> 0 <= t < N -> (t + 1) mod N <> h ->
  ((t + 1) mod N - h) mod N = (t - h) mod N + 1.
Proof.
  intros Hh Ht Hne.
  rewrite Zminus_mod_idemp_l. replace (t + 1 - h) with ((t - h) + 1) by lia.
  rewrite <- Zplus_mod_idemp_l.
  pose proof (Z.mod_pos_bound (t - h) N ltac:(lia)).
  destruct (decide ((t - h) mod N + 1 = N)) as [E|E]; [|apply Z.mod_small; lia].
  exfalso. apply Hne.
  assert (E2 : (h + ((t - h) mod N + 1)) mod N = (t + 1) mod N).
  { rewrite Z.add_assoc, <- Zplus_mod_idemp_l, Zplus_mod_idemp_r, Zplus_mod_idemp_l.
    f_equal. lia. }
  rewrite <- E2, E. rewrite <- Zplus_mod_idemp_r, Z_mod_same_full, Z.add_0_r.
  by apply Z.mod_small.
Qed.

Lemma dist_full t h N :
  0 <= h < N -> 0 <= t < N -> (t + 1) mod N = h -> (t - h) mod N = N - 1.
Proof.
  intros Hh Ht E. subst h. rewrite Zminus_mod_idemp_r.
  replace (t - (t + 1)) with (N - 1 + (-1) * N) by lia.
  rewrite Z_mod_plus_full. apply Z.mod_small. lia.
Qed.

Lemma dist_succ_head t h N n :
  0 <= h < N -> (t - h) mod N = n -> 0 < n -> (t - (h + 1) mod N) mod N = n - 1.
Proof.
  intros Hh Hn Hpos. rewrite Zminus_mod_idemp_r.
  replace (t - (h + 1)) with (t - h - 1) by lia.
  rewrite <- Zminus_mod_idemp_l, Hn.
  pose proof (Z.mod_pos_bound (t - h) N ltac:(lia)). apply Z.mod_small. lia.
Qed.

Lemma dist_zero t h N : 0 <= h < N -> 0 <= t < N -> (t - h) mod N = 0 -> t = h.
Proof.
  intros Hh Ht E%Z.mod_divide; [|lia]. destruct E as [k Hk].
  assert (k = 0) by nia. lia.
Qed.

(** ** The lock-free ring *)

Module Click.

(** [struct stream_queue], [struct sb_queue], [struct rb_frag_queue]. *)
Record click_queue := ClickQueue {
  _capacity : Z;
  _head : Z;
  _tail : Z;
  _q : list Z
}.

#[global] Instance click_queue_eta : Settable click_queue :=
  fun q => ClickQueue (_capacity q) (_head q) (_tail q) (_q q).

Definition NextIndex (sq : click_queue) (i : Z) : Z :=
  if negb (i =? _capacity sq) then u32 (i + 1) else 0.

Definition PrevIndex (sq : click_queue) (i : Z) : Z :=
  if negb (i =? 0) then u32 (i - 1) else _capacity sq.

Definition QueueIsEmpty (sq : click_queue) : bool := _head sq =? _tail sq.

(** [calloc_sq] and [calloc_q] say whether the two allocations succeed. *)
Definition CreateQueue (calloc_sq calloc_q : bool) (capacity : Z) : option click_queue :=
  if negb calloc_sq then None
  else if negb calloc_q then None
  else Some (ClickQueue (u32 capacity) 0 0 (replicate (Z.to_nat (capacity + 1)) 0)).

(** A store to or a load from the array faults outside of it. *)
Definition store (i v : Z) : M click_queue unit :=
  sq ← get;
  if (0 <=? i) && (i <? zlen (_q sq)) then put (sq <| _q ::= insert (Z.to_nat i) v |>)
  else throw OutOfBounds.

Definition load (i : Z) : M click_queue Z :=
  sq ← get;
  if (0 <=? i) && (i <? zlen (_q sq)) then mret (nth (Z.to_nat i) (_q sq) 0)
  else throw OutOfBounds.

Definition Enqueue (v : Z) : M click_queue Z :=
  sq ← get;
  let h := _head sq in
  let t := _tail sq in
  let nt := NextIndex sq t in
  if negb (nt =? h) then
    store t v;;
    modify (fun sq => sq <| _tail := nt |>);;
    mret 0
  else mret (-1).

Definition Dequeue : M click_queue Z :=
  sq ← get;
  let h := _head sq in
  let t := _tail sq in
  if negb (h =? t) then
    v ← load h;
    modify (fun sq => sq <| _head := NextIndex sq h |>);;
    assertM (negb (v =? 0));;
    mret v
  else mret 0.

(** The three instances of the source. *)
Definition CreateStreamQueue := CreateQueue.
Definition StreamQueueIsEmpty := QueueIsEmpty.
Definition StreamEnqueue := Enqueue.
Definition StreamDequeue := Dequeue.
Definition CreateSBQueue := CreateQueue.
Definition SBEnqueue := Enqueue.
Definition SBDequeue := Dequeue.
Definition CreateRBFragQueue := CreateQueue.
Definition RBFragEnqueue := Enqueue.
Definition RBFragDequeue := Dequeue.

(** *** Invariant and contents *)

Definition count (sq : click_queue) : Z := (_tail sq - _head sq) mod (_capacity sq + 1).

Definition contents (sq : click_queue) : list Z :=
  ring (_q sq) (_head sq) (Z.to_nat (count sq)).

(** The shape of the structure, which no operation changes. *)
Definition shape (sq : click_queue) : Prop :=
  0 <= _capacity sq < 2147483648 /\ zlen (_q sq) = _capacity sq + 1 /\
  0 <= _head sq <= _capacity sq /\ 0 <= _tail sq <= _capacity sq.

Definition wf (sq : click_queue) : Prop :=
  shape sq /\ Forall (fun v => v <> 0) (contents sq).

Lemma NextIndex_mod sq i :
  shape sq -> 0 <= i <= _capacity sq -> NextIndex sq i = (i + 1) mod (_capacity sq + 1).
Proof.
  intros Hs Hi. unfold NextIndex, shape in *.
  destruct (Z.eqb_spec i (_capacity sq)) as [->|]; cbn.
  - by rewrite Z_mod_same_full.
  - rewrite u32_small by (unfold is_u32; lia). rewrite Z.mod_small; lia.
Qed.

Lemma NextIndex_range sq i :
  shape sq -> 0 <= i <= _capacity sq -> 0 <= NextIndex sq i <= _capacity sq.
Proof.
  intros Hs Hi. rewrite NextIndex_mod by done. unfold shape in Hs.
  pose proof (Z.mod_pos_bound (i + 1) (_capacity sq + 1)). lia.
Qed.

(** Walking the ring backwards undoes walking it forwards. *)
Lemma PrevIndex_NextIndex sq i :
  shape sq -> 0 <= i <= _capacity sq -> PrevIndex sq (NextIndex sq i) = i.
Proof.
  intros Hs Hi. unfold PrevIndex, NextIndex, shape in *.
  destruct (Z.eqb_spec i (_capacity sq)) as [->|]; cbn; [done|].
  rewrite u32_small by (unfold is_u32; lia).
  destruct (Z.eqb_spec (i + 1) 0); cbn; [lia|].
  rewrite u32_small by (unfold is_u32; lia). lia.
Qed.

Lemma count_range sq : shape sq -> 0 <= count sq <= _capacity sq.
Proof.
  intros (? & _). unfold count.
  pose proof (Z.mod_pos_bound (_tail sq - _head sq) (_capacity sq + 1)). lia.
Qed.

Lemma contents_zlen sq : shape sq -> zlen (contents sq) = count sq.
Proof.
  intros Hs%count_range. unfold contents, zlen. rewrite ring_length. lia.
Qed.

(** The three state changes of the ring, on its contents. *)
Lemma store_free sq v :
  shape sq -> count sq < _capacity sq ->
  contents (sq <| _q ::= insert (Z.to_nat (_tail sq)) v |>) = contents sq.
Proof.
  intros Hs Hc. pose proof (count_range _ Hs) as Hr. destruct Hs as (? & Hq & ? & ?).
  unfold contents, count in *; cbn. apply ring_insert_other; rewrite ?Hq; try lia.
  intros k Hk E.
  assert (E2 : (_tail sq - _head sq) mod (_capacity sq + 1) = k); [|lia].
  rewrite <- E, Zminus_mod_idemp_l. replace (_head sq + k - _head sq) with k by lia.
  apply Z.mod_small. lia.
Qed.

Lemma publish_tail sq :
  shape sq -> NextIndex sq (_tail sq) <> _head sq ->
  contents (sq <| _tail := NextIndex sq (_tail sq) |>) =
    contents sq ++ [nth (Z.to_nat (_tail sq)) (_q sq) 0].
Proof.
  intros Hs Hne. pose proof (count_range _ Hs) as Hr.
  rewrite NextIndex_mod in * by (done || apply Hs). destruct Hs as (? & Hq & ? & ?).
  unfold contents, count in *; cbn. rewrite dist_succ_tail by lia.
  rewrite Z2Nat.inj_add by lia. rewrite Nat.add_1_r, ring_snoc.
  do 2 f_equal. rewrite <- ring_cell_mod, Hq.
  rewrite Z2Nat.id, Zplus_mod_idemp_r by lia.
  replace (_head sq + (_tail sq - _head sq)) with (_tail sq) by lia.
  unfold ring_cell. by rewrite Hq, !(Z.mod_small (_tail sq)) by lia.
Qed.

Lemma advance_head sq :
  shape sq -> _head sq <> _tail sq ->
  contents sq = nth (Z.to_nat (_head sq)) (_q sq) 0 ::
                contents (sq <| _head := NextIndex sq (_head sq) |>).
Proof.
  intros Hs Hne. pose proof (count_range _ Hs) as Hr.
  rewrite NextIndex_mod in * by (done || apply Hs). destruct Hs as (? & Hq & ? & ?).
  assert (Hpos : 0 < count sq).
  { destruct (decide (count sq = 0)) as [E|]; [|lia].
    apply dist_zero in E; lia. }
  unfold contents, count in *; cbn.
  rewrite (dist_succ_head (_tail sq) (_head sq) (_capacity sq + 1) _ ltac:(lia) eq_refl Hpos).
  replace (Z.to_nat ((_tail sq - _head sq) mod (_capacity sq + 1)))
    with (S (Z.to_nat ((_tail sq - _head sq) mod (_capacity sq + 1) - 1))) by lia.
  cbn. f_equal.
  - unfold ring_cell. rewrite Hq, Z.mod_small by lia. done.
  - rewrite <- Hq. by rewrite ring_mod.
Qed.

Lemma full_iff sq :
  shape sq -> NextIndex sq (_tail sq) = _head sq <-> count sq = _capacity sq.
Proof.
  intros Hs. rewrite NextIndex_mod by (done || apply Hs). destruct Hs as (? & Hq & ? & ?).
  unfold count. split; intros E.
  - rewrite (dist_full (_tail sq) (_head sq) (_capacity sq + 1)) by lia. lia.
  - destruct (decide ((_tail sq + 1) mod (_capacity sq + 1) = _head sq)) as [|Hne]; [done|].
    pose proof (dist_succ_tail (_tail sq) (_head sq) (_capacity sq + 1)
                  ltac:(lia) ltac:(lia) Hne) as Hd.
    pose proof (Z.mod_pos_bound ((_tail sq + 1) mod (_capacity sq + 1) - _head sq)
                  (_capacity sq + 1)). lia.
Qed.

Lemma empty_iff sq : shape sq -> _head sq = _tail sq <-> count sq = 0.
Proof.
  intros (? & Hq & ? & ?). unfold count. split.
  - intros ->. by rewrite Z.sub_diag.
  - intros E%dist_zero; lia.
Qed.

(** *** Calls that do not overlap *)

Lemma bounds_true i sq :
  shape sq -> 0 <= i <= _capacity sq -> (0 <=? i) && (i <? zlen (_q sq)) = true.
Proof.
  intros (? & -> & _) ?. rewrite andb_true_iff, Z.leb_le, Z.ltb_lt. lia.
Qed.

Lemma shape_store sq i v : shape sq -> shape (sq <| _q ::= insert (Z.to_nat i) v |>).
Proof. unfold shape, zlen; cbn. by rewrite length_insert. Qed.

Lemma shape_tail sq t :
  shape sq -> 0 <= t <= _capacity sq -> shape (sq <| _tail := t |>).
Proof. unfold shape; cbn. intros (?&?&?&?) ?; split_and!; lia. Qed.

Lemma shape_head sq h :
  shape sq -> 0 <= h <= _capacity sq -> shape (sq <| _head := h |>).
Proof. unfold shape; cbn. intros (?&?&?&?) ?; split_and!; lia. Qed.

Lemma nth_store sq v :
  shape sq -> nth (Z.to_nat (_tail sq)) (insert (Z.to_nat (_tail sq)) v (_q sq)) 0 = v.
Proof.
  intros (? & Hq & ? & ?). rewrite nth_lookup, list_lookup_insert_eq; [done|].
  unfold zlen in Hq. lia.
Qed.

(** The stored element followed by the published index append it to the contents. *)
Lemma contents_enq sq v :
  shape sq -> count sq < _capacity sq ->
  contents (sq <| _q ::= insert (Z.to_nat (_tail sq)) v |>
               <| _tail := NextIndex sq (_tail sq) |>) = contents sq ++ [v].
Proof.
  intros Hs Hc. set (sq1 := sq <| _q ::= insert (Z.to_nat (_tail sq)) v |>).
  assert (Hs1 : shape sq1) by by apply shape_store.
  transitivity (contents (sq1 <| _tail := NextIndex sq1 (_tail sq1) |>)); [done|].
  rewrite publish_tail; [|done|].
  - unfold sq1 at 1. rewrite store_free by done. cbn. by rewrite nth_store.
  - rewrite full_iff by done. unfold count in *; cbn in *. lia.
Qed.

Lemma Enqueue_room sq v :
  shape sq -> count sq < _capacity sq ->
  Enqueue v sq = Ok 0 (sq <| _q ::= insert (Z.to_nat (_tail sq)) v |>
                          <| _tail := NextIndex sq (_tail sq) |>).
Proof.
  intros Hs Hc. unfold Enqueue, store, mbind, M_bind, get, put, modify.
  destruct (Z.eqb_spec (NextIndex sq (_tail sq)) (_head sq)) as [E|]; cbn.
  - apply full_iff in E; [lia|done].
  - by rewrite bounds_true by (done || apply Hs).
Qed.

Lemma Enqueue_full sq v :
  shape sq -> count sq = _capacity sq -> Enqueue v sq = Ok (-1) sq.
Proof.
  intros Hs Hc%full_iff; [|done]. unfold Enqueue, mbind, M_bind, get. cbn.
  by rewrite Hc, Z.eqb_refl.
Qed.

Lemma Dequeue_empty sq : shape sq -> count sq = 0 -> Dequeue sq = Ok 0 sq.
Proof.
  intros Hs Hc%empty_iff; [|done]. unfold Dequeue, mbind, M_bind, get. cbn.
  by rewrite Hc, Z.eqb_refl.
Qed.

Lemma Dequeue_some sq v l :
  wf sq -> contents sq = v :: l ->
  Dequeue sq = Ok v (sq <| _head := NextIndex sq (_head sq) |>) /\
  contents (sq <| _head := NextIndex sq (_head sq) |>) = l.
Proof.
  intros [Hs Hnz] Hv.
  assert (Hne : _head sq <> _tail sq).
  { intros Hc%empty_iff; [|done]. unfold contents in Hv. by rewrite Hc in Hv. }
  pose proof (advance_head sq Hs Hne) as Hadv. rewrite Hv in Hadv, Hnz.
  injection Hadv as Hx Hl. split; [|done].
  apply list.Forall_cons in Hnz as [Hv0 _].
  unfold Dequeue, load, mbind, M_bind, get, modify, assertM.
  rewrite (proj2 (Z.eqb_neq _ _) Hne); cbn.
  rewrite bounds_true by (done || apply Hs); cbn. rewrite <- Hx.
  by rewrite (proj2 (Z.eqb_neq _ _) Hv0).
Qed.

#[global] Program Instance click_fifo : BoundedFifo click_queue := {
  fifo_inv := wf;
  fifo_cap := _capacity;
  fifo_view := contents;
  fifo_enq := Enqueue;
  fifo_deq := Dequeue
}.
Next Obligation.
  intros sq v [Hs Hnz] Hv Hlen. rewrite contents_zlen in Hlen by done.
  eexists. split; [by apply Enqueue_room|].
  assert (E := contents_enq sq v Hs Hlen). split_and!; [|done|done]. split.
  - apply (shape_tail (sq <| _q ::= insert (Z.to_nat (_tail sq)) v |>)).
    + by apply shape_store.
    + apply (NextIndex_range sq); [done|apply Hs].
  - rewrite E. apply Forall_app. split; [done|]. by apply Forall_singleton.
Qed.
Next Obligation.
  intros sq v [Hs Hnz] Hlen. rewrite contents_zlen in Hlen by done.
  apply Enqueue_full; [done|]. pose proof (count_range _ Hs). lia.
Qed.
Next Obligation.
  intros sq v l Hwf Hv. destruct (Dequeue_some sq v l Hwf Hv) as [Hd Hl].
  eexists. split; [done|]. destruct Hwf as [Hs Hnz]. split_and!; [|done|done]. split.
  - apply shape_head; [done|]. apply NextIndex_range; [done|apply Hs].
  - rewrite Hl. rewrite Hv in Hnz. by apply list.Forall_cons in Hnz as [_ ?].
Qed.
Next Obligation.
  intros sq [Hs _] Hl. apply Dequeue_empty; [done|].
  rewrite <- contents_zlen, Hl by done. done.
Qed.
Next Obligation.
  intros sq [Hs _]. rewrite contents_zlen by done. by apply count_range.
Qed.
Next Obligation.
  intros sq v [_ Hnz] Hv. exact (proj1 (list.Forall_forall _ _) Hnz v Hv).
Qed.

Lemma CreateQueue_wf capacity sq :
  0 <= capacity < 2147483648 ->
  CreateQueue true true capacity = Some sq ->
  wf sq /\ contents sq = [] /\ _capacity sq = capacity.
Proof.
  intros Hc [= <-].
  assert (Hs : shape (ClickQueue (u32 capacity) 0 0 (replicate (Z.to_nat (capacity + 1)) 0))).
  { unfold shape, zlen; cbn. rewrite length_replicate, u32_small by (unfold is_u32; lia). lia. }
  assert (He : contents (ClickQueue (u32 capacity) 0 0
                (replicate (Z.to_nat (capacity + 1)) 0)) = []) by done.
  split_and!; [|done|cbn; apply u32_small; unfold is_u32; lia].
  split; [done|]. by rewrite He.
Qed.

End Click.

(** ** One producer and one consumer, interleaved *)

Module Spsc.
Import Click.

(** Where a thread is inside its operation: the next shared access it performs, with
    the values of its local variables. *)
Inductive producer :=
| PIdle
| PReadHead (v : Z)
| PReadTail (v h : Z)
| PStore (v t nt : Z)
| PPublish (nt : Z)
| PReturn (r : Z).

Inductive consumer :=
| CIdle
| CReadHead
| CReadTail (h : Z)
| CLoad (h : Z)
| CAdvance (h v : Z)
| CReturn (r : Z).

Inductive label :=
| Tau
| CallEnq (v : Z)
| RetEnq (r : Z)
| CallDeq
| RetDeq (r : Z).

Record config := Config { queue : click_queue; prod : producer; cons : consumer }.

#[global] Instance config_eta : Settable config :=
  fun c => Config (queue c) (prod c) (cons c).

(** The next access of the enqueueing thread; no result when it faults or is idle. *)
Definition pstep (c : config) : option (label * config) :=
  let sq := queue c in
  match prod c with
  | PIdle => None
  | PReadHead v => Some (Tau, c <| prod := PReadTail v (_head sq) |>)
  | PReadTail v h =>
      let t := _tail sq in
      let nt := NextIndex sq t in
      Some (Tau, c <| prod := if negb (nt =? h) then PStore v t nt else PReturn (-1) |>)
  | PStore v t nt =>
      match store t v sq with
      | Ok _ sq' => Some (Tau, c <| queue := sq' |> <| prod := PPublish nt |>)
      | Fault _ => None
      end
  | PPublish nt => Some (Tau, c <| queue := sq <| _tail := nt |> |> <| prod := PReturn 0 |>)
  | PReturn r => Some (RetEnq r, c <| prod := PIdle |>)
  end.

(** The next access of the dequeueing thread.  The [assert] comes after the head has
    been advanced, as in the source. *)
Definition cstep (c : config) : option (label * config) :=
  let sq := queue c in
  match cons c with
  | CIdle => None
  | CReadHead => Some (Tau, c <| cons := CReadTail (_head sq) |>)
  | CReadTail h =>
      let t := _tail sq in
      Some (Tau, c <| cons := if negb (h =? t) then CLoad h else CReturn 0 |>)
  | CLoad h =>
      match load h sq with
      | Ok v _ => Some (Tau, c <| cons := CAdvance h v |>)
      | Fault _ => None
      end
  | CAdvance h v =>
      if v =? 0 then None
      else Some (Tau, c <| queue := sq <| _head := NextIndex sq h |> |>
                        <| cons := CReturn v |>)
  | CReturn r => Some (RetDeq r, c <| cons := CIdle |>)
  end.

Inductive step : config -> label -> config -> Prop :=
| step_call_enq c v : prod c = PIdle -> v <> 0 ->
    step c (CallEnq v) (c <| prod := PReadHead v |>)
| step_call_deq c : cons c = CIdle -> step c CallDeq (c <| cons := CReadHead |>)
| step_prod c l c' : pstep c = Some (l, c') -> step c l c'
| step_cons c l c' : cstep c = Some (l, c') -> step c l c'.

(** The queue as an object whose operations take effect at one instant between their
    call and their return. *)
Inductive pending (A : Type) :=
| Idle
| Pending (a : A)
| Done (r : Z).
#[global] Arguments Idle {A}.
#[global] Arguments Pending {A} a.
#[global] Arguments Done {A} r.

Record atomic := Atomic { items : list Z; aprod : pending Z; acons : pending unit }.

Inductive astep (cap : Z) : atomic -> label -> atomic -> Prop :=
| a_call_enq l c v : v <> 0 ->
    astep cap (Atomic l Idle c) (CallEnq v) (Atomic l (Pending v) c)
| a_enq l c v : zlen l < cap ->
    astep cap (Atomic l (Pending v) c) Tau (Atomic (l ++ [v]) (Done 0) c)
| a_enq_full l c v : zlen l = cap ->
    astep cap (Atomic l (Pending v) c) Tau (Atomic l (Done (-1)) c)
| a_ret_enq l c r : astep cap (Atomic l (Done r) c) (RetEnq r) (Atomic l Idle c)
| a_call_deq l p : astep cap (Atomic l p Idle) CallDeq (Atomic l p (Pending ()))
| a_deq l p v : astep cap (Atomic (v :: l) p (Pending ())) Tau (Atomic l p (Done v))
| a_deq_empty p : astep cap (Atomic [] p (Pending ())) Tau (Atomic [] p (Done 0))
| a_ret_deq l p r : astep cap (Atomic l p (Done r)) (RetDeq r) (Atomic l p Idle).

(** Runs, with the calls and returns they show. *)
Definition show (l : label) : list label := match l with Tau => [] | _ => [l] end.

Inductive run {S} (R : S -> label -> S -> Prop) : S -> list label -> S -> Prop :=
| run_refl s : run R s [] s
| run_step s1 h s2 l s3 : run R s1 h s2 -> R s2 l s3 -> run R s1 (h ++ show l) s3.

Definition initial (sq : click_queue) : config := Config sq PIdle CIdle.

(** *** The simulation *)

Definition sim_prod (sq : click_queue) (p : producer) (a : pending Z) : Prop :=
  match p with
  | PIdle => a = Idle
  | PReadHead v => v <> 0 /\ a = Pending v
  | PReadTail v h =>
      (NextIndex sq (_tail sq) = h /\ a = Done (-1)) \/
      (NextIndex sq (_tail sq) <> h /\ v <> 0 /\ a = Pending v /\ count sq < _capacity sq)
  | PStore v t nt =>
      v <> 0 /\ a = Pending v /\ t = _tail sq /\ nt = NextIndex sq t /\
      count sq < _capacity sq
  | PPublish nt =>
      let v := nth (Z.to_nat (_tail sq)) (_q sq) 0 in
      v <> 0 /\ a = Pending v /\ nt = NextIndex sq (_tail sq) /\ count sq < _capacity sq
  | PReturn r => a = Done r
  end.

Definition sim_cons (sq : click_queue) (p : consumer) (a : pending unit) : Prop :=
  match p with
  | CIdle => a = Idle
  | CReadHead => a = Pending ()
  | CReadTail h => a = Pending () /\ h = _head sq
  | CLoad h => a = Pending () /\ h = _head sq /\ 0 < count sq
  | CAdvance h v =>
      a = Pending () /\ h = _head sq /\ 0 < count sq /\
      v = nth (Z.to_nat (_head sq)) (_q sq) 0
  | CReturn r => a = Done r
  end.

Definition sim (cap : Z) (c : config) (a : atomic) : Prop :=
  wf (queue c) /\ _capacity (queue c) = cap /\ items a = contents (queue c) /\
  sim_prod (queue c) (prod c) (aprod a) /\ sim_cons (queue c) (cons c) (acons a).

Lemma sim_cons_frame sq sq' p a :
  sim_cons sq p a -> _head sq' = _head sq ->
  (0 < count sq -> 0 < count sq' /\
     nth (Z.to_nat (_head sq)) (_q sq') 0 = nth (Z.to_nat (_head sq)) (_q sq) 0) ->
  sim_cons sq' p a.
Proof.
  intros Hc Hh Hn. destruct p; cbn in *; try done; rewrite Hh.
  - done.
  - destruct Hc as (-> & -> & Hp). by destruct (Hn Hp).
  - destruct Hc as (-> & -> & Hp & ->). by destruct (Hn Hp) as [? ->].
Qed.

Lemma sim_prod_frame sq sq' p a :
  sim_prod sq p a -> _tail sq' = _tail sq -> _q sq' = _q sq ->
  _capacity sq' = _capacity sq -> count sq' <= count sq -> sim_prod sq' p a.
Proof.
  intros Hp Ht Hq Hc Hn.
  destruct p; cbn in *; unfold NextIndex in *; rewrite ?Ht, ?Hq, ?Hc in *; try done.
  - destruct Hp as [Hp|(? & ? & ? & ?)]; [by left|right; split_and!; [done..|lia]].
  - destruct Hp as (? & ? & ? & ? & ?). split_and!; [done..|lia].
  - destruct Hp as (? & ? & ? & ?). split_and!; [done..|lia].
Qed.

Lemma count_publish sq :
  shape sq -> count sq < _capacity sq ->
  count (sq <| _tail := NextIndex sq (_tail sq) |>) = count sq + 1.
Proof.
  intros Hs Hc.
  assert (Hs' : shape (sq <| _tail := NextIndex sq (_tail sq) |>)).
  { apply shape_tail; [done|]. apply NextIndex_range; [done|apply Hs]. }
  rewrite <- contents_zlen, publish_tail, zlen_app, contents_zlen; try done.
  rewrite full_iff by done. lia.
Qed.

Lemma count_advance sq :
  shape sq -> 0 < count sq ->
  count (sq <| _head := NextIndex sq (_head sq) |>) = count sq - 1.
Proof.
  intros Hs Hc.
  assert (Hs' : shape (sq <| _head := NextIndex sq (_head sq) |>)).
  { apply shape_head; [done|]. apply NextIndex_range; [done|apply Hs]. }
  rewrite <- (contents_zlen _ Hs'), <- (contents_zlen _ Hs), (advance_head sq Hs).
  - rewrite zlen_cons. lia.
  - rewrite empty_iff by done. lia.
Qed.

Lemma store_head_same sq v :
  shape sq -> 0 < count sq ->
  nth (Z.to_nat (_head sq)) (insert (Z.to_nat (_tail sq)) v (_q sq)) 0 =
  nth (Z.to_nat (_head sq)) (_q sq) 0.
Proof.
  intros Hs Hc. rewrite !nth_lookup, list_lookup_insert_ne; [done|].
  intros E. assert (E2 : _head sq = _tail sq) by (destruct Hs as (? & ? & ? & ?); lia).
  rewrite empty_iff in E2 by done. lia.
Qed.

(** The step of one thread is a step of the atomic queue or invisible to it. *)
Definition answers (cap : Z) (l : label) (c' : config) (a : atomic) : Prop :=
  exists a', (l = Tau /\ a' = a \/ astep cap a l a') /\ sim cap c' a'.

Ltac stutter := eexists; split; [by left|].
Ltac answer r := eexists; split; [right; apply r; try done|].
Ltac mksim := unfold sim; cbn; split_and!; try done.

Lemma pstep_sim cap c a :
  sim cap c a -> prod c <> PIdle ->
  exists l c', pstep c = Some (l, c') /\ answers cap l c' a.
Proof.
  intros (Hwf & Hcap & Hl & Hp & Hc) Hne. pose proof Hwf as [Hs Hnz].
  destruct c as [sq p cn], a as [l ap ac]; cbn in *. subst l.
  destruct p as [|v|v h|v t nt|nt|r]; [done|..]; cbn in *.
  - destruct Hp as [Hv ->]. do 2 eexists. split; [done|].
    destruct (decide (NextIndex sq (_tail sq) = _head sq)) as [E|E].
    + answer a_enq_full; [|mksim; by left].
      rewrite contents_zlen by done. apply full_iff in E; congruence.
    + stutter. mksim. right. split_and!; try done.
      pose proof (count_range _ Hs). rewrite full_iff in E by done. lia.
  - do 2 eexists. split; [done|]. stutter. mksim.
    destruct Hp as [[-> ->]|(E & Hv & -> & Hr)].
    + by rewrite Z.eqb_refl.
    + apply Z.eqb_neq in E. rewrite E. by split_and!.
  - destruct Hp as (Hv & -> & -> & -> & Hr).
    unfold store, mbind, M_bind, get, put; cbn.
    rewrite bounds_true by (done || apply Hs). cbn.
    do 2 eexists. split; [done|]. stutter.
    mksim; rewrite ?store_free, ?nth_store by done; try done.
    + split; [by apply shape_store|by rewrite store_free].
    + eapply sim_cons_frame; [done..|]. cbn. intros Hpos.
      split; [done|]. by rewrite store_head_same.
  - destruct Hp as (Hv & -> & -> & Hr). do 2 eexists. split; [done|].
    answer a_enq; [by rewrite contents_zlen, <- Hcap|].
    assert (Hf : NextIndex sq (_tail sq) <> _head sq) by (rewrite full_iff by done; lia).
    mksim; rewrite ?publish_tail by done; try done.
    + split; [|rewrite publish_tail by done].
      * apply shape_tail; [done|]. apply NextIndex_range; [done|apply Hs].
      * apply Forall_app. split; [done|]. by apply Forall_singleton.
    + eapply sim_cons_frame; [done..|]. intros Hpos. rewrite count_publish by done.
      split; [lia|done].
  - subst ap. do 2 eexists. split; [done|]. answer a_ret_enq. by mksim.
Qed.

Lemma cstep_sim cap c a :
  sim cap c a -> cons c <> CIdle ->
  exists l c', cstep c = Some (l, c') /\ answers cap l c' a.
Proof.
  intros (Hwf & Hcap & Hl & Hp & Hc) Hne. pose proof Hwf as [Hs Hnz].
  destruct c as [sq p cn], a as [l ap ac]; cbn in *. subst l.
  destruct cn as [| |h|h|h v|r]; [done|..]; cbn in *.
  - subst ac. do 2 eexists. split; [done|]. stutter. by mksim.
  - destruct Hc as [-> ->]. do 2 eexists. split; [done|].
    destruct (Z.eqb_spec (_head sq) (_tail sq)) as [E|E]; cbn.
    + apply empty_iff in E; [|done].
      assert (E2 : contents sq = []) by (unfold contents; by rewrite E).
      rewrite E2. answer a_deq_empty. by mksim.
    + stutter. mksim.
      rewrite empty_iff in E by done. pose proof (count_range _ Hs). lia.
  - destruct Hc as (-> & -> & Hpos). unfold load, mbind, M_bind, get; cbn.
    rewrite bounds_true by (done || apply Hs). cbn.
    do 2 eexists. split; [done|]. stutter. by mksim.
  - destruct Hc as (-> & -> & Hpos & ->).
    assert (E : _head sq <> _tail sq) by (rewrite empty_iff by done; lia).
    pose proof (advance_head sq Hs E) as Hadv. rewrite Hadv in Hnz.
    apply list.Forall_cons in Hnz as [Hv Hnz].
    rewrite (proj2 (Z.eqb_neq _ _) Hv). do 2 eexists. split; [done|].
    rewrite Hadv. answer a_deq.
    mksim.
    + split; [|done]. apply shape_head; [done|]. apply NextIndex_range; [done|apply Hs].
    + eapply sim_prod_frame; [done..|]. rewrite count_advance by done. lia.
  - subst ac. do 2 eexists. split; [done|]. answer a_ret_deq. by mksim.
Qed.

Lemma step_sim cap c l c' a : step c l c' -> sim cap c a -> answers cap l c' a.
Proof.
  intros Hstep Hsim. destruct Hstep as [c v Hi Hv|c Hi|c l c' E|c l c' E].
  - destruct Hsim as (? & ? & ? & Hp & ?). destruct a as [it ap ac]; cbn in *.
    rewrite Hi in Hp. cbn in Hp. subst ap. answer a_call_enq. by mksim.
  - destruct Hsim as (? & ? & ? & ? & Hc). destruct a as [it ap ac]; cbn in *.
    rewrite Hi in Hc. cbn in Hc. subst ac. answer a_call_deq. by mksim.
  - destruct (pstep_sim _ _ _ Hsim) as (? & ? & E2 & Ha).
    + intros Hi. unfold pstep in E. by rewrite Hi in E.
    + rewrite E in E2. by simplify_eq.
  - destruct (cstep_sim _ _ _ Hsim) as (? & ? & E2 & Ha).
    + intros Hi. unfold cstep in E. by rewrite Hi in E.
    + rewrite E in E2. by simplify_eq.
Qed.

Lemma run_sim sq h c :
  wf sq -> contents sq = [] -> run step (initial sq) h c ->
  exists a, run (astep (_capacity sq)) (Atomic [] Idle Idle) h a /\ sim (_capacity sq) c a.
Proof.
  intros Hwf He Hrun. remember (initial sq) as c0 eqn:E0.
  induction Hrun as [c|c1 h c2 l c3 Hrun IH Hstep]; subst.
  - exists (Atomic [] Idle Idle). split; [constructor|]. by mksim.
  - destruct (IH eq_refl) as (a & Ha & Hsim).
    destruct (step_sim _ _ _ _ _ Hstep Hsim) as (a' & [[-> ->]|Hs] & Hsim').
    + exists a. cbn. by rewrite app_nil_r.
    + exists a'. split; [|done]. by econstructor.
Qed.

(** C33: the lock-free ring is linearizable.  Every history of calls and returns that a
    producer thread running [StreamEnqueue] and a consumer thread running
    [StreamDequeue] can show, with their shared accesses interleaved in any order, is a
    history of an atomic FIFO of the queue's capacity. *)
Theorem spsc_linearizable (capacity : Z) (sq : click_queue) (h : list label) (c : config) :
  0 <= capacity < 2147483648 ->
  CreateStreamQueue true true capacity = Some sq ->
  run step (initial sq) h c ->
  exists a, run (astep capacity) (Atomic [] Idle Idle) h a /\
            items a = contents (queue c).
Proof.
  intros Hc Hn Hrun. destruct (CreateQueue_wf _ _ Hc Hn) as (Hwf & He & Hcap).
  destruct (run_sim _ _ _ Hwf He Hrun) as (a & Ha & Hsim). rewrite Hcap in Ha.
  exists a. split; [done|]. apply Hsim.
Qed.

(** neither thread is ever stuck: in every reachable configuration a thread inside an
    operation has a next access, so no index leaves the array and the assertion on the
    dequeued pointer does not fail. *)
Theorem spsc_safe (capacity : Z) (sq : click_queue) (h : list label) (c : config) :
  0 <= capacity < 2147483648 ->
  CreateStreamQueue true true capacity = Some sq ->
  run step (initial sq) h c ->
  (prod c <> PIdle -> is_Some (pstep c)) /\ (cons c <> CIdle -> is_Some (cstep c)).
Proof.
  intros Hc Hn Hrun. destruct (CreateQueue_wf _ _ Hc Hn) as (Hwf & He & Hcap).
  destruct (run_sim _ _ _ Hwf He Hrun) as (a & Ha & Hsim). split; intros Hi.
  - destruct (pstep_sim _ _ _ Hsim Hi) as (? & ? & -> & _). eauto.
  - destruct (cstep_sim _ _ _ Hsim Hi) as (? & ? & -> & _). eauto.
Qed.

(** A run in which the consumer overtakes the producer between its two accesses. *)
Definition demo_queue : click_queue := ClickQueue 2 0 0 [0; 0; 0].

Lemma demo_run :
  exists c, run step (initial demo_queue) [CallEnq 7; CallDeq; RetDeq 0] c.
Proof.
  eexists.
  change [CallEnq 7; CallDeq; RetDeq 0] with
    ((((((([] ++ show (CallEnq 7)) ++ show CallDeq) ++ show Tau) ++ show Tau) ++ show Tau)
        ++ show Tau) ++ show (RetDeq 0)).
  eapply run_step; [eapply run_step; [eapply run_step; [eapply run_step; [eapply run_step;
    [eapply run_step; [eapply run_step; [apply run_refl|]|]|]|]|]|]|].
  - by apply step_call_enq.
  - by apply step_call_deq.
  - by apply step_prod.
  - by apply step_cons.
  - by apply step_prod.
  - by apply step_cons.
  - by apply step_cons.
Defined.

Lemma spsc_linearizable_witness :
  exists a, run (astep 2) (Atomic [] Idle Idle) [CallEnq 7; CallDeq; RetDeq 0] a.
Proof.
  destruct demo_run as [c Hc].
  destruct (spsc_linearizable 2 demo_queue _ c ltac:(lia) eq_refl Hc) as (a & Ha & _).
  by exists a.
Defined.

Lemma spsc_safe_witness :
  exists c, run step (initial demo_queue) [CallEnq 7; CallDeq; RetDeq 0] c /\
            (prod c <> PIdle -> is_Some (pstep c)).
Proof.
  destruct demo_run as [c Hc]. exists c. split; [done|].
  exact (proj1 (spsc_safe 2 demo_queue _ c ltac:(lia) eq_refl Hc)).
Defined.

End Spsc.

(** ** The counted ring *)

Module Internal.

(** [struct stream_queue_int] *)
Record stream_queue_int := StreamQueueInt {
  array : list Z;
  size : Z;
  first : Z;
  last : Z;
  count : Z
}.

#[global] Instance stream_queue_int_eta : Settable stream_queue_int :=
  fun q => StreamQueueInt (array q) (size q) (first q) (last q) (count q).

Definition CreateInternalStreamQueue (calloc_sq calloc_array : bool) (n : Z) :
    option stream_queue_int :=
  if negb calloc_sq then None
  else if negb calloc_array then None
  else Some (StreamQueueInt (replicate (Z.to_nat n) 0) n 0 0 0).

Definition StreamInternalEnqueue (stream : Z) : M stream_queue_int Z :=
  sq ← get;
  if size sq <=? count sq then mret (-1)
  else
    (if (0 <=? last sq) && (last sq <? zlen (array sq))
     then put (sq <| array ::= insert (Z.to_nat (last sq)) stream |> <| last := last sq + 1 |>)
     else throw OutOfBounds);;
    modify (fun sq => sq <| count := count sq + 1 |>);;
    sq ← get;
    whenM (size sq <=? last sq) (modify (fun sq => sq <| last := 0 |>));;
    sq ← get;
    assertM (count sq <=? size sq);;
    mret 0.

Definition StreamInternalDequeue : M stream_queue_int Z :=
  sq ← get;
  if count sq <=? 0 then mret 0
  else
    stream ← (if (0 <=? first sq) && (first sq <? zlen (array sq))
              then mret (nth (Z.to_nat (first sq)) (array sq) 0)
              else throw OutOfBounds);
    modify (fun sq => sq <| first := first sq + 1 |>);;
    assertM (negb (stream =? 0));;
    sq ← get;
    whenM (size sq <=? first sq) (modify (fun sq => sq <| first := 0 |>));;
    modify (fun sq => sq <| count := count sq - 1 |>);;
    sq ← get;
    assertM (0 <=? count sq);;
    mret stream.

Definition contents (sq : stream_queue_int) : list Z :=
  ring (array sq) (first sq) (Z.to_nat (count sq)).

Definition wf (sq : stream_queue_int) : Prop :=
  0 < size sq /\ zlen (array sq) = size sq /\ 0 <= first sq < size sq /\
  0 <= last sq < size sq /\ 0 <= count sq <= size sq /\
  last sq = (first sq + count sq) mod size sq /\
  Forall (fun v => v <> 0) (contents sq).

Lemma int_contents_zlen sq : wf sq -> zlen (contents sq) = count sq.
Proof.
  intros (? & ? & ? & ? & ? & _). unfold contents, zlen. rewrite ring_length. lia.
Qed.

(** Advancing an index with a conditional reset is advancing it modulo the size. *)
Lemma wrap_mod i n : 0 <= i < n -> (if n <=? i + 1 then 0 else i + 1) = (i + 1) mod n.
Proof.
  intros Hi. destruct (Z.leb_spec n (i + 1)).
  - replace (i + 1) with n by lia. by rewrite Z_mod_same_full.
  - rewrite Z.mod_small; lia.
Qed.

Lemma enqueue_room sq v :
  wf sq -> count sq < size sq ->
  StreamInternalEnqueue v sq =
    Ok 0 (StreamQueueInt (insert (Z.to_nat (last sq)) v (array sq)) (size sq) (first sq)
            ((last sq + 1) mod size sq) (count sq + 1)).
Proof.
  intros (? & Ha & ? & ? & ? & Hl & _) Hc.
  unfold StreamInternalEnqueue, mbind, M_bind, get, put, modify, whenM, assertM.
  rewrite (proj2 (Z.leb_gt _ _)) by lia. cbn.
  rewrite (proj2 (Z.leb_le 0 (last sq))), (proj2 (Z.ltb_lt _ _)) by lia. cbn.
  rewrite <- wrap_mod by lia.
  destruct (size sq <=? last sq + 1); cbn;
    rewrite (proj2 (Z.leb_le (count sq + 1) (size sq))) by lia; done.
Qed.

Lemma dequeue_some sq v l :
  wf sq -> contents sq = v :: l ->
  StreamInternalDequeue sq =
    Ok v (StreamQueueInt (array sq) (size sq) ((first sq + 1) mod size sq) (last sq)
            (count sq - 1)) /\
  v <> 0 /\ 0 < count sq /\
  ring (array sq) ((first sq + 1) mod size sq) (Z.to_nat (count sq - 1)) = l.
Proof.
  intros (? & Ha & ? & ? & ? & Hl & Hnz) Hv.
  assert (Hpos : 0 < count sq).
  { destruct (decide (count sq = 0)) as [E|]; [|lia]. unfold contents in Hv. by rewrite E in Hv. }
  rewrite Hv in Hnz. apply list.Forall_cons in Hnz as [Hv0 _].
  unfold contents in Hv.
  replace (Z.to_nat (count sq)) with (S (Z.to_nat (count sq - 1))) in Hv by lia.
  injection Hv as Hx Hr. unfold ring_cell in Hx. rewrite Ha, Z.mod_small in Hx by lia.
  split_and!; [|done|done|by rewrite <- Ha, ring_mod].
  unfold StreamInternalDequeue, mbind, M_bind, get, modify, whenM, assertM.
  rewrite (proj2 (Z.leb_gt _ _)) by lia. cbn.
  rewrite (proj2 (Z.leb_le 0 (first sq))), (proj2 (Z.ltb_lt _ _)) by lia. cbn.
  rewrite Hx, (proj2 (Z.eqb_neq _ _) Hv0). cbn.
  rewrite <- wrap_mod by lia.
  destruct (size sq <=? first sq + 1); cbn;
    rewrite (proj2 (Z.leb_le 0 (count sq - 1))) by lia; done.
Qed.

#[global] Program Instance internal_fifo : BoundedFifo stream_queue_int := {
  fifo_inv := wf;
  fifo_cap := size;
  fifo_view := contents;
  fifo_enq := StreamInternalEnqueue;
  fifo_deq := StreamInternalDequeue
}.
Next Obligation.
  intros sq v Hwf Hv Hlen. rewrite int_contents_zlen in Hlen by done.
  eexists. split; [by apply enqueue_room|].
  destruct Hwf as (? & Ha & ? & ? & ? & Hl & Hnz).
  assert (E : ring (insert (Z.to_nat (last sq)) v (array sq)) (first sq)
                (Z.to_nat (count sq + 1)) = contents sq ++ [v]).
  { unfold contents. replace (Z.to_nat (count sq + 1)) with (S (Z.to_nat (count sq))) by lia.
    apply ring_insert_end; try lia. rewrite Hl, Ha, Zminus_mod_idemp_l.
    replace (first sq + count sq - first sq) with (count sq) by lia.
    rewrite Z2Nat.id by lia. apply Z.mod_small. lia. }
  split_and!; [|exact E|done]. unfold wf, contents, zlen in *; cbn.
  rewrite length_insert, E. pose proof (Z.mod_pos_bound (last sq + 1) (size sq)).
  split_and!; try lia.
  - rewrite Hl, Zplus_mod_idemp_l. f_equal. lia.
  - apply Forall_app. split; [done|]. by apply Forall_singleton.
Qed.
Next Obligation.
  intros sq v Hwf Hlen. rewrite int_contents_zlen in Hlen by done.
  unfold StreamInternalEnqueue, mbind, M_bind, get. by rewrite (proj2 (Z.leb_le _ _) Hlen).
Qed.
Next Obligation.
  intros sq v l Hwf Hv. destruct (dequeue_some sq v l Hwf Hv) as (Hd & Hv0 & Hpos & Hr).
  eexists. split; [done|]. split_and!; [|exact Hr|done].
  destruct Hwf as (? & Ha & ? & ? & ? & Hl & Hnz). rewrite Hv in Hnz.
  apply list.Forall_cons in Hnz as [_ Hnz].
  unfold wf, contents; cbn. rewrite Hr.
  pose proof (Z.mod_pos_bound (first sq + 1) (size sq)). split_and!; try lia; try done.
  rewrite Hl, Zplus_mod_idemp_l. f_equal. lia.
Qed.
Next Obligation.
  intros sq Hwf Hl. apply (f_equal zlen) in Hl. rewrite int_contents_zlen in Hl by done.
  unfold StreamInternalDequeue, mbind, M_bind, get. by rewrite Hl.
Qed.
Next Obligation.
  intros sq Hwf. rewrite int_contents_zlen by done. apply Hwf.
Qed.
Next Obligation.
  intros sq v Hwf Hv. destruct Hwf as (_ & _ & _ & _ & _ & _ & Hnz).
  exact (proj1 (list.Forall_forall _ _) Hnz v Hv).
Qed.

Lemma CreateInternalStreamQueue_wf n sq :
  0 < n -> CreateInternalStreamQueue true true n = Some sq ->
  wf sq /\ contents sq = [] /\ size sq = n.
Proof.
  intros Hn [= <-]. split_and!; [|done|done].
  unfold wf, zlen; cbn. rewrite length_replicate, Z.mod_0_l by lia.
  split_and!; try lia. constructor.
Qed.

End Internal.

(** ** Sequences of calls *)

(** A call of a client, and what it answers on a list used as the queue. *)
Inductive call := CEnq (v : Z) | CDeq.

Section Calls.
Context {Q : Type} `{BoundedFifo Q}.

Fixpoint calls (ops : list call) : M Q (list Z) :=
  match ops with
  | [] => mret []
  | op :: ops' =>
      r ← (match op with CEnq v => fifo_enq v | CDeq => fifo_deq end);
      rs ← calls ops';
      mret (r :: rs)
  end.

Fixpoint spec_calls (cap : Z) (l : list Z) (ops : list call) : list Z * list Z :=
  match ops with
  | [] => ([], l)
  | CEnq v :: ops' =>
      if zlen l <? cap
      then let '(rs, l') := spec_calls cap (l ++ [v]) ops' in (0 :: rs, l')
      else let '(rs, l') := spec_calls cap l ops' in (-1 :: rs, l')
  | CDeq :: ops' =>
      match l with
      | [] => let '(rs, l') := spec_calls cap [] ops' in (0 :: rs, l')
      | v :: k => let '(rs, l') := spec_calls cap k ops' in (v :: rs, l')
      end
  end.

Definition proper_call (op : call) : Prop :=
  match op with CEnq v => v <> 0 | CDeq => True end.

Lemma calls_refine ops q :
  fifo_inv q -> Forall proper_call ops ->
  exists q', calls ops q = Ok (spec_calls (fifo_cap q) (fifo_view q) ops).1 q' /\
    fifo_inv q' /\ fifo_view q' = (spec_calls (fifo_cap q) (fifo_view q) ops).2 /\
    fifo_cap q' = fifo_cap q.
Proof.
  intros Hinv Hops. revert q Hinv.
  induction Hops as [|op ops Hop Hops IH]; intros q Hinv; [by exists q|].
  cbn [calls]. unfold mbind, M_bind. destruct op as [v|]; cbn [proper_call spec_calls] in *.
  - destruct (Z.ltb_spec (zlen (fifo_view q)) (fifo_cap q)) as [Hr|Hr].
    + destruct (fifo_enq_room q v Hinv Hop Hr) as (q1 & -> & Hi & Hv & Hc).
      destruct (IH q1 Hi) as (q' & -> & ? & ? & ?). rewrite Hv, Hc in *.
      destruct (spec_calls _ _ ops); cbn in *. by exists q'.
    + rewrite (fifo_enq_full q v Hinv Hr). destruct (IH q Hinv) as (q' & -> & ? & ? & ?).
      destruct (spec_calls _ _ ops); cbn in *. by exists q'.
  - destruct (fifo_view q) as [|v l] eqn:Hv.
    + rewrite (fifo_deq_none q Hinv Hv). destruct (IH q Hinv) as (q' & -> & ? & ? & ?).
      rewrite Hv in *. destruct (spec_calls _ _ ops); cbn in *. by exists q'.
    + destruct (fifo_deq_some q v l Hinv Hv) as (q1 & -> & Hi & Hv1 & Hc).
      destruct (IH q1 Hi) as (q' & -> & ? & ? & ?). rewrite Hv1, Hc in *.
      destruct (spec_calls _ _ ops); cbn in *. by exists q'.
Qed.

End Calls.

(** from its creation on, every sequence of [StreamInternalEnqueue] and
    [StreamInternalDequeue] calls answers as a list of at most [n] pointers does and
    ends with that list as its contents; no assertion fails and no array access is out of
    bounds. *)
Theorem internal_queue_refines_list (n : Z) (sq : Internal.stream_queue_int) (ops : list call) :
  0 < n -> Internal.CreateInternalStreamQueue true true n = Some sq ->
  Forall proper_call ops ->
  exists sq', calls ops sq = Ok (spec_calls n [] ops).1 sq' /\
              Internal.contents sq' = (spec_calls n [] ops).2.
Proof.
  intros Hn Hc Hops. destruct (Internal.CreateInternalStreamQueue_wf _ _ Hn Hc) as (Hwf & He & <-).
  destruct (@calls_refine _ Internal.internal_fifo ops sq Hwf Hops) as (sq' & Hcalls & _ & Hv & _).
  exists sq'. cbn in *. by rewrite He in *.
Qed.

Lemma internal_queue_refines_list_witness :
  exists sq', calls [CEnq 5; CEnq 6; CEnq 7; CDeq; CEnq 8; CDeq]
      (Internal.StreamQueueInt [0; 0] 2 0 0 0) = Ok [0; 0; -1; 5; 0; 6] sq' /\
    Internal.contents sq' = [8].
Proof.
  apply (internal_queue_refines_list 2); [lia|reflexivity|].
  repeat constructor; unfold proper_call; lia.
Defined.
