(* ===== verification/MemPool.v ===== *)
(** * Chunk pools

    The fixed-size chunk allocator of [memory_mgt.c] (the variant the source carries
    itself; the other one forwards to a library pool).  A free chunk holds the header of
    a run of consecutive free chunks and the link to the next run; an allocated chunk
    belongs to the client, which overwrites the header.

    [ChunkPool] is the contract the buffers and streams rely on. *)

From S2P Require Import Prelude.

(** ** The contract of a pool

    [cp_inv p F]: the pool is well formed and [F] is the set of its free chunks. *)
Class ChunkPool (P : Type) := {
  cp_inv : P -> gset Z -> Prop;
  cp_chunks : P -> gset Z;
  cp_alloc : M P Z;
  cp_free : Z -> M P unit;
  cp_free_chunks p F : cp_inv p F -> F ⊆ cp_chunks p;
  cp_nonnull p F : cp_inv p F -> 0 ∉ cp_chunks p;
  cp_alloc_none p : cp_inv p ∅ -> cp_alloc p = Ok 0 p;
  cp_alloc_some p F :
    cp_inv p F -> F <> ∅ ->
    exists a p', cp_alloc p = Ok a p' /\ a ∈ F /\ cp_inv p' (F ∖ {[a]}) /\
                 cp_chunks p' = cp_chunks p;
  cp_free_ok p F a :
    cp_inv p F -> a ∈ cp_chunks p -> a ∉ F ->
    exists p', cp_free a p = Ok tt p' /\ cp_inv p' ({[a]} ∪ F) /\
               cp_chunks p' = cp_chunks p
}.

(** ** The pool *)

(** [mem_chunk], 16 bytes. *)
Record mem_chunk := MemChunk { mc_free_chunks : Z; mc_next : Z }.

#[export] Instance mem_chunk_eta : Settable mem_chunk :=
  fun c => MemChunk (mc_free_chunks c) (mc_next c).

Definition sizeof_mem_chunk : Z := 16.

(** [mem_pool], with the memory its chunk pointers refer to: the header found at an
    address. *)
Record mem_pool := MemPool {
  mp_startptr : Z;
  mp_freeptr : Z;
  mp_free_chunks : Z;
  mp_total_chunks : Z;
  mp_chunk_size : Z;
  mp_type : Z;
  mp_mem : gmap Z mem_chunk
}.

#[export] Instance mem_pool_eta : Settable mem_pool :=
  fun m => MemPool (mp_startptr m) (mp_freeptr m) (mp_free_chunks m) (mp_total_chunks m)
             (mp_chunk_size m) (mp_type m) (mp_mem m).

(** Dereferencing a chunk pointer. *)
Definition chunk_read (p : Z) : M mem_pool mem_chunk :=
  mp ← get;
  if p =? 0 then throw NullPointer else unwrap OutOfBounds (mp_mem mp !! p).

Definition chunk_write (p : Z) (c : mem_chunk) : M mem_pool unit :=
  if p =? 0 then throw NullPointer
  else modify (fun mp => mp <| mp_mem ::= insert p c |>).

(** [calloc_ok]: the descriptor was allocated; [block]: the address [posix_memalign]
    returned, if any.  A failed [calloc] exits, a failed [posix_memalign] asserts. *)
Definition MPCreate (calloc_ok : bool) (block : option Z) (chunk_size total_size : Z) :
    outcome unit (option mem_pool) :=
  if u64 chunk_size <? sizeof_mem_chunk then Ok None tt
  else if negb (Z.rem chunk_size 4 =? 0) then Ok None tt
  else if negb calloc_ok then Fault ProcessExit
  else
    let free_chunks := i32 (u64 (total_size + u64 (chunk_size - 1)) / u64 chunk_size) in
    match block with
    | None => Fault AssertFail
    | Some start =>
        Ok (Some (MemPool start start free_chunks free_chunks chunk_size 0
                    {[ start := MemChunk free_chunks 0 ]})) tt
    end.

Definition MPAllocateChunk : M mem_pool Z :=
  mp ← get;
  let p := mp_freeptr mp in
  if mp_free_chunks mp =? 0 then mret 0
  else
    c ← chunk_read p;
    assertM ((0 <? mc_free_chunks c) && (mc_free_chunks c <=? mc_free_chunks c));;
    chunk_write p (c <| mc_free_chunks := mc_free_chunks c - 1 |>);;
    modify (fun mp => mp <| mp_free_chunks := mp_free_chunks mp - 1 |>);;
    c ← chunk_read p;
    (if negb (mc_free_chunks c =? 0) then
       let q := p + mp_chunk_size mp in
       modify (fun mp => mp <| mp_freeptr := q |>);;
       chunk_write q (MemChunk (mc_free_chunks c) (mc_next c))
     else
       modify (fun mp => mp <| mp_freeptr := mc_next c |>));;
    mret p.

Definition MPFreeChunk (p : Z) : M mem_pool unit :=
  mp ← get;
  assertM (Z.rem (p - mp_startptr mp) (mp_chunk_size mp) =? 0);;
  chunk_write p (MemChunk 1 (mp_freeptr mp));;
  modify (fun mp => mp <| mp_freeptr := p |>
                       <| mp_free_chunks := mp_free_chunks mp + 1 |>).

Definition MPGetFreeChunks (mp : mem_pool) : Z := mp_free_chunks mp.

(** ** The free list *)

(** [n] consecutive chunks of size [cs] from [p] on. *)
Fixpoint run_chunks (cs p : Z) (n : nat) : list Z :=
  match n with
  | O => []
  | S n' => p :: run_chunks cs (p + cs) n'
  end.

(** The chunks on the list of runs that starts at a pointer. *)
Inductive free_runs (mem : gmap Z mem_chunk) (cs : Z) : Z -> list Z -> Prop :=
| fr_nil : free_runs mem cs 0 []
| fr_cons p n next F :
    p <> 0 -> mem !! p = Some (MemChunk (Z.of_nat (S n)) next) ->
    free_runs mem cs next F -> free_runs mem cs p (run_chunks cs p (S n) ++ F).

Definition is_chunk (mp : mem_pool) (a : Z) : Prop :=
  exists i, 0 <= i < mp_total_chunks mp /\ a = mp_startptr mp + i * mp_chunk_size mp.

Definition wf (mp : mem_pool) (F : list Z) : Prop :=
  0 < mp_startptr mp /\ sizeof_mem_chunk <= mp_chunk_size mp /\
  free_runs (mp_mem mp) (mp_chunk_size mp) (mp_freeptr mp) F /\
  NoDup F /\ (forall a, a ∈ F -> is_chunk mp a) /\ mp_free_chunks mp = zlen F.

Lemma free_runs_frame mem mem' cs p F :
  free_runs mem cs p F -> (forall a, a ∈ F -> mem' !! a = mem !! a) ->
  free_runs mem' cs p F.
Proof.
  induction 1 as [|p n next F Hp Hm Hr IH]; intros Hf; [constructor|].
  econstructor; [done| |].
  - rewrite Hf, Hm; [done|]. rewrite elem_of_app. left. cbn. apply list_elem_of_here.
  - apply IH. intros a Ha. apply Hf. rewrite elem_of_app. by right.
Qed.

Lemma free_runs_null mem cs F : free_runs mem cs 0 F -> F = [].
Proof. inversion 1; done. Qed.

Lemma is_chunk_pos mp a :
  0 < mp_startptr mp -> sizeof_mem_chunk <= mp_chunk_size mp -> is_chunk mp a -> 0 < a.
Proof. unfold sizeof_mem_chunk. intros Hs Hc (i & Hi & ->). nia. Qed.

(** The client may write to any chunk that is not free. *)
Lemma wf_client_write mp F a c :
  wf mp F -> a ∉ F -> wf (mp <| mp_mem ::= insert a c |>) F.
Proof.
  intros (? & ? & Hr & ? & ? & ?) Ha. unfold wf; cbn. split_and!; try done.
  eapply free_runs_frame; [done|]. intros b Hb. apply lookup_insert_ne. congruence.
Qed.

Lemma MPAllocateChunk_none mp : wf mp [] -> MPAllocateChunk mp = Ok 0 mp.
Proof.
  intros (_ & _ & _ & _ & _ & Hn). unfold MPAllocateChunk, mbind, M_bind, get. by rewrite Hn.
Qed.

Lemma MPAllocateChunk_some mp a F :
  wf mp (a :: F) ->
  exists mp', MPAllocateChunk mp = Ok a mp' /\ wf mp' F /\
    mp_startptr mp' = mp_startptr mp /\ mp_chunk_size mp' = mp_chunk_size mp /\
    mp_total_chunks mp' = mp_total_chunks mp.
Proof.
  intros (Hs & Hc & Hr & Hnd & Hin & Hn). rewrite zlen_cons in Hn.
  pose proof (zlen_nonneg F) as HF. unfold sizeof_mem_chunk in Hc.
  inversion Hr as [|p n next F' Hp Hm Hr' E1 E2]; subst.
  apply list.NoDup_cons in Hnd as [Hna Hnd].
  unfold MPAllocateChunk, chunk_read, chunk_write, mbind, M_bind, get, modify, unwrap, assertM.
  rewrite Hn, (proj2 (Z.eqb_neq _ _)), (proj2 (Z.eqb_neq (mp_freeptr mp) 0)) by lia. cbn.
  rewrite Hm. cbn -[Z.of_nat].
  rewrite Z.leb_refl, (proj2 (Z.ltb_lt _ _)) by lia. cbn -[Z.of_nat].
  rewrite lookup_insert_eq. cbn -[Z.of_nat].
  replace (Z.of_nat (S n) - 1) with (Z.of_nat n) by lia.
  destruct n as [|n]; cbn -[Z.of_nat].
  - eexists. split; [reflexivity|]. split_and!; try done. unfold wf; cbn in *.
    split_and!; try done; try lia.
    + eapply free_runs_frame; [done|]. intros b Hb. apply lookup_insert_ne. congruence.
    + intros b Hb. apply Hin. by apply list_elem_of_further.
  - assert (Hq : is_chunk mp (mp_freeptr mp + mp_chunk_size mp)).
    { apply Hin. cbn. apply list_elem_of_further, list_elem_of_here. }
    apply is_chunk_pos in Hq; [|done..].
    rewrite (proj2 (Z.eqb_neq (_ + _) 0)) by lia.
    eexists. split; [reflexivity|]. split_and!; try done. unfold wf; cbn -[Z.of_nat] in *.
    split_and!; try done; try lia.
    + apply (fr_cons _ _ _ n next); [lia|by rewrite lookup_insert_eq|].
      apply list.NoDup_cons in Hnd as [Hnq Hnd].
      eapply free_runs_frame; [done|]. intros b Hb.
      rewrite !lookup_insert_ne; [done|..]; intros <-.
      * apply Hna. apply list_elem_of_further, elem_of_app. by right.
      * apply Hnq. apply elem_of_app. by right.
    + intros b Hb. apply Hin. by apply list_elem_of_further.
Qed.

Lemma MPFreeChunk_ok mp a F :
  wf mp F -> is_chunk mp a -> a ∉ F ->
  exists mp', MPFreeChunk a mp = Ok tt mp' /\ wf mp' (a :: F) /\
    mp_startptr mp' = mp_startptr mp /\ mp_chunk_size mp' = mp_chunk_size mp /\
    mp_total_chunks mp' = mp_total_chunks mp.
Proof.
  intros (Hs & Hc & Hr & Hnd & Hin & Hn) Ha Hna.
  pose proof (is_chunk_pos _ _ Hs Hc Ha) as Hpos. unfold sizeof_mem_chunk in Hc.
  destruct Ha as (i & Hi & Ea).
  unfold MPFreeChunk, chunk_write, mbind, M_bind, get, modify, assertM.
  replace (a - mp_startptr mp) with (i * mp_chunk_size mp) by lia.
  rewrite Z.rem_mul, Z.eqb_refl, (proj2 (Z.eqb_neq a 0)) by lia.
  eexists. split; [reflexivity|]. split_and!; try done. unfold wf; cbn.
  split_and!; try done; try lia.
  - apply (fr_cons _ _ a 0 (mp_freeptr mp)); [lia|by rewrite lookup_insert_eq|].
    eapply free_runs_frame; [done|]. intros b Hb. apply lookup_insert_ne. congruence.
  - by apply list.NoDup_cons.
  - intros b [->|Hb]%elem_of_cons; [by exists i|]. by apply Hin.
  - rewrite zlen_cons. lia.
Qed.

Lemma run_chunks_elem cs p n a :
  a ∈ run_chunks cs p n <-> exists i, 0 <= i < Z.of_nat n /\ a = p + i * cs.
Proof.
  revert p. induction n as [|n IH]; intros p; cbn [run_chunks].
  - rewrite elem_of_nil. split; [done|]. intros (i & ? & _). lia.
  - rewrite elem_of_cons, IH. split.
    + intros [->|(i & Hi & ->)]; [exists 0; lia|]. exists (i + 1). lia.
    + intros (i & Hi & ->). destruct (decide (i = 0)) as [->|]; [left; lia|].
      right. exists (i - 1). lia.
Qed.

Lemma run_chunks_NoDup cs p n : 0 < cs -> NoDup (run_chunks cs p n).
Proof.
  intros Hcs. revert p. induction n as [|n IH]; intros p; cbn [run_chunks].
  - apply NoDup_nil_2.
  - apply list.NoDup_cons. split; [|done]. rewrite run_chunks_elem. intros (i & Hi & E). nia.
Qed.

Lemma run_chunks_length cs p n : length (run_chunks cs p n) = n.
Proof. revert p. induction n; intros; cbn; [done|]. by rewrite IHn. Qed.

(** The number of chunks a pool is created with. *)
Definition chunks_for (chunk_size total_size : Z) : Z :=
  (total_size + (chunk_size - 1)) / chunk_size.

Lemma MPCreate_wf start chunk_size total_size :
  0 < start -> sizeof_mem_chunk <= chunk_size < 2147483648 -> Z.rem chunk_size 4 = 0 ->
  0 < total_size < 4611686018427387904 -> chunks_for chunk_size total_size < 2147483648 ->
  exists mp, MPCreate true (Some start) chunk_size total_size = Ok (Some mp) tt /\
    wf mp (run_chunks chunk_size start (Z.to_nat (chunks_for chunk_size total_size))) /\
    mp_startptr mp = start /\ mp_chunk_size mp = chunk_size /\
    mp_total_chunks mp = chunks_for chunk_size total_size.
Proof.
  intros Hs Hc H4 Ht Hn. set (n := chunks_for chunk_size total_size) in *.
  unfold sizeof_mem_chunk in *.
  assert (Hpos : 0 < n). { unfold n, chunks_for. apply Z.div_str_pos. lia. }
  assert (En : i32 (u64 (total_size + u64 (chunk_size - 1)) / u64 chunk_size) = n).
  { unfold u64. rewrite (Z.mod_small (chunk_size - 1)), (Z.mod_small chunk_size),
      (Z.mod_small (_ + _)) by lia. fold (chunks_for chunk_size total_size). fold n.
    apply i32_small. lia. }
  unfold MPCreate. rewrite En, H4. unfold sizeof_mem_chunk.
  replace (u64 chunk_size) with chunk_size by (unfold u64; rewrite Z.mod_small; lia).
  rewrite (proj2 (Z.ltb_ge chunk_size 16)) by lia. cbn.
  eexists. split; [reflexivity|]. split_and!; try done.
  unfold wf, sizeof_mem_chunk, is_chunk; cbn. split_and!; try lia.
  - replace (Z.to_nat n) with (S (Z.to_nat (n - 1))) by lia.
    rewrite <- (app_nil_r (run_chunks _ _ _)).
    apply (fr_cons _ _ _ _ 0); [lia| |constructor].
    rewrite lookup_singleton_eq. do 2 f_equal. lia.
  - apply run_chunks_NoDup. lia.
  - intros a (i & Hi & ->)%run_chunks_elem. exists i. lia.
  - unfold zlen. rewrite run_chunks_length. lia.
Qed.

(** ** The pool honours the contract *)

Definition pool_inv (mp : mem_pool) (F : gset Z) : Prop :=
  exists l, wf mp l /\ list_to_set l = F.

Definition pool_chunks (mp : mem_pool) : gset Z :=
  list_to_set (run_chunks (mp_chunk_size mp) (mp_startptr mp) (Z.to_nat (mp_total_chunks mp))).

Lemma pool_chunks_spec mp a : a ∈ pool_chunks mp <-> is_chunk mp a.
Proof.
  unfold pool_chunks, is_chunk. rewrite elem_of_list_to_set, run_chunks_elem.
  split; intros (i & Hi & ->); exists i; lia.
Qed.

#[global] Program Instance mem_pool_chunks : ChunkPool mem_pool := {
  cp_inv := pool_inv;
  cp_chunks := pool_chunks;
  cp_alloc := MPAllocateChunk;
  cp_free := MPFreeChunk
}.
Next Obligation.
  intros mp F (l & (_ & _ & _ & _ & Hin & _) & <-) a Ha%elem_of_list_to_set.
  by apply pool_chunks_spec, Hin.
Qed.
Next Obligation.
  intros mp F (l & (Hs & Hc & _) & _) Ha%pool_chunks_spec.
  apply is_chunk_pos in Ha; [lia|done..].
Qed.
Next Obligation.
  intros mp (l & Hwf & Hl). apply MPAllocateChunk_none. destruct l; [done|]. set_solver.
Qed.
Next Obligation.
  intros mp F (l & Hwf & <-) Hne. destruct l as [|a l]; [done|].
  destruct (MPAllocateChunk_some mp a l Hwf) as (mp' & -> & Hwf' & Es & Ec & Et).
  exists a, mp'. split_and!; [done|set_solver| |].
  - exists l. split; [done|]. destruct Hwf as (_ & _ & _ & Hnd & _).
    apply list.NoDup_cons in Hnd as [Hna _]. set_solver.
  - unfold pool_chunks. by rewrite Es, Ec, Et.
Qed.
Next Obligation.
  intros mp F a (l & Hwf & <-) Ha%pool_chunks_spec Hna.
  destruct (MPFreeChunk_ok mp a l Hwf Ha ltac:(set_solver)) as (mp' & -> & Hwf' & Es & Ec & Et).
  exists mp'. split_and!; [done| |].
  - by exists (a :: l).
  - unfold pool_chunks. by rewrite Es, Ec, Et.
Qed.

Lemma chunks_for_mul size n : 0 < size -> chunks_for size (size * n) = n.
Proof.
  intros Hs. unfold chunks_for. rewrite Z.mul_comm, Z.add_comm, Z.div_add by lia.
  rewrite Z.div_small; lia.
Qed.

(** A pool for [n] chunks, all of them free. *)
Lemma create_pool start size n :
  0 < start -> sizeof_mem_chunk <= size < 2147483648 -> Z.rem size 4 = 0 -> 0 < n < 2147483648 ->
  exists mp F, MPCreate true (Some start) size (u64 (size * n)) = Ok (Some mp) tt /\
    cp_inv mp F /\ cp_chunks mp = F /\ base.size F = Z.to_nat n.
Proof.
  intros Hst Hs H4 Hn. unfold sizeof_mem_chunk in *.
  assert (Hu : u64 (size * n) = size * n) by (apply Z.mod_small; nia).
  pose proof (chunks_for_mul size n ltac:(lia)) as Hcf.
  destruct (MPCreate_wf start size (size * n)) as (mp & Hmk & Hwf & Es & Ec & Et);
    [done|unfold sizeof_mem_chunk; lia|done|nia|lia|]. rewrite Hcf in *.
  exists mp, (list_to_set (run_chunks size start (Z.to_nat n))). split_and!.
  - by rewrite Hu.
  - by eexists.
  - cbn. unfold pool_chunks. by rewrite Es, Ec, Et.
  - rewrite size_list_to_set; [apply run_chunks_length|]. apply run_chunks_NoDup. lia.
Qed.

(** ** A client of the pool

    The client holds the chunks it was given.  It allocates, frees the [i]-th chunk it
    holds, or overwrites the [i]-th chunk it holds (the first 16 bytes of which were a
    header). *)
Inductive pool_op := OAlloc | OFree (i : nat) | OWrite (i : nat) (c : mem_chunk).

Definition pool_step (op : pool_op) (s : mem_pool * list Z) : outcome (mem_pool * list Z) Z :=
  let '(mp, held) := s in
  match op with
  | OAlloc =>
      match MPAllocateChunk mp with
      | Ok a mp' => Ok a (mp', if a =? 0 then held else a :: held)
      | Fault e => Fault e
      end
  | OFree i =>
      match held !! i with
      | None => Ok 0 s
      | Some a =>
          match MPFreeChunk a mp with
          | Ok _ mp' => Ok 0 (mp', delete i held)
          | Fault e => Fault e
          end
      end
  | OWrite i c =>
      match held !! i with
      | None => Ok 0 s
      | Some a => Ok 0 (mp <| mp_mem ::= insert a c |>, held)
      end
  end.

Fixpoint pool_run (ops : list pool_op) : M (mem_pool * list Z) unit :=
  match ops with
  | [] => mret tt
  | op :: ops' => (pool_step op : M _ Z);; pool_run ops'
  end.

(** Every chunk is either free or held, and none twice. *)
Definition accounted (cs start n : Z) (s : mem_pool * list Z) : Prop :=
  mp_startptr s.1 = start /\ mp_chunk_size s.1 = cs /\ mp_total_chunks s.1 = n /\
  exists F, wf s.1 F /\ F ++ s.2 ≡ₚ run_chunks cs start (Z.to_nat n).

Lemma pool_step_accounted cs start n op s :
  0 < cs -> accounted cs start n s -> exists r s', pool_step op s = Ok r s' /\ accounted cs start n s'.
Proof.
  intros Hcs (Es & Ec & Et & F & Hwf & HP). destruct s as [mp held]; cbn in *.
  assert (Hnd : NoDup (F ++ held)) by (rewrite HP; by apply run_chunks_NoDup).
  destruct op as [|i|i c]; cbn.
  - destruct F as [|a F].
    + rewrite (MPAllocateChunk_none mp Hwf). do 2 eexists. split; [done|]. cbn.
      by repeat split; [..|exists []].
    + destruct (MPAllocateChunk_some mp a F Hwf) as (mp' & -> & Hwf' & E1 & E2 & E3).
      assert (Ha : 0 < a).
      { destruct Hwf as (? & ? & _ & _ & Hin & _). apply is_chunk_pos with mp; [done..|].
        apply Hin, list_elem_of_here. }
      rewrite (proj2 (Z.eqb_neq a 0)) by lia. do 2 eexists. split; [done|].
      unfold accounted; cbn. split_and!; [congruence..|].
      exists F. split; [done|]. rewrite <- HP. cbn. by rewrite Permutation_middle.
  - destruct (held !! i) as [a|] eqn:Hi.
    + apply delete_Permutation in Hi as Hp. rewrite Hp in HP, Hnd.
      apply list.NoDup_app in Hnd as (_ & Hdis & _).
      assert (Ha : is_chunk mp a).
      { apply pool_chunks_spec. unfold pool_chunks. rewrite elem_of_list_to_set, Es, Ec, Et, <- HP.
        rewrite elem_of_app. right. apply list_elem_of_here. }
      destruct (MPFreeChunk_ok mp a F Hwf Ha) as (mp' & -> & Hwf' & E1 & E2 & E3).
      { intros HaF. apply (Hdis a HaF). apply list_elem_of_here. }
      do 2 eexists. split; [done|]. unfold accounted; cbn. split_and!; [congruence..|].
      exists (a :: F). split; [done|]. rewrite <- HP. cbn. by rewrite Permutation_middle.
    + do 2 eexists. split; [done|]. by repeat split; [..|exists F].
  - destruct (held !! i) as [a|] eqn:Hi.
    + do 2 eexists. split; [done|]. repeat split; try done. exists F. split; [|done].
      apply wf_client_write; [done|]. apply list.NoDup_app in Hnd as (_ & Hdis & _).
      intros HaF. apply (Hdis a HaF). by eapply list_elem_of_lookup_2.
    + do 2 eexists. split; [done|]. by repeat split; [..|exists F].
Qed.

Lemma pool_run_accounted cs start n ops s :
  0 < cs -> accounted cs start n s -> exists s', pool_run ops s = Ok tt s' /\ accounted cs start n s'.
Proof.
  intros Hcs. revert s. induction ops as [|op ops IH]; intros s Hs; [by exists s|].
  cbn [pool_run]. unfold mbind, M_bind.
  destruct (pool_step_accounted cs start n op s Hcs Hs) as (r & s' & -> & Hs'). by apply IH.
Qed.

(** ** Properties *)

(** C35: whatever a client does with a fresh pool (allocate, free chunks it holds, scribble
    over chunks it holds, in any order), no call faults, the chunks it holds are distinct
    chunks of the block, the free counter is exact, and an allocation is refused only
    when the client holds every chunk of the pool. *)
Theorem pool_sound (start chunk_size total_size : Z) (mp : mem_pool) (ops : list pool_op) :
  0 < start -> sizeof_mem_chunk <= chunk_size < 2147483648 -> Z.rem chunk_size 4 = 0 ->
  0 < total_size < 4611686018427387904 -> chunks_for chunk_size total_size < 2147483648 ->
  MPCreate true (Some start) chunk_size total_size = Ok (Some mp) tt ->
  exists mp' held, pool_run ops (mp, []) = Ok tt (mp', held) /\
    NoDup held /\ (forall a, a ∈ held -> is_chunk mp a) /\
    MPGetFreeChunks mp' = chunks_for chunk_size total_size - zlen held /\
    (exists a mp'', MPAllocateChunk mp' = Ok a mp'' /\
       (a = 0 <-> zlen held = chunks_for chunk_size total_size) /\ a ∉ held).
Proof.
  intros Hs Hc H4 Ht Hn Hmk.
  destruct (MPCreate_wf start chunk_size total_size) as (mp0 & Hmk' & Hwf & Es & Ec & Et);
    [done..|]. rewrite Hmk in Hmk'. injection Hmk' as <-.
  set (n := chunks_for chunk_size total_size) in *. unfold sizeof_mem_chunk in Hc.
  assert (Hpos : 0 <= n) by (apply Z.div_pos; lia).
  destruct (pool_run_accounted chunk_size start n ops (mp, [])) as ([mp' held] & Hrun & Hacc);
    [lia|..].
  { split_and!; try done. eexists. split; [done|]. by rewrite app_nil_r. }
  exists mp', held. split; [done|]. destruct Hacc as (Es' & Ec' & Et' & F & Hwf' & HP). cbn in *.
  assert (Hnd : NoDup (F ++ held)) by (rewrite HP; apply run_chunks_NoDup; lia).
  assert (Hlen : zlen F + zlen held = n).
  { rewrite <- zlen_app. unfold zlen. rewrite HP, run_chunks_length. lia. }
  apply list.NoDup_app in Hnd as (HndF & Hdis & Hndh).
  assert (Hchunk : forall a, a ∈ held -> is_chunk mp a).
  { intros a Ha. apply pool_chunks_spec. unfold pool_chunks.
    rewrite elem_of_list_to_set, Es, Ec, Et, <- HP, elem_of_app. by right. }
  assert (H0 : 0 ∉ held).
  { intros [i Hi]%Hchunk. rewrite Es, Ec in Hi. nia. }
  split_and!; [done..| |].
  - unfold MPGetFreeChunks. destruct Hwf' as (_ & _ & _ & _ & _ & ->). lia.
  - destruct F as [|a F].
    + exists 0, mp'. split; [by apply MPAllocateChunk_none|]. split; [|done]. split; [|done].
      intros _. unfold zlen in Hlen; cbn in Hlen. unfold zlen. lia.
    + destruct (MPAllocateChunk_some mp' a F Hwf') as (mp'' & Ha & _). exists a, mp''.
      split; [done|]. rewrite zlen_cons in Hlen. pose proof (zlen_nonneg F).
      assert (0 < a).
      { destruct Hwf' as (? & ? & _ & _ & Hin & _). apply is_chunk_pos with mp'; [done..|].
        apply Hin, list_elem_of_here. }
      split; [lia|]. apply Hdis, list_elem_of_here.
Qed.

Lemma pool_sound_witness :
  exists mp' held,
    pool_run [OAlloc; OAlloc; OWrite 0 (MemChunk 77 88); OFree 1; OAlloc; OAlloc]
      (MemPool 4096 4096 2 2 64 0 {[ 4096 := MemChunk 2 0 ]}, []) = Ok tt (mp', held) /\
    NoDup held.
Proof.
  destruct (pool_sound 4096 64 128 (MemPool 4096 4096 2 2 64 0 {[ 4096 := MemChunk 2 0 ]})
              [OAlloc; OAlloc; OWrite 0 (MemChunk 77 88); OFree 1; OAlloc; OAlloc])
    as (mp' & held & Hrun & Hnd & _);
    [unfold sizeof_mem_chunk; (lia || reflexivity)..|].
  by exists mp', held.
Defined.
