(* ===== verification/SendBuffer.v ===== *)
(** * The send buffer

    [tcp_send_buffer.c]: the bytes an application has written and the peer has not yet
    acknowledged.  A buffer occupies one chunk of a pool; its payload is kept contiguous
    and is moved to the front of the chunk when it would run over the end.

    Module [Buffer] models one buffer ([SBPut], [SBRemove]) and shows that it is a
    bounded FIFO of bytes that is positioned in the sequence space.  Module [Manager]
    models the manager that hands buffers out and takes them back ([SBInit], [SBFree])
    over any pool and any queue that honour [ChunkPool] and [BoundedFifo]. *)

From S2P Require Import Prelude Queues MemPool.

(** ** One buffer *)

Module Buffer.

(** [struct tcp_send_buffer].  [data] holds the bytes of the chunk [data_ptr] points to,
    [head] is the pointer of that name as an offset into the chunk. *)
Record tcp_send_buffer := TcpSendBuffer {
  data_ptr : Z;
  data : list Z;
  head : Z;
  head_off : Z;
  tail_off : Z;
  len : Z;
  cum_len : Z;
  size : Z;
  head_seq : Z;
  init_seq : Z
}.

#[global] Instance tcp_send_buffer_eta : Settable tcp_send_buffer :=
  fun b => TcpSendBuffer (data_ptr b) (data b) (head b) (head_off b) (tail_off b) (len b)
             (cum_len b) (size b) (head_seq b) (init_seq b).

(** [(size_t)-2], the answer of a full and of an empty buffer. *)
Definition minus_2 : Z := u64 (-2).

Definition memcpy_data (off : Z) (src : list Z) : M tcp_send_buffer unit :=
  buf ← get;
  d ← unwrap OutOfBounds (mem_write (data buf) off src);
  put (buf <| data := d |>).

(** [src] is the memory the caller passes, [n] the length it claims. *)
Definition SBPut (src : list Z) (n : Z) : M tcp_send_buffer Z :=
  if n <=? 0 then mret 0
  else
    buf ← get;
    let to_put := Z.min n (u32 (size buf - len buf)) in
    if to_put <=? 0 then mret minus_2
    else
      bytes ← unwrap OutOfBounds (mem_read src 0 to_put);
      (if u64 (tail_off buf + to_put) <? size buf then
         memcpy_data (tail_off buf) bytes;;
         modify (fun buf => buf <| tail_off := u32 (tail_off buf + to_put) |>)
       else
         payload ← unwrap OutOfBounds (mem_read (data buf) (head buf) (len buf));
         memcpy_data 0 payload;;
         modify (fun buf => buf <| head := 0 |> <| head_off := 0 |>);;
         buf ← get;
         memcpy_data (head buf + len buf) bytes;;
         modify (fun buf => buf <| tail_off := u32 (len buf + to_put) |>));;
      modify (fun buf => buf <| len := u32 (len buf + to_put) |>
                             <| cum_len := u64 (cum_len buf + to_put) |>);;
      mret to_put.

Definition SBRemove (n : Z) : M tcp_send_buffer Z :=
  if n <=? 0 then mret 0
  else
    buf ← get;
    let to_remove := Z.min n (len buf) in
    if to_remove <=? 0 then mret minus_2
    else
      modify (fun buf => buf <| head_off := u32 (head_off buf + to_remove) |>);;
      modify (fun buf => buf <| head := head_off buf |>
                             <| head_seq := u32 (head_seq buf + to_remove) |>
                             <| len := u32 (len buf - to_remove) |>);;
      buf ← get;
      whenM ((len buf =? 0) && (0 <? head_off buf))
        (modify (fun buf => buf <| head := 0 |> <| head_off := 0 |> <| tail_off := 0 |>));;
      mret to_remove.

(** *** Invariant and contents *)

Definition contents (b : tcp_send_buffer) : list Z :=
  take (Z.to_nat (len b)) (drop (Z.to_nat (head b)) (data b)).

(** The fields stay in the range of their types, the payload lies inside the chunk, and
    the first byte of the payload is the byte [cum_len - len] of the stream. *)
Definition wf (b : tcp_send_buffer) : Prop :=
  zlen (data b) = size b /\ 0 < size b < 4294967296 /\
  head b = head_off b /\ 0 <= head_off b /\ 0 <= len b /\
  head_off b + len b = tail_off b /\ tail_off b <= size b /\
  is_u32 (init_seq b) /\ head_seq b = u32 (init_seq b + (cum_len b - len b)).

Lemma sb_contents_zlen b : wf b -> zlen (contents b) = len b.
Proof.
  intros (Hd & ? & Hh & ? & ? & ? & ? & _). unfold contents, zlen in *.
  rewrite length_take, length_drop, Hh. lia.
Qed.

Lemma u32_cum a b : u32 (a + u64 b) = u32 (a + b).
Proof. mlia. Qed.

(** A copied range reads back; what lies before it is untouched. *)
Lemma write_after (d src d' : list Z) h t :
  mem_write d t src = Some d' -> 0 <= h <= t ->
  take (Z.to_nat (t - h + zlen src)) (drop (Z.to_nat h) d') =
  take (Z.to_nat (t - h)) (drop (Z.to_nat h) d) ++ src.
Proof.
  intros Hw Hh. pose proof (mem_write_bounds _ _ _ _ Hw) as [? Hb].
  rewrite mem_write_ok in Hw by done. injection Hw as <-.
  unfold zlen in *. apply list_eq. intros i.
  destruct (decide (i < Z.to_nat (t - h))%nat) as [Hi|Hi].
  - rewrite lookup_take_lt, lookup_drop by lia.
    rewrite !lookup_app_l by (rewrite ?length_take, ?length_drop; lia).
    rewrite !lookup_take_lt, lookup_drop by lia. done.
  - destruct (decide (i < Z.to_nat (t - h) + length src)%nat) as [Hj|Hj].
    + rewrite lookup_take_lt, lookup_drop by lia.
      rewrite lookup_app_r by (rewrite length_take; lia).
      rewrite lookup_app_l by (rewrite length_take; lia).
      rewrite lookup_app_r by (rewrite length_take, length_drop; lia).
      f_equal. rewrite !length_take, length_drop. lia.
    + rewrite lookup_take_ge by lia. symmetry. apply lookup_ge_None.
      rewrite length_app, length_take, length_drop. lia.
Qed.

(** *** The operations on a well-formed buffer *)

Lemma SBPut_zero b src : SBPut src 0 b = Ok 0 b.
Proof. done. Qed.

Lemma SBPut_full b src n : wf b -> 0 < n -> len b = size b -> SBPut src n b = Ok minus_2 b.
Proof.
  intros Hwf Hn Hfull. unfold SBPut, mbind, M_bind, get.
  rewrite (proj2 (Z.leb_gt _ _)) by lia. rewrite Hfull, Z.sub_diag.
  change (u32 0) with 0. by rewrite Z.min_r by lia.
Qed.

(** Either branch of [SBPut] leaves the old payload followed by the new bytes. *)
Lemma SBPut_room b src n :
  wf b -> 0 < n <= zlen src -> len b < size b ->
  let k := Z.min n (size b - len b) in
  exists b', SBPut src n b = Ok k b' /\ wf b' /\
    contents b' = contents b ++ take (Z.to_nat k) src /\
    size b' = size b /\ len b' = len b + k /\ cum_len b' = u64 (cum_len b + k) /\
    head_seq b' = head_seq b /\ init_seq b' = init_seq b /\ data_ptr b' = data_ptr b.
Proof.
  intros Hwf Hn Hroom k.
  pose proof Hwf as (Hd & Hsz & Hh & ? & ? & Ht & Hts & Hi & Hseq).
  assert (Hk : 0 < k <= size b - len b) by lia.
  unfold SBPut, mbind, M_bind, get.
  rewrite (proj2 (Z.leb_gt n 0)) by lia.
  rewrite (u32_small (size b - len b)) by (unfold is_u32; lia). fold k.
  rewrite (proj2 (Z.leb_gt k 0)) by lia.
  rewrite mem_read_ok by lia. change (drop (Z.to_nat 0) src) with src.
  cbn [unwrap mret M_ret].
  set (bytes := take (Z.to_nat k) src).
  assert (Hbytes : zlen bytes = k) by (unfold bytes, zlen in *; rewrite length_take; lia).
  assert (Hu : u64 (tail_off b + k) = tail_off b + k) by (unfold u64; apply Z.mod_small; lia).
  rewrite Hu. unfold memcpy_data, mbind, M_bind, get, put, modify, unwrap.
  assert (Hseq' : head_seq b = u32 (init_seq b + (u64 (cum_len b + k) - (len b + k)))).
  { rewrite Hseq. mlia. }
  destruct (Z.ltb_spec (tail_off b + k) (size b)) as [Hfit|Hover].
  - destruct (mem_write (data b) (tail_off b) bytes) as [d'|] eqn:Hw;
      [|rewrite mem_write_ok in Hw by lia; done].
    pose proof (mem_write_length _ _ _ _ Hw) as Hl.
    pose proof (write_after _ _ _ (head b) _ Hw ltac:(lia)) as Hc.
    cbn. eexists. split; [reflexivity|]. unfold wf, contents, zlen in *; cbn.
    rewrite !u32_small by (unfold is_u32; lia). split_and!; try lia; try done.
    rewrite Hbytes in Hc. replace (tail_off b - head b) with (len b) in Hc by lia. exact Hc.
  - rewrite mem_read_ok by lia. cbn [mret M_ret]. fold (contents b).
    assert (Hp : zlen (contents b) = len b) by by apply sb_contents_zlen.
    destruct (mem_write (data b) 0 (contents b)) as [d1|] eqn:Hw1;
      [|rewrite mem_write_ok in Hw1 by lia; done].
    pose proof (mem_write_length _ _ _ _ Hw1) as Hl1. cbn.
    change (0 + len b) with (len b).
    destruct (mem_write d1 (len b) bytes) as [d2|] eqn:Hw2;
      [|rewrite mem_write_ok in Hw2 by (unfold zlen in *; lia); done].
    pose proof (mem_write_length _ _ _ _ Hw2) as Hl2. cbn.
    pose proof (write_after _ _ _ 0 _ Hw1 ltac:(lia)) as Hc1.
    pose proof (write_after _ _ _ 0 _ Hw2 ltac:(lia)) as Hc2.
    eexists. split; [reflexivity|]. unfold wf; cbn.
    rewrite !u32_small by (unfold is_u32; lia).
    split_and!; try (unfold zlen in *; lia); try done.
    unfold contents at 1; cbn. rewrite Hbytes, Z.sub_0_r in Hc2.
    rewrite Hp in Hc1.
    change (Z.to_nat 0) with 0%nat in *. rewrite Hc2. f_equal.
    rewrite Z.sub_0_r, Z.add_0_l in Hc1. by rewrite Hc1.
Qed.

Lemma SBRemove_zero b : SBRemove 0 b = Ok 0 b.
Proof. done. Qed.

Lemma SBRemove_empty b n : 0 < n -> len b = 0 -> SBRemove n b = Ok minus_2 b.
Proof.
  intros Hn Hl. unfold SBRemove, mbind, M_bind, get.
  rewrite (proj2 (Z.leb_gt n 0)) by lia. by rewrite Hl, Z.min_r by lia.
Qed.

Lemma SBRemove_some b n :
  wf b -> 0 < n -> 0 < len b ->
  let k := Z.min n (len b) in
  exists b', SBRemove n b = Ok k b' /\ wf b' /\
    contents b' = drop (Z.to_nat k) (contents b) /\
    size b' = size b /\ len b' = len b - k /\ cum_len b' = cum_len b /\
    head_seq b' = u32 (head_seq b + k) /\ init_seq b' = init_seq b /\
    data_ptr b' = data_ptr b.
Proof.
  intros Hwf Hn Hpos k.
  pose proof Hwf as (Hd & Hsz & Hh & ? & ? & Ht & Hts & Hi & Hseq).
  assert (Hk : 0 < k <= len b) by lia.
  unfold SBRemove, mbind, M_bind, get, modify, whenM.
  rewrite (proj2 (Z.leb_gt n 0)) by lia. fold k. rewrite (proj2 (Z.leb_gt k 0)) by lia. cbn.
  rewrite !u32_small with (z := len b - k) by (unfold is_u32; lia).
  rewrite !u32_small with (z := head_off b + k) by (unfold is_u32; lia).
  rewrite (proj2 (Z.ltb_lt 0 (head_off b + k))), andb_true_r by lia.
  assert (Hs' : u32 (head_seq b + k) = u32 (init_seq b + (cum_len b - (len b - k)))).
  { rewrite Hseq, u32_add_l. f_equal. lia. }
  destruct (Z.eqb_spec (len b - k) 0) as [E|E]; cbn;
    (eexists; split; [reflexivity|]; unfold wf, contents; cbn; split_and!; try lia; try done).
  - rewrite E. cbn. symmetry. apply drop_ge. rewrite length_take. lia.
  - rewrite Hh, skipn_firstn_comm, drop_drop. f_equal; [lia|]. f_equal. lia.
Qed.

(** *** The buffer as a window on the byte stream

    Abstractly the connection has accepted a stream of bytes, of which the first [acked]
    have been removed again. *)

Inductive sb_op := OPut (src : list Z) (n : Z) | ORemove (n : Z).

Definition sb_op_ok (op : sb_op) : Prop :=
  match op with OPut src n => 0 <= n <= zlen src | ORemove n => 0 <= n end.

Fixpoint sb_run (ops : list sb_op) : M tcp_send_buffer (list Z) :=
  match ops with
  | [] => mret []
  | op :: ops' =>
      r ← (match op with OPut src n => SBPut src n | ORemove n => SBRemove n end);
      rs ← sb_run ops';
      mret (r :: rs)
  end.

Definition answer (n k : Z) : Z := if n =? 0 then 0 else if k =? 0 then minus_2 else k.

Fixpoint stream_run (cap : Z) (stream : list Z) (acked : Z) (ops : list sb_op) :
    list Z * (list Z * Z) :=
  match ops with
  | [] => ([], (stream, acked))
  | OPut src n :: ops' =>
      let k := Z.min n (cap - (zlen stream - acked)) in
      let '(rs, f) := stream_run cap (stream ++ take (Z.to_nat k) src) acked ops' in
      (answer n k :: rs, f)
  | ORemove n :: ops' =>
      let k := Z.min n (zlen stream - acked) in
      let '(rs, f) := stream_run cap stream (acked + k) ops' in
      (answer n k :: rs, f)
  end.

(** The buffer holds the window of [stream] that starts at [acked]. *)
Definition holds (b : tcp_send_buffer) (stream : list Z) (acked : Z) : Prop :=
  wf b /\ 0 <= acked <= zlen stream /\ contents b = drop (Z.to_nat acked) stream /\
  head_seq b = u32 (init_seq b + acked).

Lemma holds_len b stream acked : holds b stream acked -> len b = zlen stream - acked.
Proof.
  intros (Hwf & Ha & Hc & _). rewrite <- sb_contents_zlen, Hc by done.
  unfold zlen in *. rewrite length_drop. lia.
Qed.

Lemma holds_put b stream acked src n :
  holds b stream acked -> 0 <= n <= zlen src ->
  let k := Z.min n (size b - (zlen stream - acked)) in
  exists b', SBPut src n b = Ok (answer n k) b' /\
    holds b' (stream ++ take (Z.to_nat k) src) acked /\
    size b' = size b /\ init_seq b' = init_seq b.
Proof.
  intros Hh Hn k. pose proof (holds_len _ _ _ Hh) as Hl.
  destruct Hh as (Hwf & Ha & Hc & Hs).
  assert (Hle : len b <= size b) by (destruct Hwf as (_ & _ & _ & ? & _ & ? & ? & _); lia).
  unfold answer. destruct (Z.eqb_spec n 0) as [->|Hn0].
  - exists b. rewrite SBPut_zero. unfold k. rewrite Z.min_l by lia. cbn.
    by rewrite app_nil_r.
  - destruct (Z.eqb_spec k 0) as [Hk|Hk].
    + exists b. rewrite SBPut_full by (done || lia). rewrite Hk. cbn. by rewrite app_nil_r.
    + destruct (SBPut_room b src n Hwf) as (b' & Hput & Hwf' & Hc' & Hsz & Hl' & _ & Hq & Hi & _);
        [lia..|].
      exists b'. rewrite Hput. rewrite Hl in Hc' |- *. fold k in Hc' |- *.
      split_and!; [done| |done|done].
      split_and!; [done|lia| | |by rewrite Hq, Hi].
      * rewrite zlen_app. pose proof (zlen_nonneg (take (Z.to_nat k) src)). lia.
      * rewrite Hc', Hc, drop_app_le; [done|]. unfold zlen in *. lia.
Qed.

Lemma holds_remove b stream acked n :
  holds b stream acked -> 0 <= n ->
  let k := Z.min n (zlen stream - acked) in
  exists b', SBRemove n b = Ok (answer n k) b' /\ holds b' stream (acked + k) /\
    size b' = size b /\ init_seq b' = init_seq b.
Proof.
  intros Hh Hn k. pose proof (holds_len _ _ _ Hh) as Hl.
  destruct Hh as (Hwf & Ha & Hc & Hs).
  unfold answer. destruct (Z.eqb_spec n 0) as [->|Hn0].
  - exists b. rewrite SBRemove_zero. unfold k. rewrite Z.min_l by lia. by rewrite Z.add_0_r.
  - destruct (Z.eqb_spec k 0) as [Hk|Hk].
    + exists b. rewrite SBRemove_empty by lia. by rewrite Hk, Z.add_0_r.
    + destruct (SBRemove_some b n Hwf) as (b' & Hrm & Hwf' & Hc' & Hsz & _ & _ & Hq & Hi & _);
        [lia..|].
      exists b'. rewrite Hrm. rewrite Hl in Hc', Hq |- *. fold k in Hc', Hq |- *.
      split_and!; [done| |done|done].
      split_and!; [done|lia|lia| |].
      * rewrite Hc', Hc, drop_drop. f_equal. lia.
      * rewrite Hq, Hs, Hi, u32_add_l. f_equal. lia.
Qed.

(** A freshly initialised buffer. *)
Definition fresh (b : tcp_send_buffer) (seq : Z) : Prop :=
  zlen (data b) = size b /\ 0 < size b < 4294967296 /\ is_u32 seq /\
  head b = 0 /\ head_off b = 0 /\ tail_off b = 0 /\ len b = 0 /\ cum_len b = 0 /\
  head_seq b = seq /\ init_seq b = seq.

Lemma fresh_holds b seq : fresh b seq -> holds b [] 0.
Proof.
  intros (? & ? & ? & Eh & ? & ? & El & Ec & ? & Ei). unfold holds, wf, contents.
  rewrite Eh, El, Ec, Ei, Z.sub_0_r, !Z.add_0_r, u32_small by done.
  cbn. split_and!; done || lia.
Qed.

(** C34: from its initialisation on, a send buffer answers every sequence of [SBPut] and
    [SBRemove] calls as the stream does: each put appends the longest prefix that fits,
    each remove acknowledges the oldest bytes, the buffer holds exactly the accepted and
    not yet removed bytes in order, and [head_seq] is the sequence number of the first of
    them.  No copy leaves the chunk. *)
Theorem send_buffer_refines_stream (b : tcp_send_buffer) (seq : Z) (ops : list sb_op) :
  fresh b seq -> Forall sb_op_ok ops ->
  exists b', sb_run ops b = Ok (stream_run (size b) [] 0 ops).1 b' /\
    let '(stream, acked) := (stream_run (size b) [] 0 ops).2 in
    contents b' = drop (Z.to_nat acked) stream /\ len b' = zlen stream - acked /\
    head_seq b' = u32 (seq + acked).
Proof.
  intros Hf Hops. pose proof (fresh_holds _ _ Hf) as Hh.
  destruct Hf as (_ & _ & _ & _ & _ & _ & _ & _ & _ & Hi).
  revert Hh. generalize (@nil Z), 0. revert b Hi.
  induction Hops as [|op ops Hop Hops IH]; intros b Hi stream acked Hh.
  - exists b. split; [done|]. cbn. pose proof (holds_len _ _ _ Hh).
    destruct Hh as (_ & _ & Hc & Hs). by rewrite Hs, Hi.
  - cbn [sb_run stream_run]. unfold mbind, M_bind.
    destruct op as [src n|n]; cbn [sb_op_ok] in Hop.
    + destruct (holds_put _ _ _ src n Hh Hop) as (b1 & -> & Hh1 & Hsz & Hi1).
      rewrite Hi in Hi1. destruct (IH b1 Hi1 _ _ Hh1) as (b' & -> & Hb').
      rewrite Hsz in *. destruct (stream_run _ _ _ ops) as [rs [st ac]]. by exists b'.
    + destruct (holds_remove _ _ _ n Hh Hop) as (b1 & -> & Hh1 & Hsz & Hi1).
      rewrite Hi in Hi1. destruct (IH b1 Hi1 _ _ Hh1) as (b' & -> & Hb').
      rewrite Hsz in *. destruct (stream_run _ _ _ ops) as [rs [st ac]]. by exists b'.
Qed.

Lemma send_buffer_refines_stream_witness :
  exists b', sb_run [OPut [1; 2; 3] 3; ORemove 2; OPut [4; 5; 6] 3; OPut [7] 1]
      (TcpSendBuffer 4096 [0; 0; 0; 0] 0 0 0 0 0 4 4294967295 4294967295)
    = Ok [3; 2; 3; minus_2] b' /\
    contents b' = [3; 4; 5; 6] /\ len b' = 4 /\ head_seq b' = 1.
Proof.
  apply (send_buffer_refines_stream
    (TcpSendBuffer 4096 [0; 0; 0; 0] 0 0 0 0 0 4 4294967295 4294967295) 4294967295
    [OPut [1; 2; 3] 3; ORemove 2; OPut [4; 5; 6] 3; OPut [7] 1]).
  - unfold fresh, is_u32, zlen; cbn. lia.
  - repeat constructor; unfold sb_op_ok, zlen; cbn; lia.
Defined.

End Buffer.

(** ** The manager *)

Module Manager.
Import Buffer.

Section Manager.
Context {P Q : Type} `{!ChunkPool P} `{!BoundedFifo Q}.

(** [struct sb_manager] *)
Record sb_manager := SbManager {
  chunk_size : Z;
  cur_num : Z;
  cnum : Z;
  mp : P;
  freeq : Q
}.

#[global] Instance sb_manager_eta : Settable sb_manager :=
  fun m => SbManager (chunk_size m) (cur_num m) (cnum m) (mp m) (freeq m).

(** The manager and the buffers it has created, by address. *)
Record sb_world := SbWorld { sbm : sb_manager; bufs : gmap Z tcp_send_buffer }.

#[global] Instance sb_world_eta : Settable sb_world := fun w => SbWorld (sbm w) (bufs w).

Definition SBGetCurnum (m : sb_manager) : Z := cur_num m.

(** [malloc] is the address [malloc] returns ([0] when it fails), [garbage] the bytes
    found in a chunk of the pool. *)
Definition SBInit (malloc : Z) (garbage : list Z) (seq : Z) : M sb_world Z :=
  buf ← zoom sbm (zoom freeq fifo_deq);
  buf ← (if buf =? 0 then
           if malloc =? 0 then mret 0
           else
             d ← zoom sbm (zoom mp cp_alloc);
             if d =? 0 then mret 0
             else
               modify (fun w => w <| bufs ::= insert malloc (TcpSendBuffer d garbage 0 0 0 0 0 0 0 0) |>
                                  <| sbm ::= fun m => m <| cur_num := u32 (cur_num m + 1) |> |>);;
               mret malloc
         else mret buf);
  if buf =? 0 then mret 0
  else
    w ← get;
    b ← unwrap NullPointer (bufs w !! buf);
    modify (fun w => w <| bufs ::= insert buf
      (b <| head := 0 |> <| head_off := 0 |> <| tail_off := 0 |> <| len := 0 |>
         <| cum_len := 0 |> <| size := u32 (chunk_size (sbm w)) |>
         <| init_seq := seq |> <| head_seq := seq |>) |>);;
    mret buf.

Definition SBFree (buf : Z) : M sb_world unit :=
  if buf =? 0 then mret tt
  else zoom sbm (zoom freeq (fifo_enq buf));; mret tt.

(** *** Ownership

    A buffer is in use when it exists and is not queued for reuse. *)
Definition in_use (w : sb_world) (a : Z) : Prop :=
  a ∈ dom (bufs w) /\ a ∉ fifo_view (freeq (sbm w)).

(** [inv w F]: [F] are the free chunks of the pool; every buffer owns a chunk of its own,
    and the queue has room for all of them. *)
Record inv (w : sb_world) (F : gset Z) : Prop := {
  inv_pool : cp_inv (mp (sbm w)) F;
  inv_fifo : fifo_inv (freeq (sbm w));
  inv_nodup : NoDup (fifo_view (freeq (sbm w)));
  inv_queued a : a ∈ fifo_view (freeq (sbm w)) -> a ∈ dom (bufs w);
  inv_nonnull : 0 ∉ dom (bufs w);
  inv_chunk a b : bufs w !! a = Some b -> data_ptr b ∈ cp_chunks (mp (sbm w)) /\ data_ptr b ∉ F;
  inv_distinct a a' b b' :
    bufs w !! a = Some b -> bufs w !! a' = Some b' -> data_ptr b = data_ptr b' -> a = a';
  inv_data a b : bufs w !! a = Some b -> zlen (data b) = chunk_size (sbm w);
  inv_size : 0 < chunk_size (sbm w) < 4294967296;
  inv_count : (base.size (bufs w) + base.size F <= base.size (cp_chunks (mp (sbm w))))%nat;
  inv_room : Z.of_nat (base.size (cp_chunks (mp (sbm w)))) <= fifo_cap (freeq (sbm w))
}.

(** The queue always has room for a buffer in use. *)
Lemma inv_enq_room w F a :
  inv w F -> in_use w a -> zlen (fifo_view (freeq (sbm w))) < fifo_cap (freeq (sbm w)).
Proof.
  intros Hinv [Ha Hna]. pose proof (inv_room _ _ Hinv). pose proof (inv_count _ _ Hinv).
  assert (Hsub : list_to_set (a :: fifo_view (freeq (sbm w))) ⊆ dom (bufs w)).
  { intros x [->|Hx]%elem_of_list_to_set%elem_of_cons; [done|]. by eapply inv_queued. }
  apply subseteq_size in Hsub. rewrite size_dom, size_list_to_set in Hsub.
  - unfold zlen. cbn in Hsub. lia.
  - apply list.NoDup_cons. split; [done|]. by eapply inv_nodup.
Qed.

Lemma SBFree_ok w F a :
  inv w F -> in_use w a ->
  exists w', SBFree a w = Ok tt w' /\ inv w' F /\
    fifo_view (freeq (sbm w')) = fifo_view (freeq (sbm w)) ++ [a] /\
    bufs w' = bufs w /\ forall b, in_use w' b <-> in_use w b /\ b <> a.
Proof.
  intros Hinv Huse. pose proof (inv_enq_room _ _ _ Hinv Huse) as Hroom.
  destruct Huse as [Ha Hna].
  assert (Ha0 : a <> 0). { intros ->. by apply (inv_nonnull _ _ Hinv). }
  destruct (fifo_enq_room _ a (inv_fifo _ _ Hinv) Ha0 Hroom) as (q' & Hq & Hi & Hv & Hc).
  unfold SBFree. rewrite (proj2 (Z.eqb_neq _ _) Ha0). unfold mbind, M_bind, zoom. rewrite Hq.
  eexists. split; [reflexivity|]. destruct Hinv. split_and!; [|done|done|].
  - split; cbn; try done.
    + rewrite Hv. apply list.NoDup_app. split; [done|]. split; [|apply NoDup_singleton].
      intros x Hx ->%list_elem_of_singleton. done.
    + intros x. rewrite Hv, elem_of_app, list_elem_of_singleton. intros [Hx| ->]; eauto.
    + by rewrite Hc.
  - intros b. unfold in_use; cbn. rewrite Hv, elem_of_app, list_elem_of_singleton. tauto.
Qed.

(** Initialising the fields of a buffer: it becomes fresh, and nothing else changes. *)
Definition reset (n seq : Z) (b : tcp_send_buffer) : tcp_send_buffer :=
  b <| head := 0 |> <| head_off := 0 |> <| tail_off := 0 |> <| len := 0 |>
    <| cum_len := 0 |> <| size := u32 n |> <| init_seq := seq |> <| head_seq := seq |>.

Lemma reset_fresh b n seq :
  zlen (data b) = n -> 0 < n < 4294967296 -> is_u32 seq -> fresh (reset n seq b) seq.
Proof.
  intros Hd Hn Hs. unfold fresh; cbn. rewrite u32_small by (unfold is_u32; lia).
  split_and!; done || lia.
Qed.

Lemma inv_reset w F a b n seq :
  inv w F -> bufs w !! a = Some b ->
  inv (w <| bufs ::= insert a (reset n seq b) |>) F.
Proof.
  intros Hinv Hb. destruct Hinv.
  assert (Hd : a ∈ dom (bufs w)) by (by apply elem_of_dom_2 in Hb).
  assert (Hdom : dom (<[a:=reset n seq b]> (bufs w)) = dom (bufs w)).
  { rewrite dom_insert_L. set_solver. }
  assert (Hold : forall x y, <[a:=reset n seq b]> (bufs w) !! x = Some y ->
            exists y0, bufs w !! x = Some y0 /\ data_ptr y = data_ptr y0 /\ data y = data y0).
  { intros x y [[-> <-]|[? ?]]%lookup_insert_Some; eauto. }
  split; cbn; try done.
  - by rewrite Hdom.
  - by rewrite Hdom.
  - intros x y (y0 & Hy & -> & _)%Hold. eauto.
  - intros x x' y y' (y0 & Hy & -> & _)%Hold (y1 & Hy' & -> & _)%Hold. eauto.
  - intros x y (y0 & Hy & _ & ->)%Hold. eauto.
  - rewrite map_size_insert_Some by done. done.
Qed.

(** Taking a queued buffer. *)
Lemma inv_dequeue w F a l :
  inv w F -> fifo_view (freeq (sbm w)) = a :: l ->
  exists q', fifo_deq (freeq (sbm w)) = Ok a q' /\ fifo_view q' = l /\
    inv (w <| sbm ::= fun m => m <| freeq := q' |> |>) F.
Proof.
  intros Hinv Hv. destruct (fifo_deq_some _ a l (inv_fifo _ _ Hinv) Hv) as (q' & Hd & Hi & Hv' & Hc).
  exists q'. split_and!; [done..|]. destruct Hinv. rewrite Hv in *.
  split; cbn; rewrite ?Hv', ?Hc; try done.
  - by apply list.NoDup_cons in inv_nodup0 as [_ ?].
  - intros x Hx. apply inv_queued0. by apply list_elem_of_further.
Qed.

(** Creating a buffer around a chunk of the pool. *)
Lemma inv_create w F p' d a garbage :
  inv w F -> cp_inv p' (F ∖ {[d]}) -> cp_chunks p' = cp_chunks (mp (sbm w)) -> d ∈ F ->
  a <> 0 -> a ∉ dom (bufs w) -> zlen garbage = chunk_size (sbm w) ->
  inv (w <| sbm ::= fun m => m <| mp := p' |> <| cur_num := u32 (cur_num m + 1) |> |>
         <| bufs ::= insert a (TcpSendBuffer d garbage 0 0 0 0 0 0 0 0) |>) (F ∖ {[d]}).
Proof.
  intros Hinv Hp' Hch Hd Ha0 Ha Hg.
  pose proof (cp_free_chunks _ _ (inv_pool _ _ Hinv) d Hd) as Hdc.
  destruct Hinv. split; cbn; rewrite ?Hch; try done.
  - intros x Hx. rewrite dom_insert. set_solver.
  - rewrite dom_insert. set_solver.
  - intros x y [[<- <-]|[_ Hy]]%lookup_insert_Some; [set_solver|].
    destruct (inv_chunk0 _ _ Hy). set_solver.
  - intros x x' y y' [[<- <-]|[_ Hy]]%lookup_insert_Some [[<- <-]|[_ Hy']]%lookup_insert_Some;
      cbn; intros E; [done|..|eauto].
    + destruct (inv_chunk0 _ _ Hy'). congruence.
    + destruct (inv_chunk0 _ _ Hy). congruence.
  - intros x y [[<- <-]|[_ Hy]]%lookup_insert_Some; eauto.
  - rewrite map_size_insert_None by (by apply not_elem_of_dom).
    rewrite size_difference by set_solver. rewrite size_singleton.
    assert (base.size ({[d]} : gset Z) <= base.size F)%nat as Hs by (apply subseteq_size; set_solver).
    rewrite size_singleton in Hs. lia.
Qed.

(** What a caller of [SBInit] obtains. *)
Definition obtained (w w' : sb_world) (a seq : Z) : Prop :=
  ~ in_use w a /\ in_use w' a /\
  (exists b, bufs w' !! a = Some b /\ fresh b seq /\
     forall x y, in_use w' x -> x <> a -> bufs w' !! x = Some y -> data_ptr y <> data_ptr b) /\
  forall x, x <> a -> in_use w x -> bufs w' !! x = bufs w !! x /\ in_use w' x.

(** The last step of [SBInit], for a buffer that is neither queued nor in use. *)
Lemma init_obtained w w1 F a b seq :
  inv w1 F -> bufs w1 !! a = Some b -> a ∉ fifo_view (freeq (sbm w1)) -> ~ in_use w a ->
  is_u32 seq ->
  (forall x, x <> a -> in_use w x -> bufs w1 !! x = bufs w !! x /\ in_use w1 x) ->
  let w' := w1 <| bufs ::= insert a (reset (chunk_size (sbm w1)) seq b) |> in
  inv w' F /\ obtained w w' a seq.
Proof.
  intros Hinv Hb Hq Hn Hs Hold w'.
  assert (Hinv' : inv w' F) by by apply inv_reset.
  split; [done|]. unfold obtained, in_use, w'; cbn.
  split_and!; [done| |done| |].
  - rewrite dom_insert. set_solver.
  - eexists. rewrite lookup_insert_eq. split; [done|]. split.
    + apply reset_fresh; [by eapply inv_data|by eapply inv_size|done].
    + intros x y _ Hx Hy Hc. apply Hx. eapply (inv_distinct _ _ Hinv'); cbn; [done| |done].
      by rewrite lookup_insert_eq.
  - intros x Hx Hu. destruct (Hold x Hx Hu) as [E [Hd Hv]].
    rewrite lookup_insert_ne by done. split_and!; [done| |done].
    rewrite dom_insert. set_solver.
Qed.

Ltac run_init := unfold SBInit, mbind, M_bind, zoom, get, modify, unwrap.

Lemma SBInit_queued w F a l malloc garbage seq :
  inv w F -> fifo_view (freeq (sbm w)) = a :: l -> is_u32 seq ->
  exists w', SBInit malloc garbage seq w = Ok a w' /\ inv w' F /\ obtained w w' a seq.
Proof.
  intros Hinv Hv Hs. destruct (inv_dequeue w F a l Hinv Hv) as (q' & Hd & Hv' & Hinv1).
  set (w1 := w <| sbm ::= fun m => m <| freeq := q' |> |>) in *.
  pose proof (inv_nodup _ _ Hinv) as Hnd. rewrite Hv in Hnd. apply list.NoDup_cons in Hnd as [Hal _].
  assert (Ha : a ∈ dom (bufs w)).
  { eapply inv_queued; [done|]. rewrite Hv. apply list_elem_of_here. }
  assert (Ha0 : a <> 0) by (intros ->; by apply (inv_nonnull _ _ Hinv)).
  apply elem_of_dom in Ha as [b Hb].
  destruct (init_obtained w w1 F a b seq Hinv1 Hb) as [Hinv' Hob]; cbn.
  - by rewrite Hv'.
  - intros [_ Hq]. apply Hq. rewrite Hv. apply list_elem_of_here.
  - done.
  - intros x Hx [Hxd Hxq]. split; [done|]. split; [done|]. cbn. rewrite Hv'. rewrite Hv in Hxq.
    intros Hxl. apply Hxq. by apply list_elem_of_further.
  - eexists. split; [|split; [exact Hinv'|exact Hob]].
    run_init. rewrite Hd. cbn. rewrite (proj2 (Z.eqb_neq _ _) Ha0). cbn.
    rewrite (proj2 (Z.eqb_neq _ _) Ha0). cbn. by rewrite Hb.
Qed.

Lemma SBInit_created w F malloc garbage seq :
  inv w F -> fifo_view (freeq (sbm w)) = [] -> F <> ∅ -> malloc <> 0 ->
  malloc ∉ dom (bufs w) -> zlen garbage = chunk_size (sbm w) -> is_u32 seq ->
  exists w' F', SBInit malloc garbage seq w = Ok malloc w' /\ inv w' F' /\
                obtained w w' malloc seq.
Proof.
  intros Hinv Hv HF Hm0 Hm Hg Hs.
  pose proof (fifo_deq_none _ (inv_fifo _ _ Hinv) Hv) as Hd.
  destruct (cp_alloc_some _ _ (inv_pool _ _ Hinv) HF) as (d & p' & Ha & HdF & Hp' & Hc).
  assert (Hd0 : d <> 0).
  { intros ->. apply (cp_nonnull _ _ (inv_pool _ _ Hinv)).
    by apply (cp_free_chunks _ _ (inv_pool _ _ Hinv)). }
  pose proof (inv_create w F p' d malloc garbage Hinv Hp' Hc HdF Hm0 Hm Hg) as Hinv1.
  destruct (init_obtained w _ _ malloc (TcpSendBuffer d garbage 0 0 0 0 0 0 0 0) seq Hinv1)
    as [Hinv' Hob].
  - cbn. by rewrite lookup_insert_eq.
  - cbn. rewrite Hv. apply not_elem_of_nil.
  - by intros [? _].
  - done.
  - intros x Hx [Hxd Hxq]. unfold in_use; cbn. rewrite lookup_insert_ne by done.
    split_and!; [done| |done]. rewrite dom_insert. set_solver.
  - do 2 eexists. split; [|split; [exact Hinv'|exact Hob]].
    run_init. rewrite Hd. cbn. rewrite (proj2 (Z.eqb_neq _ _) Hm0). cbn.
    rewrite Ha. cbn. rewrite (proj2 (Z.eqb_neq _ _) Hd0). cbn.
    rewrite (proj2 (Z.eqb_neq _ _) Hm0). cbn. by rewrite lookup_insert_eq.
Qed.

Lemma SBInit_refused w F malloc garbage seq :
  inv w F -> fifo_view (freeq (sbm w)) = [] -> F = ∅ \/ malloc = 0 ->
  SBInit malloc garbage seq w = Ok 0 w.
Proof.
  intros Hinv Hv Hno. pose proof (fifo_deq_none _ (inv_fifo _ _ Hinv) Hv) as Hd.
  run_init. rewrite Hd. cbn. destruct (Z.eqb_spec malloc 0) as [->|Hm]; cbn.
  - destruct w as [[] ?]. done.
  - destruct Hno as [->|]; [|done].
    rewrite (cp_alloc_none _ (inv_pool _ _ Hinv)). cbn. destruct w as [[] ?]. done.
Qed.

(** [SBInit] hands out a buffer that nobody uses, empty, positioned at the requested
    sequence number, and backed by a chunk that no other buffer in use shares; the buffers
    in use are untouched.  It refuses only when no freed buffer is queued and the pool is
    exhausted or [malloc] fails, and then changes nothing. *)
Theorem SBInit_ownership (w : sb_world) (F : gset Z) (malloc : Z) (garbage : list Z) (seq : Z) :
  inv w F -> malloc ∉ dom (bufs w) -> zlen garbage = chunk_size (sbm w) -> is_u32 seq ->
  exists a w' F', SBInit malloc garbage seq w = Ok a w' /\ inv w' F' /\
    (a <> 0 /\ obtained w w' a seq \/
     a = 0 /\ w' = w /\ fifo_view (freeq (sbm w)) = [] /\ (F = ∅ \/ malloc = 0)).
Proof.
  intros Hinv Hm Hg Hs. destruct (fifo_view (freeq (sbm w))) as [|a l] eqn:Hv.
  - destruct (decide (F = ∅ \/ malloc = 0)) as [Hno|Hyes].
    + exists 0, w, F. rewrite (SBInit_refused w F) by done. split; [done|]. split; [done|]. by right.
    + destruct (SBInit_created w F malloc garbage seq) as (w' & F' & -> & Hinv' & Hob);
        [tauto..|]. exists malloc, w', F'. split; [done|]. split; [done|]. left. split; [tauto|done].
  - destruct (SBInit_queued w F a l malloc garbage seq Hinv Hv Hs) as (w' & -> & Hinv' & Hob).
    exists a, w', F. split; [done|]. split; [done|]. left. split; [|done].
    intros ->. apply (inv_nonnull _ _ Hinv). eapply inv_queued; [done|]. rewrite Hv.
    apply list_elem_of_here.
Qed.

(** [SBFree] never loses a buffer: for every buffer in use the free queue has room, the
    buffer is queued for reuse, and every other buffer stays in use. *)
Theorem SBFree_never_leaks (w : sb_world) (F : gset Z) (a : Z) :
  inv w F -> in_use w a ->
  exists w', SBFree a w = Ok tt w' /\ inv w' F /\
    fifo_view (freeq (sbm w')) = fifo_view (freeq (sbm w)) ++ [a] /\
    forall b, in_use w' b <-> in_use w b /\ b <> a.
Proof.
  intros Hinv Huse. destruct (SBFree_ok w F a Hinv Huse) as (w' & ? & ? & ? & _ & ?).
  by exists w'.
Qed.

End Manager.

(** *** The manager over the pool and the queue of the source *)

Definition SBManagerCreate (calloc_sbm calloc_mp : bool) (block : option Z)
    (calloc_sq calloc_q : bool) (size cnum : Z) :
    outcome unit (option (@sb_manager mem_pool Click.click_queue)) :=
  if negb calloc_sbm then Ok None tt
  else
    match MPCreate calloc_mp block size (u64 (size * cnum)) with
    | Fault e => Fault e
    | Ok None _ => Ok None tt
    | Ok (Some pool) _ =>
        match Click.CreateSBQueue calloc_sq calloc_q cnum with
        | None => Ok None tt
        | Some q => Ok (Some (SbManager size 0 cnum pool q)) tt
        end
    end.

(** A created manager satisfies the invariant the theorems above need. *)
Lemma SBManagerCreate_inv start size cnum :
  0 < start -> sizeof_mem_chunk <= size < 2147483648 -> Z.rem size 4 = 0 ->
  0 < cnum < 2147483648 ->
  exists m F, SBManagerCreate true true (Some start) true true size cnum = Ok (Some m) tt /\
    inv (SbWorld m ∅) F /\ fifo_view (freeq m) = [] /\ base.size F = Z.to_nat cnum.
Proof.
  intros Hst Hs H4 Hn. unfold sizeof_mem_chunk in *.
  assert (Hu : u64 (size * cnum) = size * cnum) by (apply Z.mod_small; nia).
  pose proof (chunks_for_mul size cnum ltac:(lia)) as Hcf.
  destruct (MPCreate_wf start size (size * cnum)) as (pool & Hmk & Hwf & Es & Ec & Et);
    [done|unfold sizeof_mem_chunk; lia|done|nia|lia|]. rewrite Hcf in *.
  destruct (Click.CreateQueue_wf cnum _ ltac:(lia) eq_refl) as (Hq & Hv & Hcap).
  unfold SBManagerCreate. rewrite Hu, Hmk. cbn.
  do 2 eexists. split; [reflexivity|].
  set (l := run_chunks size start (Z.to_nat cnum)) in *.
  assert (Hsz : base.size (list_to_set l : gset Z) = Z.to_nat cnum).
  { rewrite size_list_to_set; [apply run_chunks_length|]. apply run_chunks_NoDup. lia. }
  assert (Hpc : pool_chunks pool = list_to_set l) by (unfold pool_chunks; by rewrite Es, Ec, Et).
  split_and!; [|done|exact Hsz]. split; cbn; rewrite ?Hv, ?Hpc, ?Hsz; try done; try lia.
  - by exists l.
  - apply NoDup_nil_2.
  - intros a Ha. by apply elem_of_nil in Ha.
  - rewrite map_size_empty. fold l. by rewrite Hsz.
  - cbn in Hcap. rewrite Hcap. lia.
Qed.

(** Witnesses: a pool of two chunks of 64 bytes. *)
Lemma SBInit_ownership_witness :
  exists m F a w' F',
    SBManagerCreate true true (Some 4096) true true 64 2 = Ok (Some m) tt /\
    inv (SbWorld m ∅) F /\
    SBInit 777 (replicate 64 0) 5 (SbWorld m ∅) = Ok a w' /\ inv w' F'.
Proof.
  destruct (SBManagerCreate_inv 4096 64 2) as (m & F & Hmk & Hinv & _);
    [unfold sizeof_mem_chunk; (lia || reflexivity)..|].
  destruct (SBInit_ownership (SbWorld m ∅) F 777 (replicate 64 0) 5) as (a & w' & F' & Hrun & Hinv' & _).
  - exact Hinv.
  - cbn. apply not_elem_of_empty.
  - cbn. vm_compute in Hmk. injection Hmk as <-. reflexivity.
  - unfold is_u32. lia.
  - by exists m, F, a, w', F'.
Defined.

Definition one_buffer : @sb_world mem_pool Click.click_queue :=
  SbWorld (SbManager 64 1 2
    (MemPool 4096 4160 1 2 64 0 {[ 4096 := MemChunk 1 0; 4160 := MemChunk 1 0 ]})
    (Click.ClickQueue 2 0 0 [0; 0; 0]))
    {[ 777 := TcpSendBuffer 4096 (replicate 64 0) 0 0 0 0 0 64 5 5 ]}.

Lemma one_buffer_inv : inv one_buffer {[ 4160 ]}.
Proof.
  split; cbn.
  - exists [4160]. split; [|set_solver]. unfold MemPool.wf, sizeof_mem_chunk; cbn.
    split_and!; try lia.
    + apply (fr_cons _ _ 4160 0 0 []); [lia|by vm_compute|constructor].
    + apply NoDup_singleton.
    + intros a ->%list_elem_of_singleton. exists 1. cbn. lia.
    + done.
  - unfold Click.wf, Click.shape, zlen; cbn. split; [lia|constructor].
  - apply NoDup_nil_2.
  - intros a Ha. by apply elem_of_nil in Ha.
  - set_solver.
  - intros a b [<- <-]%lookup_singleton_Some. cbn. split; [|set_solver].
    apply pool_chunks_spec. exists 0. cbn. lia.
  - intros a a' b b' [<- <-]%lookup_singleton_Some [<- <-]%lookup_singleton_Some. done.
  - intros a b [<- <-]%lookup_singleton_Some. done.
  - lia.
  - vm_compute. lia.
  - vm_compute. congruence.
Qed.

Lemma SBFree_never_leaks_witness :
  exists w', SBFree 777 one_buffer = Ok tt w' /\
    fifo_view (freeq (sbm w')) = fifo_view (freeq (sbm one_buffer)) ++ [777].
Proof.
  destruct (SBFree_never_leaks one_buffer {[ 4160 ]} 777 one_buffer_inv) as (w' & Hrun & _ & Hv & _).
  - split; [cbn; set_solver|]. cbn. apply not_elem_of_nil.
  - by exists w'.
Defined.

End Manager.
