(* ===== verification/Intervals.v ===== *)
(** * Sorted lists of intervals

    The set of offsets a receive buffer has data for is kept by the source as a sorted
    list of fragments.  This file has the list algorithm that [RBPut] performs on that
    list, and its meaning as a set of offsets; [RingBuffer.v] shows that the pointer
    manipulation of the source computes it. *)

From S2P Require Import Prelude.

(** An interval is its first offset and its length. *)
Definition ival : Type := Z * Z.
Definition ivl_end (x : ival) : Z := x.1 + x.2.

(** Overlapping or adjacent intervals touch. *)
Definition touch (x y : ival) : bool := (y.1 <=? ivl_end x) && (x.1 <=? ivl_end y).

Definition hull (x y : ival) : ival :=
  let lo := Z.min x.1 y.1 in (lo, Z.max (ivl_end x) (ivl_end y) - lo).

(** Once the new interval has been merged, it keeps absorbing its right neighbours. *)
Fixpoint absorb (x : ival) (l : list ival) : ival * list ival :=
  match l with
  | [] => (x, [])
  | y :: k => if touch x y then absorb (hull x y) k else (x, y :: k)
  end.

Fixpoint add_ival (x : ival) (l : list ival) : list ival :=
  match l with
  | [] => [x]
  | y :: k =>
      if touch x y then let '(z, r) := absorb (hull x y) k in z :: r
      else if ivl_end x <=? y.1 then x :: y :: k
      else y :: add_ival x k
  end.

(** ** Meaning *)

Definition inside (x : ival) (i : Z) : Prop := x.1 <= i < ivl_end x.

Definition covered (l : list ival) (i : Z) : Prop := Exists (fun x => inside x i) l.

#[export] Instance inside_dec x i : Decision (inside x i).
Proof. unfold inside. apply _. Defined.

#[export] Instance covered_dec l i : Decision (covered l i).
Proof. unfold covered. apply _. Defined.

(** Sorted, nonempty intervals with a gap between any two, all from [lo] on. *)
Fixpoint separated (lo : Z) (l : list ival) : Prop :=
  match l with
  | [] => True
  | x :: k => lo <= x.1 /\ 0 < x.2 /\ separated (ivl_end x + 1) k
  end.

(** All intervals end by [hi]. *)
Definition below (hi : Z) (l : list ival) : Prop := Forall (fun x => ivl_end x <= hi) l.

Lemma covered_cons x l i : covered (x :: l) i <-> inside x i \/ covered l i.
Proof. unfold covered. apply Exists_cons. Qed.

Lemma covered_nil i : covered [] i <-> False.
Proof. unfold covered. apply Exists_nil. Qed.

Ltac ival := unfold inside, touch, hull, ivl_end in *; cbn in *;
  repeat rewrite ?andb_true_iff, ?andb_false_iff, ?Z.leb_le, ?Z.leb_gt in *.

Lemma touch_spec x y : touch x y = true <-> y.1 <= ivl_end x /\ x.1 <= ivl_end y.
Proof. unfold touch. by rewrite andb_true_iff, !Z.leb_le. Qed.

Lemma hull_inside x y i :
  0 < x.2 -> 0 < y.2 -> touch x y = true ->
  inside (hull x y) i <-> inside x i \/ inside y i.
Proof. rewrite touch_spec. unfold inside, hull, ivl_end; cbn. lia. Qed.

Lemma separated_weaken lo lo' l : lo' <= lo -> separated lo l -> separated lo' l.
Proof. destruct l as [|x l]; cbn; [done|]. intros ? (? & ? & ?). split_and!; [lia|done..]. Qed.

Lemma separated_covered lo l i : separated lo l -> covered l i -> lo <= i.
Proof.
  revert lo. induction l as [|x l IH]; intros lo; cbn; [by intros _ ?%covered_nil|].
  intros (Hlo & Hx & Hs) [Hi|Hi]%covered_cons.
  - unfold inside in Hi. lia.
  - apply IH in Hs; [|done]. unfold ivl_end in *. lia.
Qed.

(** Absorbing keeps the set and the gaps. *)
Lemma absorb_spec x l z r :
  0 < x.2 -> separated x.1 l -> absorb x l = (z, r) ->
  z.1 = x.1 /\ x.2 <= z.2 /\ separated (ivl_end z + 1) r /\
  (forall i, covered (z :: r) i <-> inside x i \/ covered l i).
Proof.
  revert x. induction l as [|y l IH]; intros x Hx Hs; cbn.
  - intros [= <- <-]. split_and!; try done; try lia. intros i. apply covered_cons.
  - destruct Hs as (Hlo & Hy & Hs). destruct (touch x y) eqn:Ht; intros E.
    + assert (Hh1 : (hull x y).1 = x.1) by (unfold hull; cbn; lia).
      assert (Hh2 : x.2 <= (hull x y).2) by (unfold hull, ivl_end; cbn; lia).
      apply IH in E as (E1 & E2 & E3 & E4).
      * split_and!; [lia|lia|done|]. intros i. rewrite E4, hull_inside, covered_cons by done. tauto.
      * lia.
      * rewrite Hh1. eapply separated_weaken; [|done]. unfold ivl_end. lia.
    + injection E as <- <-. cbn.
      assert (Hg : ivl_end x + 1 <= y.1).
      { apply not_true_iff_false in Ht. rewrite touch_spec in Ht. unfold ivl_end in *. lia. }
      split_and!; try done; try lia. intros i. apply covered_cons.
Qed.

(** Adding an interval: the union of the sets, and the list stays sorted with gaps. *)
Lemma add_ival_spec x lo l :
  lo <= x.1 -> 0 < x.2 -> separated lo l ->
  separated lo (add_ival x l) /\
  (forall i, covered (add_ival x l) i <-> inside x i \/ covered l i).
Proof.
  revert lo. induction l as [|y l IH]; intros lo Hlo Hx Hs; cbn.
  - split_and!; try done. intros i. apply covered_cons.
  - destruct Hs as (Hly & Hy & Hs). destruct (touch x y) eqn:Ht.
    + destruct (absorb (hull x y) l) as [z r] eqn:E.
      apply absorb_spec in E as (E1 & E2 & E3 & E4).
      * split; [|intros i].
        { cbn. split_and!; [..|done]; unfold hull, ivl_end in *; cbn in *; lia. }
        rewrite E4, hull_inside, covered_cons by done. tauto.
      * unfold hull, ivl_end; cbn. lia.
      * eapply separated_weaken; [|done]. unfold hull, ivl_end; cbn. lia.
    + assert (Hnt : ~ (y.1 <= ivl_end x /\ x.1 <= ivl_end y)).
      { rewrite <- touch_spec. by rewrite Ht. }
      destruct (Z.leb_spec (ivl_end x) y.1).
      * cbn. split_and!; try done; [unfold ivl_end in *; lia|]. intros i. rewrite !covered_cons. tauto.
      * destruct (IH (ivl_end y + 1)) as [Hs' Hc]; [lia|done|done|].
        cbn. split_and!; try done. intros i. rewrite !covered_cons, Hc. tauto.
Qed.

(** In particular every interval still ends by any bound on the old ones. *)
Lemma separated_below lo hi l :
  separated lo l -> (forall i, covered l i -> i < hi) -> below hi l.
Proof.
  unfold below. revert lo. induction l as [|x l IH]; intros lo; cbn; [constructor|].
  intros (Hlo & Hx & Hs) Hc. constructor.
  - assert (ivl_end x - 1 < hi); [|lia]. apply Hc, covered_cons. left.
    unfold inside, ivl_end. lia.
  - eapply IH; [done|]. intros i Hi. apply Hc, covered_cons. by right.
Qed.

Lemma below_weaken hi hi' l : hi <= hi' -> below hi l -> below hi' l.
Proof.
  unfold below. intros Hle Hb. induction Hb; constructor; [lia|done].
Qed.

Lemma below_covered hi l i : below hi l -> covered l i -> i < hi.
Proof.
  unfold below, covered. intros Hb Hc. rewrite list.Exists_exists in Hc.
  destruct Hc as (x & Hx & Hi). rewrite list.Forall_forall in Hb.
  specialize (Hb x Hx). unfold inside in Hi. lia.
Qed.

(** ** Dropping a prefix *)

(** Moving the origin of the offsets forward. *)
Definition shift (n : Z) (x : ival) : ival := (x.1 - n, x.2).

Lemma separated_shift n lo l : separated lo l <-> separated (lo - n) (shift n <$> l).
Proof.
  revert lo. induction l as [|x l IH]; intros lo; cbn; [done|].
  rewrite IH. unfold ivl_end; cbn. replace (x.1 + x.2 + 1 - n) with (x.1 - n + x.2 + 1) by lia.
  split; intros (? & ? & ?); split_and!; done || lia.
Qed.

Lemma covered_shift n l i : covered (shift n <$> l) i <-> covered l (i + n).
Proof.
  induction l as [|x l IH]; cbn; [by rewrite !covered_nil|]. rewrite !covered_cons, IH.
  unfold inside, shift, ivl_end; cbn. split; intros [?|?]; ((by right) || (left; lia)).
Qed.
