(* ===== verification/RingBuffer.v ===== *)
(** * The receive buffer

    [tcp_ring_buffer.c]: out-of-order segments are copied to their place in a chunk and
    a sorted list of fragments records which offsets have arrived.  The fragments are
    heap objects linked by [next] pointers and are modelled as such; they come from a
    pool and two queues of freed fragments, used through [ChunkPool] and [BoundedFifo].

    The theorems say that the pointer code computes the interval algorithm of
    [Intervals.v], that a buffer is a partial map from offsets to bytes that [RBPut]
    overlays and [RBRemove] shifts, and that the bytes an application reads are the bytes
    of the peer's stream whatever the order, duplication and overlap of segments. *)

From S2P Require Import Prelude SeqArith Queues MemPool Intervals.

(** ** Data *)

(** [struct fragment_ctx]; [len] and [is_calloc] share a 32-bit word (31 bits and 1). *)
Record fragment_ctx := FragmentCtx {
  f_seq : Z;
  f_len : Z;
  is_calloc : Z;
  next : Z
}.

#[export] Instance fragment_ctx_eta : Settable fragment_ctx :=
  fun f => FragmentCtx (f_seq f) (f_len f) (is_calloc f) (next f).

Definition u31 (z : Z) : Z := z mod 2147483648.

(** [struct tcp_ring_buffer]; [data] holds the bytes of the chunk at [data_ptr], [head] is
    the pointer of that name as an offset into the chunk. *)
Record tcp_ring_buffer := TcpRingBuffer {
  data_ptr : Z;
  data : list Z;
  head : Z;
  head_offset : Z;
  tail_offset : Z;
  merged_len : Z;
  cum_len : Z;
  last_len : Z;
  size : Z;
  head_seq : Z;
  init_seq : Z;
  fctx : Z
}.

#[export] Instance tcp_ring_buffer_eta : Settable tcp_ring_buffer :=
  fun b => TcpRingBuffer (data_ptr b) (data b) (head b) (head_offset b) (tail_offset b)
             (merged_len b) (cum_len b) (last_len b) (size b) (head_seq b) (init_seq b)
             (fctx b).

(** [enum rb_caller] *)
Inductive rb_caller := AT_APP | AT_MTCP.

Section RingBuffer.
Context {P Q : Type} `{!ChunkPool P} `{!BoundedFifo Q}.

(** [struct rb_manager] *)
Record rb_manager := RbManager {
  chunk_size : Z;
  cur_num : Z;
  cnum : Z;
  mp : P;
  frag_mp : P;
  free_fragq : Q;
  free_fragq_int : Q
}.

#[export] Instance rb_manager_eta : Settable rb_manager :=
  fun m => RbManager (chunk_size m) (cur_num m) (cnum m) (mp m) (frag_mp m) (free_fragq m)
             (free_fragq_int m).

Definition RBGetCurnum (m : rb_manager) : Z := cur_num m.

(** The manager, the fragments by address, and the buffer an operation is called on. *)
Record rb_world := RbWorld {
  rbm : rb_manager;
  frags : gmap Z fragment_ctx;
  buff : tcp_ring_buffer
}.

#[export] Instance rb_world_eta : Settable rb_world :=
  fun w => RbWorld (rbm w) (frags w) (buff w).

Definition frag_read (a : Z) : M rb_world fragment_ctx :=
  w ← get; unwrap NullPointer (if a =? 0 then None else frags w !! a).

Definition frag_modify (a : Z) (f : fragment_ctx -> fragment_ctx) : M rb_world unit :=
  x ← frag_read a; modify (fun w => w <| frags ::= insert a (f x) |>).

Definition buff_modify (f : tcp_ring_buffer -> tcp_ring_buffer) : M rb_world unit :=
  modify (fun w => w <| buff ::= f |>).

(** ** Fragments *)

(** A freed fragment can no longer be accessed. *)
Definition FreeFragmentContextSingle (frag : Z) : M rb_world unit :=
  f ← frag_read frag;
  (if negb (is_calloc f =? 0) then mret tt
   else zoom rbm (zoom frag_mp (cp_free frag)));;
  modify (fun w => w <| frags ::= delete frag |>).

Fixpoint FreeFragmentContext_loop (fuel : nat) (p : Z) : M rb_world unit :=
  if p =? 0 then mret tt
  else
    match fuel with
    | O => throw OutOfFuel
    | S n =>
        f ← frag_read p;
        FreeFragmentContextSingle p;;
        FreeFragmentContext_loop n (next f)
    end.

Definition FreeFragmentContext (p : Z) : M rb_world unit :=
  assertM (negb (p =? 0));;
  w ← get;
  FreeFragmentContext_loop (base.size (frags w)) p.

(** [calloc] is the address [calloc] returns if it is called ([0]: it fails). *)
Definition AllocateFragmentContext (calloc : Z) : M rb_world Z :=
  frag ← zoom rbm (zoom free_fragq fifo_deq);
  frag ← (if frag =? 0 then
            frag ← zoom rbm (zoom free_fragq_int fifo_deq);
            if frag =? 0 then
              frag ← zoom rbm (zoom frag_mp cp_alloc);
              if frag =? 0 then
                if calloc =? 0 then throw ProcessExit
                else
                  modify (fun w => w <| frags ::= insert calloc (FragmentCtx 0 0 1 0) |>);;
                  mret calloc
              else mret frag
            else mret frag
          else mret frag);
  modify (fun w => w <| frags ::= insert frag (FragmentCtx 0 0 0 0) |>);;
  mret frag.

Definition CanMerge (a b : fragment_ctx) : bool :=
  let a_end := u32 (f_seq a + f_len a + 1) in
  let b_end := u32 (f_seq b + f_len b + 1) in
  if (GetMinSeq a_end (f_seq b) =? a_end) || (GetMinSeq b_end (f_seq a) =? b_end)
  then false else true.

(** [a] is merged into [b]; the result is the new [b]. *)
Definition MergeFragments (a b : fragment_ctx) : fragment_ctx :=
  let min_seq := GetMinSeq (f_seq a) (f_seq b) in
  let max_seq := GetMaxSeq (u32 (f_seq a + f_len a)) (u32 (f_seq b + f_len b)) in
  b <| f_seq := min_seq |> <| f_len := u31 (u32 (max_seq - min_seq)) |>.

(** ** The buffer *)

(** The loop of [RBPut] over the fragment list.  Returns [iter], [prev], [new_ctx] and
    [merged] as the loop leaves them. *)
Fixpoint RBPut_loop (fuel : nat) (cur_seq len iter prev pprev new_ctx : Z) (merged : bool) :
    M rb_world (Z * Z * Z * bool) :=
  if iter =? 0 then mret (iter, prev, new_ctx, merged)
  else
    match fuel with
    | O => throw OutOfFuel
    | S n =>
        a ← frag_read new_ctx;
        it ← frag_read iter;
        if CanMerge a it then
          frag_modify iter (MergeFragments a);;
          prev ← (if prev =? new_ctx then
                    (if negb (pprev =? 0) then frag_modify pprev (fun f => f <| next := iter |>)
                     else buff_modify (fun b => b <| fctx := iter |>));;
                    mret pprev
                  else mret prev);
          FreeFragmentContextSingle new_ctx;;
          it ← frag_read iter;
          RBPut_loop n cur_seq len (next it) iter prev iter true
        else if merged || (GetMaxSeq (u32 (cur_seq + len)) (f_seq it) =? f_seq it) then
          mret (iter, prev, new_ctx, merged)
        else RBPut_loop n cur_seq len (next it) iter prev new_ctx merged
    end.

(** Linking an unmerged fragment into the list. *)
Definition RBPut_link (cur_seq iter prev new_ctx : Z) : M rb_world unit :=
  w ← get;
  if fctx (buff w) =? 0 then buff_modify (fun b => b <| fctx := new_ctx |>)
  else
    first ← frag_read (fctx (buff w));
    if GetMinSeq cur_seq (f_seq first) =? cur_seq then
      frag_modify new_ctx (fun f => f <| next := fctx (buff w) |>);;
      buff_modify (fun b => b <| fctx := new_ctx |>)
    else
      p ← frag_read prev;
      let prev_end := u32 (f_seq p + f_len p) in
      assertM (GetMinSeq cur_seq prev_end =? prev_end);;
      frag_modify prev (fun f => f <| next := new_ctx |>);;
      frag_modify new_ctx (fun f => f <| next := iter |>).

(** Moving the data to the front of the chunk when the segment would reach its end. *)
Definition RBPut_compact (end_off : Z) : M rb_world unit :=
  w ← get;
  let b := buff w in
  whenM (u32 (size b) <=? u32 (head_offset b + end_off))
    (saved ← unwrap OutOfBounds (mem_read (data b) (head b) (last_len b));
     d ← unwrap OutOfBounds (mem_write (data b) 0 saved);
     buff_modify (fun b => b <| data := d |>
                             <| tail_offset := u32 (tail_offset b - head_offset b) |>
                             <| head_offset := 0 |> <| head := 0 |>)).

(** Copying the segment. *)
Definition RBPut_copy (src : list Z) (len putx end_off : Z) : M rb_world unit :=
  w ← get;
  bytes ← unwrap OutOfBounds (mem_read src 0 len);
  d ← unwrap OutOfBounds (mem_write (data (buff w)) (head (buff w) + putx) bytes);
  buff_modify (fun b => b <| data := d |>);;
  w ← get;
  whenM (tail_offset (buff w) <? u32 (head_offset (buff w) + end_off))
    (buff_modify (fun b => b <| tail_offset := u32 (head_offset b + end_off) |>));;
  buff_modify (fun b => b <| last_len := i32 (u32 (tail_offset b - head_offset b)) |>).

(** Filling in the new fragment and merging it into the list. *)
Definition RBPut_insert (new_ctx len cur_seq : Z) : M rb_world unit :=
  frag_modify new_ctx (fun f => f <| f_seq := cur_seq |> <| f_len := u31 len |>
                                  <| next := 0 |>);;
  w ← get;
  r ← RBPut_loop (base.size (frags w)) cur_seq len (fctx (buff w)) 0 0 new_ctx false;
  let '(iter, prev, new_ctx, merged) := r in
  whenM (negb merged) (RBPut_link cur_seq iter prev new_ctx).

(** Updating the readable length when the first fragment starts at the head. *)
Definition RBPut_publish : M rb_world unit :=
  w ← get;
  first ← frag_read (fctx (buff w));
  whenM (head_seq (buff w) =? f_seq first)
    (buff_modify (fun b => b <| cum_len := u64 (cum_len b + (f_len first - merged_len b)) |>
                             <| merged_len := f_len first |>)).

Definition RBPut (calloc : Z) (src : list Z) (len cur_seq : Z) : M rb_world Z :=
  w ← get;
  if len <=? 0 then mret 0
  else if negb (GetMinSeq (head_seq (buff w)) cur_seq =? head_seq (buff w)) then mret 0
  else
    let putx := i32 (u32 (cur_seq - head_seq (buff w))) in
    let end_off := i32 (u32 (putx + len)) in
    if size (buff w) <? end_off then mret (-2)
    else
      RBPut_compact end_off;;
      RBPut_copy src len putx end_off;;
      new_ctx ← AllocateFragmentContext calloc;
      if new_ctx =? 0 then mret 0
      else
        RBPut_insert new_ctx len cur_seq;;
        RBPut_publish;;
        mret (i32 len).

(** Shortening or unlinking the first fragment. *)
Definition RBRemove_list (len : Z) (option : rb_caller) : M rb_world unit :=
  w ← get;
  let p := fctx (buff w) in
  first ← frag_read p;
  if len =? f_len first then
    buff_modify (fun b => b <| fctx := next first |>);;
    match option with
    | AT_APP => zoom rbm (zoom free_fragq (fifo_enq p));; mret tt
    | AT_MTCP => zoom rbm (zoom free_fragq_int (fifo_enq p));; mret tt
    end
  else if len <? f_len first then
    frag_modify p (fun f => f <| f_seq := u32 (f_seq f + len) |>
                              <| f_len := u31 (f_len f - len) |>)
  else throw AssertFail.

Definition RBRemove (len : Z) (option : rb_caller) : M rb_world Z :=
  w ← get;
  let len := if u64 (merged_len (buff w)) <? len then u64 (merged_len (buff w)) else len in
  if len =? 0 then mret 0
  else
    buff_modify (fun b => b <| head_offset := u32 (head_offset b + len) |>);;
    buff_modify (fun b => b <| head := head_offset b |>
                            <| head_seq := u32 (head_seq b + len) |>
                            <| merged_len := i32 (u64 (merged_len b - len)) |>
                            <| last_len := i32 (u64 (last_len b - len)) |>);;
    RBRemove_list len option;;
    mret len.

(** [calloc_ok]: the descriptor could be allocated; [garbage]: the bytes found in the
    chunk. *)
Definition RBInit (calloc_ok : bool) (garbage : list Z) (seq : Z) :
    M rb_manager (option tcp_ring_buffer) :=
  if negb calloc_ok then mret None
  else
    d ← zoom mp cp_alloc;
    if d =? 0 then mret None
    else
      modify (fun m => m <| cur_num := u32 (cur_num m + 1) |>);;
      m ← get;
      mret (Some (TcpRingBuffer d garbage 0 0 0 0 0 0 (i32 (chunk_size m)) seq seq 0)).

Definition RBFree : M rb_world unit :=
  w ← get;
  whenM (negb (fctx (buff w) =? 0))
    (FreeFragmentContext (fctx (buff w));; buff_modify (fun b => b <| fctx := 0 |>));;
  whenM (negb (data_ptr (buff w) =? 0))
    (zoom rbm (zoom mp (cp_free (data_ptr (buff w)))));;
  modify (fun w => w <| rbm ::= fun m => m <| cur_num := u32 (cur_num m - 1) |> |>).

End RingBuffer.

(** ** Fragments as intervals

    Relative to a base (the sequence number of the head) a fragment is an interval of
    offsets.  [B] bounds the offsets; half the sequence space is ample. *)

Definition inb (B : Z) (x : ival) : Prop := 0 <= x.1 /\ 0 < x.2 /\ ivl_end x <= B.

Definition frag_of (base : Z) (x : ival) (nxt : Z) : fragment_ctx :=
  FragmentCtx (u32 (base + x.1)) x.2 0 nxt.

Lemma eqb_offset base x y :
  -4294967296 < x - y < 4294967296 -> (u32 (base + x) =? u32 (base + y)) = (x =? y).
Proof.
  intros H. destruct (Z.eqb_spec x y) as [->|Hne]; [apply Z.eqb_refl|].
  apply Z.eqb_neq. intros E%u32_offset_inj; [done|lia].
Qed.

Lemma min_is_left x y : (Z.min x y =? x) = (x <=? y).
Proof. apply eq_true_iff_eq. rewrite Z.eqb_eq, Z.leb_le. lia. Qed.

Lemma max_is_right x y : (Z.max x y =? y) = (x <=? y).
Proof. apply eq_true_iff_eq. rewrite Z.eqb_eq, Z.leb_le. lia. Qed.

Lemma GetMinSeq_left base x y :
  -half_space < x - y < half_space ->
  (GetMinSeq (u32 (base + x)) (u32 (base + y)) =? u32 (base + x)) = (x <=? y).
Proof.
  intros H. rewrite GetMinSeq_offset, eqb_offset by (unfold half_space in *; lia).
  apply min_is_left.
Qed.

Lemma GetMaxSeq_right base x y :
  -half_space < x - y < half_space ->
  (GetMaxSeq (u32 (base + x)) (u32 (base + y)) =? u32 (base + y)) = (x <=? y).
Proof.
  intros H. rewrite GetMaxSeq_offset, eqb_offset by (unfold half_space in *; lia).
  apply max_is_right.
Qed.

Lemma GetMinSeq_right base x y :
  -half_space < x - y < half_space ->
  (GetMinSeq (u32 (base + x)) (u32 (base + y)) =? u32 (base + y)) = (y <=? x).
Proof.
  intros H. rewrite GetMinSeq_offset, eqb_offset by (unfold half_space in *; lia).
  rewrite Z.min_comm. apply min_is_left.
Qed.

Section Intervals.
Context (B base : Z) (HB : 0 <= B < 2147483647).

Lemma separated_inb l : separated 0 l -> (forall i, covered l i -> i < B) -> Forall (inb B) l.
Proof.
  intros Hs Hc. pose proof (separated_below _ _ _ Hs Hc) as Hb. clear Hc.
  assert (H0 : 0 <= 0) by lia. revert Hs H0. generalize 0 at 1 3. unfold below in Hb.
  induction Hb as [|x l Hx Hb IH]; intros lo Hs Hlo; [constructor|].
  destruct Hs as (? & ? & Hs). constructor.
  - unfold inb. lia.
  - eapply IH; [exact Hs|]. unfold ivl_end. lia.
Qed.

Lemma CanMerge_touch x y n m :
  inb B x -> inb B y -> CanMerge (frag_of base x n) (frag_of base y m) = touch x y.
Proof.
  unfold inb, ivl_end. intros Hx Hy. unfold CanMerge, frag_of, touch, ivl_end; cbn.
  autorewrite with mtcp. rewrite <- !Z.add_assoc, !u32_add_l, <- !Z.add_assoc.
  rewrite !GetMinSeq_left by (unfold half_space; lia).
  destruct (Z.leb_spec (x.1 + (x.2 + 1)) y.1), (Z.leb_spec (y.1 + (y.2 + 1)) x.1),
    (Z.leb_spec y.1 (x.1 + x.2)), (Z.leb_spec x.1 (y.1 + y.2)); cbn; done || lia.
Qed.

Lemma MergeFragments_hull x y n m :
  inb B x -> inb B y ->
  MergeFragments (frag_of base x n) (frag_of base y m) = frag_of base (hull x y) m.
Proof.
  unfold inb, ivl_end. intros Hx Hy.
  unfold MergeFragments, frag_of, hull, ivl_end; cbn.
  autorewrite with mtcp. rewrite <- !Z.add_assoc.
  rewrite GetMinSeq_offset, GetMaxSeq_offset by (unfold half_space; lia).
  autorewrite with mtcp. unfold u31. rewrite (u32_small (_ - _)) by (unfold is_u32; lia).
  rewrite Z.mod_small by lia. unfold upd; cbn. f_equal. lia.
Qed.

Lemma inb_hull x y : inb B x -> inb B y -> inb B (hull x y).
Proof. unfold inb, hull, ivl_end; cbn. lia. Qed.

(** ** The linked list *)

(** The nodes from [p] up to but not including [q]. *)
Fixpoint chain (h : gmap Z fragment_ctx) (p : Z) (l : list (Z * ival)) (q : Z) : Prop :=
  match l with
  | [] => p = q
  | (a, x) :: k =>
      p = a /\ a <> 0 /\ exists nxt, h !! a = Some (frag_of base x nxt) /\ chain h nxt k q
  end.

Definition hd_addr (l : list (Z * ival)) : Z := match l with [] => 0 | (a, _) :: _ => a end.
Definition last_addr (l : list (Z * ival)) : Z := match list.last l with None => 0 | Some (a, _) => a end.

Lemma chain_hd h p l : chain h p l 0 -> p = hd_addr l.
Proof. destruct l as [|[a x] l]; cbn; [done|]. by intros [-> _]. Qed.

Lemma chain_app h p l k q :
  chain h p (l ++ k) q <-> exists m, chain h p l m /\ chain h m k q.
Proof.
  revert p. induction l as [|[a x] l IH]; intros p; cbn.
  - split; [eauto|]. by intros (m & -> & ?).
  - split.
    + intros (-> & Ha & nxt & Hl & (m & ? & ?)%IH). eauto 10.
    + intros (m & (-> & Ha & nxt & Hl & ?) & ?). split_and!; try done.
      exists nxt. split; [done|]. apply IH. eauto.
Qed.

Lemma chain_frame h h' p l q :
  chain h p l q -> (forall a, a ∈ l.*1 -> h' !! a = h !! a) -> chain h' p l q.
Proof.
  revert p. induction l as [|[a x] l IH]; intros p; cbn; [done|].
  intros (-> & Ha & nxt & Hl & Hc) Hf. split_and!; [done..|]. exists nxt. split.
  - rewrite Hf; [done|]. apply list_elem_of_here.
  - apply IH; [done|]. intros b Hb. apply Hf. by apply list_elem_of_further.
Qed.

Lemma chain_nonzero h p l q a : chain h p l q -> a ∈ l.*1 -> a <> 0.
Proof.
  revert p. induction l as [|[b x] l IH]; intros p; cbn; [by intros _ ?%elem_of_nil|].
  intros (-> & Hb & nxt & Hl & Hc) [->|Ha]%elem_of_cons; [done|]. by eapply IH.
Qed.

Lemma chain_lookup h p l q a : chain h p l q -> a ∈ l.*1 -> is_Some (h !! a).
Proof.
  revert p. induction l as [|[b x] l IH]; intros p; cbn; [by intros _ ?%elem_of_nil|].
  intros (-> & Hb & nxt & Hl & Hc) [->|Ha]%elem_of_cons; [by rewrite Hl|]. by eapply IH.
Qed.

Lemma chain_length h p l q :
  chain h p l q -> NoDup l.*1 -> (length l <= base.size h)%nat.
Proof.
  intros Hc Hnd. rewrite <- (length_fmap fst), <- size_dom.
  rewrite <- (size_list_to_set (C := gset Z) l.*1) by done. apply subseteq_size.
  intros a Ha%elem_of_list_to_set. apply elem_of_dom. by eapply chain_lookup.
Qed.

(** Redirecting the last node of a segment. *)
Lemma chain_relink h p l c x q q' :
  chain h p (l ++ [(c, x)]) q -> c ∉ l.*1 ->
  chain (<[c := frag_of base x q']> h) p (l ++ [(c, x)]) q'.
Proof.
  rewrite !chain_app. intros (m & Hl & (-> & Hc & nxt & Hx & _)) Hn.
  exists c. split.
  - eapply chain_frame; [done|]. intros a Ha. apply lookup_insert_ne. congruence.
  - cbn. split_and!; [done..|]. exists q'. split; [|done]. by rewrite lookup_insert_eq.
Qed.

End Intervals.

(** ** Ownership of fragments

    [acct m A]: the fragments in [A] are in use; they, the queued and the free ones are
    distinct chunks of the fragment pool, and each queue has room for all of them. *)

Section Ownership.
Context {P Q : Type} `{!ChunkPool P} `{!BoundedFifo Q}.
Local Notation rb_manager := (@rb_manager P Q).
Local Notation rb_world := (@rb_world P Q).

Definition queued (m : rb_manager) : list Z :=
  fifo_view (free_fragq m) ++ fifo_view (free_fragq_int m).

Record acct (m : rb_manager) (A : list Z) (F : gset Z) : Prop := {
  acct_pool : cp_inv (frag_mp m) F;
  acct_app : fifo_inv (free_fragq m);
  acct_int : fifo_inv (free_fragq_int m);
  acct_nodup : NoDup (A ++ queued m);
  acct_chunk a : a ∈ A ++ queued m -> a ∈ cp_chunks (frag_mp m) /\ a ∉ F;
  acct_room_app : Z.of_nat (base.size (cp_chunks (frag_mp m))) <= fifo_cap (free_fragq m);
  acct_room_int : Z.of_nat (base.size (cp_chunks (frag_mp m))) <= fifo_cap (free_fragq_int m)
}.

#[export] Instance acct_proper : Proper (eq ==> (≡ₚ) ==> eq ==> iff) acct.
Proof.
  assert (H : forall m A A' F, A ≡ₚ A' -> acct m A F -> acct m A' F).
  { intros m A A' F HA []. split; try done; by setoid_rewrite <- HA. }
  intros m ? <- A A' HA F ? <-. split; apply H; by rewrite HA.
Qed.

Lemma acct_nonzero m A F a : acct m A F -> a ∈ A -> a <> 0.
Proof.
  intros H Ha ->. apply (cp_nonnull _ _ (acct_pool _ _ _ H)).
  apply (acct_chunk _ _ _ H). rewrite elem_of_app. by left.
Qed.

Lemma acct_NoDup m A F : acct m A F -> NoDup A.
Proof. intros H. by apply acct_nodup, list.NoDup_app in H as [? _]. Qed.

(** *** The memory operations *)

Lemma frag_read_ok w a f :
  a <> 0 -> frags w !! a = Some f -> frag_read (P := P) (Q := Q) a w = Ok f w.
Proof.
  intros Ha Hf. unfold frag_read, mbind, M_bind, get, unwrap.
  by rewrite (proj2 (Z.eqb_neq _ _) Ha), Hf.
Qed.

Lemma frag_modify_ok w a f x :
  a <> 0 -> frags w !! a = Some x ->
  frag_modify (P := P) (Q := Q) a f w = Ok tt (w <| frags ::= insert a (f x) |>).
Proof.
  intros Ha Hx. unfold frag_modify. cbn. unfold mbind, M_bind. by rewrite (frag_read_ok _ _ x).
Qed.

Lemma FreeFragmentContextSingle_ok w a A F f :
  acct (rbm w) (a :: A) F -> frags w !! a = Some f -> is_calloc f = 0 ->
  exists p', FreeFragmentContextSingle a w =
      Ok tt (w <| rbm ::= fun m => m <| frag_mp := p' |> |> <| frags ::= delete a |>) /\
    acct ((rbm w) <| frag_mp := p' |>) A ({[a]} ∪ F).
Proof.
  intros H Hf Hc.
  assert (Ha : a <> 0) by (eapply acct_nonzero; [done|apply list_elem_of_here]).
  destruct (acct_chunk _ _ _ H a) as [Hac HaF]; [apply list_elem_of_here|].
  destruct (cp_free_ok _ _ _ (acct_pool _ _ _ H) Hac HaF) as (p' & Hp & Hi & Hch).
  exists p'. split.
  - unfold FreeFragmentContextSingle, mbind, M_bind. rewrite (frag_read_ok _ _ f) by done.
    rewrite Hc. cbn. unfold zoom. by rewrite Hp.
  - destruct H. cbn in acct_nodup0. apply list.NoDup_cons in acct_nodup0 as [Hna Hnd].
    split; cbn; rewrite ?Hch; try done. intros b Hb. destruct (acct_chunk0 b) as [? ?].
    + by apply list_elem_of_further.
    + split; [done|]. rewrite not_elem_of_union, not_elem_of_singleton. split; [|done].
      by intros ->.
Qed.

(** Where the next fragment can come from without falling back to [calloc]. *)
Definition available (m : rb_manager) (F : gset Z) : Prop := queued m <> [] \/ F <> ∅.

Lemma AllocateFragmentContext_ok w A F calloc :
  acct (rbm w) A F -> available (rbm w) F ->
  exists a m' F', AllocateFragmentContext calloc w =
      Ok a (w <| rbm := m' |> <| frags ::= insert a (FragmentCtx 0 0 0 0) |>) /\
    acct m' (a :: A) F' /\ mp m' = mp (rbm w) /\ chunk_size m' = chunk_size (rbm w).
Proof.
  intros H Hav. pose proof H as [Hpool Happ Hint Hnd Hch Hra Hri].
  unfold AllocateFragmentContext, available, queued in *. unfold mbind, M_bind, zoom.
  destruct (fifo_view (free_fragq (rbm w))) as [|a l] eqn:Ea.
  - rewrite (fifo_deq_none _ Happ Ea). cbn.
    destruct (fifo_view (free_fragq_int (rbm w))) as [|a l] eqn:Ei.
    + rewrite (fifo_deq_none _ Hint Ei). cbn.
      destruct (cp_alloc_some _ _ Hpool) as (a & p' & Hal & Ha & Hi & Hc); [tauto|].
      rewrite Hal. cbn.
      assert (Ha0 : a <> 0).
      { intros ->. apply (cp_nonnull _ _ Hpool). by apply (cp_free_chunks _ _ Hpool). }
      rewrite !(proj2 (Z.eqb_neq _ _) Ha0).
      exists a, ((rbm w) <| frag_mp := p' |>), (F ∖ {[a]}). split; [by destruct w as [[] ? ?]|].
      split; [|done]. rewrite app_nil_r in *. split; unfold queued; cbn; rewrite ?Hc, ?Ea, ?Ei; try done.
      * rewrite app_nil_r. apply list.NoDup_cons. split; [|done].
        intros HA. by destruct (Hch a HA).
      * rewrite app_nil_r. intros b [->|Hb]%elem_of_cons.
        -- split; [by apply (cp_free_chunks _ _ Hpool)|set_solver].
        -- destruct (Hch b Hb). set_solver.
    + destruct (fifo_deq_some _ _ _ Hint Ei) as (q' & Hd & Hi & Hv & Hc). rewrite Hd. cbn.
      assert (Ha0 : a <> 0).
      { apply (fifo_inv_nonnull _ _ Hint). rewrite Ei. apply list_elem_of_here. }
      rewrite !(proj2 (Z.eqb_neq _ _) Ha0).
      exists a, ((rbm w) <| free_fragq_int := q' |>), F. split; [by destruct w as [[] ? ?]|].
      split; [|done]. split; unfold queued; cbn; rewrite ?Hv, ?Ea, ?Hc; cbn in *; try done.
      * by rewrite Permutation_middle.
      * intros b Hb. apply Hch. by rewrite <- Permutation_middle.
  - destruct (fifo_deq_some _ _ _ Happ Ea) as (q' & Hd & Hi & Hv & Hc). rewrite Hd. cbn.
    assert (Ha0 : a <> 0).
    { apply (fifo_inv_nonnull _ _ Happ). rewrite Ea. apply list_elem_of_here. }
    rewrite !(proj2 (Z.eqb_neq _ _) Ha0).
    exists a, ((rbm w) <| free_fragq := q' |>), F. split; [by destruct w as [[] ? ?]|].
    split; [|done]. split; unfold queued; cbn; rewrite ?Hv, ?Hc; cbn in *; try done.
    * by rewrite Permutation_middle.
    * intros b Hb. apply Hch. by rewrite <- Permutation_middle.
Qed.

End Ownership.

(** ** The list operations of [RBPut] *)

Section ListOps.
Context {P Q : Type} `{!ChunkPool P} `{!BoundedFifo Q}.
Local Notation rb_world := (@rb_world P Q).
Context (B base : Z) (HB : 0 <= B < 2147483647).
Local Notation chain := (chain base).
Local Notation frag_of := (frag_of base).

(** [owns w l O F]: the list of the buffer consists of the nodes [l]; [O] are the
    fragments of other buffers. *)
Record owns (w : rb_world) (l : list (Z * ival)) (O : list Z) (F : gset Z) : Prop := {
  own_chain : chain (frags w) (fctx (buff w)) l 0;
  own_acct : acct (rbm w) (l.*1 ++ O) F;
  own_inb : Forall (inb B) l.*2
}.

(** What the list operations leave alone. *)
Record frame (w w' : rb_world) (O : list Z) : Prop := {
  fr_other a : a ∈ O -> frags w' !! a = frags w !! a;
  fr_buff : buff w' = (buff w) <| fctx := fctx (buff w') |>;
  fr_mp : mp (rbm w') = mp (rbm w);
  fr_chunk_size : chunk_size (rbm w') = chunk_size (rbm w);
  fr_cur_num : cur_num (rbm w') = cur_num (rbm w)
}.

Lemma frame_refl w O : frame w w O.
Proof. split; try done. by destruct w as [? ? []]. Qed.

Lemma frame_trans w1 w2 w3 O : frame w1 w2 O -> frame w2 w3 O -> frame w1 w3 O.
Proof.
  intros [] []. split; [|by rewrite fr_buff1, fr_buff0|congruence..].
  intros a Ha. by rewrite fr_other1, fr_other0.
Qed.

Lemma relink_ok (w : rb_world) l q q' :
  chain (frags w) (fctx (buff w)) l q -> NoDup l.*1 ->
  exists w',
    (if negb (last_addr l =? 0) then frag_modify (last_addr l) (fun f => f <| next := q' |>)
     else buff_modify (fun b => b <| fctx := q' |>)) w = Ok tt w' /\
    chain (frags w') (fctx (buff w')) l q' /\
    (forall a, a ∉ l.*1 -> frags w' !! a = frags w !! a) /\
    rbm w' = rbm w /\ buff w' = (buff w) <| fctx := fctx (buff w') |>.
Proof.
  intros Hc Hnd. destruct l as [|[c x] l _] using rev_ind.
  - eexists. split; [reflexivity|]. split_and!; done.
  - assert (Hla : last_addr (l ++ [(c, x)]) = c) by (unfold last_addr; by rewrite last_snoc).
    rewrite Hla. rewrite fmap_app in Hnd. apply list.NoDup_app in Hnd as (_ & Hdis & _).
    assert (Hcl : c ∉ l.*1) by (intros Hcl; apply (Hdis c Hcl); apply list_elem_of_here).
    assert (Hc0 : c <> 0).
    { eapply chain_nonzero; [exact Hc|]. rewrite fmap_app, elem_of_app. right. apply list_elem_of_here. }
    rewrite (proj2 (Z.eqb_neq _ _) Hc0). cbn.
    pose proof (chain_relink _ _ _ _ _ _ _ q' Hc Hcl) as Hc'.
    apply chain_app in Hc as (m & _ & (_ & _ & nxt & Hx & _)).
    rewrite (frag_modify_ok _ _ _ _ Hc0 Hx). eexists. split; [reflexivity|].
    split_and!; [exact Hc'| |done|by destruct w as [? ? []]].
    intros a Ha. cbn. apply lookup_insert_ne. intros <-. apply Ha.
    rewrite fmap_app, elem_of_app. right. apply list_elem_of_here.
Qed.

(** One merge of the loop, once the new fragment is a node of the list: node [a] is merged
    into its right neighbour [b], unlinked and freed. *)
Lemma merge_right w L a x b y R O F :
  owns w (L ++ (a, x) :: (b, y) :: R) O F ->
  exists w1 w2 w3 F',
    frag_modify b (MergeFragments (frag_of x b)) w = Ok tt w1 /\
    (if negb (last_addr L =? 0) then frag_modify (last_addr L) (fun f => f <| next := b |>)
     else buff_modify (fun bf => bf <| fctx := b |>)) w1 = Ok tt w2 /\
    FreeFragmentContextSingle a w2 = Ok tt w3 /\
    owns w3 (L ++ (b, hull x y) :: R) O F' /\ frame w w3 O /\
    frags w3 !! b = Some (frag_of (hull x y) (hd_addr R)).
Proof.
  intros [Hc Hacct Hin].
  pose proof (acct_NoDup _ _ _ Hacct) as Hnd.
  apply chain_app in Hc as (a' & HcL & (-> & Ha0 & b' & Hxa & (-> & Hb0 & r & Hyb & HcR))).
  rewrite !fmap_app, !fmap_cons in *. cbn in Hacct, Hnd.
  apply Forall_app in Hin as [HinL Hin]. apply list.Forall_cons in Hin as [Hinx Hin].
  apply list.Forall_cons in Hin as [Hiny HinR]. cbn in Hinx, Hiny.
  pose proof (chain_hd _ _ _ _ HcR) as ->.
  rewrite <- app_assoc in Hnd. cbn in Hnd.
  apply list.NoDup_app in Hnd as (HndL & HdisL & Hnd).
  apply list.NoDup_cons in Hnd as [Hna Hnd]. apply list.NoDup_cons in Hnd as [Hnb Hnd].
  assert (HbL : b ∉ L.*1) by (intros Hb; apply (HdisL b Hb); set_solver).
  assert (HaL : a ∉ L.*1) by (intros Hb; apply (HdisL a Hb); set_solver).
  assert (Hab : a <> b) by set_solver.
  set (w1 := w <| frags ::= insert b (frag_of (hull x y) (hd_addr R)) |>).
  destruct (relink_ok w1 L a b) as (w2 & Hrl & HcL2 & Hout & Hrbm & Hbuff); [|done|].
  { cbn. eapply chain_frame; [exact HcL|]. intros z Hz. apply lookup_insert_ne. congruence. }
  assert (Hacct' : acct (rbm w2) (a :: (L.*1 ++ b :: R.*1) ++ O) F).
  { rewrite Hrbm; cbn. rewrite <- app_assoc in *. cbn in *. by rewrite Permutation_middle. }
  destruct (FreeFragmentContextSingle_ok w2 a _ F (frag_of x b) Hacct') as (p' & Hfree & Hacct3).
  { rewrite Hout by done. cbn. by rewrite lookup_insert_ne. }
  { done. }
  exists w1, w2. do 2 eexists. split_and!.
  - rewrite (frag_modify_ok _ _ _ _ Hb0 Hyb). by rewrite (MergeFragments_hull B base HB).
  - exact Hrl.
  - exact Hfree.
  - assert (Hlook : forall z, z <> a -> z ∉ L.*1 -> z <> b -> delete a (frags w2) !! z = frags w !! z).
    { intros z Hza HzL Hzb. rewrite lookup_delete_ne, Hout by done. cbn. by apply lookup_insert_ne. }
    split; cbn.
    + apply chain_app. exists b. split.
      * eapply chain_frame; [exact HcL2|]. intros z Hz. apply lookup_delete_ne. congruence.
      * cbn. split_and!; [done..|]. exists (hd_addr R). split.
        -- rewrite lookup_delete_ne, Hout by done. cbn. by rewrite lookup_insert_eq.
        -- eapply chain_frame; [exact HcR|]. intros z Hz. apply Hlook; set_solver.
    + rewrite fmap_app, fmap_cons. cbn. exact Hacct3.
    + rewrite fmap_app, fmap_cons. apply Forall_app. split; [done|].
      apply list.Forall_cons. split; [by apply inb_hull|done].
  - split; cbn; rewrite ?Hrbm; try done. intros z Hz. rewrite lookup_delete_ne, Hout.
    + cbn. apply lookup_insert_ne. set_solver.
    + intros HzL. apply (HdisL z HzL). set_solver.
    + set_solver.
  - cbn. rewrite lookup_delete_ne, Hout by done. cbn. by rewrite lookup_insert_eq.
Qed.

(** The first merge: the new fragment [n], not yet linked, is merged into node [b]. *)
Lemma merge_first w L b y R n x nn O F :
  owns w (L ++ (b, y) :: R) (n :: O) F -> frags w !! n = Some (frag_of x nn) -> inb B x ->
  exists w1 w2 F',
    frag_modify b (MergeFragments (frag_of x nn)) w = Ok tt w1 /\
    FreeFragmentContextSingle n w1 = Ok tt w2 /\
    owns w2 (L ++ (b, hull x y) :: R) O F' /\ frame w w2 O /\
    frags w2 !! b = Some (frag_of (hull x y) (hd_addr R)).
Proof.
  intros [Hc Hacct Hin] Hn Hinx.
  pose proof (acct_NoDup _ _ _ Hacct) as Hnd.
  rewrite !fmap_app, !fmap_cons in *. cbn in Hacct, Hnd.
  rewrite <- Permutation_middle in Hacct, Hnd.
  apply list.NoDup_cons in Hnd as [Hnn Hnd].
  apply chain_app in Hc as (b' & HcL & (-> & Hb0 & r & Hyb & HcR)).
  pose proof (chain_hd _ _ _ _ HcR) as ->.
  apply Forall_app in Hin as [HinL Hin]. apply list.Forall_cons in Hin as [Hiny HinR]. cbn in Hiny.
  rewrite <- app_assoc in Hnd. cbn in Hnd. apply list.NoDup_app in Hnd as (HndL & HdisL & Hnd).
  apply list.NoDup_cons in Hnd as [Hnb Hnd].
  assert (HbL : b ∉ L.*1) by (intros Hb; apply (HdisL b Hb); set_solver).
  assert (Hnb' : n <> b) by set_solver.
  set (w1 := w <| frags ::= insert b (frag_of (hull x y) (hd_addr R)) |>).
  destruct (FreeFragmentContextSingle_ok w1 n _ F (frag_of x nn) Hacct) as (p' & Hfree & Hacct2).
  { cbn. by rewrite lookup_insert_ne. }
  { done. }
  assert (Hlook : forall z, z <> n -> z <> b ->
            delete n (<[b := frag_of (hull x y) (hd_addr R)]> (frags w)) !! z = frags w !! z).
  { intros z Hzn Hzb. by rewrite lookup_delete_ne, lookup_insert_ne. }
  exists w1. do 2 eexists. split_and!.
  - rewrite (frag_modify_ok _ _ _ _ Hb0 Hyb). by rewrite (MergeFragments_hull B base HB).
  - exact Hfree.
  - split; cbn; rewrite ?fmap_app, ?fmap_cons.
    + apply chain_app. exists b. split.
      * eapply chain_frame; [exact HcL|]. intros z Hz. apply Hlook; set_solver.
      * cbn. split_and!; [done..|]. exists (hd_addr R). split.
        -- by rewrite lookup_delete_ne, lookup_insert_eq.
        -- eapply chain_frame; [exact HcR|]. intros z Hz. apply Hlook; set_solver.
    + exact Hacct2.
    + apply Forall_app. split; [done|]. apply list.Forall_cons. split; [by apply inb_hull|done].
  - split; cbn; try done.
    + intros z Hz. apply Hlook; set_solver.
    + by destruct w as [? ? []].
  - cbn. by rewrite lookup_delete_ne, lookup_insert_eq.
Qed.

(** After the first merge the loop absorbs right neighbours until one does not touch. *)
Lemma loop_absorb cur_seq len R : forall fuel w L a x O F,
  (length R <= fuel)%nat -> owns w (L ++ (a, x) :: R) O F ->
  exists it pv nc w' l' z r F',
    RBPut_loop fuel cur_seq len (hd_addr R) a (last_addr L) a true w = Ok (it, pv, nc, true) w' /\
    absorb x R.*2 = (z, r) /\ l'.*2 = L.*2 ++ z :: r /\ owns w' l' O F' /\ frame w w' O.
Proof.
  induction R as [|[b y] R IH]; intros fuel w L a x O F Hfuel Hown.
  - exists 0, a, a, w, (L ++ [(a, x)]), x, [], F. split_and!.
    + by destruct fuel.
    + done.
    + by rewrite fmap_app.
    + done.
    + apply frame_refl.
  - destruct fuel as [|fuel]; [cbn in Hfuel; lia|]. cbn in Hfuel.
    pose proof Hown as [Hc _ Hin].
    apply chain_app in Hc as (a' & _ & (-> & Ha0 & b' & Hxa & (-> & Hb0 & r' & Hyb & HcR))).
    rewrite fmap_app, !fmap_cons in Hin. apply Forall_app in Hin as [_ Hin].
    apply list.Forall_cons in Hin as [Hinx Hin]. apply list.Forall_cons in Hin as [Hiny _].
    cbn [RBPut_loop hd_addr]. rewrite (proj2 (Z.eqb_neq _ _) Hb0).
    unfold mbind at 1 2, M_bind at 1 2.
    rewrite (frag_read_ok _ _ _ Ha0 Hxa), (frag_read_ok _ _ _ Hb0 Hyb).
    cbn in Hinx, Hiny. rewrite (CanMerge_touch B base HB) by done.
    cbn [absorb fmap list_fmap snd]. destruct (touch x y) eqn:Ht.
    + destruct (merge_right _ _ _ _ _ _ _ _ _ Hown)
        as (w1 & w2 & w3 & F' & Hm & Hrl & Hfr & Hown3 & Hframe & Hb3).
      destruct (IH fuel w3 L b (hull x y) O F' ltac:(lia) Hown3)
        as (it & pv & nc & w' & l' & z & r & F'' & Hloop & Habs & Hl' & Hown' & Hframe').
      exists it, pv, nc, w', l', z, r, F''. split_and!; try done; [|by eapply frame_trans].
      rewrite Z.eqb_refl. unfold mbind, M_bind. rewrite Hm, Hrl. cbn. rewrite Hfr.
      rewrite (frag_read_ok _ _ _ Hb0 Hb3). exact Hloop.
    + exists b, a, a, w, (L ++ (a, x) :: (b, y) :: R), x, (y :: R.*2), F. split_and!; try done.
      * by rewrite fmap_app.
      * apply frame_refl.
Qed.

Lemma last_addr_ne (L : list (Z * ival)) n : n <> 0 -> n ∉ L.*1 -> last_addr L <> n.
Proof.
  intros Hn HL <-. destruct L as [|[c x] L _] using rev_ind; [done|].
  apply HL. unfold last_addr. rewrite last_snoc, fmap_app, elem_of_app. right. apply list_elem_of_here.
Qed.

(** The whole loop: it stops before or after merging; the list it leaves, or the place it
    found for the new fragment, is that of [add_ival]. *)
Lemma loop_scan len R : forall fuel w L pprev n x O F,
  (length R <= fuel)%nat -> owns w (L ++ R) (n :: O) F ->
  n <> 0 -> frags w !! n = Some (frag_of x 0) -> inb B x -> len = x.2 ->
  Forall (fun y => ivl_end y < x.1) L.*2 ->
  exists it pv nc mg w',
    RBPut_loop fuel (u32 (base + x.1)) len (hd_addr R) (last_addr L) pprev n false w =
      Ok (it, pv, nc, mg) w' /\
    ((mg = false /\ w' = w /\ nc = n /\ exists L' R',
        L ++ R = L' ++ R' /\ it = hd_addr R' /\ pv = last_addr L' /\
        L.*2 ++ add_ival x R.*2 = L'.*2 ++ x :: R'.*2 /\
        Forall (fun y => ivl_end y < x.1) L'.*2 /\
        match R' with [] => True | (_, y) :: _ => x.1 < y.1 end) \/
     (mg = true /\ exists l' F', l'.*2 = L.*2 ++ add_ival x R.*2 /\
        owns w' l' O F' /\ frame w w' O)).
Proof.
  induction R as [|[b y] R IH]; intros fuel w L pprev n x O F Hfuel Hown Hn0 Hn Hinx Hlen Hbef.
  - exists 0, (last_addr L), n, false, w. split; [by destruct fuel|]. left. split_and!; [done..|].
    exists L, []. split_and!; done.
  - destruct fuel as [|fuel]; [cbn in Hfuel; lia|]. cbn in Hfuel.
    pose proof Hown as [Hc Hacct Hin].
    apply chain_app in Hc as (b' & _ & (-> & Hb0 & r' & Hyb & HcR)).
    rewrite fmap_app, fmap_cons in Hin. apply Forall_app in Hin as [_ Hin].
    apply list.Forall_cons in Hin as [Hiny _]. cbn in Hiny.
    pose proof (chain_hd _ _ _ _ HcR) as ->.
    cbn [RBPut_loop hd_addr]. rewrite (proj2 (Z.eqb_neq _ _) Hb0).
    unfold mbind at 1 2, M_bind at 1 2.
    rewrite (frag_read_ok _ _ _ Hn0 Hn), (frag_read_ok _ _ _ Hb0 Hyb).
    rewrite (CanMerge_touch B base HB) by done.
    cbn [add_ival fmap list_fmap snd]. destruct (touch x y) eqn:Ht.
    + destruct (merge_first _ _ _ _ _ _ _ _ _ _ Hown Hn Hinx)
        as (w1 & w2 & F' & Hm & Hfr & Hown2 & Hframe & Hb2).
      destruct (loop_absorb (u32 (base + x.1)) len R fuel w2 L b (hull x y) O F' ltac:(lia) Hown2)
        as (it & pv & nc & w' & l' & z & r & F'' & Hloop & Habs & Hl' & Hown' & Hframe').
      exists it, pv, nc, true, w'. split.
      * rewrite (proj2 (Z.eqb_neq (last_addr L) n)).
        -- unfold mbind, M_bind. rewrite Hm. cbn. rewrite Hfr.
           rewrite (frag_read_ok _ _ _ Hb0 Hb2). exact Hloop.
        -- apply last_addr_ne; [done|]. apply acct_NoDup in Hacct.
           rewrite fmap_app, <- !app_assoc in Hacct. apply list.NoDup_app in Hacct as (_ & Hd & _).
           intros HnL. apply (Hd n HnL). set_solver.
      * right. split; [done|]. exists l', F''. rewrite Habs. split_and!; [done..|].
        by eapply frame_trans.
    + subst len. cbn [frag_of RingBuffer.frag_of f_seq]. autorewrite with mtcp.
      rewrite <- Z.add_assoc. unfold inb, ivl_end in Hinx, Hiny.
      rewrite GetMaxSeq_right by (unfold half_space; lia).
      fold (ivl_end x). cbn [orb].
      assert (Hnt : ~ (y.1 <= ivl_end x /\ x.1 <= ivl_end y)).
      { rewrite <- touch_spec. by rewrite Ht. }
      destruct (Z.leb_spec (ivl_end x) y.1) as [Hle|Hgt].
      * exists b, (last_addr L), n, false, w. split; [done|]. left. split_and!; [done..|].
        exists L, ((b, y) :: R). split_and!; try done. unfold ivl_end in Hle. lia.
      * destruct (IH fuel w (L ++ [(b, y)]) (last_addr L) n x O F)
          as (it & pv & nc & mg & w' & Hloop & Hres); try done; [lia|by rewrite <- app_assoc| |].
        { rewrite fmap_app. apply Forall_app. split; [done|]. apply Forall_singleton. cbn.
          unfold ivl_end in *. lia. }
        assert (Hla : last_addr (L ++ [(b, y)]) = b) by (unfold last_addr; by rewrite last_snoc).
        rewrite Hla in Hloop. exists it, pv, nc, mg, w'. split; [exact Hloop|].
        rewrite <- app_assoc, fmap_app, <- app_assoc in Hres. exact Hres.
Qed.

Lemma last_node (L : list (Z * ival)) :
  L <> [] -> exists L0 d v, L = L0 ++ [(d, v)].
Proof. destruct L as [|[d v] L0 _] using rev_ind; [done|]. by exists L0, d, v. Qed.

(** Adding the new fragment, now node [n], to the invariant of the list. *)
Lemma owns_link (w w' : rb_world) L n x R O F :
  acct (rbm w) ((L ++ R).*1 ++ n :: O) F -> Forall (inb B) (L ++ R).*2 -> inb B x -> rbm w' = rbm w ->
  chain (frags w') (fctx (buff w')) (L ++ (n, x) :: R) 0 ->
  owns w' (L ++ (n, x) :: R) O F.
Proof.
  intros Hacct Hin Hinx Hr Hc. split; [done| |].
  - rewrite Hr. rewrite fmap_app, fmap_cons in *. rewrite <- !app_assoc in *. cbn.
    by rewrite <- Permutation_middle, app_assoc, Permutation_middle, <- app_assoc.
  - rewrite fmap_app, fmap_cons in *. apply Forall_app in Hin as [? ?].
    apply Forall_app. split; [done|]. by apply list.Forall_cons.
Qed.

(** What is known when the loop ends without a merge: the new fragment [n] belongs between
    [L] and [R]. *)
Record placed (w : rb_world) (L R : list (Z * ival)) (n : Z) (x : ival) (O : list Z) (F : gset Z) :
    Prop := {
  pl_owns : owns w (L ++ R) (n :: O) F;
  pl_nonzero : n <> 0;
  pl_node : frags w !! n = Some (frag_of x 0);
  pl_inb : inb B x;
  pl_before : Forall (fun y => ivl_end y < x.1) L.*2;
  pl_after : match R with [] => True | (_, y) :: _ => x.1 < y.1 end
}.

Lemma placed_fresh w L R n x O F :
  placed w L R n x O F ->
  NoDup L.*1 /\ (forall a, a ∈ L.*1 -> a ∉ R.*1 /\ a ∉ O) /\ n ∉ L.*1 /\ n ∉ R.*1 /\ n ∉ O.
Proof.
  intros [[_ Hacct _] _ _ _ _ _]. apply acct_NoDup in Hacct.
  rewrite <- Permutation_middle in Hacct. apply list.NoDup_cons in Hacct as [Hnl Hnd].
  rewrite fmap_app, <- !app_assoc in Hnl, Hnd.
  apply list.NoDup_app in Hnd as (HndL & HdisL & _).
  split_and!; [done| |set_solver..]. intros a Ha. specialize (HdisL a Ha). set_solver.
Qed.

(** The new fragment goes to the front of the list. *)
Lemma link_front w R n x O F :
  placed w [] R n x O F ->
  exists w', RBPut_link (u32 (base + x.1)) (hd_addr R) 0 n w = Ok tt w' /\
    owns w' ((n, x) :: R) O F /\ frame w w' O.
Proof.
  intros Hpl. destruct (placed_fresh _ _ _ _ _ _ _ Hpl) as (_ & _ & _ & HnR & HnO).
  destruct Hpl as [[Hc Hacct Hin] Hn0 Hn Hinx _ Haft]. cbn [app] in *.
  unfold RBPut_link, mbind at 1, M_bind at 1, get. rewrite (chain_hd _ _ _ _ Hc).
  destruct R as [|[b y] R]; cbn [hd_addr Z.eqb].
  - eexists. split; [reflexivity|]. split; [apply (owns_link w _ [] n x []); try done|].
    + cbn. split_and!; [done..|]. by exists 0.
    + split; try done.
  - cbn in Hc. destruct Hc as (Hf & Hb0 & r & Hyb & HcR). rewrite (proj2 (Z.eqb_neq _ _) Hb0).
    unfold mbind at 1, M_bind at 1. rewrite (frag_read_ok _ _ _ Hb0 Hyb).
    cbn [f_seq frag_of RingBuffer.frag_of].
    pose proof Hin as Hin2. apply list.Forall_cons in Hin2 as [Hiny _].
    cbn in Hiny. pose proof Hinx as Hinx2. unfold inb, ivl_end in Hinx2, Hiny.
    rewrite GetMinSeq_left, (proj2 (Z.leb_le _ _)) by (unfold half_space; lia).
    unfold mbind, M_bind. rewrite (frag_modify_ok _ _ _ _ Hn0 Hn).
    eexists. split; [reflexivity|].
    assert (Hout : forall a, a <> n ->
      (<[n := (frag_of x 0) <| next := b |>]> (frags w)) !! a = frags w !! a)
      by (intros a Ha; by rewrite lookup_insert_ne).
    split; [apply (owns_link w _ [] n x ((b, y) :: R)); try done|].
    + cbn. split_and!; [done..|]. exists b. split; [by rewrite lookup_insert_eq|].
      split_and!; [done..|]. exists r. split; [rewrite Hout; [done|set_solver]|].
      eapply chain_frame; [exact HcR|]. intros a Ha. apply Hout. set_solver.
    + split; try done; cbn. intros a Ha. apply Hout. set_solver.
Qed.

(** The new fragment goes behind the last node of a nonempty [L]. *)
Lemma link_after w L d v R n x O F :
  placed w (L ++ [(d, v)]) R n x O F ->
  exists w', RBPut_link (u32 (base + x.1)) (hd_addr R) d n w = Ok tt w' /\
    owns w' ((L ++ [(d, v)]) ++ (n, x) :: R) O F /\ frame w w' O.
Proof.
  intros Hpl. destruct (placed_fresh _ _ _ _ _ _ _ Hpl) as (HndL & HdisL & HnL & HnR & HnO).
  destruct Hpl as [[Hc Hacct Hin] Hn0 Hn Hinx Hbef _].
  pose proof Hc as HcF. apply chain_app in Hc as (q & HcL & HcR).
  pose proof (chain_hd _ _ _ _ HcR) as ->.
  destruct (relink_ok w _ _ n HcL HndL) as (w1 & Hrl & HcL1 & Hout1 & Hrbm1 & Hbuff1).
  assert (Hla : last_addr (L ++ [(d, v)]) = d) by (unfold last_addr; by rewrite last_snoc).
  assert (Hfirst : exists c z r, fctx (buff w) = c /\ c <> 0 /\ frags w !! c = Some (frag_of z r) /\
            inb B z /\ ivl_end z < x.1).
  { destruct (L ++ [(d, v)]) as [|[c z] K] eqn:EK; [by destruct L|].
    cbn in HcF. destruct HcF as (? & ? & r & ? & _).
    apply list.Forall_cons in Hbef as [? _]. apply list.Forall_cons in Hin as [? _].
    by exists c, z, r. }
  destruct Hfirst as (c & z & r & Hf & Hc0 & Hz & Hinz & Hbz).
  apply chain_app in HcL as (? & _ & (_ & Hd0 & r2 & Hvd & _)).
  rewrite Hla, (proj2 (Z.eqb_neq _ _) Hd0) in Hrl. cbn [negb] in Hrl.
  assert (Hv : inb B v /\ ivl_end v < x.1).
  { rewrite !fmap_app in *. apply Forall_app in Hbef as [_ Hb]. apply Forall_app in Hin as [Hi _].
    apply Forall_app in Hi as [_ Hi]. apply list.Forall_cons in Hb as [? _], Hi as [? _]. by split. }
  destruct Hv as [Hinv Hbv]. pose proof Hinx as Hinx2. unfold inb, ivl_end in Hinx2, Hinz, Hbz, Hbv, Hinv.
  unfold RBPut_link, mbind at 1, M_bind at 1, get. rewrite Hf, (proj2 (Z.eqb_neq _ _) Hc0).
  unfold mbind at 1, M_bind at 1. rewrite (frag_read_ok _ _ _ Hc0 Hz).
  cbn [f_seq frag_of RingBuffer.frag_of].
  rewrite GetMinSeq_left, (proj2 (Z.leb_gt _ _)) by (unfold half_space; lia).
  unfold mbind at 1, M_bind at 1. rewrite (frag_read_ok _ _ _ Hd0 Hvd).
  cbn [f_seq f_len frag_of RingBuffer.frag_of].
  autorewrite with mtcp. rewrite <- Z.add_assoc.
  rewrite GetMinSeq_right, (proj2 (Z.leb_le _ _)) by (unfold half_space; lia).
  unfold mbind, M_bind. cbn [assertM mret M_ret]. rewrite Hrl.
  rewrite (frag_modify_ok _ n _ (frag_of x 0)) by (done || by rewrite Hout1).
  eexists. split; [reflexivity|].
  assert (Hout : forall a, a <> n -> a ∉ (L ++ [(d, v)]).*1 ->
    (<[n := (frag_of x 0) <| next := hd_addr R |>]> (frags w1)) !! a = frags w !! a)
    by (intros a Ha Ha2; rewrite lookup_insert_ne by done; by apply Hout1).
  split; [eapply owns_link; try done|].
  - apply chain_app. exists n. split.
    + eapply chain_frame; [exact HcL1|]. intros a Ha. apply lookup_insert_ne. by intros <-.
    + cbn. split_and!; [done..|]. exists (hd_addr R). split; [by rewrite lookup_insert_eq|].
      eapply chain_frame; [exact HcR|]. intros a Ha. apply Hout; [by intros ->|].
      intros Ha2. by destruct (HdisL a Ha2).
  - split; cbn; rewrite ?Hrbm1; try done.
    intros a Ha. apply Hout; [by intros ->|]. intros Ha2. by destruct (HdisL a Ha2).
Qed.

Lemma link_ok w L R n x O F :
  placed w L R n x O F ->
  exists w', RBPut_link (u32 (base + x.1)) (hd_addr R) (last_addr L) n w = Ok tt w' /\
    owns w' (L ++ (n, x) :: R) O F /\ frame w w' O.
Proof.
  destruct L as [|[d v] L _] using rev_ind; intros Hpl; [by apply link_front|].
  replace (last_addr (L ++ [(d, v)])) with d by (unfold last_addr; by rewrite last_snoc).
  by apply link_after.
Qed.

(** The list part of [RBPut] computes [add_ival]. *)
Lemma insert_ok w l n x O F :
  owns w l (n :: O) F -> frags w !! n = Some (FragmentCtx 0 0 0 0) -> inb B x ->
  exists w' l' F', RBPut_insert n x.2 (u32 (base + x.1)) w = Ok tt w' /\
    owns w' l' O F' /\ l'.*2 = add_ival x l.*2 /\ frame w w' O.
Proof.
  intros Hown Hn Hinx. pose proof Hown as [Hc Hacct Hin].
  assert (Hn0 : n <> 0).
  { eapply acct_nonzero; [exact Hacct|]. rewrite elem_of_app. right. apply list_elem_of_here. }
  assert (Hnl : n ∉ l.*1 /\ n ∉ O).
  { apply acct_NoDup in Hacct. rewrite <- Permutation_middle in Hacct.
    apply list.NoDup_cons in Hacct as [Hnl _]. by apply not_elem_of_app in Hnl. }
  destruct Hnl as [Hnl HnO].
  unfold RBPut_insert, mbind at 1, M_bind at 1. rewrite (frag_modify_ok _ _ _ _ Hn0 Hn).
  set (w1 := w <| frags ::= _ |>).
  assert (Hn1 : frags w1 !! n = Some (frag_of x 0)).
  { unfold w1; cbn. rewrite lookup_insert_eq. unfold frag_of, RingBuffer.frag_of, upd; cbn.
    unfold inb, ivl_end in Hinx. unfold u31. by rewrite Z.mod_small by lia. }
  assert (Hown1 : owns w1 l (n :: O) F).
  { split; [|done|done]. eapply chain_frame; [exact Hc|]. intros a Ha. cbn.
    apply lookup_insert_ne. by intros <-. }
  assert (Hfr1 : frame w w1 O).
  { split; try done; cbn.
    - intros a Ha. apply lookup_insert_ne. by intros <-.
    - by destruct w as [? ? []]. }
  assert (Hlen : (length l <= base.size (frags w1))%nat).
  { eapply chain_length; [apply Hown1|]. apply acct_NoDup, list.NoDup_app in Hacct as [? _]. done. }
  destruct (loop_scan x.2 l (base.size (frags w1)) w1 [] 0 n x O F Hlen Hown1 Hn0 Hn1 Hinx eq_refl)
    as (it & pv & nc & mg & w2 & Hloop & Hres); [constructor|].
  unfold mbind, M_bind, get. cbn [last_addr list.last] in Hloop.
  change (fctx (buff w1)) with (fctx (buff w)). rewrite (chain_hd _ _ _ _ Hc), Hloop.
  destruct Hres as [(-> & -> & -> & L' & R' & El & -> & -> & Eadd & Hbef & Haft)
                   |(-> & l' & F' & El & Hown' & Hfr')].
  - cbn [negb whenM]. cbn [app] in El. subst l.
    destruct (link_ok w1 L' R' n x O F) as (w' & Hlink & Hown' & Hfr'); [by split|].
    exists w', (L' ++ (n, x) :: R'), F. split_and!; [done..| |by eapply frame_trans].
    rewrite fmap_app, fmap_cons. symmetry. exact Eadd.
  - cbn [negb whenM]. exists w2, l', F'. split_and!; [done..|by eapply frame_trans].
Qed.

End ListOps.

(** ** The contents of a buffer *)

(** The byte at an offset from the head, where one has arrived. *)
Definition rb_view (b : tcp_ring_buffer) (l : list ival) (i : Z) : option Z :=
  if decide (covered l i) then data b !! Z.to_nat (head b + i) else None.

(** The length of the leading interval when it starts at the head. *)
Definition merged_of (l : list ival) : Z :=
  match l with [] => 0 | x :: _ => if x.1 =? 0 then x.2 else 0 end.

Record rb_wf (b : tcp_ring_buffer) (l : list ival) : Prop := {
  wf_size : 0 < size b < 2147483647;
  wf_data : zlen (data b) = size b;
  wf_head : head b = head_offset b;
  wf_offsets : 0 <= head_offset b <= tail_offset b;
  wf_tail : tail_offset b <= size b;
  wf_last : last_len b = tail_offset b - head_offset b;
  wf_seq : is_u32 (head_seq b);
  wf_sep : separated 0 l;
  wf_below : below (last_len b) l;
  wf_merged : merged_len b = merged_of l
}.

Lemma merged_of_covered l : separated 0 l -> (0 < merged_of l <-> covered l 0).
Proof.
  destruct l as [|x l]; cbn; [by rewrite covered_nil|]. intros (Hx & Hl & Hs).
  rewrite covered_cons. destruct (Z.eqb_spec x.1 0) as [E|E].
  - split; [|lia]. left. unfold inside, ivl_end. lia.
  - split; [lia|]. intros [Hi|Hc].
    + unfold inside, ivl_end in Hi. lia.
    + pose proof (separated_covered _ _ _ Hs Hc). unfold ivl_end in *. lia.
Qed.

Lemma merged_of_nonneg l : separated 0 l -> 0 <= merged_of l.
Proof. destruct l as [|x l]; cbn; [lia|]. intros (? & ? & _). case_match; lia. Qed.

(** The leading interval is the longest contiguous prefix. *)
Lemma merged_of_prefix l i :
  separated 0 l -> 0 <= i < merged_of l -> covered l i.
Proof.
  destruct l as [|x l]; cbn; [lia|]. intros (Hx & Hl & Hs) Hi.
  destruct (Z.eqb_spec x.1 0); [|lia]. apply covered_cons. left. unfold inside, ivl_end. lia.
Qed.

Lemma merged_of_gap l : separated 0 l -> ~ covered l (merged_of l).
Proof.
  destruct l as [|x l]; cbn; [rewrite covered_nil; lia|]. intros (Hx & Hl & Hs).
  rewrite covered_cons. destruct (Z.eqb_spec x.1 0) as [E|E]; intros [Hi|Hc];
    try (unfold inside, ivl_end in Hi; lia);
    pose proof (separated_covered _ _ _ Hs Hc); unfold ivl_end in *; lia.
Qed.

Section Data.
Context {P Q : Type} `{!ChunkPool P} `{!BoundedFifo Q}.
Local Notation rb_world := (@rb_world P Q).

(** Compaction leaves the view alone and makes room for the segment. *)
Lemma compact_ok (w : rb_world) l end_off :
  rb_wf (buff w) l -> 0 <= end_off <= size (buff w) ->
  exists b', RBPut_compact end_off w = Ok tt (w <| buff := b' |>) /\ rb_wf b' l /\
    (forall i, covered l i -> data b' !! Z.to_nat (head b' + i) =
                              data (buff w) !! Z.to_nat (head (buff w) + i)) /\
    head_offset b' + end_off <= size b' /\
    size b' = size (buff w) /\ head_seq b' = head_seq (buff w) /\ fctx b' = fctx (buff w) /\
    merged_len b' = merged_len (buff w) /\ cum_len b' = cum_len (buff w) /\
    init_seq b' = init_seq (buff w) /\ data_ptr b' = data_ptr (buff w).
Proof.
  intros Hwf He. destruct w as [m fr b]; cbn in *. pose proof Hwf as [].
  unfold RBPut_compact, mbind at 1, M_bind at 1, get; cbn -[mem_read mem_write].
  rewrite !u32_small by (unfold is_u32; lia).
  destruct (Z.leb_spec (size b) (head_offset b + end_off)) as [Hfull|Hfit]; cbn [whenM].
  - unfold mbind, M_bind. rewrite mem_read_ok by lia. cbn [unwrap mret M_ret].
    set (saved := take _ _).
    assert (Hs : zlen saved = last_len b).
    { unfold saved, zlen in *. rewrite length_take, length_drop. lia. }
    destruct (mem_write (data b) 0 saved) as [d|] eqn:Hw; [|rewrite mem_write_ok in Hw by lia; done].
    cbn. eexists. split; [reflexivity|].
    pose proof (mem_write_length _ _ _ _ Hw) as Hl.
    split_and!; cbn; try done; try lia.
    + split; cbn; rewrite ?u32_small by (unfold is_u32; lia); try done; unfold zlen in *; lia.
    + intros i Hi. cbn. rewrite (mem_write_lookup _ _ _ _ _ Hw).
      pose proof (separated_covered _ _ _ wf_sep0 Hi) as Hi0.
      pose proof (below_covered _ _ _ wf_below0 Hi) as Hi1.
      rewrite bool_decide_eq_true_2 by lia. unfold saved.
      rewrite lookup_take_lt, lookup_drop by lia. f_equal. lia.
  - cbn. exists b. split_and!; try done; lia.
Qed.

(** Copying a segment overlays its bytes. *)
Lemma copy_ok (w : rb_world) l src len off :
  rb_wf (buff w) l -> 0 < len <= zlen src -> 0 <= off ->
  head_offset (buff w) + (off + len) <= size (buff w) ->
  exists b', RBPut_copy src len off (off + len) w = Ok tt (w <| buff := b' |>) /\
    (forall i, 0 <= i -> data b' !! Z.to_nat (head b' + i) =
       if decide (off <= i < off + len) then src !! Z.to_nat (i - off)
       else data (buff w) !! Z.to_nat (head (buff w) + i)) /\
    zlen (data b') = size b' /\ head b' = head_offset b' /\
    head_offset b' = head_offset (buff w) /\
    tail_offset b' = Z.max (tail_offset (buff w)) (head_offset b' + (off + len)) /\
    last_len b' = tail_offset b' - head_offset b' /\
    size b' = size (buff w) /\ head_seq b' = head_seq (buff w) /\ fctx b' = fctx (buff w) /\
    merged_len b' = merged_len (buff w) /\ cum_len b' = cum_len (buff w) /\
    init_seq b' = init_seq (buff w) /\ data_ptr b' = data_ptr (buff w).
Proof.
  intros Hwf Hlen Hoff Hfit. destruct w as [m fr b]; cbn in *. pose proof Hwf as [].
  unfold RBPut_copy, mbind, M_bind, get; cbn -[mem_read mem_write].
  rewrite mem_read_ok by lia. cbn [unwrap mret M_ret]. change (drop (Z.to_nat 0) src) with src.
  set (bytes := take (Z.to_nat len) src).
  assert (Hb : zlen bytes = len) by (unfold bytes, zlen in *; rewrite length_take; lia).
  destruct (mem_write (data b) (head b + off) bytes) as [d|] eqn:Hw;
    [|rewrite mem_write_ok in Hw by lia; done].
  pose proof (mem_write_length _ _ _ _ Hw) as Hl. cbn.
  rewrite u32_small by (unfold is_u32; lia).
  assert (Hdata : forall i, 0 <= i -> d !! Z.to_nat (head b + i) =
       if decide (off <= i < off + len) then src !! Z.to_nat (i - off)
       else data b !! Z.to_nat (head b + i)).
  { intros i Hi. rewrite (mem_write_lookup _ _ _ _ _ Hw), Hb.
    destruct (decide (off <= i < off + len)) as [Hin|Hout].
    - rewrite bool_decide_eq_true_2 by lia. unfold bytes. rewrite lookup_take_lt by lia. f_equal. lia.
    - rewrite bool_decide_eq_false_2 by lia. done. }
  unfold zlen in *.
  destruct (Z.ltb_spec (tail_offset b) (head_offset b + (off + len))); cbn;
    (eexists; split; [reflexivity|]; cbn;
     rewrite ?(u32_small (_ + _)), ?(u32_small (_ - _)), ?i32_small by (unfold is_u32; lia);
     split_and!; try done; lia).
Qed.

End Data.

(** ** [RBPut] and [RBRemove] *)

Section Main.
Context {P Q : Type} `{!ChunkPool P} `{!BoundedFifo Q}.
Local Notation rb_world := (@rb_world P Q).

(** The invariant of a buffer with fragment list [l] among other buffers' fragments [O]. *)
Record rb_inv (w : rb_world) (l : list (Z * ival)) (O : list Z) (F : gset Z) : Prop := {
  inv_wf : rb_wf (buff w) l.*2;
  inv_owns : owns (size (buff w)) (head_seq (buff w)) w l O F
}.

(** The parts of a buffer that no operation on its data changes. *)
Record same_buffer (b b' : tcp_ring_buffer) : Prop := {
  sb_size : size b' = size b;
  sb_init : init_seq b' = init_seq b;
  sb_ptr : data_ptr b' = data_ptr b
}.

(** *** The guards of [RBPut] *)

Lemma put_zero (w : rb_world) calloc src seq : RBPut calloc src 0 seq w = Ok 0 w.
Proof. done. Qed.

Lemma put_old (w : rb_world) calloc src len back :
  is_u32 (head_seq (buff w)) -> 0 < len -> 0 < back < half_space ->
  RBPut calloc src len (u32 (head_seq (buff w) - back)) w = Ok 0 w.
Proof.
  intros Hh Hlen Hb. unfold RBPut, mbind, M_bind, get.
  rewrite (proj2 (Z.leb_gt _ _) Hlen).
  assert (E : (GetMinSeq (head_seq (buff w)) (u32 (head_seq (buff w) - back)) =?
               head_seq (buff w)) = false).
  { unfold GetMinSeq, MAXSEQ, half_space in *. apply Z.eqb_neq.
    repeat case_match; rewrite ?Z.eqb_eq, ?Z.eqb_neq, ?Z.ltb_lt, ?Z.ltb_ge, ?Z.leb_le,
      ?Z.leb_gt in *; mlia. }
  by rewrite E.
Qed.

Lemma put_guards (w : rb_world) calloc src len off :
  is_u32 (head_seq (buff w)) -> 0 < len -> 0 <= off -> off + len < half_space ->
  RBPut calloc src len (u32 (head_seq (buff w) + off)) w =
    (if size (buff w) <? off + len then mret (-2)
     else
       RBPut_compact (off + len);;
       RBPut_copy src len off (off + len);;
       new_ctx ← AllocateFragmentContext calloc;
       if new_ctx =? 0 then mret 0
       else
         RBPut_insert new_ctx len (u32 (head_seq (buff w) + off));;
         RBPut_publish;;
         mret (i32 len)) w.
Proof.
  intros Hh Hlen Hoff Hmax. unfold RBPut, mbind at 1, M_bind at 1, get.
  rewrite (proj2 (Z.leb_gt _ _) Hlen).
  assert (E : (GetMinSeq (head_seq (buff w)) (u32 (head_seq (buff w) + off)) =?
               head_seq (buff w)) = true).
  { rewrite <- (u32_small _ Hh) at 1 3. rewrite <- (Z.add_0_r (head_seq (buff w))) at 1 3.
    rewrite GetMinSeq_left by (unfold half_space in *; lia). apply Z.leb_le. lia. }
  rewrite E. cbn [negb]. autorewrite with mtcp.
  replace (head_seq (buff w) + off - head_seq (buff w)) with off by lia.
  unfold half_space in *. rewrite (u32_small off), (i32_small off) by (unfold is_u32; lia).
  rewrite (u32_small (off + len)), (i32_small (off + len)) by (unfold is_u32; lia). done.
Qed.

(** A segment that does not fit is refused. *)
Lemma put_full (w : rb_world) calloc src len off :
  is_u32 (head_seq (buff w)) -> 0 < len -> 0 <= off -> off + len < half_space ->
  size (buff w) < off + len ->
  RBPut calloc src len (u32 (head_seq (buff w) + off)) w = Ok (-2) w.
Proof.
  intros. rewrite put_guards by done. by rewrite (proj2 (Z.ltb_lt _ _)).
Qed.

(** The first node of a nonempty list decides the readable length. *)
Lemma publish_ok (w : rb_world) B base l O F :
  owns B base w l O F -> l <> [] -> separated 0 l.*2 -> head_seq (buff w) = base -> is_u32 base ->
  0 <= B < 2147483647 ->
  exists b', RBPut_publish w = Ok tt (w <| buff := b' |>) /\
    merged_len b' = (if decide (covered l.*2 0) then merged_of l.*2 else merged_len (buff w)) /\
    b' = (buff w) <| cum_len := cum_len b' |> <| merged_len := merged_len b' |>.
Proof.
  intros [Hc _ Hin] Hne Hsep Hbase Hb HB. destruct l as [|[a x] l]; [done|].
  cbn in Hc. destruct Hc as (Hf & Ha & nxt & Hx & _). apply list.Forall_cons in Hin as [Hinx _].
  unfold RBPut_publish, mbind, M_bind, get. rewrite Hf. rewrite (frag_read_ok _ _ _ Ha Hx).
  cbn [f_seq f_len frag_of]. rewrite Hbase.
  assert (E : (base =? u32 (base + x.1)) = (x.1 =? 0)).
  { rewrite <- (u32_small _ Hb) at 1. rewrite <- (Z.add_0_r base) at 1.
    unfold inb, ivl_end in Hinx. cbn in Hinx. rewrite eqb_offset by lia. apply Z.eqb_sym. }
  rewrite E. pose proof (merged_of_covered _ Hsep) as Hm. cbn [merged_of fmap list_fmap snd] in Hm |- *.
  destruct Hsep as (Hx0 & Hx2 & _). cbn in Hx0, Hx2.
  destruct (Z.eqb_spec x.1 0) as [E0|E0]; cbn [whenM].
  - eexists. split; [reflexivity|]. rewrite decide_True by (apply Hm; lia). split; [done|].
    by destruct (buff w).
  - exists (buff w). split; [by destruct w|]. rewrite decide_False by (rewrite <- Hm; lia).
    split; [done|]. by destruct (buff w).
Qed.

(** Allocating the fragment keeps the list and adds a blank node. *)
Lemma alloc_owns (w : rb_world) B base l O F calloc :
  owns B base w l O F -> available (rbm w) F ->
  exists a w' F', AllocateFragmentContext calloc w = Ok a w' /\ a <> 0 /\
    owns B base w' l (a :: O) F' /\ frags w' !! a = Some (FragmentCtx 0 0 0 0) /\
    buff w' = buff w /\ (forall x, x ∈ O -> frags w' !! x = frags w !! x) /\
    mp (rbm w') = mp (rbm w).
Proof.
  intros [Hc Hacct Hin] Hav.
  destruct (AllocateFragmentContext_ok w _ F calloc Hacct Hav) as (a & m' & F' & Hal & Hacct' & Hmp & _).
  pose proof (acct_NoDup _ _ _ Hacct') as Hnd. apply list.NoDup_cons in Hnd as [Hna _].
  apply not_elem_of_app in Hna as [Hnl HnO].
  exists a. do 2 eexists. split; [exact Hal|]. split_and!; cbn.
  - eapply acct_nonzero; [exact Hacct'|apply list_elem_of_here].
  - split; cbn; [|by rewrite <- Permutation_middle|done].
    eapply chain_frame; [exact Hc|]. intros x Hx. apply lookup_insert_ne. by intros <-.
  - by rewrite lookup_insert_eq.
  - done.
  - intros x Hx. apply lookup_insert_ne. by intros <-.
  - done.
Qed.

Lemma add_ival_nonempty x l : add_ival x l <> [].
Proof. destruct l; cbn; [done|]. repeat case_match; done. Qed.

Lemma add_ival_below x l hi hi' :
  0 <= x.1 -> 0 < x.2 -> separated 0 l -> below hi l -> hi <= hi' -> ivl_end x <= hi' ->
  below hi' (add_ival x l).
Proof.
  intros Hx0 Hx2 Hs Hb Hhi Hx. destruct (add_ival_spec x 0 l) as [Hs' Hc]; [done..|].
  eapply separated_below; [exact Hs'|]. intros i [Hi|Hi]%Hc.
  - unfold inside in Hi. lia.
  - apply (below_covered hi) in Hi; [lia|done].
Qed.

(** What a put does: the buffer as a map is overlaid with the segment. *)
Definition overlay (v : Z -> option Z) (off len : Z) (src : list Z) (i : Z) : option Z :=
  if decide (off <= i < off + len) then src !! Z.to_nat (i - off) else v i.

(** The two data steps together: the segment is in place, nothing that had arrived is
    lost, and the fragment list is still to be updated. *)
Record staged (b b' : tcp_ring_buffer) (l : list ival) (src : list Z) (len off : Z) : Prop := {
  st_data i : 0 <= i -> (off <= i < off + len \/ covered l i) ->
    data b' !! Z.to_nat (head b' + i) =
      if decide (off <= i < off + len) then src !! Z.to_nat (i - off)
      else data b !! Z.to_nat (head b + i);
  st_zlen : zlen (data b') = size b';
  st_head : head b' = head_offset b';
  st_offsets : 0 <= head_offset b' <= tail_offset b';
  st_tail : tail_offset b' <= size b';
  st_last : last_len b' = tail_offset b' - head_offset b';
  st_end : off + len <= last_len b';
  st_below : below (last_len b') l;
  st_seq : head_seq b' = head_seq b;
  st_fctx : fctx b' = fctx b;
  st_merged : merged_len b' = merged_len b;
  st_same : same_buffer b b'
}.

Lemma stage_ok (w : rb_world) l src len off :
  rb_wf (buff w) l -> 0 < len <= zlen src -> 0 <= off -> off + len <= size (buff w) ->
  exists b', (RBPut_compact (off + len);; RBPut_copy src len off (off + len)) w =
      Ok tt (w <| buff := b' |>) /\ staged (buff w) b' l src len off.
Proof.
  intros Hwf Hlen Hoff Hfit.
  destruct (compact_ok w l (off + len) Hwf ltac:(lia)) as
    (b1 & Hcmp & Hwf1 & Hdata1 & Hroom & Es1 & Eh1 & Ef1 & Em1 & _ & Ei1 & Ep1).
  set (w1 := w <| buff := b1 |>) in *.
  destruct (copy_ok w1 l src len off Hwf1 Hlen Hoff Hroom) as
    (b2 & Hcpy & Hdata2 & Hz2 & Hh2 & Ho2 & Ht2 & Hl2 & Es2 & Eh2 & Ef2 & Em2 & _ & Ei2 & Ep2).
  cbn in Hdata2, Es2, Eh2, Ef2, Em2, Ei2, Ep2, Ho2, Ht2.
  exists b2. split; [unfold mbind, M_bind; by rewrite Hcmp, Hcpy|].
  destruct Hwf1. split; try done; try lia; try congruence.
  - intros i Hi Hc. rewrite Hdata2 by done. case_decide; [done|].
    destruct Hc as [?|Hc]; [done|]. by apply Hdata1.
  - eapply below_weaken; [|exact wf_below0]. lia.
  - split; congruence.
Qed.

(** The list steps keep the data and establish the invariant again. *)
Lemma publish_wf (w4 : rb_world) b2 b5 l l' O F src len off b :
  rb_wf b l -> staged b b2 l src len off -> 0 < len -> 0 <= off ->
  owns (size b) (head_seq b) w4 l' O F -> l'.*2 = add_ival (off, len) l ->
  buff w4 = b2 <| fctx := fctx (buff w4) |> ->
  merged_len b5 = (if decide (covered l'.*2 0) then merged_of l'.*2 else merged_len (buff w4)) ->
  b5 = (buff w4) <| cum_len := cum_len b5 |> <| merged_len := merged_len b5 |> ->
  rb_inv (w4 <| buff := b5 |>) l' O F.
Proof.
  intros Hwf Hst Hlen Hoff Hown El Eb4 Hm5 Eb5.
  destruct (add_ival_spec (off, len) 0 l) as [Hsep Hcov]; [cbn; lia..|by apply Hwf|].
  pose proof (sb_size _ _ (st_same _ _ _ _ _ _ Hst)) as Esz.
  assert (Hd : data b5 = data b2 /\ head b5 = head b2 /\ head_offset b5 = head_offset b2 /\
    tail_offset b5 = tail_offset b2 /\ last_len b5 = last_len b2) by (by rewrite Eb5, Eb4).
  destruct Hd as (Dd & Dh & Do & Dt & Dl).
  assert (Es : size b5 = size b2) by (by rewrite Eb5, Eb4).
  assert (Eh : head_seq b5 = head_seq b2) by (by rewrite Eb5, Eb4).
  assert (Ef : fctx b5 = fctx (buff w4)) by (by rewrite Eb5).
  assert (Em : merged_len (buff w4) = merged_len b) by (rewrite Eb4; apply Hst).
  pose proof (wf_size _ _ Hwf). pose proof (wf_seq _ _ Hwf) as Hseq. destruct Hst.
  split; cbn.
  - split; rewrite ?Dd, ?Dh, ?Do, ?Dt, ?Dl, ?Es, ?Eh, ?El; try done; try congruence; try lia.
    + eapply add_ival_below; [cbn; lia|cbn; lia|by apply Hwf|exact st_below0|lia|].
      unfold ivl_end; cbn; lia.
    + rewrite Hm5, El, Em, (wf_merged _ _ Hwf). destruct (decide (covered (add_ival _ _) 0)) as [Hc0|Hc0]; [done|].
      assert (Hno : ~ covered l 0) by (intros Hc; apply Hc0, Hcov; by right).
      rewrite <- merged_of_covered in Hno, Hc0 by (done || apply Hwf).
      pose proof (merged_of_nonneg l (wf_sep _ _ Hwf)).
      pose proof (merged_of_nonneg _ Hsep). lia.
  - rewrite Es, Eh, st_seq0, Esz. destruct Hown. split; cbn; [by rewrite Ef|done|done].
Qed.

Lemma RBPut_ok (w : rb_world) l O F calloc src len off :
  rb_inv w l O F -> available (rbm w) F -> 0 < len <= zlen src -> 0 <= off ->
  off + len <= size (buff w) ->
  exists w' l' F', RBPut calloc src len (u32 (head_seq (buff w) + off)) w = Ok len w' /\
    rb_inv w' l' O F' /\ l'.*2 = add_ival (off, len) l.*2 /\
    (forall i, 0 <= i -> rb_view (buff w') l'.*2 i = overlay (rb_view (buff w) l.*2) off len src i) /\
    head_seq (buff w') = head_seq (buff w) /\ same_buffer (buff w) (buff w') /\
    (forall a, a ∈ O -> frags w' !! a = frags w !! a) /\ mp (rbm w') = mp (rbm w).
Proof.
  intros [Hwf Hown] Hav Hlen Hoff Hfit. pose proof (wf_size _ _ Hwf) as Hsz.
  destruct (stage_ok w l.*2 src len off Hwf Hlen Hoff Hfit) as (b2 & Hrun2 & Hst).
  set (w2 := w <| buff := b2 |>) in *.
  destruct (alloc_owns w2 (size (buff w)) (head_seq (buff w)) l O F calloc)
    as (a & w3 & F3 & Hal & Ha & Hown3 & Hnode & Hb3 & Hoth3 & Hmp3); [|done|].
  { destruct Hown as [Hc ? ?]. split; cbn; try done. by rewrite (st_fctx _ _ _ _ _ _ Hst). }
  destruct (insert_ok (size (buff w)) (head_seq (buff w)) ltac:(lia) w3 l a (off, len) O F3 Hown3 Hnode)
    as (w4 & l4 & F4 & Hins & Hown4 & El4 & Hfr4).
  { unfold inb, ivl_end; cbn. lia. }
  assert (Eb4 : buff w4 = b2 <| fctx := fctx (buff w4) |>) by (by rewrite (fr_buff _ _ _ Hfr4), Hb3).
  destruct (add_ival_spec (off, len) 0 l.*2) as [Hsep4 Hcov4]; [cbn; lia..|by apply Hwf|].
  destruct (publish_ok w4 _ _ l4 O F4 Hown4) as (b5 & Hpub & Hm5 & Eb5).
  { intros ->. by apply (add_ival_nonempty (off, len) l.*2). }
  { by rewrite El4. }
  { rewrite Eb4. cbn. apply Hst. }
  { apply Hwf. }
  { lia. }
  exists (w4 <| buff := b5 |>), l4, F4. split_and!.
  - rewrite put_guards by (apply Hwf || lia || (unfold half_space; lia)).
    rewrite (proj2 (Z.ltb_ge _ _)) by lia. revert Hrun2. unfold mbind, M_bind.
    destruct (RBPut_compact _ w) as [[] w1|]; [|done]. intros ->.
    rewrite Hal, (proj2 (Z.eqb_neq _ _) Ha). cbn in Hins. rewrite Hins, Hpub.
    by rewrite i32_small by lia.
  - eapply publish_wf; [exact Hwf|exact Hst|lia|done|exact Hown4|done..].
  - done.
  - intros i Hi. unfold rb_view, overlay. cbn. rewrite El4.
    replace (data b5) with (data b2) by (by rewrite Eb5, Eb4).
    replace (head b5) with (head b2) by (by rewrite Eb5, Eb4).
    destruct (decide (off <= i < off + len)) as [Hin|Hout].
    + rewrite decide_True by (apply Hcov4; left; unfold inside, ivl_end; cbn; lia).
      rewrite (st_data _ _ _ _ _ _ Hst) by auto. by rewrite decide_True.
    + destruct (decide (covered l.*2 i)) as [Hc|Hc].
      * rewrite decide_True by (apply Hcov4; by right).
        rewrite (st_data _ _ _ _ _ _ Hst) by auto. by rewrite decide_False.
      * rewrite decide_False; [done|]. intros [Hi2|?]%Hcov4; [|done].
        unfold inside, ivl_end in Hi2; cbn in Hi2. lia.
  - cbn. rewrite Eb5, Eb4. cbn. apply Hst.
  - cbn. destruct (st_same _ _ _ _ _ _ Hst). split; rewrite Eb5, Eb4; done.
  - intros x Hx. cbn. rewrite (fr_other _ _ _ Hfr4) by done. by apply Hoth3.
  - cbn. by rewrite (fr_mp _ _ _ Hfr4).
Qed.

(** *** Removal *)

(** The nodes seen from a head that has moved forward. *)
Definition shift_node (k : Z) (n : Z * ival) : Z * ival := (n.1, shift k n.2).

Lemma shift_addrs k (l : list (Z * ival)) : (shift_node k <$> l).*1 = l.*1.
Proof. induction l as [|[a x] l IH]; [done|]. cbn. by f_equal. Qed.

Lemma shift_ivals k (l : list (Z * ival)) : (shift_node k <$> l).*2 = shift k <$> l.*2.
Proof. induction l as [|[a x] l IH]; [done|]. cbn. by f_equal. Qed.

Lemma chain_shift base k h p l q :
  chain base h p l q -> chain (u32 (base + k)) h p (shift_node k <$> l) q.
Proof.
  revert p. induction l as [|[a x] l IH]; intros p; cbn; [done|].
  intros (-> & Ha & nxt & Hx & Hc). split_and!; [done..|]. exists nxt. split; [|by apply IH].
  rewrite Hx. unfold frag_of, shift; cbn. autorewrite with mtcp. do 3 f_equal. lia.
Qed.

Lemma acct_room m A (F : gset Z) a :
  acct (P := P) (Q := Q) m (a :: A) F ->
  zlen (fifo_view (free_fragq m)) < fifo_cap (free_fragq m) /\
  zlen (fifo_view (free_fragq_int m)) < fifo_cap (free_fragq_int m).
Proof.
  intros H. destruct (acct_chunk _ _ _ H a) as [Hac _]; [apply list_elem_of_here|].
  assert (Hsub : list_to_set (a :: queued m) ⊆ cp_chunks (frag_mp m)).
  { intros x Hx%elem_of_list_to_set. apply (acct_chunk _ _ _ H).
    apply elem_of_cons in Hx as [->|Hx]; [apply list_elem_of_here|]. rewrite elem_of_app. by right. }
  apply subseteq_size in Hsub. rewrite size_list_to_set in Hsub.
  - pose proof (acct_room_app _ _ _ H). pose proof (acct_room_int _ _ _ H).
    unfold queued, zlen in *. cbn in Hsub. rewrite length_app in Hsub. lia.
  - pose proof (acct_nodup _ _ _ H) as Hnd. cbn in Hnd. apply list.NoDup_cons in Hnd as [Hna Hnd].
    apply list.NoDup_app in Hnd as (_ & _ & Hq). apply list.NoDup_cons. split; [|done].
    intros Hq2. apply Hna. rewrite elem_of_app. by right.
Qed.

(** A fragment that has been read to its end is queued for reuse. *)
Lemma enqueue_frag (w : rb_world) A F a opt :
  acct (rbm w) (a :: A) F ->
  exists m', match opt with
             | AT_APP => zoom rbm (zoom free_fragq (fifo_enq a));; mret tt
             | AT_MTCP => zoom rbm (zoom free_fragq_int (fifo_enq a));; mret tt
             end w = Ok tt (w <| rbm := m' |>) /\
    acct m' A F /\ mp m' = mp (rbm w).
Proof.
  set (m := rbm w).
  intros H. destruct (acct_room _ _ _ _ H) as [Hra Hri].
  assert (Ha : a <> 0) by (eapply acct_nonzero; [exact H|apply list_elem_of_here]).
  destruct H as [Hp Happ Hint Hnd Hch Hca Hci]. unfold queued in *.
  destruct opt; unfold mbind, M_bind, zoom; fold m.
  - destruct (fifo_enq_room _ a Happ Ha Hra) as (q' & -> & Hi & Hv & Hc).
    eexists. split; [reflexivity|]. split; [|done].
    assert (HP : A ++ (fifo_view (free_fragq m) ++ [a]) ++ fifo_view (free_fragq_int m) ≡ₚ
      a :: A ++ fifo_view (free_fragq m) ++ fifo_view (free_fragq_int m)) by solve_Permutation.
    split; unfold queued; cbn; rewrite ?Hv, ?Hc, ?HP; try done.
    intros x. rewrite HP. apply Hch.
  - destruct (fifo_enq_room _ a Hint Ha Hri) as (q' & -> & Hi & Hv & Hc).
    eexists. split; [reflexivity|]. split; [|done].
    assert (HP : A ++ fifo_view (free_fragq m) ++ fifo_view (free_fragq_int m) ++ [a] ≡ₚ
      a :: A ++ fifo_view (free_fragq m) ++ fifo_view (free_fragq_int m)) by solve_Permutation.
    split; unfold queued; cbn; rewrite ?Hv, ?Hc, ?HP; try done.
    intros x. rewrite HP. apply Hch.
Qed.

Lemma remove_nothing (w : rb_world) n opt :
  0 <= merged_len (buff w) < 2147483648 -> 0 <= n -> Z.min n (merged_len (buff w)) = 0 ->
  RBRemove n opt w = Ok 0 w.
Proof.
  intros Hm Hn Hk. unfold RBRemove, mbind, M_bind, get.
  replace (u64 (merged_len (buff w))) with (merged_len (buff w)) by mlia.
  destruct (Z.ltb_spec (merged_len (buff w)) n).
  - replace (merged_len (buff w)) with 0 by lia. done.
  - by replace n with 0 by lia.
Qed.

(** The fields of the buffer after [k] bytes have been removed. *)
Definition advance (k : Z) (b : tcp_ring_buffer) : tcp_ring_buffer :=
  b <| head_offset := head_offset b + k |> <| head := head_offset b + k |>
    <| head_seq := u32 (head_seq b + k) |> <| merged_len := merged_len b - k |>
    <| last_len := last_len b - k |>.

Lemma advance_ok (b : tcp_ring_buffer) l k :
  rb_wf b l -> 0 < k <= merged_len b ->
  (b <| head_offset := u32 (head_offset b + k) |>
     <| head := u32 (head_offset b + k) |>
     <| head_seq := u32 (head_seq b + k) |>
     <| merged_len := i32 (u64 (merged_len b - k)) |>
     <| last_len := i32 (u64 (last_len b - k)) |>) = advance k b /\
  merged_len b <= last_len b.
Proof.
  intros Hwf Hk. destruct Hwf.
  assert (Hml : merged_len b <= last_len b).
  { rewrite wf_merged0 in *.
    assert (Hc : covered l (merged_of l - 1)) by (apply merged_of_prefix; [done|lia]).
    apply (below_covered (last_len b)) in Hc; [lia|done]. }
  split; [|done]. unfold advance.
  rewrite (u32_small (head_offset b + k)) by (unfold is_u32; lia).
  replace (i32 (u64 (merged_len b - k))) with (merged_len b - k) by mlia.
  replace (i32 (u64 (last_len b - k))) with (last_len b - k) by mlia. done.
Qed.

Lemma rb_view_advance b l l' k i :
  head b = head_offset b -> 0 <= k -> 0 <= i ->
  (covered l' i <-> covered l (i + k)) ->
  rb_view (advance k b) l' i = rb_view b l (i + k).
Proof.
  intros Hh Hk Hi Hc. unfold rb_view; cbn. rewrite Hh.
  destruct (decide (covered l' i)) as [H|H], (decide (covered l (i + k))) as [H'|H']; try tauto.
  f_equal. f_equal. lia.
Qed.

(** The invariant of the buffer part, for the list that is left. *)
Lemma advance_wf b l l' k :
  rb_wf b l -> 0 < k <= merged_len b -> merged_len b <= last_len b -> separated 0 l' ->
  (forall i, 0 <= i -> covered l' i <-> covered l (i + k)) -> merged_of l' = merged_len b - k ->
  rb_wf (advance k b) l'.
Proof.
  intros Hwf Hk Hml Hs Hc Hm. destruct Hwf. split; cbn; try done; try lia.
  - apply u32_range.
  - eapply separated_below; [exact Hs|]. intros i Hi.
    pose proof (separated_covered _ _ _ Hs Hi). apply Hc in Hi; [|done].
    apply (below_covered (last_len b)) in Hi; [lia|done].
Qed.

(** The fragment list after [k] bytes of its leading fragment have been read. *)
Definition trim (k : Z) (l : list (Z * ival)) : list (Z * ival) :=
  match l with
  | [] => []
  | (a, x) :: R =>
      if k =? x.2 then shift_node k <$> R else (a, (0, x.2 - k)) :: (shift_node k <$> R)
  end.

Lemma trim_spec k l :
  separated 0 l.*2 -> 0 < k <= merged_of l.*2 ->
  separated 0 (trim k l).*2 /\ merged_of (trim k l).*2 = merged_of l.*2 - k /\
  (forall i, 0 <= i -> covered (trim k l).*2 i <-> covered l.*2 (i + k)).
Proof.
  destruct l as [|[a x] R]; cbn [merged_of fmap list_fmap snd]; [lia|].
  intros (Hx0 & Hx2 & Hs) Hk. cbn in Hx0, Hx2, Hs.
  destruct (Z.eqb_spec x.1 0) as [E0|]; [|lia]. cbn [trim].
  assert (HsR : separated (x.2 + 1 - k) (shift k <$> R.*2)).
  { apply separated_shift. unfold ivl_end in Hs. by rewrite E0 in Hs. }
  assert (HcR : forall i, covered (shift_node k <$> R).*2 i <-> covered R.*2 (i + k)).
  { intros i. rewrite shift_ivals. apply covered_shift. }
  destruct (Z.eqb_spec k x.2) as [E|E].
  - rewrite shift_ivals. split_and!.
    + eapply separated_weaken; [|exact HsR]. lia.
    + destruct R as [|[c y] R]; cbn; [lia|]. cbn in HsR. destruct HsR as (? & _).
      destruct (Z.eqb_spec (y.1 - k) 0); lia.
    + intros i Hi. rewrite covered_cons, <- shift_ivals, HcR. unfold inside, ivl_end; cbn.
      split; [by right|]. intros [?|?]; [lia|done].
  - cbn [fmap list_fmap snd]. split_and!.
    + cbn. split_and!; [lia..|]. rewrite shift_ivals. unfold ivl_end; cbn.
      eapply separated_weaken; [|exact HsR]. lia.
    + cbn. lia.
    + intros i Hi. rewrite !covered_cons, HcR. unfold inside, ivl_end; cbn. split; intros [?|?]; auto; left; lia.
Qed.

(** The list part of [RBRemove], run on the advanced buffer. *)
Lemma remove_list (w : rb_world) l O F k opt :
  owns (size (buff w)) (head_seq (buff w)) w l O F -> 0 < k <= merged_of l.*2 ->
  0 < size (buff w) < 2147483647 -> Forall (inb (size (buff w))) (trim k l).*2 ->
  exists w', RBRemove_list k opt (w <| buff ::= advance k |>) = Ok tt w' /\
    owns (size (buff w)) (u32 (head_seq (buff w) + k)) w' (trim k l) O F /\
    buff w' = (advance k (buff w)) <| fctx := fctx (buff w') |> /\
    (forall a, a ∈ O -> frags w' !! a = frags w !! a) /\ mp (rbm w') = mp (rbm w).
Proof.
  intros [Hc Hacct Hin] Hk Hsz Hin'. destruct l as [|[a x] R]; [cbn in Hk; lia|].
  cbn [merged_of fmap list_fmap snd] in Hk. destruct (Z.eqb_spec x.1 0) as [E0|]; [|lia].
  cbn in Hc. destruct Hc as (Hf & Ha & nxt & Hx & HcR).
  apply list.Forall_cons in Hin as [Hinx HinR]. cbn in Hinx. unfold inb, ivl_end in Hinx.
  pose proof (acct_NoDup _ _ _ Hacct) as Hnd. cbn in Hnd. apply list.NoDup_cons in Hnd as [Hna _].
  apply not_elem_of_app in Hna as [HaR HaO].
  unfold RBRemove_list, mbind at 1 2, M_bind at 1 2, get.
  change (fctx (buff (w <| buff ::= advance k |>))) with (fctx (buff w)). rewrite Hf.
  set (w0 := w <| buff ::= advance k |>).
  assert (Hx0 : frags w0 !! a = Some (frag_of (head_seq (buff w)) x nxt)) by exact Hx.
  rewrite (frag_read_ok _ _ _ Ha Hx0).
  cbn [f_len frag_of trim] in Hin' |- *.
  apply (chain_shift _ k) in HcR.
  destruct (Z.eqb_spec k x.2) as [E|E].
  - set (w1 := w0 <| buff ::= fun b => b <| fctx := nxt |> |>).
    destruct (enqueue_frag w1 (R.*1 ++ O) F a opt) as (m' & Henq & Hacct' & Hmp); [exact Hacct|].
    unfold mbind at 1, M_bind at 1, buff_modify, modify. cbn [next frag_of]. fold w1.
    rewrite Henq. eexists. split; [reflexivity|]. split_and!; try done.
    split; cbn; [exact HcR|by rewrite shift_addrs|done].
  - rewrite (proj2 (Z.ltb_lt _ _)) by lia.
    rewrite (frag_modify_ok _ _ _ _ Ha Hx0).
    eexists. split; [reflexivity|]. split_and!; try done; cbn.
    + split; cbn.
      * split_and!; [done..|]. exists nxt. split.
        -- rewrite lookup_insert_eq. unfold upd, frag_of; cbn. rewrite E0, !Z.add_0_r.
           autorewrite with mtcp. unfold u31. rewrite Z.mod_small by lia. done.
        -- eapply chain_frame; [exact HcR|]. intros z Hz. rewrite shift_addrs in Hz.
           apply lookup_insert_ne. by intros <-.
      * by rewrite shift_addrs.
      * done.
    + intros z Hz. apply lookup_insert_ne. by intros <-.
Qed.

Lemma RBRemove_ok (w : rb_world) l O F n opt :
  rb_inv w l O F -> 0 <= n ->
  let k := Z.min n (merged_len (buff w)) in
  exists w' l', RBRemove n opt w = Ok k w' /\ rb_inv w' l' O F /\
    (forall i, 0 <= i -> rb_view (buff w') l'.*2 i = rb_view (buff w) l.*2 (i + k)) /\
    head_seq (buff w') = u32 (head_seq (buff w) + k) /\ same_buffer (buff w) (buff w') /\
    merged_len (buff w') = merged_len (buff w) - k /\
    (forall a, a ∈ O -> frags w' !! a = frags w !! a) /\ mp (rbm w') = mp (rbm w).
Proof.
  intros [Hwf Hown] Hn k.
  assert (Hm0 : 0 <= merged_len (buff w)).
  { rewrite (wf_merged _ _ Hwf). apply merged_of_nonneg, Hwf. }
  assert (Hmax : merged_len (buff w) < 2147483648).
  { destruct (decide (0 < merged_len (buff w))) as [Hp|]; [|lia].
    pose proof (proj2 (advance_ok _ _ 1 Hwf ltac:(lia))). destruct Hwf. lia. }
  destruct (decide (k = 0)) as [Hk|Hk].
  { exists w, l. rewrite remove_nothing by lia. rewrite Hk, Z.sub_0_r, Z.add_0_r.
    rewrite u32_small by apply Hwf. split_and!; try done. by setoid_rewrite Z.add_0_r. }
  destruct (advance_ok (buff w) l.*2 k Hwf ltac:(lia)) as [Hadv Hml].
  assert (Hmg : 0 < k <= merged_of l.*2) by (rewrite <- (wf_merged _ _ Hwf); lia).
  destruct (trim_spec k l (wf_sep _ _ Hwf) Hmg) as (Hs' & Hm' & Hc').
  pose proof (advance_wf (buff w) l.*2 (trim k l).*2 k Hwf ltac:(lia) Hml Hs' Hc') as Hwf'.
  rewrite (wf_merged _ _ Hwf) in Hwf'. specialize (Hwf' Hm').
  destruct (remove_list w l O F k opt Hown Hmg) as (w' & Hrun & Hown' & Hb' & Hoth & Hmp);
    [apply Hwf| |].
  { apply separated_inb; [done|]. intros i Hi. pose proof (separated_covered _ _ _ Hs' Hi).
    apply Hc' in Hi; [|done]. apply (below_covered _ _ _ (wf_below _ _ Hwf)) in Hi.
    destruct Hwf. lia. }
  exists w', (trim k l). split_and!; try done.
  - unfold RBRemove, mbind, M_bind, get, buff_modify, modify in *.
    replace (u64 (merged_len (buff w))) with (merged_len (buff w)) by mlia.
    replace (if merged_len (buff w) <? n then merged_len (buff w) else n) with k
      by (destruct (Z.ltb_spec (merged_len (buff w)) n); lia).
    rewrite (proj2 (Z.eqb_neq _ _) Hk). cbn.
    assert (Ew : w <| buff ::= advance k |> = w <| buff := advance k (buff w) |>) by done.
    rewrite Ew, <- Hadv in Hrun. unfold upd in Hrun |- *; cbn in Hrun |- *. by rewrite Hrun.
  - split; rewrite Hb'; cbn; [destruct Hwf'; by split|done].
  - intros i Hi. rewrite Hb'. unfold rb_view at 1; cbn.
    apply (rb_view_advance (buff w) l.*2 (trim k l).*2 k i); [apply Hwf|lia|done|by apply Hc'].
  - by rewrite Hb'.
  - by rewrite Hb'.
  - by rewrite Hb'.
Qed.

(** *** Exhaustion *)

Lemma exhausted_sources (w : rb_world) A F :
  acct (rbm w) A F -> ~ available (rbm w) F ->
  forall calloc, AllocateFragmentContext calloc w =
    if calloc =? 0 then Fault ProcessExit
    else Ok calloc (w <| frags ::= insert calloc (FragmentCtx 0 0 1 0) |>
                      <| frags ::= insert calloc (FragmentCtx 0 0 0 0) |>).
Proof.
  intros H Hno calloc. unfold available, queued in Hno.
  assert (Ha : fifo_view (free_fragq (rbm w)) = []).
  { destruct (fifo_view (free_fragq (rbm w))); [done|]. exfalso. apply Hno. by left. }
  assert (Hi : fifo_view (free_fragq_int (rbm w)) = []).
  { destruct (fifo_view (free_fragq_int (rbm w))); [done|]. exfalso. apply Hno. left.
    by destruct (fifo_view _). }
  assert (HF : F = ∅) by (destruct (decide (F = ∅)); [done|]; exfalso; apply Hno; by right).
  subst F. unfold AllocateFragmentContext, mbind, M_bind, zoom.
  rewrite (fifo_deq_none _ (acct_app _ _ _ H) Ha). cbn.
  rewrite (fifo_deq_none _ (acct_int _ _ _ H) Hi). cbn.
  rewrite (cp_alloc_none _ (acct_pool _ _ _ H)). cbn.
  destruct (calloc =? 0); [done|]. by destruct w as [[] ? ?].
Qed.

Lemma alloc_exhausted (w : rb_world) A F :
  acct (rbm w) A F -> ~ available (rbm w) F -> AllocateFragmentContext 0 w = Fault ProcessExit.
Proof. intros H Hno. by rewrite (exhausted_sources w A F H Hno). Qed.

Lemma alloc_fallback (w : rb_world) A F calloc :
  acct (rbm w) A F -> ~ available (rbm w) F -> calloc <> 0 ->
  exists w', AllocateFragmentContext calloc w = Ok calloc w' /\
    frags w' !! calloc = Some (FragmentCtx 0 0 0 0).
Proof.
  intros H Hno Hc. rewrite (exhausted_sources w A F H Hno), (proj2 (Z.eqb_neq _ _) Hc).
  eexists. split; [reflexivity|]. cbn. by rewrite lookup_insert_eq.
Qed.

Lemma put_exhausted (w : rb_world) l O F src len off :
  rb_inv w l O F -> ~ available (rbm w) F -> 0 < len <= zlen src -> 0 <= off ->
  off + len <= size (buff w) ->
  RBPut 0 src len (u32 (head_seq (buff w) + off)) w = Fault ProcessExit.
Proof.
  intros [Hwf Hown] Hno Hlen Hoff Hfit. pose proof (wf_size _ _ Hwf) as Hsz.
  destruct (stage_ok w l.*2 src len off Hwf Hlen Hoff Hfit) as (b2 & Hrun2 & _).
  rewrite put_guards by (apply Hwf || lia || (unfold half_space; lia)).
  rewrite (proj2 (Z.ltb_ge _ _)) by lia. revert Hrun2. unfold mbind, M_bind.
  destruct (RBPut_compact _ w) as [[] w1|]; [|done]. intros ->. set (w2 := w <| buff := b2 |>).
  assert (Hacct : acct (rbm w2) (l.*1 ++ O) F) by apply Hown.
  by rewrite (alloc_exhausted w2 _ _ Hacct Hno).
Qed.

(** *** A connection's worth of calls

    Segments of the peer's stream arrive in any order, possibly duplicated and
    overlapping; the application reads in between.  [pos] is the number of bytes read so
    far; segments that are not near the head never reach the buffer (the window checks of
    the caller drop them). *)

Inductive rb_op := Recv (p : Z) (seg : list Z) | Read (n : Z) (opt : rb_caller).

Definition near (pos p : Z) (seg : list Z) : bool :=
  (- half_space <? p - pos) && (p - pos + zlen seg <? half_space).

Fixpoint rb_run (init pos : Z) (ops : list rb_op) : M rb_world (list Z) :=
  match ops with
  | [] => mret []
  | Recv p seg :: ops' =>
      (if near pos p seg then RBPut 0 seg (zlen seg) (u32 (init + p));; mret tt else mret tt);;
      rb_run init pos ops'
  | Read n opt :: ops' =>
      w ← get;
      bytes ← unwrap OutOfBounds
        (mem_read (data (buff w)) (head (buff w)) (Z.min n (merged_len (buff w))));
      k ← RBRemove n opt;
      rest ← rb_run init (pos + k) ops';
      mret (bytes ++ rest)
  end.

(** A segment is a piece of the stream [str]. *)
Definition rb_op_ok (str : Z -> Z) (op : rb_op) : Prop :=
  match op with
  | Recv p seg => forall i, (i < length seg)%nat -> seg !! i = Some (str (p + Z.of_nat i))
  | Read n _ => 0 <= n
  end.

(** Every byte the buffer has is the byte of the stream at its position. *)
Definition agrees (str : Z -> Z) (init pos : Z) (O : list Z) (w : rb_world) : Prop :=
  exists l F, rb_inv w l O F /\ head_seq (buff w) = u32 (init + pos) /\
    forall i b, 0 <= i -> rb_view (buff w) l.*2 i = Some b -> b = str (pos + i).

Lemma agrees_recv str init pos O w p seg :
  agrees str init pos O w -> rb_op_ok str (Recv p seg) -> near pos p seg = true ->
  match RBPut 0 seg (zlen seg) (u32 (init + p)) w with
  | Ok _ w' => agrees str init pos O w'
  | Fault e => e = ProcessExit
  end.
Proof.
  intros (l & F & Hinv & Hseq & Hby) Hop Hnear. cbn in Hop.
  unfold near in Hnear. rewrite andb_true_iff, !Z.ltb_lt in Hnear. destruct Hnear as [Hlo Hhi].
  pose proof (zlen_nonneg seg) as Hz. pose proof (wf_seq _ _ (inv_wf _ _ _ _ Hinv)) as Hu.
  assert (Hag : agrees str init pos O w) by (by exists l, F).
  assert (E : u32 (init + p) = u32 (head_seq (buff w) + (p - pos))).
  { rewrite Hseq. autorewrite with mtcp. f_equal. lia. }
  rewrite E. destruct (decide (zlen seg = 0)) as [Hs0|Hs0].
  { rewrite Hs0, put_zero. done. }
  destruct (decide (p < pos)) as [Hold|Hnew].
  { replace (head_seq (buff w) + (p - pos)) with (head_seq (buff w) - (pos - p)) by lia.
    rewrite put_old by (done || lia). done. }
  destruct (decide (size (buff w) < p - pos + zlen seg)) as [Hfull|Hfit].
  { rewrite put_full by (done || lia). done. }
  destruct (decide (available (rbm w) F)) as [Hav|Hno].
  - destruct (RBPut_ok w l O F 0 seg (zlen seg) (p - pos) Hinv Hav)
      as (w' & l' & F' & -> & Hinv' & _ & Hview & Hseq' & _); [lia..|].
    exists l', F'. split_and!; [done|congruence|]. intros i b Hi. rewrite Hview by done.
    unfold overlay. case_decide as Hin; [|by apply Hby].
    intros Hb. rewrite Hop in Hb by (unfold zlen in *; lia). injection Hb as <-. f_equal. lia.
  - by rewrite (put_exhausted w l O F) by (done || lia).
Qed.

Lemma agrees_read str init pos O w n opt :
  agrees str init pos O w -> 0 <= n ->
  let k := Z.min n (merged_len (buff w)) in
  exists w', mem_read (data (buff w)) (head (buff w)) k = Some (str <$> seqZ pos k) /\
    RBRemove n opt w = Ok k w' /\ 0 <= k /\ agrees str init (pos + k) O w'.
Proof.
  intros (l & F & Hinv & Hseq & Hby) Hn k.
  destruct (RBRemove_ok w l O F n opt Hinv Hn) as (w' & l' & Hrun & Hinv' & Hview & Hseq' & _).
  fold k in Hrun, Hview, Hseq'. destruct Hinv as [Hwf _].
  assert (Hm0 : 0 <= merged_len (buff w)).
  { rewrite (wf_merged _ _ Hwf). apply merged_of_nonneg, Hwf. }
  assert (Hk : 0 <= k) by lia.
  assert (Hml : k <= last_len (buff w)).
  { destruct (decide (k = 0)); [destruct Hwf; lia|].
    pose proof (proj2 (advance_ok _ _ k Hwf ltac:(lia))). lia. }
  exists w'. split_and!; [|done|done|].
  - destruct Hwf. rewrite mem_read_ok by lia. f_equal. apply list_eq. intros i.
    rewrite list_lookup_fmap. destruct (decide (Z.of_nat i < k)) as [Hi|Hi].
    + rewrite lookup_take_lt, lookup_drop, lookup_seqZ_lt by lia. cbn.
      assert (Hc : covered l.*2 (Z.of_nat i)) by (apply merged_of_prefix; [done|lia]).
      assert (Hlk : is_Some (data (buff w) !! (Z.to_nat (head (buff w)) + i)%nat)).
      { apply lookup_lt_is_Some. unfold zlen in *. lia. }
      destruct Hlk as [b Hb]. rewrite Hb. f_equal. apply Hby; [lia|].
      unfold rb_view. rewrite decide_True by done. rewrite <- Hb. f_equal. lia.
    + rewrite lookup_take_ge by lia. rewrite lookup_seqZ_ge by lia. done.
  - exists l', F. split_and!; [done| |].
    + rewrite Hseq', Hseq. autorewrite with mtcp. f_equal. lia.
    + intros i b Hi. rewrite Hview by done. intros Hb. apply Hby in Hb; [|lia].
      rewrite Hb. f_equal. lia.
Qed.

(** The whole run delivers the stream from the reading position on. *)
Lemma rb_run_agrees str init pos O ops w :
  agrees str init pos O w -> Forall (rb_op_ok str) ops ->
  match rb_run init pos ops w with
  | Ok d w' => d = str <$> seqZ pos (zlen d) /\ agrees str init (pos + zlen d) O w'
  | Fault e => e = ProcessExit
  end.
Proof.
  intros Hag Hops. revert pos w Hag.
  induction Hops as [|op ops Hop Hops IH]; intros pos w Hag; cbn [rb_run].
  - cbn. rewrite Z.add_0_r. done.
  - destruct op as [p seg|n opt]; unfold mbind, M_bind.
    + destruct (near pos p seg) eqn:Hn; [|by apply IH].
      pose proof (agrees_recv _ _ _ _ _ _ _ Hag Hop Hn) as Hr.
      destruct (RBPut _ _ _ _ w) as [r w1|e]; [|done]. cbn. by apply IH.
    + destruct (agrees_read _ _ _ _ _ n opt Hag Hop) as (w1 & Hrd & Hrm & Hk & Hag1).
      cbn [get]. rewrite Hrd. cbn [unwrap mret M_ret]. rewrite Hrm.
      specialize (IH _ _ Hag1). destruct (rb_run init _ ops w1) as [d w2|e]; [|done].
      cbn. set (k := Z.min n _) in *. destruct IH as [Hd Hag2].
      assert (Hz : zlen (str <$> seqZ pos k) = k).
      { unfold zlen. rewrite length_fmap, length_seqZ. lia. }
      rewrite zlen_app, Hz, Z.add_assoc. split; [|done].
      rewrite seqZ_app by (done || apply zlen_nonneg). rewrite fmap_app. by rewrite <- Hd.
Qed.

(** *** Creation and release of a buffer *)

Lemma free_list base l : forall fuel (w : rb_world) p O F,
  (length l <= fuel)%nat -> chain base (frags w) p l 0 -> acct (rbm w) (l.*1 ++ O) F ->
  exists w' F', FreeFragmentContext_loop fuel p w = Ok tt w' /\ acct (rbm w') O F' /\
    (forall a, a ∈ O -> frags w' !! a = frags w !! a) /\ buff w' = buff w /\
    mp (rbm w') = mp (rbm w) /\ cur_num (rbm w') = cur_num (rbm w).
Proof.
  induction l as [|[a x] l IH]; intros fuel w p O F Hf Hc Hacct.
  - cbn in Hc. subst p. exists w, F. split_and!; try done. by destruct fuel.
  - destruct fuel as [|fuel]; [cbn in Hf; lia|]. cbn in Hf.
    cbn in Hc. destruct Hc as (-> & Ha & nxt & Hx & Hc).
    change (acct (rbm w) (a :: l.*1 ++ O) F) in Hacct.
    pose proof (acct_NoDup _ _ _ Hacct) as Hnd. apply list.NoDup_cons in Hnd as [Hna _].
    apply not_elem_of_app in Hna as [Hnl HnO].
    destruct (FreeFragmentContextSingle_ok w a _ F (frag_of base x nxt) Hacct Hx eq_refl) as (p' & Hfree & Hacct').
    set (w1 := w <| rbm ::= fun m => m <| frag_mp := p' |> |> <| frags ::= delete a |>) in *.
    destruct (IH fuel w1 nxt O ({[a]} ∪ F) ltac:(lia)) as (w' & F' & Hrun & Hacct2 & Hoth & Hb & Hm & Hn).
    + cbn. eapply chain_frame; [exact Hc|]. intros z Hz. apply lookup_delete_ne. by intros <-.
    + exact Hacct'.
    + exists w', F'. split_and!; try done.
      * cbn [FreeFragmentContext_loop]. rewrite (proj2 (Z.eqb_neq _ _) Ha).
        unfold mbind, M_bind. rewrite (frag_read_ok _ _ _ Ha Hx), Hfree. exact Hrun.
      * intros z Hz. rewrite Hoth by done. cbn. apply lookup_delete_ne. by intros <-.
Qed.

(** A new buffer is empty, at the requested sequence number, on a chunk of its own. *)
Lemma RBInit_ok (m : @rb_manager P Q) Fd garbage seq :
  cp_inv (mp m) Fd -> Fd <> ∅ -> zlen garbage = chunk_size m -> 0 < chunk_size m < 2147483647 ->
  is_u32 seq ->
  exists b m', RBInit true garbage seq m = Ok (Some b) m' /\ rb_wf b [] /\ fctx b = 0 /\
    head_seq b = seq /\ init_seq b = seq /\ size b = chunk_size m /\
    data_ptr b ∈ Fd /\ cp_inv (mp m') (Fd ∖ {[data_ptr b]}) /\ cp_chunks (mp m') = cp_chunks (mp m) /\
    frag_mp m' = frag_mp m /\ free_fragq m' = free_fragq m /\ free_fragq_int m' = free_fragq_int m.
Proof.
  intros Hp HF Hg Hs Hq. destruct (cp_alloc_some _ _ Hp HF) as (d & p' & Hal & Hd & Hi & Hch).
  assert (Hd0 : d <> 0).
  { intros ->. apply (cp_nonnull _ _ Hp). by apply (cp_free_chunks _ _ Hp). }
  unfold RBInit, mbind, M_bind, zoom, modify, get; cbn. rewrite Hal; cbn.
  rewrite (proj2 (Z.eqb_neq _ _) Hd0). do 2 eexists. split; [reflexivity|].
  assert (Ei : i32 (chunk_size m) = chunk_size m) by (apply i32_small; lia).
  split_and!; try done. split; cbn; rewrite ?Ei; try done; try lia. constructor.
Qed.

(** Releasing a buffer returns its chunk and all its fragments. *)
Lemma RBFree_ok (w : rb_world) l O F Fd :
  rb_inv w l O F -> cp_inv (mp (rbm w)) Fd -> data_ptr (buff w) ∈ cp_chunks (mp (rbm w)) ->
  data_ptr (buff w) ∉ Fd ->
  exists w' F', RBFree w = Ok tt w' /\ acct (rbm w') O F' /\
    cp_inv (mp (rbm w')) ({[data_ptr (buff w)]} ∪ Fd) /\
    cur_num (rbm w') = u32 (cur_num (rbm w) - 1) /\
    (forall a, a ∈ O -> frags w' !! a = frags w !! a).
Proof.
  intros [Hwf [Hc Hacct _]] Hp Hd HdF.
  assert (Hd0 : data_ptr (buff w) <> 0) by (intros E; rewrite E in Hd; by apply (cp_nonnull _ _ Hp)).
  assert (Hlist : exists w1 F1,
    whenM (negb (fctx (buff w) =? 0))
      (FreeFragmentContext (fctx (buff w));; buff_modify (fun b => b <| fctx := 0 |>)) w = Ok tt w1 /\
    acct (rbm w1) O F1 /\ (forall a, a ∈ O -> frags w1 !! a = frags w !! a) /\
    mp (rbm w1) = mp (rbm w) /\ cur_num (rbm w1) = cur_num (rbm w)).
  { destruct (Z.eqb_spec (fctx (buff w)) 0) as [E|E]; cbn [negb whenM].
    - exists w, F. destruct l as [|[a x] l]; [done|]. cbn in Hc. destruct Hc as (<- & ? & _). done.
    - destruct (free_list (head_seq (buff w)) l (base.size (frags w)) w (fctx (buff w)) O F) as
        (w' & F' & Hrun & Hacct' & Hoth & Hb & Hm & Hn); try done.
      { eapply chain_length; [exact Hc|]. by apply acct_NoDup, list.NoDup_app in Hacct as [? _]. }
      exists (w' <| buff ::= fun b => b <| fctx := 0 |> |>), F'. split_and!; try done.
      unfold FreeFragmentContext, mbind, M_bind, get, assertM.
      rewrite (proj2 (Z.eqb_neq _ _) E). cbn [negb mret M_ret]. by rewrite Hrun. }
  destruct Hlist as (w1 & F1 & Hrun & Hacct1 & Hoth & Hm & Hn).
  destruct (cp_free_ok _ _ _ Hp Hd HdF) as (p' & Hfree & Hinv' & _).
  exists (w1 <| rbm ::= fun m => m <| mp := p' |> <| cur_num := u32 (cur_num m - 1) |> |>), F1.
  split_and!.
  - unfold RBFree, mbind, M_bind, get, modify in *. rewrite Hrun.
    rewrite (proj2 (Z.eqb_neq _ _) Hd0). cbn [negb whenM]. unfold zoom. by rewrite Hm, Hfree.
  - destruct Hacct1. by split.
  - done.
  - cbn. by rewrite Hn.
  - done.
Qed.

End Main.
