(* ===== verification/Reassembly.v ===== *)
(** * Stream reassembly

    What the receive buffer of [RingBuffer.v] promises to the TCP input path and to the
    application, from the creation of its manager on. *)

From S2P Require Import Prelude SeqArith Queues MemPool Intervals RingBuffer.

(** ** The manager over the pools and queues of the source *)

Definition sizeof_fragment_ctx : Z := 16.

(** Outcomes of the allocations: the descriptor, the two pools, the two queues. *)
Record rb_allocs := RbAllocs {
  al_rbm : bool;
  al_mp : bool * option Z;
  al_frag_mp : bool * option Z;
  al_fragq : bool * bool;
  al_fragq_int : bool * bool
}.

Definition RBManagerCreate (al : rb_allocs) (chunk_size cnum : Z) :
    outcome unit (option (@rb_manager mem_pool Click.click_queue)) :=
  if negb (al_rbm al) then Ok None tt
  else
    match MPCreate (al_mp al).1 (al_mp al).2 chunk_size (u64 (chunk_size * cnum)) with
    | Fault e => Fault e
    | Ok None _ => Ok None tt
    | Ok (Some mp) _ =>
        match MPCreate (al_frag_mp al).1 (al_frag_mp al).2 sizeof_fragment_ctx
                (u64 (sizeof_fragment_ctx * cnum)) with
        | Fault e => Fault e
        | Ok None _ => Ok None tt
        | Ok (Some frag_mp) _ =>
            match Click.CreateRBFragQueue (al_fragq al).1 (al_fragq al).2 cnum with
            | None => Ok None tt
            | Some q =>
                match Click.CreateRBFragQueue (al_fragq_int al).1 (al_fragq_int al).2 cnum with
                | None => Ok None tt
                | Some q_int => Ok (Some (RbManager chunk_size 0 cnum mp frag_mp q q_int)) tt
                end
            end
        end
    end.

Definition all_allocs (block frag_block : Z) : rb_allocs :=
  RbAllocs true (true, Some block) (true, Some frag_block) (true, true) (true, true).

(** From a created manager, [RBInit] gives a buffer that satisfies the invariant. *)
Lemma fresh_world block frag_block size cnum garbage seq :
  0 < block -> 0 < frag_block -> sizeof_mem_chunk <= size < 2147483647 -> Z.rem size 4 = 0 ->
  0 < cnum < 2147483648 -> zlen garbage = size -> is_u32 seq ->
  exists m b m' F,
    RBManagerCreate (all_allocs block frag_block) size cnum = Ok (Some m) tt /\
    RBInit true garbage seq m = Ok (Some b) m' /\
    rb_inv (RbWorld m' ∅ b) [] [] F /\ available m' F /\
    head_seq b = seq /\ init_seq b = seq /\ RingBuffer.size b = size /\
    exists Fd, cp_inv (mp m') Fd /\ data_ptr b ∈ cp_chunks (mp m') /\ data_ptr b ∉ Fd.
Proof.
  intros Hb Hfb Hs H4 Hn Hg Hq. unfold sizeof_mem_chunk in *.
  destruct (create_pool block size cnum) as (mp & Fd & Hmk & Hp & _ & Hsz);
    [done|unfold sizeof_mem_chunk; lia|done..|].
  destruct (create_pool frag_block sizeof_fragment_ctx cnum) as (fmp & F & Hmk2 & Hp2 & Hch2 & Hsz2);
    [done|unfold sizeof_mem_chunk, sizeof_fragment_ctx; lia|done..|].
  destruct (Click.CreateQueue_wf cnum _ ltac:(lia) eq_refl) as (Hqw & Hqv & Hqc).
  set (q := Click.ClickQueue _ _ _ _) in *.
  set (m := RbManager size 0 cnum mp fmp q q).
  destruct (RBInit_ok m Fd garbage seq) as (b & m' & Hi & Hwf & Hf & Hh & Hin & Hbs & Hd & Hp' & Hch & E1 & E2 & E3);
    [done|intros ->; rewrite size_empty in Hsz; lia|done|cbn; lia|done|].
  exists m, b, m', F. split_and!; try done.
  - unfold RBManagerCreate; cbn. rewrite Hmk, Hmk2. done.
  - split; [exact Hwf|]. split; cbn; [done| |constructor].
    split; unfold queued; rewrite ?E1, ?E2, ?E3; cbn [frag_mp free_fragq free_fragq_int m]; try done.
    + cbn. rewrite Hqv. apply NoDup_nil_2.
    + cbn. rewrite Hqv. intros a Ha. by apply elem_of_nil in Ha.
    + rewrite Hch2, Hsz2. cbn in Hqc |- *. lia.
    + rewrite Hch2, Hsz2. cbn in Hqc |- *. lia.
  - right. intros ->. rewrite size_empty in Hsz2. lia.
  - exists (Fd ∖ {[data_ptr b]}). split_and!; [done| |set_solver].
    rewrite Hch. by apply (cp_free_chunks _ _ Hp).
Qed.

(** ** Properties *)

Section Properties.
Context {P Q : Type} `{!ChunkPool P} `{!BoundedFifo Q}.

(** What is read is what the stream has at these positions. *)
Lemma rb_run_delivers (str : Z -> Z) (w : @rb_world P Q) (O : list Z) (F : gset Z) (ops : list rb_op) :
  rb_inv w [] O F -> Forall (rb_op_ok str) ops ->
  match rb_run (head_seq (buff w)) 0 ops w with
  | Ok d _ => d = str <$> seqZ 0 (zlen d)
  | Fault e => e = ProcessExit
  end.
Proof.
  intros Hinv Hops.
  assert (Hag : agrees str (head_seq (buff w)) 0 O w).
  { exists [], F. split_and!; [done| |].
    - rewrite Z.add_0_r. symmetry. apply u32_small, Hinv.
    - intros i b Hi. unfold rb_view. rewrite decide_False; [done|]. cbn. rewrite covered_nil. tauto. }
  pose proof (rb_run_agrees str _ 0 O ops w Hag Hops) as Hrun.
  destruct (rb_run _ 0 ops w); [apply Hrun|done].
Qed.

(** C11: in-order delivery.  Whatever the order, overlap and duplication of the segments
    that arrive, and however reads are interleaved, the bytes handed to the application
    are exactly the bytes of the peer's stream from its start; no assertion fails and no
    access is out of bounds.  The only way not to return is the [exit] taken when the
    fragment pool, both queues and [calloc] are exhausted. *)
Theorem ring_buffer_delivers_stream (str : Z -> Z) (w : @rb_world P Q) (O : list Z) (F : gset Z)
    (ops : list rb_op) :
  rb_inv w [] O F -> Forall (rb_op_ok str) ops ->
  match rb_run (head_seq (buff w)) 0 ops w with
  | Ok d _ => d = str <$> seqZ 0 (zlen d)
  | Fault e => e = ProcessExit
  end.
Proof.
  apply rb_run_delivers.
Qed.

(** C30: [RBPut] overlays the segment.  A segment at offset [off] from the head that fits is
    accepted in full: afterwards the buffer has the segment's bytes at its offsets and
    unchanged contents elsewhere, the fragment list is again sorted with gaps, other
    buffers' fragments are untouched, and the readable length is the longest gapless
    prefix. *)
Theorem RBPut_overlays (w : @rb_world P Q) (l : list (Z * ival)) (O : list Z) (F : gset Z)
    (calloc : Z) (src : list Z) (len off : Z) :
  rb_inv w l O F -> available (rbm w) F -> 0 < len <= zlen src -> 0 <= off ->
  off + len <= size (buff w) ->
  exists w' l' F', RBPut calloc src len (u32 (head_seq (buff w) + off)) w = Ok len w' /\
    rb_inv w' l' O F' /\
    (forall i, 0 <= i -> rb_view (buff w') l'.*2 i = overlay (rb_view (buff w) l.*2) off len src i) /\
    (forall i, 0 <= i < merged_len (buff w') -> covered l'.*2 i) /\
    ~ covered l'.*2 (merged_len (buff w')) /\
    (forall a, a ∈ O -> frags w' !! a = frags w !! a).
Proof.
  intros Hinv Hav Hlen Hoff Hfit.
  destruct (RBPut_ok w l O F calloc src len off Hinv Hav Hlen Hoff Hfit)
    as (w' & l' & F' & Hrun & Hinv' & _ & Hview & _ & _ & Hoth & _).
  exists w', l', F'. pose proof (inv_wf _ _ _ _ Hinv') as Hwf'.
  rewrite (wf_merged _ _ Hwf'). split_and!; try done.
  - intros i Hi. apply merged_of_prefix; [apply Hwf'|done].
  - apply merged_of_gap, Hwf'.
Qed.

(** [RBPut] refuses without any effect: an empty segment and one that starts before the
    head answer [0], one that ends beyond the buffer answers [-2]. *)
Theorem RBPut_refuses (w : @rb_world P Q) (calloc : Z) (src : list Z) (len off : Z) :
  is_u32 (head_seq (buff w)) -> 0 <= len -> off + len < half_space ->
  len = 0 \/ -half_space < off < 0 \/ 0 <= off /\ size (buff w) < off + len ->
  RBPut calloc src len (u32 (head_seq (buff w) + off)) w =
    Ok (if (len =? 0) || (off <? 0) then 0 else -2) w.
Proof.
  intros Hh Hlen Hmax Hcase. destruct (Z.eqb_spec len 0) as [->|Hl0]; [done|]. cbn [orb].
  destruct (Z.ltb_spec off 0) as [Hneg|Hpos].
  - replace (head_seq (buff w) + off) with (head_seq (buff w) - (- off)) by lia.
    apply put_old; [done|lia|lia].
  - apply put_full; [done|lia..].
Qed.

(** [RBRemove] drops the oldest bytes: it removes at most the readable length, the
    buffer afterwards shows the same bytes shifted, the head sequence number moves along,
    and a fully read fragment is queued for reuse, never lost. *)
Theorem RBRemove_shifts (w : @rb_world P Q) (l : list (Z * ival)) (O : list Z) (F : gset Z)
    (n : Z) (opt : rb_caller) :
  rb_inv w l O F -> 0 <= n ->
  let k := Z.min n (merged_len (buff w)) in
  exists w' l', RBRemove n opt w = Ok k w' /\ rb_inv w' l' O F /\
    (forall i, 0 <= i -> rb_view (buff w') l'.*2 i = rb_view (buff w) l.*2 (i + k)) /\
    head_seq (buff w') = u32 (head_seq (buff w) + k) /\
    merged_len (buff w') = merged_len (buff w) - k.
Proof.
  intros Hinv Hn k. destruct (RBRemove_ok w l O F n opt Hinv Hn)
    as (w' & l' & ? & ? & ? & ? & _ & ? & _). by exists w', l'.
Qed.

(** [RBFree] gives everything back: the chunk of the buffer returns to the data pool,
    all its fragments return to the fragment pool, and the fragments of other buffers are
    untouched. *)
Theorem RBFree_releases (w : @rb_world P Q) (l : list (Z * ival)) (O : list Z) (F Fd : gset Z) :
  rb_inv w l O F -> cp_inv (mp (rbm w)) Fd -> data_ptr (buff w) ∈ cp_chunks (mp (rbm w)) ->
  data_ptr (buff w) ∉ Fd ->
  exists w' F', RBFree w = Ok tt w' /\ acct (rbm w') O F' /\
    cp_inv (mp (rbm w')) ({[data_ptr (buff w)]} ∪ Fd) /\
    (forall a, a ∈ O -> frags w' !! a = frags w !! a).
Proof.
  intros Hinv Hp Hd HdF. destruct (RBFree_ok w l O F Fd Hinv Hp Hd HdF)
    as (w' & F' & ? & ? & ? & _ & ?). by exists w', F'.
Qed.

(** the mark of a heap-allocated fragment is lost.  When the queues and the pool are
    exhausted the fragment comes from [calloc], but the [memset] that follows clears the
    mark that was just set; releasing that fragment then hands an address that is not one of
    its chunks to the fragment pool. *)
Theorem calloc_mark_lost (w : @rb_world P Q) (A : list Z) (F : gset Z) (calloc : Z) :
  acct (rbm w) A F -> ~ available (rbm w) F -> calloc <> 0 ->
  exists w', AllocateFragmentContext calloc w = Ok calloc w' /\
    frags w' !! calloc = Some (FragmentCtx 0 0 0 0) /\
    FreeFragmentContextSingle calloc w' =
      (zoom rbm (zoom frag_mp (cp_free calloc));;
       modify (fun w => w <| frags ::= delete calloc |>)) w'.
Proof.
  intros H Hno Hc. destruct (alloc_fallback w A F calloc H Hno Hc) as (w' & Hal & Hf).
  exists w'. split_and!; [done..|]. unfold FreeFragmentContextSingle, mbind, M_bind.
  by rewrite (frag_read_ok _ _ _ Hc Hf).
Qed.

End Properties.

(** ** Witnesses: a 64-byte buffer whose sequence numbers are about to wrap. *)

Definition source_world : Type := @rb_world mem_pool Click.click_queue.

Lemma wrap_world :
  exists (w : source_world) F Fd, rb_inv w [] [] F /\ available (rbm w) F /\
    head_seq (buff w) = 4294967290 /\ size (buff w) = 64 /\
    cp_inv (mp (rbm w)) Fd /\ data_ptr (buff w) ∈ cp_chunks (mp (rbm w)) /\ data_ptr (buff w) ∉ Fd.
Proof.
  destruct (fresh_world 4096 8192 64 4 (replicate 64 0) 4294967290)
    as (m & b & m' & F & _ & _ & Hinv & Hav & Hh & _ & Hs & Fd & Hp & Hd & HdF);
    [unfold sizeof_mem_chunk, is_u32; (lia || reflexivity)..|].
  by exists (RbWorld m' ∅ b), F, Fd.
Qed.

Lemma ring_buffer_delivers_stream_witness :
  exists (w : source_world) F, rb_inv w [] [] F /\
    match rb_run (head_seq (buff w)) 0
            [Recv 4 [4; 5; 6; 7]; Recv 2 [2; 3; 4; 5]; Read 9 AT_APP; Recv 0 [0; 1; 2]; Read 100 AT_APP] w
    with
    | Ok d _ => d = (fun i => i) <$> seqZ 0 (zlen d)
    | Fault e => e = ProcessExit
    end.
Proof.
  destruct wrap_world as (w & F & Fd & Hinv & _). exists w, F. split; [done|].
  apply (ring_buffer_delivers_stream (fun i => i) w [] F); [exact Hinv|].
  rewrite !list.Forall_cons. split_and!; cbn; try lia; try apply Forall_nil;
    intros i Hi; do 4 (destruct i as [|i]; [lia || reflexivity|]); lia.
Defined.

Lemma RBPut_overlays_witness :
  exists (w w' : source_world), RBPut 0 [7; 8; 9] 3 (u32 (head_seq (buff w) + 10)) w = Ok 3 w'.
Proof.
  destruct wrap_world as (w & F & Fd & Hinv & Hav & _ & Hs & _).
  destruct (RBPut_overlays w [] [] F 0 [7; 8; 9] 3 10) as (w' & l' & F' & Hrun & _).
  - exact Hinv.
  - exact Hav.
  - unfold zlen; cbn; lia.
  - lia.
  - rewrite Hs. lia.
  - by exists w, w'.
Defined.

Lemma RBPut_refuses_witness :
  exists w : source_world, RBPut 0 [7; 8; 9] 3 (u32 (head_seq (buff w) + 62)) w = Ok (-2) w.
Proof.
  destruct wrap_world as (w & F & Fd & Hinv & _ & _ & Hs & _). exists w.
  apply (RBPut_refuses w 0 [7; 8; 9] 3 62); unfold half_space; [apply Hinv|lia|lia|].
  right. right. rewrite Hs. lia.
Defined.

Lemma RBRemove_shifts_witness :
  exists (w w' : source_world), RBRemove 5 AT_APP w = Ok (Z.min 5 (merged_len (buff w))) w'.
Proof.
  destruct wrap_world as (w & F & Fd & Hinv & _).
  destruct (RBRemove_shifts w [] [] F 5 AT_APP Hinv ltac:(lia)) as (w' & l' & Hrun & _).
  by exists w, w'.
Defined.

Lemma RBFree_releases_witness : exists (w w' : source_world), RBFree w = Ok tt w'.
Proof.
  destruct wrap_world as (w & F & Fd & Hinv & _ & _ & _ & Hp & Hd & HdF).
  destruct (RBFree_releases w [] [] F Fd Hinv Hp Hd HdF) as (w' & F' & Hrun & _).
  by exists w, w'.
Defined.

(** A manager whose only fragment is in use. *)
Definition exhausted_manager : @rb_manager mem_pool Click.click_queue :=
  RbManager 64 1 1 (MemPool 4096 0 0 1 64 0 ∅) (MemPool 8192 0 0 1 16 0 ∅)
    (Click.ClickQueue 1 0 0 [0; 0]) (Click.ClickQueue 1 0 0 [0; 0]).

Lemma exhausted_acct : acct exhausted_manager [8192] ∅.
Proof.
  assert (Hq : Click.wf (Click.ClickQueue 1 0 0 [0; 0])).
  { unfold Click.wf, Click.shape, zlen; cbn. split; [lia|constructor]. }
  split; try done; cbn.
  - exists []. split; [|done]. unfold wf, sizeof_mem_chunk; cbn. split_and!; try lia.
    + constructor.
    + apply NoDup_nil_2.
    + intros a Ha. by apply elem_of_nil in Ha.
    + done.
  - apply NoDup_singleton.
  - intros a ->%list_elem_of_singleton. split; [|set_solver].
    apply pool_chunks_spec. exists 0. cbn. lia.
Qed.

Lemma calloc_mark_lost_witness :
  exists w' : source_world,
    AllocateFragmentContext 70000
      (RbWorld exhausted_manager ∅ (TcpRingBuffer 4096 [] 0 0 0 0 0 0 64 0 0 0)) = Ok 70000 w' /\
    frags w' !! 70000 = Some (FragmentCtx 0 0 0 0).
Proof.
  destruct (calloc_mark_lost
    (RbWorld exhausted_manager ∅ (TcpRingBuffer 4096 [] 0 0 0 0 0 0 64 0 0 0)) [8192] ∅ 70000)
    as (w' & Hal & Hf & _).
  - exact exhausted_acct.
  - intros [H|H]; apply H; reflexivity.
  - lia.
  - by exists w'.
Defined.
