(* ===== verification/AddrPool.v ===== *)
(** * The pool of local addresses ([addr_pool.c])

    A client connection needs a local address and port; a pool holds the free ones and the
    ones that are leased.  The entries are an array; the two lists hold indices into it,
    and [mapper] finds the index of an address without walking a list.  A pool made for
    one core holds only the addresses whose flows the NIC delivers to that core. *)

From S2P Require Import Prelude Bytes Rss.

(** ** Definitions *)

Definition MIN_PORT : Z := 1025.
Definition MAX_PORT : Z := 65535 + 1.

(** [struct sockaddr_in], in network order *)
Record sockaddr_in := SockaddrIn { sin_addr : Z; sin_port : Z }.

#[export] Instance sockaddr_in_eq_dec : EqDecision sockaddr_in.
Proof. solve_decision. Defined.

Record addr_pool := AddrPool {
  pool : list sockaddr_in;
  mapper : option (gmap (Z * Z) Z);
  addr_base : Z;
  num_addr : Z;
  num_entry : Z;
  num_free : Z;
  num_used : Z;
  free_list : list Z;
  used_list : list Z
}.

#[export] Instance addr_pool_eta : Settable addr_pool :=
  fun r => AddrPool (pool r) (mapper r) (addr_base r) (num_addr r) (num_entry r)
             (num_free r) (num_used r) (free_list r) (used_list r).

(** The body of the loop over ports: entry [cnt] becomes address [addr], port [j]. *)
Definition add_entry (i addr_h j cnt : Z) : M addr_pool unit :=
  ap ← get;
  p ← unwrap OutOfBounds (mem_write (pool ap) cnt [SockaddrIn (htonl addr_h) (htons j)]);
  modify (fun ap => ap <| pool := p |>
                       <| mapper ::= fmap (insert (i, j) cnt) |>
                       <| free_list ::= fun l => TAILQ_INSERT_TAIL l cnt |>).

(** The loop over ports of [CreateAddressPool], with the ports that are left. *)
Fixpoint create_ports (entries i addr_h : Z) (ports : list Z) (cnt : Z) : M addr_pool Z :=
  match ports with
  | [] => mret cnt
  | j :: ports' =>
      add_entry i addr_h j cnt;;
      if entries <=? cnt + 1 then mret (cnt + 1)
      else create_ports entries i addr_h ports' (cnt + 1)
  end.

Fixpoint create_addrs (entries : Z) (idx : list Z) (cnt : Z) : M addr_pool Z :=
  match idx with
  | [] => mret cnt
  | i :: idx' =>
      ap ← get;
      cnt ← create_ports entries i (u32 (addr_base ap + i))
              (seqZ MIN_PORT (MAX_PORT - MIN_PORT)) cnt;
      create_addrs entries idx' cnt
  end.

(** The pool before its loops: [entries] zeroed entries, empty lists. *)
Definition blank_pool (base n entries : Z) : addr_pool :=
  AddrPool (replicate (Z.to_nat entries) (SockaddrIn 0 0)) (Some ∅) (ntohl base) n 0 0 0 [] [].

Definition finish_pool (cnt : Z) : M addr_pool unit :=
  modify (fun ap => ap <| num_entry := cnt |> <| num_free := cnt |> <| num_used := 0 |>).

(** The allocations succeed when [alloc] is true. *)
Definition CreateAddressPool (alloc : bool) (base n : Z) : outcome addr_pool (option unit) :=
  let entries := n * (MAX_PORT - MIN_PORT) in
  if negb alloc then Ok None (blank_pool base n 0)
  else
    (cnt ← create_addrs entries (seqZ 0 n) 0;
     finish_pool cnt;;
     mret (Some tt)) (blank_pool base n entries).

Fixpoint percore_ports (core num_queues daddr_h dport_h : Z) (endian_check : bool)
    (entries i saddr_h : Z) (ports : list Z) (cnt : Z) : M addr_pool Z :=
  match ports with
  | [] => mret cnt
  | j :: ports' =>
      if entries <=? cnt then mret cnt
      else
        rss_core ← unwrap DivByZero
          (GetRSSCPUCore daddr_h saddr_h dport_h j num_queues endian_check);
        if negb (rss_core =? core)
        then percore_ports core num_queues daddr_h dport_h endian_check entries i saddr_h ports' cnt
        else
          add_entry i saddr_h j cnt;;
          percore_ports core num_queues daddr_h dport_h endian_check entries i saddr_h
            ports' (cnt + 1)
  end.

Fixpoint percore_addrs (core num_queues daddr_h dport_h : Z) (endian_check : bool)
    (entries : Z) (idx : list Z) (cnt : Z) : M addr_pool Z :=
  match idx with
  | [] => mret cnt
  | i :: idx' =>
      ap ← get;
      cnt ← percore_ports core num_queues daddr_h dport_h endian_check entries i
              (u32 (addr_base ap + i)) (seqZ MIN_PORT (MAX_PORT - MIN_PORT)) cnt;
      percore_addrs core num_queues daddr_h dport_h endian_check entries idx' cnt
  end.

Definition CreateAddressPoolPerCore (alloc endian_check : bool)
    (core num_queues saddr_base n daddr dport : Z) : outcome addr_pool (option unit) :=
  if num_queues =? 0 then Fault DivByZero
  else
    let entries := Z.quot (n * (MAX_PORT - MIN_PORT)) num_queues in
    if negb alloc then Ok None (blank_pool saddr_base n 0)
    else
      (cnt ← percore_addrs core num_queues (ntohl daddr) (ntohs dport) endian_check entries
               (seqZ 0 n) 0;
       finish_pool cnt;;
       mret (Some tt)) (blank_pool saddr_base n entries).

Definition entry (ap : addr_pool) (i : Z) : option sockaddr_in :=
  if i <? 0 then None else pool ap !! Z.to_nat i.

(** The walk of [FetchAddress] over the free list. *)
Fixpoint fetch_walk (ap : addr_pool) (core num_queues : Z) (endian_check : bool)
    (daddr saddr : sockaddr_in) (walk : list Z) : M addr_pool (option Z) :=
  match walk with
  | [] => mret None
  | w :: next =>
      a ← unwrap OutOfBounds (entry ap w);
      if (negb (sin_addr saddr =? 0) && negb (sin_addr a =? sin_addr saddr))
         || (negb (sin_port saddr =? 0) && negb (sin_port a =? sin_port saddr))
      then fetch_walk ap core num_queues endian_check daddr saddr next
      else
        rss_core ← unwrap DivByZero
          (GetRSSCPUCore (ntohl (sin_addr a)) (ntohl (sin_addr daddr)) (ntohs (sin_port a))
             (ntohs (sin_port daddr)) num_queues endian_check);
        if core =? rss_core then mret (Some w)
        else fetch_walk ap core num_queues endian_check daddr saddr next
  end.

(** Entry [w] moves from the free list to the used list. *)
Definition lease (w : Z) : M addr_pool (Z * sockaddr_in) :=
  ap ← get;
  a ← unwrap OutOfBounds (entry ap w);
  l ← unwrap CorruptList (TAILQ_REMOVE (free_list ap) w);
  modify (fun ap => ap <| free_list := l |>
                       <| used_list ::= fun l => TAILQ_INSERT_TAIL l w |>
                       <| num_free ::= fun n => n - 1 |>
                       <| num_used ::= fun n => n + 1 |>);;
  mret (0, a).

(** The result is the return value and [*saddr]. *)
Definition FetchAddress (core num_queues : Z) (endian_check : bool) (daddr saddr : sockaddr_in) :
    M addr_pool (Z * sockaddr_in) :=
  ap ← get;
  walk ← fetch_walk ap core num_queues endian_check daddr saddr (free_list ap);
  match walk with
  | Some w => lease w
  | None => mret (-1, saddr)
  end.

Definition FetchAddressPerCore (saddr : sockaddr_in) : M addr_pool (Z * sockaddr_in) :=
  ap ← get;
  match free_list ap with
  | w :: _ => lease w
  | [] => mret (-1, saddr)
  end.

Definition same_addr (ap : addr_pool) (addr : sockaddr_in) (w : Z) : bool :=
  bool_decide (entry ap w = Some addr).

Definition FreeAddress (addr : sockaddr_in) : M addr_pool Z :=
  ap ← get;
  let walk :=
    match mapper ap with
    | Some mp =>
        let addr_h := ntohl (sin_addr addr) in
        let port_h := ntohs (sin_port addr) in
        let index := i32 (u32 (addr_h - addr_base ap)) in
        if (0 <=? index) && (index <? num_addr ap)
        then mp !! (u32 (addr_h - addr_base ap), port_h) else None
    | None => snd <$> list_find (fun w => same_addr ap addr w) (used_list ap)
    end in
  match walk with
  | Some w =>
      l ← unwrap CorruptList (TAILQ_REMOVE (used_list ap) w);
      modify (fun ap => ap <| used_list := l |>
                           <| free_list ::= fun l => TAILQ_INSERT_TAIL l w |>
                           <| num_free ::= fun n => n + 1 |>
                           <| num_used ::= fun n => n - 1 |>);;
      mret 0
  | None => mret (-1)
  end.

(** ** Invariant *)

(** The two lists partition the entries, the counters are their lengths, and [mapper]
    finds every entry from its address. *)
Record ap_wf (ap : addr_pool) : Prop := {
  wf_perm : free_list ap ++ used_list ap ≡ₚ seqZ 0 (num_entry ap);
  wf_free : num_free ap = zlen (free_list ap);
  wf_used : num_used ap = zlen (used_list ap);
  wf_len : 0 <= num_entry ap <= zlen (pool ap);
  wf_mapper : exists mp, mapper ap = Some mp /\
    forall w a, 0 <= w < num_entry ap -> entry ap w = Some a ->
      let index := u32 (ntohl (sin_addr a) - addr_base ap) in
      0 <= i32 index < num_addr ap /\ mp !! (index, ntohs (sin_port a)) = Some w
}.

Lemma wf_range ap w : ap_wf ap -> w ∈ free_list ap ++ used_list ap -> 0 <= w < num_entry ap.
Proof. intros Hwf. rewrite (wf_perm _ Hwf), elem_of_seqZ. lia. Qed.

Lemma wf_NoDup ap : ap_wf ap -> NoDup (free_list ap ++ used_list ap).
Proof. intros Hwf. rewrite (wf_perm _ Hwf). apply NoDup_seqZ. Qed.

Lemma wf_entry ap w : ap_wf ap -> w ∈ free_list ap ++ used_list ap -> exists a, entry ap w = Some a.
Proof.
  intros Hwf Hw. pose proof (wf_range _ _ Hwf Hw). pose proof (wf_len _ Hwf). unfold entry, zlen in *.
  rewrite (proj2 (Z.ltb_ge _ _)) by lia. apply lookup_lt_is_Some_2. lia.
Qed.

Lemma wf_entry_inj ap w v a : ap_wf ap ->
  w ∈ free_list ap ++ used_list ap -> v ∈ free_list ap ++ used_list ap ->
  entry ap w = Some a -> entry ap v = Some a -> w = v.
Proof.
  intros Hwf Hw%wf_range Hv%wf_range Ew Ev; try done.
  destruct (wf_mapper _ Hwf) as (mp & _ & Hm).
  destruct (Hm _ _ Hw Ew) as [_ H1]. destruct (Hm _ _ Hv Ev) as [_ H2]. congruence.
Qed.

(** ** Fetching and freeing *)

(** The addresses of the leased entries, in the order of their leases. *)
Definition leased (ap : addr_pool) : list sockaddr_in := omap (entry ap) (used_list ap).

(** [w] may be handed out for a flow of [core] to [daddr] by an application that asked for
    [saddr] (zero: any). *)
Definition suits (ap : addr_pool) (core num_queues : Z) (endian_check : bool)
    (daddr saddr : sockaddr_in) (w : Z) : Prop :=
  exists a, entry ap w = Some a /\
    (sin_addr saddr = 0 \/ sin_addr a = sin_addr saddr) /\
    (sin_port saddr = 0 \/ sin_port a = sin_port saddr) /\
    GetRSSCPUCore (ntohl (sin_addr a)) (ntohl (sin_addr daddr)) (ntohs (sin_port a))
      (ntohs (sin_port daddr)) num_queues endian_check = Some core.

Lemma rss_some sip dip sp dp nq e : u32 nq <> 0 -> exists c, GetRSSCPUCore sip dip sp dp nq e = Some c.
Proof. intros. unfold GetRSSCPUCore. rewrite (proj2 (Z.eqb_neq _ _)) by done. eauto. Qed.

Lemma fetch_walk_ok ap core nq e daddr saddr l s :
  u32 nq <> 0 -> (forall w, w ∈ l -> exists a, entry ap w = Some a) ->
  exists r, fetch_walk ap core nq e daddr saddr l s = Ok r s /\
    match r with
    | Some w => w ∈ l /\ suits ap core nq e daddr saddr w
    | None => forall w, w ∈ l -> ~ suits ap core nq e daddr saddr w
    end.
Proof.
  intros Hq. induction l as [|w l IH]; intros He.
  { exists None. split; [done|]. by intros w ?%elem_of_nil. }
  destruct (He w) as [a Ea]; [apply elem_of_cons; auto|].
  destruct IH as (r & Hr & Hspec); [intros; apply He, elem_of_cons; auto|].
  cbn. rewrite Ea. unfold mbind, M_bind, unwrap, mret, M_ret.
  assert (Hskip : ~ suits ap core nq e daddr saddr w ->
    match r with
    | Some w' => w' ∈ w :: l /\ suits ap core nq e daddr saddr w'
    | None => forall w', w' ∈ w :: l -> ~ suits ap core nq e daddr saddr w'
    end).
  { intros Hn. destruct r; [rewrite elem_of_cons; naive_solver|].
    intros w'. rewrite elem_of_cons. intros [->|?]; naive_solver. }
  destruct (_ || _) eqn:Eg.
  - exists r. split; [done|]. apply Hskip. intros (a' & Ea' & H1 & H2 & _).
    assert (a' = a) as -> by congruence.
    rewrite orb_true_iff, !andb_true_iff, !negb_true_iff, !Z.eqb_neq in Eg. lia.
  - destruct (rss_some (ntohl (sin_addr a)) (ntohl (sin_addr daddr)) (ntohs (sin_port a))
      (ntohs (sin_port daddr)) nq e Hq) as [c Hc]. rewrite Hc.
    destruct (Z.eqb_spec core c) as [<-|Hne].
    + exists (Some w). split; [done|]. split; [apply elem_of_cons; auto|].
      exists a. rewrite orb_false_iff, !andb_false_iff, !negb_false_iff, !Z.eqb_eq in Eg. naive_solver.
    + exists r. split; [done|]. apply Hskip. intros (a' & Ea' & _ & _ & Hc'). congruence.
Qed.

(** Moving an entry between the lists keeps the partition. *)
Lemma wf_move ap free used n :
  ap_wf ap -> free ++ used ≡ₚ free_list ap ++ used_list ap -> n = zlen free ->
  ap_wf (ap <| free_list := free |> <| used_list := used |> <| num_free := n |>
            <| num_used := num_free ap + num_used ap - n |>).
Proof.
  intros [Hp Hf Hu Hl Hm] Hperm ->. split; cbn; try done.
  - by rewrite Hperm.
  - apply Permutation_length in Hperm. rewrite !length_app in Hperm. unfold zlen in *. lia.
Qed.

Lemma lease_ok ap w a : ap_wf ap -> w ∈ free_list ap -> entry ap w = Some a ->
  exists free, lease w ap = Ok (0, a) (ap <| free_list := free |>
      <| used_list := used_list ap ++ [w] |> <| num_free := num_free ap - 1 |>
      <| num_used := num_used ap + 1 |>) /\ TAILQ_REMOVE (free_list ap) w = Some free.
Proof.
  intros Hwf Hw Ha. destruct (TAILQ_REMOVE_elem _ _ Hw) as [free Hfree].
  exists free. split; [|done]. unfold lease, mbind, M_bind, get, unwrap. by rewrite Ha, Hfree.
Qed.

(** The answers of a fetch: an address that was free and is leased from now on, or [-1]
    with the pool unchanged. *)
Definition fetched (ap : addr_pool) (r : Z * sockaddr_in) (saddr : sockaddr_in)
    (ok : Z -> Prop) (ap' : addr_pool) : Prop :=
  ap_wf ap' /\ pool ap' = pool ap /\ num_entry ap' = num_entry ap /\
  ((r.1 = 0 /\ exists w, w ∈ free_list ap /\ entry ap w = Some r.2 /\ ok w /\
     used_list ap' = used_list ap ++ [w]) \/
   (r = (-1, saddr) /\ ap' = ap /\ forall w, w ∈ free_list ap -> ~ ok w)).

Lemma lease_fetched ap w saddr (ok : Z -> Prop) :
  ap_wf ap -> w ∈ free_list ap -> ok w ->
  wp (lease w) (fun r ap' => fetched ap r saddr ok ap') ap.
Proof.
  intros Hwf Hw Hok. destruct (wf_entry ap w Hwf) as [a Ha]; [apply elem_of_app; auto|].
  destruct (lease_ok _ _ _ Hwf Hw Ha) as (free & Hl & Hr). unfold wp. rewrite Hl.
  pose proof (TAILQ_REMOVE_perm _ _ _ Hr) as Hp. pose proof (TAILQ_REMOVE_length _ _ _ Hr) as Hn.
  split; [|cbn; split_and!; try done; left; eauto 10].
  replace (num_used ap + 1) with (num_free ap + num_used ap - (num_free ap - 1)) by lia.
  apply wf_move; [done| |pose proof (wf_free _ Hwf); unfold zlen in *; lia].
  rewrite Hp. rewrite (Permutation_app_comm (used_list ap)). cbn.
  by rewrite <- Permutation_middle.
Qed.

Lemma FetchAddress_ok ap core nq e daddr saddr : ap_wf ap -> u32 nq <> 0 ->
  wp (FetchAddress core nq e daddr saddr)
     (fun r ap' => fetched ap r saddr (suits ap core nq e daddr saddr) ap') ap.
Proof.
  intros Hwf Hq. unfold FetchAddress. rewrite wp_bind, wp_get, wp_bind.
  destruct (fetch_walk_ok ap core nq e daddr saddr (free_list ap) ap Hq) as (r & Hr & Hspec).
  { intros w Hw. apply wf_entry; [done|]. apply elem_of_app. auto. }
  unfold wp at 1. rewrite Hr. destruct r as [w|].
  - apply lease_fetched; tauto.
  - apply wp_ret. split; [done|]. split_and!; try done. right. done.
Qed.

Lemma FetchAddressPerCore_ok ap saddr : ap_wf ap ->
  wp (FetchAddressPerCore saddr) (fun r ap' => fetched ap r saddr (fun _ => True) ap') ap.
Proof.
  intros Hwf. unfold FetchAddressPerCore. rewrite wp_bind, wp_get.
  destruct (free_list ap) as [|w l] eqn:E.
  - apply wp_ret. split; [done|]. split_and!; try done. right.
    split_and!; try done. intros w. rewrite E. by intros ?%elem_of_nil.
  - apply lease_fetched; [done| |done]. rewrite E. apply elem_of_cons. auto.
Qed.

(** Freeing a leased address. *)
Lemma FreeAddress_ok ap w a : ap_wf ap -> w ∈ used_list ap -> entry ap w = Some a ->
  wp (FreeAddress a) (fun r ap' => r = 0 /\ ap_wf ap' /\ pool ap' = pool ap /\
    num_entry ap' = num_entry ap /\ free_list ap' = free_list ap ++ [w] /\
    TAILQ_REMOVE (used_list ap) w = Some (used_list ap')) ap.
Proof.
  intros Hwf Hw Ha. unfold FreeAddress. rewrite wp_bind, wp_get.
  destruct (wf_mapper _ Hwf) as (mp & -> & Hm).
  destruct (Hm w a) as [Hi Hmp]; [apply wf_range, elem_of_app; auto|done|].
  rewrite (proj2 (Z.leb_le _ _)), (proj2 (Z.ltb_lt _ _)) by apply Hi. cbn [andb].
  rewrite Hmp. destruct (TAILQ_REMOVE_elem _ _ Hw) as [used Hr]. rewrite Hr.
  rewrite wp_bind, wp_unwrap. exists used. split; [done|].
  rewrite wp_bind, wp_modify, wp_ret. unfold upd; cbn. split_and!; try done.
  pose proof (TAILQ_REMOVE_perm _ _ _ Hr) as Hp. pose proof (TAILQ_REMOVE_length _ _ _ Hr) as Hn.
  pose proof (wf_move ap (free_list ap ++ [w]) used (num_free ap + 1) Hwf) as Hmove.
  unfold upd in Hmove; cbn in Hmove.
  replace (num_free ap + num_used ap - (num_free ap + 1)) with (num_used ap - 1) in Hmove by lia.
  apply Hmove.
  - by rewrite Hp, <- app_assoc.
  - rewrite zlen_app. pose proof (wf_free _ Hwf). unfold zlen in *. cbn. lia.
Qed.

(** ** Sequences of calls *)

(** A client fetches addresses and gives back the [k]-th of those it holds. *)
Inductive ap_op :=
| Fetch (core num_queues : Z) (endian_check : bool) (daddr saddr : sockaddr_in)
| FetchPerCore (saddr : sockaddr_in)
| Free (k : nat).

(** The answers of the calls made, with the pool they leave. *)
Definition ap_call (op : ap_op) : M addr_pool (Z * sockaddr_in) :=
  match op with
  | Fetch core nq e daddr saddr => FetchAddress core nq e daddr saddr
  | FetchPerCore saddr => FetchAddressPerCore saddr
  | Free k =>
      ap ← get;
      match leased ap !! k with
      | Some a => r ← FreeAddress a; mret (r, a)
      | None => mret (-1, SockaddrIn 0 0)
      end
  end.

Fixpoint ap_calls (ops : list ap_op) : M addr_pool (list (Z * sockaddr_in)) :=
  match ops with
  | [] => mret []
  | op :: ops' => r ← ap_call op; rs ← ap_calls ops'; mret (r :: rs)
  end.

Definition ap_op_ok (op : ap_op) : Prop :=
  match op with Fetch _ nq _ _ _ => u32 nq <> 0 | _ => True end.

Lemma omap_NoDup {A B} (f : A -> option B) (l : list A) :
  NoDup l -> (forall w, w ∈ l -> exists a, f w = Some a) ->
  (forall w v a, w ∈ l -> v ∈ l -> f w = Some a -> f v = Some a -> w = v) ->
  NoDup (omap f l) /\ length (omap f l) = length l.
Proof.
  induction l as [|w l IH]; intros Hnd Htot Hinj; [split; [constructor|done]|].
  apply list.NoDup_cons in Hnd as [Hw Hnd].
  destruct IH as [IH1 IH2]; [done|set_solver|set_solver|].
  destruct (Htot w) as [a Ha]; [set_solver|]. cbn. rewrite Ha.
  split; [|cbn; by rewrite IH2]. apply list.NoDup_cons. split; [|done].
  rewrite list_elem_of_omap. intros (v & Hv & Ea). apply Hw.
  rewrite (Hinj w v a); [done|set_solver|set_solver|done|done].
Qed.

Lemma leased_NoDup ap : ap_wf ap -> NoDup (leased ap) /\ length (leased ap) = length (used_list ap).
Proof.
  intros Hwf. pose proof (wf_NoDup _ Hwf) as Hnd. apply list.NoDup_app in Hnd as (_ & _ & Hnd).
  assert (Hin : forall w, w ∈ used_list ap -> w ∈ free_list ap ++ used_list ap).
  { intros w Hw. apply elem_of_app. auto. }
  apply omap_NoDup; [done|intros w Hw; by apply wf_entry, Hin|].
  intros w v a Hw Hv. apply wf_entry_inj; [done|by apply Hin..].
Qed.

Lemma leased_lookup ap k a : leased ap !! k = Some a -> exists w, w ∈ used_list ap /\ entry ap w = Some a.
Proof. intros H%list_elem_of_lookup_2. by apply list_elem_of_omap in H. Qed.

(** One call keeps the pool consistent. *)
Lemma ap_call_ok ap op : ap_wf ap -> ap_op_ok op ->
  wp (ap_call op) (fun _ ap' => ap_wf ap' /\ pool ap' = pool ap /\ num_entry ap' = num_entry ap) ap.
Proof.
  intros Hwf Hop. destruct op as [core nq e daddr saddr|saddr|k]; cbn in *.
  - eapply wp_mono; [by apply FetchAddress_ok|]. by intros r ap' (? & ? & ? & _).
  - eapply wp_mono; [by apply FetchAddressPerCore_ok|]. by intros r ap' (? & ? & ? & _).
  - rewrite wp_bind, wp_get. destruct (leased ap !! k) as [a|] eqn:E; [|done].
    destruct (leased_lookup _ _ _ E) as (w & Hw & Ha).
    rewrite wp_bind. eapply wp_mono; [by eapply FreeAddress_ok|]. cbn. tauto.
Qed.

Lemma ap_calls_ok ap ops : ap_wf ap -> Forall ap_op_ok ops ->
  wp (ap_calls ops) (fun _ ap' => ap_wf ap' /\ pool ap' = pool ap /\ num_entry ap' = num_entry ap) ap.
Proof.
  revert ap. induction ops as [|op ops IH]; intros ap Hwf Hops; cbn; [done|].
  apply list.Forall_cons in Hops as [Hop Hops]. rewrite wp_bind.
  eapply wp_mono; [by apply ap_call_ok|]. intros r ap1 (Hwf1 & Hp1 & Hn1). rewrite wp_bind.
  eapply wp_mono; [by apply IH|]. intros rs ap2 (Hwf2 & Hp2 & Hn2). apply wp_ret. split_and!; congruence.
Qed.

(** ** Creation *)

(** The pool whose loops have added the pairs [done] of address index and port. *)
Record built (base entries : Z) (done : list (Z * Z)) (ap : addr_pool) : Prop := {
  b_pool : pool ap =
    ((fun ij => SockaddrIn (htonl (u32 (base + ij.1))) (htons ij.2)) <$> done)
    ++ replicate (Z.to_nat entries - length done) (SockaddrIn 0 0);
  b_len : zlen done <= entries;
  b_base : addr_base ap = base;
  b_free : free_list ap = seqZ 0 (zlen done);
  b_used : used_list ap = [];
  b_nodup : NoDup done;
  b_map : exists mp, mapper ap = Some mp /\
    forall ij w, mp !! ij = Some w <-> 0 <= w /\ done !! Z.to_nat w = Some ij
}.

Lemma seqZ_snoc n : 0 <= n -> seqZ 0 (n + 1) = seqZ 0 n ++ [n].
Proof. intros. by rewrite seqZ_app by lia. Qed.

Lemma add_entry_ok base entries done ap i j :
  built base entries done ap -> (i, j) ∉ done -> zlen done < entries ->
  wp (add_entry i (u32 (base + i)) j (zlen done))
     (fun _ ap' => built base entries (done ++ [(i, j)]) ap' /\ num_addr ap' = num_addr ap) ap.
Proof.
  intros [Hp Hl Hb Hf Hu Hnd (mp & Hm & Hmp)] Hfresh Hroom. unfold add_entry.
  pose proof (zlen_nonneg done) as Hn.
  rewrite wp_bind, wp_get, wp_bind, wp_unwrap. eexists. split.
  { apply mem_write_ok; [done|]. rewrite Hp, zlen_app. unfold zlen in *. cbn.
    rewrite length_fmap, length_replicate. lia. }
  rewrite wp_modify. unfold upd; cbn. split; [|done]. split; cbn; try done.
  - rewrite Hp. unfold zlen in *. rewrite Nat2Z.id.
    rewrite take_app_length' by by rewrite length_fmap.
    rewrite fmap_app, <- app_assoc. f_equal. cbn. f_equal.
    rewrite drop_app_ge by (rewrite length_fmap; lia). rewrite length_fmap, length_app. cbn.
    replace (length done + 1 - length done)%nat with 1%nat by lia.
    rewrite drop_replicate. f_equal. lia.
  - rewrite zlen_app. unfold zlen in *. cbn. lia.
  - rewrite Hf, zlen_app. symmetry. apply seqZ_snoc. done.
  - apply list.NoDup_app. split_and!; [done| |apply NoDup_singleton].
    intros x Hx ->%list_elem_of_singleton. done.
  - rewrite Hm. eexists. split; [done|]. intros ij w.
    destruct (decide (ij = (i, j))) as [->|Hne].
    + rewrite lookup_insert_eq. split.
      * intros [= <-]. split; [done|]. unfold zlen. rewrite Nat2Z.id. by apply list_lookup_middle.
      * intros [Hw Hd]. apply lookup_snoc_Some in Hd as [[_ Hd]|[Hd _]].
        -- by apply list_elem_of_lookup_2 in Hd.
        -- f_equal. unfold zlen. lia.
    + rewrite lookup_insert_ne by congruence. rewrite Hmp. apply and_iff_compat_l.
      rewrite lookup_snoc_Some. split; [|naive_solver].
      intros Hd. left. split; [|done]. by apply lookup_lt_Some in Hd.
Qed.

Lemma create_ports_ok base entries i ports : NoDup ports ->
  forall done ap, built base entries done ap -> (forall j, j ∈ ports -> (i, j) ∉ done) ->
  zlen done + zlen ports <= entries ->
  wp (create_ports entries i (u32 (base + i)) ports (zlen done))
     (fun cnt ap' => let done' := done ++ (pair i <$> ports) in
        built base entries done' ap' /\ cnt = zlen done' /\ num_addr ap' = num_addr ap) ap.
Proof.
  induction 1 as [|j ports Hj Hnd IH]; intros done ap Hb Hfresh Hlen; cbn [create_ports].
  { by rewrite wp_ret, app_nil_r. }
  rewrite zlen_cons in Hlen. pose proof (zlen_nonneg ports).
  rewrite wp_bind. eapply wp_mono; [apply add_entry_ok; [done|apply Hfresh; set_solver|lia]|].
  intros _ ap1 [Hb1 Hn1]. change (pair i <$> j :: ports) with ([(i, j)] ++ (pair i <$> ports)).
  rewrite app_assoc. replace (zlen done + 1) with (zlen (done ++ [(i, j)])) by by rewrite zlen_app.
  destruct (Z.leb_spec entries (zlen (done ++ [(i, j)]))) as [Hend|Hend].
  - rewrite zlen_app in Hend. assert (ports = []) as ->.
    { destruct ports; [done|]. rewrite zlen_cons in Hlen. pose proof (zlen_nonneg ports).
      change (zlen [(i, j)]) with 1 in Hend. lia. }
    by rewrite wp_ret, app_nil_r.
  - eapply wp_mono; [apply IH; [done| |rewrite zlen_app; change (zlen [(i, j)]) with 1; lia]|].
    + intros k Hk. apply not_elem_of_app. split; [apply Hfresh; set_solver|].
      rewrite list_elem_of_singleton. congruence.
    + intros cnt ap2 (? & ? & ?). split_and!; congruence.
Qed.

(** The ports of one address, and the pairs of all addresses. *)
Definition all_ports : list Z := seqZ MIN_PORT (MAX_PORT - MIN_PORT).
Definition all_pairs (idx : list Z) : list (Z * Z) := i ← idx; pair i <$> all_ports.

Lemma all_ports_zlen : zlen all_ports = MAX_PORT - MIN_PORT.
Proof. unfold zlen, all_ports. rewrite length_seqZ. unfold MAX_PORT, MIN_PORT. lia. Qed.

Lemma all_ports_NoDup : NoDup all_ports.
Proof. apply NoDup_seqZ. Qed.

Lemma all_ports_elem j : j ∈ all_ports <-> MIN_PORT <= j < MAX_PORT.
Proof. unfold all_ports. rewrite elem_of_seqZ. unfold MAX_PORT, MIN_PORT. lia. Qed.

Local Opaque all_ports.

Lemma create_addrs_ok base entries idx : NoDup idx ->
  forall done ap, built base entries done ap -> (forall i j, i ∈ idx -> (i, j) ∉ done) ->
  zlen done + zlen idx * (MAX_PORT - MIN_PORT) <= entries ->
  wp (create_addrs entries idx (zlen done))
     (fun cnt ap' => let done' := done ++ all_pairs idx in
        built base entries done' ap' /\ cnt = zlen done' /\ num_addr ap' = num_addr ap) ap.
Proof.
  induction 1 as [|i idx Hi Hnd IH]; intros done ap Hb Hfresh Hlen; cbn [create_addrs].
  { change (all_pairs []) with (@nil (Z * Z)). by rewrite wp_ret, app_nil_r. }
  rewrite zlen_cons in Hlen. pose proof (zlen_nonneg idx).
  rewrite wp_bind, wp_get, wp_bind, (b_base _ _ _ _ Hb). change (seqZ _ _) with all_ports.
  eapply wp_mono.
  { apply create_ports_ok; [apply all_ports_NoDup|done| |].
    - intros j _. apply Hfresh, elem_of_cons. auto.
    - rewrite all_ports_zlen. unfold MAX_PORT, MIN_PORT in *. lia. }
  intros cnt ap1 (Hb1 & -> & Hn1).
  eapply wp_mono; [apply IH; [done| |]|].
  - intros k j Hk. apply not_elem_of_app. split; [apply Hfresh, elem_of_cons; auto|].
    rewrite list_elem_of_fmap. intros (j' & [= -> ->] & _). done.
  - rewrite zlen_app. replace (zlen (pair i <$> all_ports)) with (zlen all_ports);
      [rewrite all_ports_zlen; lia|].
    unfold zlen. by rewrite length_fmap.
  - change (all_pairs (i :: idx)) with ((pair i <$> all_ports) ++ all_pairs idx). rewrite app_assoc.
    intros cnt ap2 (Hb2 & -> & Hn2). split_and!; [done|done|congruence].
Qed.

Lemma percore_ports_ok core nq daddr_h dport_h e base entries i ports : u32 nq <> 0 -> NoDup ports ->
  forall done ap, built base entries done ap -> (forall j, j ∈ ports -> (i, j) ∉ done) ->
  wp (percore_ports core nq daddr_h dport_h e entries i (u32 (base + i)) ports (zlen done))
     (fun cnt ap' => exists js, js ⊆ ports /\
        (forall j, j ∈ js -> GetRSSCPUCore daddr_h (u32 (base + i)) dport_h j nq e = Some core) /\
        let done' := done ++ (pair i <$> js) in
        built base entries done' ap' /\ cnt = zlen done' /\ num_addr ap' = num_addr ap) ap.
Proof.
  intros Hq. induction 1 as [|j ports Hj Hnd IH]; intros done ap Hb Hfresh; cbn [percore_ports].
  { rewrite wp_ret. exists []. rewrite app_nil_r. set_solver. }
  destruct (Z.leb_spec entries (zlen done)) as [Hend|Hend].
  { rewrite wp_ret. exists []. rewrite app_nil_r. set_solver. }
  destruct (rss_some daddr_h (u32 (base + i)) dport_h j nq e Hq) as [c Hc]. rewrite Hc.
  rewrite wp_bind, wp_unwrap. exists c. split; [done|]. destruct (Z.eqb_spec c core) as [->|Hne]; cbn [negb].
  - rewrite wp_bind. eapply wp_mono; [apply add_entry_ok; [done|apply Hfresh; set_solver|lia]|].
    intros _ ap1 [Hb1 Hn1]. replace (zlen done + 1) with (zlen (done ++ [(i, j)])) by by rewrite zlen_app.
    eapply wp_mono; [apply IH; [done|]|].
    + intros k Hk. apply not_elem_of_app. split; [apply Hfresh; set_solver|].
      rewrite list_elem_of_singleton. congruence.
    + intros cnt ap2 (js & Hjs & Hcore & Hb2 & Hcnt & Hn2). exists (j :: js).
      rewrite <- app_assoc in Hb2, Hcnt. cbn in *. split_and!; try congruence; [set_solver|].
      intros k [->|Hk]%elem_of_cons; [done|]. by apply Hcore.
  - eapply wp_mono; [apply IH; [done|set_solver]|]. cbn. intros cnt ap2 (js & ? & H). exists js. set_solver.
Qed.

Lemma percore_addrs_ok core nq daddr_h dport_h e base entries idx : u32 nq <> 0 -> NoDup idx ->
  forall done ap, built base entries done ap -> (forall i j, i ∈ idx -> (i, j) ∉ done) ->
  wp (percore_addrs core nq daddr_h dport_h e entries idx (zlen done))
     (fun cnt ap' => exists more,
        (forall i j, (i, j) ∈ more -> i ∈ idx /\ MIN_PORT <= j < MAX_PORT /\
           GetRSSCPUCore daddr_h (u32 (base + i)) dport_h j nq e = Some core) /\
        let done' := done ++ more in
        built base entries done' ap' /\ cnt = zlen done' /\ num_addr ap' = num_addr ap) ap.
Proof.
  intros Hq. induction 1 as [|i idx Hi Hnd IH]; intros done ap Hb Hfresh; cbn [percore_addrs].
  { rewrite wp_ret. exists []. rewrite app_nil_r. split; [by intros ?? ?%elem_of_nil|done]. }
  rewrite wp_bind, wp_get, wp_bind, (b_base _ _ _ _ Hb). change (seqZ _ _) with all_ports.
  eapply wp_mono; [apply percore_ports_ok;
    [done|apply all_ports_NoDup|done|intros j _; apply Hfresh, elem_of_cons; auto]|].
  intros cnt ap1 (js & Hjs & Hcore & Hb1 & -> & Hn1).
  eapply wp_mono; [apply IH; [done|]|].
  - intros k j Hk. apply not_elem_of_app. split; [apply Hfresh, elem_of_cons; auto|].
    rewrite list_elem_of_fmap. intros (j' & [= -> ->] & _). done.
  - cbn. intros cnt ap2 (more & Hmore & Hb2 & Hcnt & Hn2). exists ((pair i <$> js) ++ more).
    rewrite <- app_assoc in Hb2, Hcnt. split; [|split_and!; congruence].
    intros k j [(j' & [= -> ->] & Hj)%list_elem_of_fmap|Hk]%elem_of_app.
    + split; [apply elem_of_cons; auto|]. split; [|by apply Hcore].
      by apply all_ports_elem, Hjs.
    + destruct (Hmore _ _ Hk) as (? & ? & ?). split; [apply elem_of_cons; auto|done].
Qed.

(** What the loops have built is a consistent pool in which everything is free. *)
Lemma built_wf base entries done ap n :
  built base entries done ap -> is_u32 base -> num_addr ap = n -> n < 2147483648 ->
  (forall i j, (i, j) ∈ done -> 0 <= i < n /\ MIN_PORT <= j < MAX_PORT) ->
  wp (finish_pool (zlen done)) (fun _ ap' => ap_wf ap' /\ used_list ap' = [] /\
    num_entry ap' = zlen done /\
    forall k i j, done !! k = Some (i, j) ->
      entry ap' (Z.of_nat k) = Some (SockaddrIn (htonl (u32 (base + i))) (htons j))) ap.
Proof.
  intros [Hp Hl Hb Hf Hu Hnd (mp & Hm & Hmp)] Hbase Hn Hhalf Hrange.
  unfold finish_pool. rewrite wp_modify. unfold upd; cbn.
  pose proof (zlen_nonneg done) as H0.
  assert (Hent : forall w ij, 0 <= w < zlen done -> done !! Z.to_nat w = Some ij ->
    pool ap !! Z.to_nat w = Some (SockaddrIn (htonl (u32 (base + ij.1))) (htons ij.2))).
  { intros w ij Hw Hd. rewrite Hp, lookup_app_l by (rewrite length_fmap; unfold zlen in *; lia).
    by rewrite list_lookup_fmap, Hd. }
  assert (Hsome : forall w, 0 <= w < zlen done -> exists ij, done !! Z.to_nat w = Some ij).
  { intros w Hw. apply lookup_lt_is_Some_2. unfold zlen in *. lia. }
  split_and!; [|done|done|].
  - split; cbn.
    + by rewrite Hf, Hu, app_nil_r.
    + rewrite Hf. unfold zlen. rewrite length_seqZ. lia.
    + by rewrite Hu.
    + split; [done|]. rewrite Hp, zlen_app. unfold zlen. rewrite length_fmap. lia.
    + exists mp. split; [done|]. intros w a Hw. destruct (Hsome w Hw) as [[i j] Hd].
      unfold entry; cbn. rewrite (proj2 (Z.ltb_ge _ _)), (Hent _ _ Hw Hd) by lia.
      intros [= <-]. cbn. destruct (Hrange i j) as [Hi Hj]; [by eapply list_elem_of_lookup_2|].
      unfold ntohl, ntohs. rewrite htonl_involutive by auto with mtcp.
      rewrite htons_involutive by (unfold is_u16, MIN_PORT, MAX_PORT in *; lia).
      rewrite Hb. assert (u32 (u32 (base + i) - base) = i) as ->
        by (mlia).
      rewrite i32_small by (lia). rewrite Hn. split; [done|].
      apply Hmp. split; [lia|done].
  - intros k i j Hd. pose proof (lookup_lt_Some _ _ _ Hd). unfold entry; cbn.
    rewrite (proj2 (Z.ltb_ge _ _)) by lia. apply (Hent (Z.of_nat k) (i, j)); [unfold zlen; lia|].
    by rewrite Nat2Z.id.
Qed.

Lemma blank_built base n entries : 0 <= entries ->
  built (ntohl base) entries [] (blank_pool base n entries).
Proof.
  intros. split; cbn; try done.
  - by rewrite Nat.sub_0_r.
  - constructor.
  - exists ∅. split; [done|]. intros ij w. rewrite lookup_empty. split; [done|]. by intros [_ ?].
Qed.

Lemma all_pairs_elem idx i j : (i, j) ∈ all_pairs idx <-> i ∈ idx /\ MIN_PORT <= j < MAX_PORT.
Proof.
  unfold all_pairs. rewrite list_elem_of_bind. setoid_rewrite list_elem_of_fmap.
  setoid_rewrite all_ports_elem. split.
  - intros (i' & (j' & [= -> ->] & ?) & ?). done.
  - intros [? ?]. exists i. split; [|done]. exists j. done.
Qed.

Lemma all_pairs_zlen idx : zlen (all_pairs idx) = zlen idx * (MAX_PORT - MIN_PORT).
Proof.
  unfold all_pairs. induction idx as [|i idx IH]; [done|].
  change (mbind _ (i :: idx)) with ((pair i <$> all_ports) ++ (i ← idx; pair i <$> all_ports)).
  rewrite zlen_app, IH, zlen_cons. replace (zlen (pair i <$> all_ports)) with (zlen all_ports).
  - rewrite all_ports_zlen. lia.
  - unfold zlen. by rewrite length_fmap.
Qed.

(** The entries of a pool are the addresses of the pairs [done]. *)
Definition lists (base : Z) (done : list (Z * Z)) (ap : addr_pool) : Prop :=
  num_entry ap = zlen done /\
  forall k i j, done !! k = Some (i, j) ->
    entry ap (Z.of_nat k) = Some (SockaddrIn (htonl (u32 (base + i))) (htons j)).

Lemma CreateAddressPool_ok base n :
  0 <= n -> n * (MAX_PORT - MIN_PORT) < 2147483648 ->
  exists ap, CreateAddressPool true base n = Ok (Some tt) ap /\ ap_wf ap /\ used_list ap = [] /\
    lists (ntohl base) (all_pairs (seqZ 0 n)) ap.
Proof.
  intros Hn Hmax. unfold CreateAddressPool. cbn [negb].
  set (entries := n * (MAX_PORT - MIN_PORT)) in *.
  assert (Hent : 0 <= entries) by (unfold entries, MAX_PORT, MIN_PORT; lia).
  set (P := fun (r : option unit) ap => r = Some tt /\ ap_wf ap /\ used_list ap = [] /\
    lists (ntohl base) (all_pairs (seqZ 0 n)) ap).
  enough (Hwp : wp (cnt ← create_addrs entries (seqZ 0 n) 0; finish_pool cnt;; mret (Some tt)) P
    (blank_pool base n entries)).
  { destruct (wp_elim _ _ _ Hwp) as (r & ap & Hr & -> & ?). exists ap. done. }
  rewrite wp_bind. eapply wp_mono.
  { apply (create_addrs_ok (ntohl base) entries (seqZ 0 n) (NoDup_seqZ _ _) []).
    - by apply blank_built.
    - intros i j _. apply not_elem_of_nil.
    - unfold zlen. rewrite length_seqZ. cbn [length]. unfold entries. lia. }
  intros cnt ap (Hb & -> & Hna). rewrite app_nil_l in *. rewrite wp_bind.
  eapply wp_mono; [eapply (built_wf _ _ _ _ n Hb); [apply htonl_range|done| |]|].
  { unfold entries, MAX_PORT, MIN_PORT in *. lia. }
  { intros i j. rewrite all_pairs_elem, elem_of_seqZ. lia. }
  intros _ ap' (Hwf & Hu & Hne & Hl). rewrite wp_ret. repeat split; try done; apply Hwf.
Qed.



(** a fetch answers a free entry that matches the address and port asked for
    and that RSS maps to the calling core, and leases it; it answers [-1] and leaves the
    pool alone exactly when there is none. *)
Theorem FetchAddress_spec ap core num_queues endian_check daddr saddr :
  ap_wf ap -> u32 num_queues <> 0 ->
  exists r ap', FetchAddress core num_queues endian_check daddr saddr ap = Ok r ap' /\
    ap_wf ap' /\
    ((r.1 = 0 /\ exists w, w ∈ free_list ap /\ entry ap w = Some r.2 /\
        suits ap core num_queues endian_check daddr saddr w /\ used_list ap' = used_list ap ++ [w]) \/
     (r = (-1, saddr) /\ ap' = ap /\
        forall w, w ∈ free_list ap -> ~ suits ap core num_queues endian_check daddr saddr w)).
Proof.
  intros Hwf Hq.
  destruct (wp_elim _ _ _ (FetchAddress_ok ap core _ endian_check daddr saddr Hwf Hq))
    as (r & ap' & Hr & Hwf' & _ & _ & H). eauto 10.
Qed.

Definition small_pool : addr_pool :=
  AddrPool [SockaddrIn 16777226 260; SockaddrIn 16777226 516]
    (Some {[ (0, 1025) := 0; (0, 1026) := 1 ]}) 167772161 1 2 2 0 [0; 1] [].

Lemma small_pool_wf : ap_wf small_pool.
Proof.
  split; cbn; try done.
  eexists. split; [done|]. intros w a Hw. assert (w = 0 \/ w = 1) as [-> | ->] by lia; intros [= <-]; done.
Qed.

Lemma FetchAddress_spec_witness : exists r ap',
  FetchAddress 0 1 false (SockaddrIn 33554442 20480) (SockaddrIn 0 516) small_pool = Ok r ap' /\
  ap_wf ap' /\ r = (0, SockaddrIn 16777226 516).
Proof.
  destruct (FetchAddress_spec small_pool 0 1 false (SockaddrIn 33554442 20480) (SockaddrIn 0 516))
    as (r & ap' & H1 & H2 & _); [apply small_pool_wf|done|].
  exists r, ap'. split; [exact H1|]. split; [exact H2|]. vm_compute in H1. congruence.
Defined.

(** The pool of one core. *)
Lemma CreateAddressPoolPerCore_ok core num_queues base n daddr dport endian_check :
  0 <= n -> n * (MAX_PORT - MIN_PORT) < 2147483648 -> 0 < num_queues < 4294967296 ->
  exists ap, CreateAddressPoolPerCore true endian_check core num_queues base n daddr dport =
      Ok (Some tt) ap /\ ap_wf ap /\ used_list ap = [] /\
    forall w a, w ∈ free_list ap -> entry ap w = Some a ->
      GetRSSCPUCore (ntohl (sin_addr a)) (ntohl daddr) (ntohs (sin_port a)) (ntohs dport)
        num_queues endian_check = Some core.
Proof.
  intros Hn Hmax Hq. unfold CreateAddressPoolPerCore. rewrite (proj2 (Z.eqb_neq _ _)) by lia. cbn [negb].
  set (entries := Z.quot (n * (MAX_PORT - MIN_PORT)) num_queues).
  assert (Hent : 0 <= entries) by (apply Z.quot_pos; unfold MAX_PORT, MIN_PORT; lia).
  assert (Hnq : u32 num_queues <> 0) by (rewrite u32_small; [lia|unfold is_u32; lia]).
  set (P := fun (r : option unit) ap => r = Some tt /\ ap_wf ap /\ used_list ap = [] /\
    exists more, lists (ntohl base) more ap /\ forall i j, (i, j) ∈ more -> MIN_PORT <= j < MAX_PORT /\
      GetRSSCPUCore (ntohl daddr) (u32 (ntohl base + i)) (ntohs dport) j num_queues endian_check
        = Some core).
  enough (Hwp : wp (cnt ← percore_addrs core num_queues (ntohl daddr) (ntohs dport) endian_check
      entries (seqZ 0 n) 0; finish_pool cnt;; mret (Some tt)) P (blank_pool base n entries)).
  { destruct (wp_elim _ _ _ Hwp) as (r & ap & Hr & -> & Hwf & Hu & more & [Hne Hl] & Hmore).
    exists ap. split_and!; try done. intros w a Hw Ha.
    pose proof (wf_range _ w Hwf ltac:(apply elem_of_app; auto)) as Hrange.
    destruct (lookup_lt_is_Some_2 more (Z.to_nat w)) as [[i j] Hd]; [unfold zlen in *; lia|].
    pose proof (Hl _ _ _ Hd) as Ha'. rewrite Z2Nat.id in Ha' by lia.
    rewrite Ha in Ha'. injection Ha' as ->. cbn.
    destruct (Hmore i j) as [Hj Hcore]; [by eapply list_elem_of_lookup_2|].
    unfold ntohl at 1, ntohs at 1. rewrite htonl_involutive by auto with mtcp.
    assert (is_u16 j) by (unfold is_u16, MIN_PORT, MAX_PORT in *; lia).
    rewrite htons_involutive by done.
    rewrite GetRSSCPUCore_swap by (auto with mtcp; apply htons_range || apply htonl_range). done. }
  rewrite wp_bind. eapply wp_mono.
  { apply (percore_addrs_ok core num_queues (ntohl daddr) (ntohs dport) endian_check (ntohl base)
      entries (seqZ 0 n) Hnq (NoDup_seqZ _ _) []); [by apply blank_built|].
    intros i j _. apply not_elem_of_nil. }
  intros cnt ap (more & Hmore & Hb & -> & Hna). rewrite app_nil_l in *. rewrite wp_bind.
  eapply wp_mono; [eapply (built_wf _ _ _ _ n Hb); [apply htonl_range|done| |]|].
  { unfold MAX_PORT, MIN_PORT in *. lia. }
  { intros i j Hij. destruct (Hmore i j Hij) as (Hi & ? & _). rewrite elem_of_seqZ in Hi. lia. }
  intros _ ap' (Hwf & Hu & Hne & Hl). rewrite wp_ret. split_and!; try done; try apply Hwf.
  exists more. split; [done|]. intros i j Hij. by destruct (Hmore i j Hij) as (_ & ? & ?).
Qed.

(** every address of a pool made for one core is one whose flow to the given server
    the lookup of [FetchAddress] (which hashes the tuple in the other direction) also
    assigns to that core, so a per-core pool needs no check at fetch time. *)
Theorem percore_pool_predicts core num_queues base n daddr dport endian_check :
  0 <= n -> n * (MAX_PORT - MIN_PORT) < 2147483648 -> 0 < num_queues < 4294967296 ->
  exists ap, CreateAddressPoolPerCore true endian_check core num_queues base n daddr dport =
      Ok (Some tt) ap /\ ap_wf ap /\ used_list ap = [] /\
    forall w a, w ∈ free_list ap -> entry ap w = Some a ->
      GetRSSCPUCore (ntohl (sin_addr a)) (ntohl daddr) (ntohs (sin_port a)) (ntohs dport)
        num_queues endian_check = Some core.
Proof. apply CreateAddressPoolPerCore_ok. Qed.

Lemma percore_pool_predicts_witness : exists ap,
  CreateAddressPoolPerCore true true 3 8 16777226 1 33554442 20480 = Ok (Some tt) ap /\ ap_wf ap.
Proof.
  destruct (percore_pool_predicts 3 8 16777226 1 33554442 20480 true) as (ap & H1 & H2 & _);
    [lia|unfold MAX_PORT, MIN_PORT; lia|lia|].
  exists ap. exact (conj H1 H2).
Defined.
