(* ===== verification/Mtcp.v ===== *)
(** * The state of the stack

    The data of [tcp_stream.h], [mtcp.h], [socket.h], [eventpoll.h], [timer.h] and the
    frames that are handed to the device.  The objects of the heap that are shared by
    pointer (streams, sockets, listeners, send buffers, fragments) are finite maps from
    addresses; a pointer is an address, [0] is [NULL]; intrusive lists are lists of
    addresses.  One [mtcp_manager] is the state of one thread of the stack, with the
    configuration the process shares; code reads and writes it in the monad of
    [Prelude.v]. *)

From S2P Require Import Prelude SeqArith Bytes Queues MemPool SendBuffer RingBuffer AddrPool.

(** ** Constants *)

Definition TCP_FLAG_FIN : Z := 1.
Definition TCP_FLAG_SYN : Z := 2.
Definition TCP_FLAG_RST : Z := 4.
Definition TCP_FLAG_PSH : Z := 8.
Definition TCP_FLAG_ACK : Z := 16.
Definition TCP_FLAG_WACK : Z := 128.

Definition TCP_OPT_END : Z := 0.
Definition TCP_OPT_NOP : Z := 1.
Definition TCP_OPT_MSS : Z := 2.
Definition TCP_OPT_WSCALE : Z := 3.
Definition TCP_OPT_SACK_PERMIT : Z := 4.
Definition TCP_OPT_TIMESTAMP : Z := 8.

Definition TCP_OPT_MSS_LEN : Z := 4.
Definition TCP_OPT_WSCALE_LEN : Z := 3.
Definition TCP_OPT_TIMESTAMP_LEN : Z := 10.

Definition ETHERNET_HEADER_LEN : Z := 14.
Definition IP_HEADER_LEN : Z := 20.
Definition TCP_HEADER_LEN : Z := 20.
Definition ETH_P_IP : Z := 2048.
Definition ETH_P_ARP : Z := 2054.
Definition IPPROTO_ICMP : Z := 1.
Definition IPPROTO_TCP : Z := 6.

Definition TCP_DEFAULT_MSS : Z := 1460.
Definition TCP_DEFAULT_WSCALE : Z := 7.
Definition TCP_INITIAL_WINDOW : Z := 14600.
Definition TCP_MAX_WINDOW : Z := 65535.
Definition TCP_MAX_SEQ : Z := 4294967295.

Definition HZ : Z := 1000.
Definition TIME_TICK : Z := 1000000 / HZ.
Definition TS_TO_USEC (t : Z) : Z := u32 (t * TIME_TICK).
Definition TS_TO_MSEC (t : Z) : Z := TS_TO_USEC t / 1000.
Definition SEC_TO_TS (t : Z) : Z := t * HZ.
Definition TCP_INITIAL_RTO : Z := 500 * 1000 / TIME_TICK.

Definition TCP_MAX_RTX : Z := 16.
Definition TCP_MAX_SYN_RETRY : Z := 7.
Definition TCP_MAX_BACKOFF : Z := 7.
Definition RTO_HASH : Z := 3000.

Definition MTCP_EPOLLIN : Z := 1.
Definition MTCP_EPOLLOUT : Z := 4.
Definition MTCP_EPOLLERR : Z := 8.
Definition MTCP_EPOLLHUP : Z := 16.
Definition MTCP_EPOLLRDHUP : Z := 8192.

Definition MTCP_EPOLLNONE : Z := 0.
Definition MTCP_EPOLLET : Z := 2147483648.

(** [enum socket_type] and [enum socket_opts] *)
Definition MTCP_SOCK_UNUSED : Z := 0.
Definition MTCP_SOCK_STREAM : Z := 1.
Definition MTCP_SOCK_PROXY : Z := 2.
Definition MTCP_SOCK_LISTENER : Z := 3.
Definition MTCP_SOCK_EPOLL : Z := 4.
Definition MTCP_SOCK_PIPE : Z := 5.
Definition MTCP_NONBLOCK : Z := 1.
Definition MTCP_ADDR_BIND : Z := 2.

Definition i8 (z : Z) : Z := (z + 128) mod 256 - 128.
Definition has (flags f : Z) : bool := negb (Z.land flags f =? 0).

(** ** Streams *)

(** [enum tcp_state]; the code compares states by their number. *)
Inductive tcp_state :=
| TCP_ST_CLOSED | TCP_ST_LISTEN | TCP_ST_SYN_SENT | TCP_ST_SYN_RCVD | TCP_ST_ESTABLISHED
| TCP_ST_FIN_WAIT_1 | TCP_ST_FIN_WAIT_2 | TCP_ST_CLOSE_WAIT | TCP_ST_CLOSING
| TCP_ST_LAST_ACK | TCP_ST_TIME_WAIT.

#[export] Instance tcp_state_eq_dec : EqDecision tcp_state.
Proof. solve_decision. Defined.

Definition st_num (s : tcp_state) : Z :=
  match s with
  | TCP_ST_CLOSED => 0 | TCP_ST_LISTEN => 1 | TCP_ST_SYN_SENT => 2 | TCP_ST_SYN_RCVD => 3
  | TCP_ST_ESTABLISHED => 4 | TCP_ST_FIN_WAIT_1 => 5 | TCP_ST_FIN_WAIT_2 => 6
  | TCP_ST_CLOSE_WAIT => 7 | TCP_ST_CLOSING => 8 | TCP_ST_LAST_ACK => 9
  | TCP_ST_TIME_WAIT => 10
  end.

Definition st_in (s : tcp_state) (l : list tcp_state) : bool := bool_decide (s ∈ l).

(** [enum tcp_close_reason] *)
Inductive tcp_close_reason :=
| TCP_NOT_CLOSED | TCP_ACTIVE_CLOSE | TCP_PASSIVE_CLOSE | TCP_CONN_FAIL | TCP_CONN_LOST
| TCP_RESET | TCP_NO_MEM | TCP_NOT_ACCEPTED | TCP_TIMEDOUT.

#[export] Instance tcp_close_reason_eq_dec : EqDecision tcp_close_reason.
Proof. solve_decision. Defined.

(** [enum ack_opt] *)
Inductive ack_opt := ACK_OPT_NOW | ACK_OPT_AGGREGATE | ACK_OPT_WACK.

(** [struct tcp_recv_vars]; only this structure points to its receive buffer. *)
Record tcp_recv_vars := TcpRecvVars {
  rcv_wnd : Z;
  irs : Z;
  snd_wl1 : Z;
  snd_wl2 : Z;
  dup_acks : Z;
  last_ack_seq : Z;
  ts_recent : Z;
  ts_lastack_rcvd : Z;
  ts_last_ts_upd : Z;
  ts_tw_expire : Z;
  srtt : Z;
  mdev : Z;
  mdev_max : Z;
  rttvar : Z;
  rtt_seq : Z;
  rcvbuf : option tcp_ring_buffer
}.

#[export] Instance tcp_recv_vars_eta : Settable tcp_recv_vars :=
  fun r => TcpRecvVars (rcv_wnd r) (irs r) (snd_wl1 r) (snd_wl2 r) (dup_acks r)
     (last_ack_seq r) (ts_recent r) (ts_lastack_rcvd r) (ts_last_ts_upd r) (ts_tw_expire r)
     (srtt r) (mdev r) (mdev_max r) (rttvar r) (rtt_seq r) (rcvbuf r).

(** [struct tcp_send_vars]; [sndbuf] is the address of a buffer of the send buffer manager. *)
Record tcp_send_vars := TcpSendVars {
  ip_id : Z;
  mss : Z;
  eff_mss : Z;
  wscale_mine : Z;
  wscale_peer : Z;
  nif_out : Z;
  snd_una : Z;
  snd_wnd : Z;
  peer_wnd : Z;
  iss : Z;
  fss : Z;
  nrtx : Z;
  max_nrtx : Z;
  rto : Z;
  ts_rto : Z;
  cwnd : Z;
  ssthresh : Z;
  ts_lastack_sent : Z;
  is_wack : bool;
  ack_cnt : Z;
  on_control_list : bool;
  on_send_list : bool;
  on_ack_list : bool;
  on_sendq : bool;
  on_ackq : bool;
  on_closeq : bool;
  on_resetq : bool;
  on_closeq_int : bool;
  on_resetq_int : bool;
  is_fin_sent : bool;
  is_fin_ackd : bool;
  sndbuf : Z
}.

#[export] Instance tcp_send_vars_eta : Settable tcp_send_vars :=
  fun r => TcpSendVars (ip_id r) (mss r) (eff_mss r) (wscale_mine r) (wscale_peer r)
     (nif_out r) (snd_una r) (snd_wnd r) (peer_wnd r) (iss r) (fss r) (nrtx r) (max_nrtx r)
     (rto r) (ts_rto r) (cwnd r) (ssthresh r) (ts_lastack_sent r) (is_wack r) (ack_cnt r)
     (on_control_list r) (on_send_list r) (on_ack_list r) (on_sendq r) (on_ackq r)
     (on_closeq r) (on_resetq r) (on_closeq_int r) (on_resetq_int r) (is_fin_sent r)
     (is_fin_ackd r) (sndbuf r).

(** [struct tcp_stream].  The structures behind [rcvvar] and [sndvar] belong to one stream;
    [rv_chunk] and [sv_chunk] are their addresses.  [socket] is the index of the entry of
    the socket map the stream points to. *)
(** Addresses and ports are kept in network order, as in the source. *)
Record tcp_stream := TcpStream {
  socket : option Z;
  stream_id : Z;
  stream_type : Z;
  saddr : Z;
  daddr : Z;
  sport : Z;
  dport : Z;
  state : tcp_state;
  close_reason : tcp_close_reason;
  on_hash_table : bool;
  on_timewait_list : bool;
  ht_idx : Z;
  closed : bool;
  is_bound_addr : bool;
  need_wnd_adv : bool;
  on_rto_idx : Z;
  on_timeout_list : bool;
  saw_timestamp : bool;
  sack_permit : bool;
  control_list_waiting : bool;
  have_reset : bool;
  is_external : bool;
  snd_nxt : Z;
  rcv_nxt : Z;
  rv_chunk : Z;
  sv_chunk : Z;
  rcvvar : tcp_recv_vars;
  sndvar : tcp_send_vars;
  last_active_ts : Z
}.

#[export] Instance tcp_stream_eta : Settable tcp_stream :=
  fun r => TcpStream (socket r) (stream_id r) (stream_type r) (saddr r) (daddr r) (sport r)
     (dport r) (state r) (close_reason r) (on_hash_table r) (on_timewait_list r) (ht_idx r)
     (closed r) (is_bound_addr r) (need_wnd_adv r) (on_rto_idx r) (on_timeout_list r)
     (saw_timestamp r) (sack_permit r) (control_list_waiting r) (have_reset r)
     (is_external r) (snd_nxt r) (rcv_nxt r) (rv_chunk r) (sv_chunk r) (rcvvar r) (sndvar r)
     (last_active_ts r).

(** The structures as [memset] leaves them. *)
Definition zero_recv_vars : tcp_recv_vars :=
  TcpRecvVars 0 0 0 0 0 0 0 0 0 0 0 0 0 0 0 None.
Definition zero_send_vars : tcp_send_vars :=
  TcpSendVars 0 0 0 0 0 0 0 0 0 0 0 0 0 0 0 0 0 0 false 0
    false false false false false false false false false false false 0.
Definition zero_stream : tcp_stream :=
  TcpStream None 0 0 0 0 0 0 TCP_ST_CLOSED TCP_NOT_CLOSED false false 0 false false false 0
    false false false false false false 0 0 0 0 zero_recv_vars zero_send_vars 0.

(** ** Sockets, events, senders, timers and configuration *)

(** [struct socket_map]; [sock_obj] is the pointer of the union (stream, listener, epoll or pipe). *)
Record socket_map := SocketMap {
  sock_id : Z;
  socktype : Z;
  opts : Z;
  sock_addr : Z;
  sock_port : Z;
  sock_obj : Z;
  epoll : Z;
  events : Z;
  ep_data : Z
}.

#[export] Instance socket_map_eta : Settable socket_map :=
  fun r => SocketMap (sock_id r) (socktype r) (opts r) (sock_addr r) (sock_port r)
     (sock_obj r) (epoll r) (events r) (ep_data r).

(** [struct tcp_listener] *)
Record tcp_listener := TcpListener {
  listen_sockid : Z;
  listen_socket : option Z;
  backlog : Z;
  acceptq : Click.click_queue
}.

#[export] Instance tcp_listener_eta : Settable tcp_listener :=
  fun r => TcpListener (listen_sockid r) (listen_socket r) (backlog r) (acceptq r).

(** [struct mtcp_epoll_event_int] *)
Record mtcp_epoll_event_int := EpollEventInt {
  ev_events : Z;
  ev_data : Z;
  ev_sockid : Z
}.

#[export] Instance mtcp_epoll_event_int_eta : Settable mtcp_epoll_event_int :=
  fun r => EpollEventInt (ev_events r) (ev_data r) (ev_sockid r).

(** [struct event_queue] *)
Record event_queue := EventQueue {
  eq_events : list mtcp_epoll_event_int;
  eq_start : Z;
  eq_end : Z;
  eq_size : Z;
  num_events : Z
}.

#[export] Instance event_queue_eta : Settable event_queue :=
  fun r => EventQueue (eq_events r) (eq_start r) (eq_end r) (eq_size r) (num_events r).

(** [struct mtcp_epoll] with its [struct mtcp_epoll_stat] *)
Record mtcp_epoll := MtcpEpoll {
  usr_queue : event_queue;
  usr_shadow_queue : event_queue;
  mtcp_queue : event_queue;
  waiting : bool;
  calls : Z;
  waits : Z;
  wakes : Z;
  issued : Z;
  registered : Z;
  invalidated : Z;
  handled : Z
}.

#[export] Instance mtcp_epoll_eta : Settable mtcp_epoll :=
  fun r => MtcpEpoll (usr_queue r) (usr_shadow_queue r) (mtcp_queue r) (waiting r)
     (calls r) (waits r) (wakes r) (issued r) (registered r) (invalidated r) (handled r).

(** [enum pipe_state] and [struct pipe]; the sockets are indices of the socket map. *)
Inductive pipe_state := PIPE_CLOSED | PIPE_ACTIVE | PIPE_CLOSE_WAIT.

#[export] Instance pipe_state_eq_dec : EqDecision pipe_state.
Proof. solve_decision. Defined.

Record pipe := Pipe {
  pp_state : pipe_state;
  pp_socket0 : Z;
  pp_socket1 : Z;
  pp_buf : list Z;
  buf_off : Z;
  buf_tail : Z;
  buf_len : Z;
  buf_size : Z
}.

#[export] Instance pipe_eta : Settable pipe :=
  fun r => Pipe (pp_state r) (pp_socket0 r) (pp_socket1 r) (pp_buf r) (buf_off r) (buf_tail r)
     (buf_len r) (buf_size r).

(** [struct mtcp_sender] *)
Record mtcp_sender := MtcpSender {
  ifidx : Z;
  control_list : list Z;
  send_list : list Z;
  ack_list : list Z;
  control_list_cnt : Z;
  send_list_cnt : Z;
  ack_list_cnt : Z
}.

#[export] Instance mtcp_sender_eta : Settable mtcp_sender :=
  fun r => MtcpSender (ifidx r) (control_list r) (send_list r) (ack_list r)
     (control_list_cnt r) (send_list_cnt r) (ack_list_cnt r).

(** [struct rto_hashstore]; a list that is absent from [rto_list] is empty. *)
Record rto_hashstore := RtoHashstore {
  rto_now_idx : Z;
  rto_now_ts : Z;
  rto_list : gmap Z (list Z)
}.

#[export] Instance rto_hashstore_eta : Settable rto_hashstore :=
  fun r => RtoHashstore (rto_now_idx r) (rto_now_ts r) (rto_list r).

(** [struct eth_table] *)
Record eth_table := EthTable {
  ifindex : Z;
  eth_haddr : list Z;
  netmask : Z;
  ip_addr : Z
}.

#[export] Instance eth_table_eta : Settable eth_table :=
  fun r => EthTable (ifindex r) (eth_haddr r) (netmask r) (ip_addr r).

(** [struct route_table] *)
Record route_table := RouteTable {
  rt_daddr : Z;
  mask : Z;
  masked : Z;
  prefix : Z;
  nif : Z
}.

#[export] Instance route_table_eta : Settable route_table :=
  fun r => RouteTable (rt_daddr r) (mask r) (masked r) (prefix r) (nif r).

(** [struct arp_entry] *)
Record arp_entry := ArpEntry {
  ae_ip : Z;
  ae_prefix : Z;
  ip_mask : Z;
  ip_masked : Z;
  ae_haddr : list Z
}.

#[export] Instance arp_entry_eta : Settable arp_entry :=
  fun r => ArpEntry (ae_ip r) (ae_prefix r) (ip_mask r) (ip_masked r) (ae_haddr r).

(** [struct arp_queue_entry] *)
Record arp_queue_entry := ArpQueueEntry {
  aq_ip : Z;
  aq_nif_out : Z;
  aq_ts_out : Z
}.

#[export] Instance arp_queue_entry_eta : Settable arp_queue_entry :=
  fun r => ArpQueueEntry (aq_ip r) (aq_nif_out r) (aq_ts_out r).

(** [struct mtcp_config], the fields the stack reads; [eths_num], [routes] and
    [arp.entries] are the lengths of the tables. *)
Record mtcp_config := MtcpConfig {
  eths : list eth_table;
  nif_to_eidx : list Z;
  rtable : list route_table;
  gateway : option route_table;
  arp_entries : list arp_entry;
  arp_gateway : option arp_entry;
  max_concurrency : Z;
  max_num_buffers : Z;
  rcvbuf_size : Z;
  sndbuf_size : Z;
  tcp_timewait : Z;
  tcp_timeout : Z
}.

#[export] Instance mtcp_config_eta : Settable mtcp_config :=
  fun r => MtcpConfig (eths r) (nif_to_eidx r) (rtable r) (gateway r) (arp_entries r)
     (arp_gateway r) (max_concurrency r) (max_num_buffers r) (rcvbuf_size r) (sndbuf_size r) (tcp_timewait r)
     (tcp_timeout r).

(** ** Frames *)

(** [struct iphdr], the fields in memory (network) order *)
Record iphdr := IpHdr {
  ihl : Z;
  version : Z;
  tos : Z;
  tot_len : Z;
  iph_id : Z;
  frag_off : Z;
  ttl : Z;
  protocol : Z;
  iph_check : Z;
  iph_saddr : Z;
  iph_daddr : Z
}.

#[export] Instance iphdr_eta : Settable iphdr :=
  fun r => IpHdr (ihl r) (version r) (tos r) (tot_len r) (iph_id r) (frag_off r) (ttl r)
     (protocol r) (iph_check r) (iph_saddr r) (iph_daddr r).

(** [struct tcphdr], multi-byte fields in memory (network) order; [res2] is the last two
    bits of the flags *)
Record tcphdr := TcpHdr {
  source : Z;
  dest : Z;
  th_seq : Z;
  th_ack_seq : Z;
  doff : Z;
  th_fin : bool;
  th_syn : bool;
  th_rst : bool;
  th_psh : bool;
  th_ack : bool;
  th_urg : bool;
  th_window : Z;
  th_check : Z;
  urg_ptr : Z;
  res1 : Z;
  res2 : Z
}.

#[export] Instance tcphdr_eta : Settable tcphdr :=
  fun r => TcpHdr (source r) (dest r) (th_seq r) (th_ack_seq r) (doff r) (th_fin r)
     (th_syn r) (th_rst r) (th_psh r) (th_ack r) (th_urg r) (th_window r) (th_check r)
     (urg_ptr r) (res1 r) (res2 r).

(** The fields have their widths. *)
Record tcph_wf (h : tcphdr) : Prop := {
  tw_ports : is_u16 (source h) /\ is_u16 (dest h);
  tw_seq : is_u32 (th_seq h) /\ is_u32 (th_ack_seq h);
  tw_bits : 0 <= doff h < 16 /\ 0 <= res1 h < 16 /\ 0 <= res2 h < 4;
  tw_words : is_u16 (th_window h) /\ is_u16 (th_check h) /\ is_u16 (urg_ptr h)
}.

(** [struct arphdr] *)
Record arphdr := ArpHdr {
  ar_hrd : Z;
  ar_pro : Z;
  ar_hln : Z;
  ar_pln : Z;
  ar_op : Z;
  ar_sha : list Z;
  ar_sip : Z;
  ar_tha : list Z;
  ar_tip : Z
}.

#[export] Instance arphdr_eta : Settable arphdr :=
  fun r => ArpHdr (ar_hrd r) (ar_pro r) (ar_hln r) (ar_pln r) (ar_op r) (ar_sha r)
     (ar_sip r) (ar_tha r) (ar_tip r).

(** What a transport protocol writes behind an IP header: a TCP header with the bytes that
    follow it (options and payload), or other bytes. *)
Inductive l4_body :=
| L4Raw (bytes : list Z)
| L4Tcp (h : tcphdr) (rest : list Z).

(** What follows the Ethernet header of a frame; [Blank] is a frame nobody has filled. *)
Inductive frame_body :=
| Blank
| Arp (h : arphdr)
| Ip (h : iphdr) (b : l4_body).

(** A frame in the transmit buffer of interface [fr_eidx]. *)
Record frame := Frame {
  fr_eidx : Z;
  fr_dst : list Z;
  fr_src : list Z;
  fr_proto : Z;
  fr_iplen : Z;
  fr_body : frame_body
}.

#[export] Instance frame_eta : Settable frame :=
  fun r => Frame (fr_eidx r) (fr_dst r) (fr_src r) (fr_proto r) (fr_iplen r) (fr_body r).

(** [struct mtcp_manager] with the heap behind its pointers, the configuration and the ARP
    queue of the process, the frames written to the transmit buffers, and the number of
    calls made so far to the platform. *)
Record mtcp_manager := MtcpManager {
  flow_pool : mem_pool;
  rv_pool : mem_pool;
  sv_pool : mem_pool;
  streams : gmap Z tcp_stream;
  rbm_snd : @Manager.sb_world mem_pool Click.click_queue;
  rbm_rcv : @rb_manager mem_pool Click.click_queue;
  rb_frags : gmap Z fragment_ctx;
  tcp_flow_table : gmap Z (list Z);
  smap : gmap Z socket_map;
  free_smap : list Z;
  ap : option addr_pool;
  g_ap : gmap Z addr_pool;
  g_id : Z;
  flow_cnt : Z;
  ep : Z;
  epolls : gmap Z mtcp_epoll;
  pipes : gmap Z pipe;
  listener_heap : gmap Z tcp_listener;
  listeners : gmap Z (list Z);
  connectq : Click.click_queue;
  sendq : Click.click_queue;
  ackq : Click.click_queue;
  closeq : Click.click_queue;
  resetq : Click.click_queue;
  destroyq : Click.click_queue;
  closeq_int : Internal.stream_queue_int;
  resetq_int : Internal.stream_queue_int;
  g_sender : option mtcp_sender;
  n_sender : gmap Z mtcp_sender;
  rto_store : rto_hashstore;
  timewait_list : list Z;
  timeout_list : list Z;
  rto_list_cnt : Z;
  timewait_list_cnt : Z;
  timeout_list_cnt : Z;
  cur_ts : Z;
  wakeup_flag : bool;
  is_sleeping : bool;
  CONFIG : mtcp_config;
  g_arpm : list arp_queue_entry;
  tx : list frame;
  env_calls : nat
}.

#[export] Instance mtcp_manager_eta : Settable mtcp_manager :=
  fun r => MtcpManager (flow_pool r) (rv_pool r) (sv_pool r) (streams r) (rbm_snd r)
     (rbm_rcv r) (rb_frags r) (tcp_flow_table r) (smap r) (free_smap r) (ap r) (g_ap r)
     (g_id r) (flow_cnt r) (ep r) (epolls r) (pipes r) (listener_heap r) (listeners r) (connectq r) (sendq r)
     (ackq r) (closeq r) (resetq r) (destroyq r) (closeq_int r) (resetq_int r) (g_sender r)
     (n_sender r) (rto_store r) (timewait_list r) (timeout_list r) (rto_list_cnt r)
     (timewait_list_cnt r) (timeout_list_cnt r) (cur_ts r) (wakeup_flag r) (is_sleeping r)
     (CONFIG r) (g_arpm r) (tx r) (env_calls r).

(** ** The platform

    The packet I/O module, the allocator and the random number generator are not part of
    the stack; each call may answer differently, so their answers are functions of the
    number of calls made so far. *)
Class Platform := {
  get_wptr : nat -> Z -> Z -> bool;
  dev_ioctl : option (nat -> Z -> Z -> Z);
  calloc : nat -> Z;
  garbage : nat -> list Z;
  rand_r : nat -> Z
}.

Definition PKT_TX_IP_CSUM : Z := 1.
Definition PKT_TX_TCPIP_CSUM : Z := 4.
Definition PKT_RX_TCP_CSUM : Z := 6.
Definition PKT_TX_TCPIP_CSUM_PEEK : Z := 7.

(** ** Access to the state *)

Definition MT (A : Type) : Type := M mtcp_manager A.

Definition env_tick : MT nat :=
  m ← get; modify (fun m => m <| env_calls ::= S |>);; mret (env_calls m).

(** Dereferencing a stream pointer: a stream that was freed is no longer in the heap. *)
Definition stream_at (a : Z) : MT tcp_stream :=
  m ← get; unwrap DanglingPointer (streams m !! a).

Definition stream_set (a : Z) (s : tcp_stream) : MT unit :=
  modify (fun m => m <| streams ::= insert a s |>).

Definition stream_mod (a : Z) (f : tcp_stream -> tcp_stream) : MT unit :=
  s ← stream_at a; stream_set a (f s).

(** Running code that reads and writes one stream. *)
Definition stream_run {A} (a : Z) (op : M tcp_stream A) : MT A :=
  s ← stream_at a;
  match op s with
  | Ok r s' => stream_set a s';; mret r
  | Fault e => throw e
  end.

Definition socket_at (i : Z) : MT socket_map :=
  m ← get; unwrap NullPointer (smap m !! i).

Definition socket_mod (i : Z) (f : socket_map -> socket_map) : MT unit :=
  s ← socket_at i; modify (fun m => m <| smap ::= insert i (f s) |>).

(** The send buffer behind a pointer. *)
Definition sndbuf_at (b : Z) : MT Buffer.tcp_send_buffer :=
  m ← get; unwrap NullPointer (Manager.bufs (rbm_snd m) !! b).

(** Running an operation of [Buffer] on the send buffer behind a pointer. *)
Definition sndbuf_run {A} (b : Z) (op : M Buffer.tcp_send_buffer A) : MT A :=
  buf ← sndbuf_at b;
  match op buf with
  | Ok r buf' =>
      modify (fun m => m <| rbm_snd ::= fun w => w <| Manager.bufs ::= insert b buf' |> |>);;
      mret r
  | Fault e => throw e
  end.

(** Running an operation of [RingBuffer] on the receive buffer of a stream. *)
Definition rcvbuf_run {A} (a : Z) (op : M (@rb_world mem_pool Click.click_queue) A) : MT A :=
  s ← stream_at a;
  b ← unwrap NullPointer (rcvbuf (rcvvar s));
  m ← get;
  match op (RbWorld (rbm_rcv m) (rb_frags m) b) with
  | Ok r w =>
      modify (fun m => m <| rbm_rcv := rbm w |> <| rb_frags := frags w |>);;
      stream_mod a (fun s => s <| rcvvar ::= rcvbuf ↦ Some (buff w) |>);;
      mret r
  | Fault e => throw e
  end.

(** [x << k] on 32 bits. *)
Definition shl32 (x k : Z) : MT Z :=
  if k <? 32 then mret (u32 (Z.shiftl x k)) else throw BadShift.

(** A list of a table whose missing lists are empty. *)
Definition bin (t : gmap Z (list Z)) (i : Z) : list Z := default [] (t !! i).
