(* ===== verification/TcpUtil.v ===== *)
(** * Headers, options and checksums

    [tcp_util.c] and the option generator of [tcp_out.c].  Parsing reads the bytes that
    follow the fixed part of a TCP header: the options, then the payload.  A read behind
    the last byte of the packet is a fault. *)

From S2P Require Import Prelude Bytes RingBuffer Mtcp.

(** ** Options *)

(** [struct tcp_timestamp] *)
Record tcp_timestamp := TcpTimestamp { ts_val : Z; ts_ref : Z }.

Section Parse.

(** The packet from [tcpopt] on, and the length of its options. *)
Variable mem : list Z.
Variable len : Z.

Definition opt_byte {S} (i : Z) : M S Z :=
  unwrap OutOfBounds (if i <? 0 then None else mem !! Z.to_nat i).

(** [ntohl] of the 32-bit word at [i]. *)
Definition opt_u32 {S} (i : Z) : M S Z :=
  a ← opt_byte i; b ← opt_byte (i + 1); c ← opt_byte (i + 2); d ← opt_byte (i + 3);
  mret (ntohl (load32 a b c d)).

(** The actions on one option of kind [opt] whose data starts at [i]; the result is the
    index the loop continues with. *)
Definition ParseTCPOptions_opt (cur_ts opt optlen i : Z) : M tcp_stream Z :=
  if opt =? TCP_OPT_MSS then
    hi ← opt_byte i;
    modify (fun s => s <| sndvar ::= mss ↦ u16 (hi * 256) |>);;
    lo ← opt_byte (i + 1);
    modify (fun s => s <| sndvar ::= fun v => v <| mss := u16 (mss v + lo) |> |>);;
    modify (fun s => s <| sndvar ::= fun v => v <| eff_mss := mss v |> |>);;
    modify (fun s => s <| sndvar ::= fun v =>
      v <| eff_mss := u16 (eff_mss v - (TCP_OPT_TIMESTAMP_LEN + 2)) |> |>);;
    mret (i + 2)
  else if opt =? TCP_OPT_WSCALE then
    w ← opt_byte i;
    modify (fun s => s <| sndvar ::= wscale_peer ↦ w |>);;
    mret (i + 1)
  else if opt =? TCP_OPT_SACK_PERMIT then
    modify (fun s => s <| sack_permit := true |>);;
    mret i
  else if opt =? TCP_OPT_TIMESTAMP then
    modify (fun s => s <| saw_timestamp := true |>);;
    ts ← opt_u32 i;
    modify (fun s => s <| rcvvar ::= fun v =>
      v <| ts_recent := ts |> <| ts_last_ts_upd := cur_ts |> |>);;
    mret (i + 8)
  else mret (i32 (u32 (i + optlen - 2))).

Fixpoint ParseTCPOptions_loop (fuel : nat) (cur_ts i : Z) : M tcp_stream unit :=
  if len <=? i then mret tt
  else
    match fuel with
    | O => throw OutOfFuel
    | S fuel' =>
        opt ← opt_byte i;
        if opt =? TCP_OPT_END then mret tt
        else if opt =? TCP_OPT_NOP then ParseTCPOptions_loop fuel' cur_ts (i + 1)
        else
          optlen ← opt_byte (i + 1);
          if u32 len <? u32 (i + 2 + optlen - 2) then mret tt
          else
            i ← ParseTCPOptions_opt cur_ts opt optlen (i + 2);
            ParseTCPOptions_loop fuel' cur_ts i
    end.

Definition ParseTCPOptions (cur_ts : Z) : M tcp_stream unit :=
  ParseTCPOptions_loop (Z.to_nat len) cur_ts 0.

Fixpoint ParseTCPTimestamp_loop {S} (fuel : nat) (i : Z) : M S (option tcp_timestamp) :=
  if len <=? i then mret None
  else
    match fuel with
    | O => throw OutOfFuel
    | Datatypes.S fuel' =>
        opt ← opt_byte i;
        if opt =? TCP_OPT_END then mret None
        else if opt =? TCP_OPT_NOP then ParseTCPTimestamp_loop fuel' (i + 1)
        else
          optlen ← opt_byte (i + 1);
          if u32 len <? u32 (i + 2 + optlen - 2) then mret None
          else if opt =? TCP_OPT_TIMESTAMP then
            v ← opt_u32 (i + 2);
            r ← opt_u32 (i + 2 + 4);
            mret (Some (TcpTimestamp v r))
          else ParseTCPTimestamp_loop fuel' (i32 (u32 (i + 2 + optlen - 2)))
    end.

(** The result is [None] for [FALSE] and the timestamps for [TRUE]. *)
Definition ParseTCPTimestamp {S} : M S (option tcp_timestamp) :=
  ParseTCPTimestamp_loop (Z.to_nat len) 0.

End Parse.

Definition CalculateOptionLength (flags : Z) : Z :=
  if has flags TCP_FLAG_SYN
  then TCP_OPT_MSS_LEN + TCP_OPT_TIMESTAMP_LEN + 2 + (TCP_OPT_WSCALE_LEN + 1)
  else TCP_OPT_TIMESTAMP_LEN + 2.

Definition GenerateTCPTimestamp (s : tcp_stream) (cur_ts : Z) : list Z :=
  [TCP_OPT_TIMESTAMP; TCP_OPT_TIMESTAMP_LEN]
  ++ bytes32 (htonl cur_ts) ++ bytes32 (htonl (ts_recent (rcvvar s))).

(** The bytes written at [tcpopt]. *)
Definition GenerateTCPOptions (s : tcp_stream) (cur_ts flags : Z) : list Z :=
  if has flags TCP_FLAG_SYN then
    [TCP_OPT_MSS; TCP_OPT_MSS_LEN; mss (sndvar s) / 256; mss (sndvar s) mod 256]
    ++ [TCP_OPT_NOP; TCP_OPT_NOP] ++ GenerateTCPTimestamp s cur_ts
    ++ [TCP_OPT_NOP; TCP_OPT_WSCALE; TCP_OPT_WSCALE_LEN; wscale_mine (sndvar s)]
  else [TCP_OPT_NOP; TCP_OPT_NOP] ++ GenerateTCPTimestamp s cur_ts.

(** ** The checksum *)

(** The loop over 16-bit words; an odd last byte is the low half of a word. *)
Fixpoint sum_words (l : list Z) (sum : Z) : Z :=
  match l with
  | a :: b :: l' => sum_words l' (u32 (sum + load16 a b))
  | [a] => u32 (sum + a)
  | [] => sum
  end.

Definition TCPCalcChecksum (buf : list Z) (saddr daddr : Z) : Z :=
  let len := u16 (zlen buf) in
  let sum := sum_words buf 0 in
  let sum := u32 (sum + (Z.land saddr 65535 + Z.shiftr saddr 16)) in
  let sum := u32 (sum + (Z.land daddr 65535 + Z.shiftr daddr 16)) in
  let sum := u32 (sum + htons len) in
  let sum := u32 (sum + htons IPPROTO_TCP) in
  let sum := u32 (Z.shiftr sum 16 + Z.land sum 65535) in
  let sum := u32 (sum + Z.shiftr sum 16) in
  u16 (u32 (Z.lnot sum)).

(** The bytes of [struct tcphdr]. *)
Definition b2z (b : bool) (w : Z) : Z := if b then w else 0.
Definition tcph_bytes (h : tcphdr) : list Z :=
  bytes16 (source h) ++ bytes16 (dest h) ++ bytes32 (th_seq h) ++ bytes32 (th_ack_seq h)
  ++ [doff h * 16 + res1 h;
      b2z (th_fin h) 1 + b2z (th_syn h) 2 + b2z (th_rst h) 4 + b2z (th_psh h) 8
      + b2z (th_ack h) 16 + b2z (th_urg h) 32 + 64 * res2 h]
  ++ bytes16 (th_window h) ++ bytes16 (th_check h) ++ bytes16 (urg_ptr h).

(** ** Round trips *)

Lemma GenerateTCPOptions_length s cur_ts flags :
  zlen (GenerateTCPOptions s cur_ts flags) = CalculateOptionLength flags.
Proof. unfold GenerateTCPOptions, CalculateOptionLength. by destruct (has _ _). Qed.

(** What a peer [p] learns from the options of a SYN of [s]. *)
Definition learn (s : tcp_stream) (cur_ts now : Z) (p : tcp_stream) : tcp_stream :=
  p <| sndvar ::= fun v => v <| mss := mss (sndvar s) |>
                             <| eff_mss := u16 (mss (sndvar s) - 12) |>
                             <| wscale_peer := wscale_mine (sndvar s) |> |>
    <| saw_timestamp := true |>
    <| rcvvar ::= fun v => v <| ts_recent := cur_ts |> <| ts_last_ts_upd := now |> |>.

Lemma u16_split m : is_u16 m -> u16 (u16 (m / 256 * 256) + m mod 256) = m.
Proof. intros. mlia. Qed.

(** *** Single steps of the option loops *)

Section Steps.
Variable mem : list Z.
Variable len : Z.
Hypothesis len_small : len < 2147483648.

Definition byte_at (i b : Z) : Prop := 0 <= i /\ mem !! Z.to_nat i = Some b.

Lemma opt_byte_at {S} i b (s : S) : byte_at i b -> opt_byte mem i s = Ok b s.
Proof.
  intros [Hi Hb]. unfold opt_byte. rewrite (proj2 (Z.ltb_ge _ _)) by done. by rewrite Hb.
Qed.

Lemma opt_u32_at {S} i d c b a (s : S) : is_u8 a -> is_u8 b -> is_u8 c -> is_u8 d ->
  byte_at i d -> byte_at (i + 1) c -> byte_at (i + 2) b -> byte_at (i + 3) a ->
  opt_u32 mem i s = Ok (load32 a b c d) s.
Proof.
  intros. unfold opt_u32, mbind, M_bind. rewrite !(opt_byte_at (S := S)) with (b := d) by done.
  rewrite (opt_byte_at _ c), (opt_byte_at _ b), (opt_byte_at _ a) by done.
  unfold ntohl. by rewrite htonl_load.
Qed.

Lemma opt_mss now l i hi lo s : byte_at i hi -> byte_at (i + 1) lo ->
  ParseTCPOptions_opt mem now TCP_OPT_MSS l i s =
  Ok (i + 2) (s <| sndvar ::= fun v => v <| mss := u16 (u16 (hi * 256) + lo) |>
                  <| eff_mss := u16 (u16 (u16 (hi * 256) + lo) - 12) |> |>).
Proof.
  intros Hhi Hlo. unfold ParseTCPOptions_opt, mbind, M_bind. cbn [TCP_OPT_MSS Z.eqb Pos.eqb].
  rewrite (opt_byte_at _ _ _ Hhi). unfold modify. by rewrite (opt_byte_at _ _ _ Hlo).
Qed.

Lemma opt_wscale now l i w s : byte_at i w ->
  ParseTCPOptions_opt mem now TCP_OPT_WSCALE l i s = Ok (i + 1) (s <| sndvar ::= wscale_peer ↦ w |>).
Proof.
  intros Hw. unfold ParseTCPOptions_opt, mbind, M_bind.
  cbn [TCP_OPT_MSS TCP_OPT_WSCALE Z.eqb Pos.eqb]. by rewrite (opt_byte_at _ _ _ Hw).
Qed.

Lemma opt_timestamp now l i d c b a s : is_u8 a -> is_u8 b -> is_u8 c -> is_u8 d ->
  byte_at i d -> byte_at (i + 1) c -> byte_at (i + 2) b -> byte_at (i + 3) a ->
  ParseTCPOptions_opt mem now TCP_OPT_TIMESTAMP l i s =
  Ok (i + 8) (s <| saw_timestamp := true |>
                <| rcvvar ::= fun v => v <| ts_recent := load32 a b c d |> <| ts_last_ts_upd := now |> |>).
Proof.
  intros. unfold ParseTCPOptions_opt, mbind, M_bind.
  cbn [TCP_OPT_MSS TCP_OPT_WSCALE TCP_OPT_SACK_PERMIT TCP_OPT_TIMESTAMP Z.eqb Pos.eqb].
  unfold modify at 1. rewrite (opt_u32_at i d c b a) by done. done.
Qed.

Lemma options_done fuel now i s : len <= i -> ParseTCPOptions_loop mem len fuel now i s = Ok tt s.
Proof. intros. destruct fuel; cbn; by rewrite (proj2 (Z.leb_le _ _)). Qed.

Lemma options_nop fuel now i s : i < len -> byte_at i TCP_OPT_NOP ->
  ParseTCPOptions_loop mem len (S fuel) now i s = ParseTCPOptions_loop mem len fuel now (i + 1) s.
Proof.
  intros Hi Hb. cbn. rewrite (proj2 (Z.leb_gt _ _)) by done.
  unfold mbind, M_bind. by rewrite (opt_byte_at _ _ _ Hb).
Qed.

(** An option that lies inside the options. *)
Lemma options_opt fuel now i opt optlen s :
  i < len -> byte_at i opt -> byte_at (i + 1) optlen -> opt <> TCP_OPT_END -> opt <> TCP_OPT_NOP ->
  0 <= optlen -> i + optlen <= len ->
  ParseTCPOptions_loop mem len (S fuel) now i s =
  (i ← ParseTCPOptions_opt mem now opt optlen (i + 2); ParseTCPOptions_loop mem len fuel now i) s.
Proof.
  intros Hi Hb Hl H0 H1 Hpos Hin. cbn. rewrite (proj2 (Z.leb_gt _ _)) by done.
  unfold mbind at 1, M_bind at 1. rewrite (opt_byte_at _ _ _ Hb).
  rewrite (proj2 (Z.eqb_neq _ _) H0), (proj2 (Z.eqb_neq _ _) H1).
  unfold mbind at 1, M_bind at 1. rewrite (opt_byte_at _ _ _ Hl).
  destruct Hb as [Hb _]. rewrite (proj2 (Z.ltb_ge _ _)); [done|]. rewrite !u32_small; unfold is_u32; lia.
Qed.

Lemma timestamp_nop {S} fuel i (s : S) : i < len -> byte_at i TCP_OPT_NOP ->
  ParseTCPTimestamp_loop mem len (Datatypes.S fuel) i s = ParseTCPTimestamp_loop mem len fuel (i + 1) s.
Proof.
  intros Hi Hb. cbn. rewrite (proj2 (Z.leb_gt _ _)) by done.
  unfold mbind, M_bind. by rewrite (opt_byte_at _ _ _ Hb).
Qed.

Lemma timestamp_opt {S} fuel i opt optlen (s : S) :
  i < len -> byte_at i opt -> byte_at (i + 1) optlen -> opt <> TCP_OPT_END -> opt <> TCP_OPT_NOP ->
  0 <= optlen -> i + optlen <= len ->
  ParseTCPTimestamp_loop mem len (Datatypes.S fuel) i s =
  (if opt =? TCP_OPT_TIMESTAMP then
     v ← opt_u32 mem (i + 2); r ← opt_u32 mem (i + 2 + 4); mret (Some (TcpTimestamp v r))
   else ParseTCPTimestamp_loop mem len fuel (i + optlen)) s.
Proof.
  intros Hi Hb Hl H0 H1 Hpos Hin. cbn. rewrite (proj2 (Z.leb_gt _ _)) by done.
  unfold mbind at 1, M_bind at 1. rewrite (opt_byte_at _ _ _ Hb).
  rewrite (proj2 (Z.eqb_neq _ _) H0), (proj2 (Z.eqb_neq _ _) H1).
  unfold mbind at 1, M_bind at 1. rewrite (opt_byte_at _ _ _ Hl).
  destruct Hb as [Hb _]. rewrite (proj2 (Z.ltb_ge _ _)).
  - replace (i + 2 + optlen - 2) with (i + optlen) by lia.
    rewrite i32_u32, i32_small by lia. done.
  - rewrite !u32_small; unfold is_u32; lia.
Qed.

End Steps.

Ltac at_index := split; [lia|reflexivity].

(** C28: the options of a SYN, read back by the peer, transmit the sender's segment size,
    window scale and clock, whatever follows the options in the packet. *)
Theorem ParseTCPOptions_roundtrip s p cur_ts now flags rest :
  has flags TCP_FLAG_SYN = true -> is_u16 (mss (sndvar s)) -> is_u32 cur_ts ->
  ParseTCPOptions (GenerateTCPOptions s cur_ts flags ++ rest) (CalculateOptionLength flags) now p
  = Ok tt (learn s cur_ts now p).
Proof.
  intros Hf Hm Hts. unfold GenerateTCPOptions, CalculateOptionLength, GenerateTCPTimestamp.
  rewrite Hf. destruct (bytes32_htonl cur_ts Hts) as (a & b & c & d & E & -> & ? & ? & ? & ?).
  set (tail := bytes32 (htonl (ts_recent (rcvvar s)))).
  assert (exists e f g h, tail = [e; f; g; h]) as (e & f & g & h & ->) by (subst tail; eauto 10).
  change (TCP_OPT_MSS_LEN + TCP_OPT_TIMESTAMP_LEN + 2 + (TCP_OPT_WSCALE_LEN + 1)) with 20.
  unfold ParseTCPOptions. change (Z.to_nat 20) with 20%nat.
  set (mem := _ ++ rest). assert (Hlen : 20 < 2147483648) by done.
  rewrite (options_opt mem 20 Hlen _ _ _ TCP_OPT_MSS TCP_OPT_MSS_LEN) by first [at_index | done].
  unfold mbind at 1, M_bind at 1.
  rewrite (opt_mss mem) with (hi := mss (sndvar s) / 256) (lo := mss (sndvar s) mod 256) by at_index.
  rewrite !u16_split by done. rewrite (options_nop mem), (options_nop mem) by first [at_index | done].
  rewrite (options_opt mem 20 Hlen _ _ _ TCP_OPT_TIMESTAMP TCP_OPT_TIMESTAMP_LEN)
    by first [at_index | done].
  unfold mbind at 1, M_bind at 1. rewrite (opt_timestamp mem) with (d := d) (c := c) (b := b) (a := a)
    by first [at_index | done].
  rewrite (options_nop mem) by first [at_index | done].
  rewrite (options_opt mem 20 Hlen _ _ _ TCP_OPT_WSCALE TCP_OPT_WSCALE_LEN) by first [at_index | done].
  unfold mbind at 1, M_bind at 1. rewrite (opt_wscale mem) with (w := wscale_mine (sndvar s)) by at_index.
  rewrite options_done by done. rewrite <- E. done.
Qed.

(** A stream that advertises 1460 bytes and a scale of 7. *)
Definition demo_stream : tcp_stream :=
  zero_stream <| sndvar ::= fun v => v <| mss := 1460 |> <| wscale_mine := 7 |> |>.

Lemma ParseTCPOptions_roundtrip_witness :
  ParseTCPOptions (GenerateTCPOptions demo_stream 77 TCP_FLAG_SYN ++ [1; 2; 3])
    (CalculateOptionLength TCP_FLAG_SYN) 99 zero_stream
  = Ok tt (learn demo_stream 77 99 zero_stream).
Proof. apply ParseTCPOptions_roundtrip; [reflexivity|vm_compute; done..]. Defined.

(** the timestamps of any segment the stack builds are read back as they were
    written. *)
Theorem ParseTCPTimestamp_roundtrip (s p : tcp_stream) cur_ts flags rest :
  is_u32 cur_ts -> is_u32 (ts_recent (rcvvar s)) ->
  ParseTCPTimestamp (GenerateTCPOptions s cur_ts flags ++ rest) (CalculateOptionLength flags) p
  = Ok (Some (TcpTimestamp cur_ts (ts_recent (rcvvar s)))) p.
Proof.
  intros Hts Hrec. unfold GenerateTCPOptions, CalculateOptionLength, GenerateTCPTimestamp.
  destruct (bytes32_htonl cur_ts Hts) as (a & b & c & d & E & -> & ? & ? & ? & ?).
  destruct (bytes32_htonl _ Hrec) as (e & f & g & h & E' & -> & ? & ? & ? & ?).
  unfold ParseTCPTimestamp. destruct (has _ _).
  - change (TCP_OPT_MSS_LEN + TCP_OPT_TIMESTAMP_LEN + 2 + (TCP_OPT_WSCALE_LEN + 1)) with 20.
    change (Z.to_nat 20) with 20%nat. set (mem := _ ++ rest).
    assert (Hlen : 20 < 2147483648) by done.
    rewrite (timestamp_opt mem 20 Hlen _ _ TCP_OPT_MSS TCP_OPT_MSS_LEN) by first [at_index | done].
    change (TCP_OPT_MSS =? TCP_OPT_TIMESTAMP) with false. cbn [TCP_OPT_MSS_LEN].
    rewrite (timestamp_nop mem), (timestamp_nop mem) by first [at_index | done].
    rewrite (timestamp_opt mem 20 Hlen _ _ TCP_OPT_TIMESTAMP TCP_OPT_TIMESTAMP_LEN)
      by first [at_index | done].
    rewrite Z.eqb_refl. unfold mbind, M_bind.
    rewrite (opt_u32_at mem) with (d := d) (c := c) (b := b) (a := a) by first [at_index | done].
    rewrite (opt_u32_at mem) with (d := h) (c := g) (b := f) (a := e) by first [at_index | done].
    by rewrite <- E, <- E'.
  - change (TCP_OPT_TIMESTAMP_LEN + 2) with 12. change (Z.to_nat 12) with 12%nat. set (mem := _ ++ rest).
    assert (Hlen : 12 < 2147483648) by done.
    rewrite (timestamp_nop mem), (timestamp_nop mem) by first [at_index | done].
    rewrite (timestamp_opt mem 12 Hlen _ _ TCP_OPT_TIMESTAMP TCP_OPT_TIMESTAMP_LEN)
      by first [at_index | done].
    rewrite Z.eqb_refl. unfold mbind, M_bind.
    rewrite (opt_u32_at mem) with (d := d) (c := c) (b := b) (a := a) by first [at_index | done].
    rewrite (opt_u32_at mem) with (d := h) (c := g) (b := f) (a := e) by first [at_index | done].
    by rewrite <- E, <- E'.
Qed.

Lemma ParseTCPTimestamp_roundtrip_witness :
  ParseTCPTimestamp (GenerateTCPOptions demo_stream 77 TCP_FLAG_ACK ++ [1; 2; 3])
    (CalculateOptionLength TCP_FLAG_ACK) zero_stream
  = Ok (Some (TcpTimestamp 77 0)) zero_stream.
Proof. apply (ParseTCPTimestamp_roundtrip demo_stream zero_stream 77); vm_compute; done. Defined.

(** ** Termination of the option loop *)

(** The kinds the loop of [ParseTCPOptions] does not skip by their length. *)
Definition known_opt (opt : Z) : bool :=
  (opt =? TCP_OPT_END) || (opt =? TCP_OPT_NOP) || (opt =? TCP_OPT_MSS)
  || (opt =? TCP_OPT_WSCALE) || (opt =? TCP_OPT_SACK_PERMIT) || (opt =? TCP_OPT_TIMESTAMP).

(** An unknown option that declares a length of zero. *)
Definition empty_opt (mem : list Z) (i : Z) : Prop :=
  exists opt, byte_at mem i opt /\ known_opt opt = false /\ byte_at mem (i + 1) 0.

Lemma opt_byte_inv {S} mem i (s : S) r : opt_byte mem i s = r ->
  (exists b, byte_at mem i b /\ r = Ok b s) \/ r = Fault OutOfBounds.
Proof.
  unfold opt_byte, byte_at. destruct (Z.ltb_spec i 0); [by right|].
  destruct (mem !! Z.to_nat i) as [b|]; intros <-; [left|by right]. exists b. done.
Qed.

(** One option: the loop moves forward, or faults, or the option is unknown. *)
Lemma opt_progress mem now opt optlen i s : opt <> TCP_OPT_END -> opt <> TCP_OPT_NOP ->
  match ParseTCPOptions_opt mem now opt optlen i s with
  | Ok j _ => i <= j \/ (known_opt opt = false /\ j = i32 (u32 (i + optlen - 2)))
  | Fault e => e <> OutOfFuel
  end.
Proof.
  intros H0%Z.eqb_neq H1%Z.eqb_neq.
  unfold ParseTCPOptions_opt, known_opt, opt_u32, mbind, M_bind, modify. rewrite H0, H1.
  destruct (opt =? TCP_OPT_MSS), (opt =? TCP_OPT_WSCALE), (opt =? TCP_OPT_SACK_PERMIT),
    (opt =? TCP_OPT_TIMESTAMP);
  repeat match goal with
  | |- context [opt_byte mem ?k ?s'] =>
      let E := fresh "E" in
      destruct (opt_byte_inv mem k s' _ eq_refl) as [(? & ? & E)|E]; rewrite E; clear E
  end; unfold mret, M_ret; try done; try (left; lia). by right.
Qed.

Lemma options_terminate mem len now fuel : 0 <= len < 2147483648 -> Forall is_u8 mem ->
  (forall i, i < len -> ~ empty_opt mem i) ->
  forall i s, 0 <= i -> len <= i + Z.of_nat fuel ->
  ParseTCPOptions_loop mem len fuel now i s <> Fault OutOfFuel.
Proof.
  intros Hlen Hmem Hno. induction fuel as [|fuel IH]; intros i s Hi Hf; cbn.
  { by rewrite (proj2 (Z.leb_le _ _)) by lia. }
  destruct (Z.leb_spec len i); [done|]. unfold mbind, M_bind.
  destruct (opt_byte_inv mem i s _ eq_refl) as [(opt & Hopt & ->)| ->]; [|done].
  destruct (Z.eqb_spec opt TCP_OPT_END); [done|].
  destruct (Z.eqb_spec opt TCP_OPT_NOP); [apply IH; lia|].
  destruct (opt_byte_inv mem (i + 1) s _ eq_refl) as [(optlen & Hol & ->)| ->]; [|done].
  assert (is_u8 optlen) as Hu8.
  { apply list.Forall_forall with mem; [done|]. eapply list_elem_of_lookup_2, Hol. }
  unfold is_u8 in Hu8. destruct (Z.ltb_spec (u32 len) (u32 (i + 2 + optlen - 2))) as [|Hfit]; [done|].
  rewrite !u32_small in Hfit by (unfold is_u32; lia).
  pose proof (opt_progress mem now opt optlen (i + 2) s) as Hp.
  destruct (ParseTCPOptions_opt _ _ _ _ _ _) as [j s'|e]; [|intros [= ->]; by apply Hp].
  destruct Hp as [Hj|[Hk Hj]]; [done|done|apply IH; lia|].
  rewrite i32_u32, i32_small in Hj by lia. apply IH; [lia|].
  destruct (decide (optlen = 0)) as [->|]; [|lia].
  exfalso. apply (Hno i); [done|]. exists opt. done.
Qed.



(** C32: an unknown option of length zero at the front of the options makes the loop of
    [ParseTCPOptions] read it for ever: no number of iterations is enough. *)
Theorem ParseTCPOptions_hangs fuel opt rest len now s :
  2 <= len < 2147483648 -> known_opt opt = false ->
  ParseTCPOptions_loop (opt :: 0 :: rest) len fuel now 0 s = Fault OutOfFuel.
Proof.
  intros Hlen Hk. induction fuel as [|fuel IH]; [cbn; by rewrite (proj2 (Z.leb_gt _ _)) by lia|].
  unfold known_opt in Hk. rewrite !orb_false_iff in Hk.
  destruct Hk as (((((H0 & H1) & H2) & H3) & H4) & H5).
  rewrite (options_opt _ len) with (opt := opt) (optlen := 0)
    by first [at_index | lia | by apply Z.eqb_neq].
  unfold mbind, M_bind, ParseTCPOptions_opt. rewrite H2, H3, H4, H5. exact IH.
Qed.

Lemma ParseTCPOptions_hangs_witness :
  ParseTCPOptions_loop [30; 0; 1; 1] 4 1000 0 0 zero_stream = Fault OutOfFuel.
Proof. apply ParseTCPOptions_hangs; [lia|reflexivity]. Defined.

(** ** The checksum verifies *)

(** The sum of the 16-bit words of a block. *)
Fixpoint sum16 (l : list Z) : Z :=
  match l with
  | a :: b :: l' => load16 a b + sum16 l'
  | [a] => a
  | [] => 0
  end.

Lemma list_pair_ind {A} (P : list A -> Prop) :
  P [] -> (forall a, P [a]) -> (forall a b l, P l -> P (a :: b :: l)) -> forall l, P l.
Proof.
  intros H0 H1 H2. fix IH 1. intros [|a [|b l]]; [done|apply H1|apply H2, IH].
Qed.

Lemma sum_words_sum16 l : forall s, sum_words l (u32 s) = u32 (s + sum16 l).
Proof.
  induction l as [|a|a b l IH] using list_pair_ind; intros s; cbn.
  - by rewrite Z.add_0_r.
  - by rewrite u32_add_l.
  - rewrite u32_add_l, IH. f_equal. lia.
Qed.

Lemma sum16_bound l : Forall is_u8 l -> 0 <= sum16 l <= 65535 * ((zlen l + 1) / 2).
Proof.
  induction l as [|a|a b l IH] using list_pair_ind; cbn [sum16].
  - done.
  - intros [Ha _]%list.Forall_cons. unfold is_u8 in Ha. change (zlen [a]) with 1.
    change ((1 + 1) / 2) with 1. lia.
  - intros [Ha [Hb Hl]%list.Forall_cons]%list.Forall_cons. specialize (IH Hl).
    rewrite !zlen_cons. replace (1 + (1 + zlen l) + 1) with (zlen l + 1 + 1 * 2) by lia.
    rewrite Z.div_add by lia. unfold is_u8, load16 in *. lia.
Qed.

Lemma sum16_app_even l k : Nat.Even (length l) -> sum16 (l ++ k) = sum16 l + sum16 k.
Proof.
  induction l as [|a|a b l IH] using list_pair_ind; intros Hev; [done| |].
  - by destruct Hev as [n Hn]; cbn in Hn; lia.
  - cbn [app sum16]. rewrite IH; [lia|]. destruct Hev as [[|n] Hn]; cbn in Hn; [lia|].
    exists n. lia.
Qed.

(** One's complement folding: a sum is congruent to its fold modulo 65535, and only zero
    folds to zero. *)
Definition fold16 (sum : Z) : Z :=
  let sum := u32 (Z.shiftr sum 16 + Z.land sum 65535) in u16 (u32 (sum + Z.shiftr sum 16)).

Lemma land_65535 x : Z.land x 65535 = x mod 65536.
Proof. change 65535 with (Z.ones 16). by rewrite Z.land_ones. Qed.

Lemma fold16_spec s : is_u32 s ->
  0 <= fold16 s <= 65535 /\ fold16 s mod 65535 = s mod 65535 /\ (fold16 s = 0 <-> s = 0).
Proof.
  intros Hs. unfold fold16. rewrite land_65535, !Z.shiftr_div_pow2 by lia.
  change (2 ^ 16) with 65536. unfold is_u32 in Hs.
  pose proof (Z.div_mod s 65536 ltac:(lia)) as Hd. set (q := s / 65536) in *. set (r := s mod 65536) in *.
  assert (0 <= r < 65536) by (apply Z.mod_pos_bound; lia).
  assert (0 <= q < 65536) by (subst q; Z.div_mod_to_equations; lia).
  rewrite (u32_small (q + r)) by (unfold is_u32; lia).
  assert (Hcase : (q + r) / 65536 = 0 /\ q + r < 65536 \/ (q + r) / 65536 = 1 /\ 65536 <= q + r)
    by (Z.div_mod_to_equations; lia).
  destruct Hcase as [[-> Hlt]|[-> Hge]].
  - rewrite u32_small by (unfold is_u32; lia). unfold u16. rewrite Z.mod_small by lia. rewrite Z.add_0_r.
    split_and!; try lia. rewrite Hd. replace (65536 * q + r) with (q + r + q * 65535) by lia.
    by rewrite Z.mod_add by lia.
  - rewrite u32_small by (unfold is_u32; lia). unfold u16.
    replace (q + r + 1) with (q + r + 1 - 65536 + 1 * 65536) by lia. rewrite Z.mod_add by lia.
    rewrite Z.mod_small by lia. split_and!; try lia. rewrite Hd.
    replace (65536 * q + r) with (q + r + 1 - 65536 + (q + 1) * 65535) by lia.
    by rewrite Z.mod_add by lia.
Qed.

(** The checksum is the complement of the fold of all words. *)
Definition pseudo (buf : list Z) (saddr daddr : Z) : Z :=
  saddr mod 65536 + saddr / 65536 + (daddr mod 65536 + daddr / 65536)
  + htons (u16 (zlen buf)) + htons IPPROTO_TCP.

Lemma TCPCalcChecksum_fold buf saddr daddr :
  is_u32 saddr -> is_u32 daddr -> Forall is_u8 buf -> zlen buf <= 65535 ->
  let total := sum16 buf + pseudo buf saddr daddr in
  0 < total < 4294967296 /\ TCPCalcChecksum buf saddr daddr = 65535 - fold16 total.
Proof.
  intros Hs Hd Hb Hlen. cbn zeta. pose proof (sum16_bound _ Hb) as Hsum.
  assert (Hn : (zlen buf + 1) / 2 <= 32768) by (Z.div_mod_to_equations; lia).
  pose proof (htons_range (u16 (zlen buf))) as Hht. unfold is_u16 in Hht.
  assert (Hps : 0 < pseudo buf saddr daddr <= 65535 * 6).
  { unfold pseudo. change (htons IPPROTO_TCP) with 1536. unfold is_u32 in *. Z.div_mod_to_equations. lia. }
  assert (Htot : 0 < sum16 buf + pseudo buf saddr daddr < 4294967296) by lia.
  split; [done|]. unfold TCPCalcChecksum.
  pose proof (sum_words_sum16 buf 0) as Hw. change (u32 0) with 0 in Hw. rewrite Hw, Z.add_0_l.
  set (t := sum16 buf + pseudo buf saddr daddr) in *.
  assert (u32 (u32 (u32 (u32 (u32 (sum16 buf) + (Z.land saddr 65535 + Z.shiftr saddr 16))
    + (Z.land daddr 65535 + Z.shiftr daddr 16)) + htons (u16 (zlen buf))) + htons IPPROTO_TCP) = t) as ->.
  { rewrite !land_65535, !Z.shiftr_div_pow2 by lia. change (2 ^ 16) with 65536. subst t.
    assert (Hdigits : forall x, is_u32 x -> 0 <= x mod 65536 /\ 0 <= x / 65536)
      by (unfold is_u32; intros; Z.div_mod_to_equations; lia).
    destruct (Hdigits _ Hs), (Hdigits _ Hd). unfold pseudo in *. change (htons IPPROTO_TCP) with 1536 in *.
    set (A := saddr mod 65536 + saddr / 65536) in *. set (B := daddr mod 65536 + daddr / 65536) in *.
    rewrite (u32_small (sum16 buf)), (u32_small (sum16 buf + A)), (u32_small (sum16 buf + A + B)),
      (u32_small (sum16 buf + A + B + _)), u32_small by (unfold is_u32; lia). lia. }
  unfold fold16. set (f := u32 (_ + Z.shiftr _ _)). unfold u16, u32, Z.lnot. mlia.
Qed.

Lemma bytes16_u8 v : Forall is_u8 (bytes16 v).
Proof. repeat constructor; unfold is_u8; Z.div_mod_to_equations; lia. Qed.

Lemma bytes32_u8 v : Forall is_u8 (bytes32 v).
Proof. repeat constructor; unfold is_u8; Z.div_mod_to_equations; lia. Qed.

Lemma tcph_bytes_u8 h : 0 <= doff h < 16 /\ 0 <= res1 h < 16 /\ 0 <= res2 h < 4 ->
  Forall is_u8 (tcph_bytes h).
Proof.
  intros (Hd & H1 & H2). unfold tcph_bytes.
  repeat (apply Forall_app; split); try apply bytes16_u8; try apply bytes32_u8.
  repeat constructor; unfold is_u8, b2z; repeat destruct (_ : bool); lia.
Qed.

(** Setting the checksum field adds it to the sum of the words. *)
Lemma sum16_check h c rest : is_u16 c ->
  sum16 (tcph_bytes (h <| th_check := c |>) ++ rest) =
  sum16 (tcph_bytes (h <| th_check := 0 |>) ++ rest) + c.
Proof.
  intros Hc. unfold tcph_bytes. unfold upd; cbn.
  unfold load16. unfold is_u16 in Hc. Z.div_mod_to_equations. lia.
Qed.

(** C29: a segment whose checksum field holds the checksum of the segment with that field
    zero passes the verification of the receiver, for any addresses and any contents. *)
Theorem TCPCalcChecksum_verifies h rest saddr daddr :
  is_u32 saddr -> is_u32 daddr -> tcph_wf h -> Forall is_u8 rest -> 20 + zlen rest <= 65535 ->
  let check := TCPCalcChecksum (tcph_bytes (h <| th_check := 0 |>) ++ rest) saddr daddr in
  TCPCalcChecksum (tcph_bytes (h <| th_check := check |>) ++ rest) saddr daddr = 0.
Proof.
  intros Hs Hd Hoff Hrest Hlen. cbn zeta.
  assert (Hu8 : forall c, Forall is_u8 (tcph_bytes (h <| th_check := c |>) ++ rest)).
  { intros c. apply Forall_app. split; [apply tcph_bytes_u8, Hoff|done]. }
  assert (Hz : forall c, zlen (tcph_bytes (h <| th_check := c |>) ++ rest) = 20 + zlen rest).
  { intros c. by rewrite zlen_app. }
  destruct (TCPCalcChecksum_fold _ saddr daddr Hs Hd (Hu8 0)) as [Ht0 Hc0]; [by rewrite Hz|].
  set (c := TCPCalcChecksum _ saddr daddr) in *.
  set (t0 := sum16 (tcph_bytes (h <| th_check := 0 |>) ++ rest) + _) in *.
  destruct (fold16_spec t0) as (Hr0 & Hm0 & _); [unfold is_u32; lia|].
  assert (Hc : is_u16 c) by (unfold is_u16; lia).
  destruct (TCPCalcChecksum_fold _ saddr daddr Hs Hd (Hu8 c)) as [Ht Hc']; [by rewrite Hz|]. rewrite Hc'.
  set (t := sum16 (tcph_bytes (h <| th_check := c |>) ++ rest) + _) in *.
  assert (Htt : t = t0 + c).
  { subst t t0. rewrite sum16_check by done. unfold pseudo. rewrite (Hz c), (Hz 0). lia. }
  destruct (fold16_spec t) as (Hr & Hm & Hnz); [unfold is_u32; lia|].
  assert (Hzero : t mod 65535 = 0).
  { rewrite Htt, Hc0, Z.add_mod, <- Hm0, <- Z.add_mod by lia.
    replace (fold16 t0 + (65535 - fold16 t0)) with 65535 by lia. done. }
  rewrite Hzero in Hm. Z.div_mod_to_equations. lia.
Qed.

Lemma TCPCalcChecksum_verifies_witness :
  let h := TcpHdr 20480 36895 1 2 5 false false false true true false 100 0 0 0 0 in
  let check := TCPCalcChecksum (tcph_bytes (h <| th_check := 0 |>) ++ [1; 2; 3]) 16777226 33554442 in
  TCPCalcChecksum (tcph_bytes (h <| th_check := check |>) ++ [1; 2; 3]) 16777226 33554442 = 0.
Proof. apply TCPCalcChecksum_verifies; vm_compute; repeat constructor; done. Defined.
