(* ===== verification/Output.v ===== *)
(** * The output path below TCP

    [eth_out.c], [arp.c] and [ip_out.c]: choosing an interface, resolving the hardware
    address of the next hop, obtaining a frame from the I/O module and filling the
    Ethernet, ARP and IP headers; and [ip_fast_csum] of [ps.h].  A function that returns a
    pointer into a frame returns the index of the frame in [tx]. *)

From S2P Require Import Prelude SeqArith Bytes Mtcp.

(** ** The IP header checksum *)

Definition add_carry (csum w : Z) : Z :=
  let sum := u32 (csum + w) in u32 (sum + (if sum <? w then 1 else 0)).

Definition csum_fold (csum : Z) : Z :=
  let sum := u32 (csum + u32 (csum * 65536)) in
  let carry := if sum <? csum then 1 else 0 in
  u16 (u32 (Z.lnot (u32 (Z.shiftr sum 16 + carry)))).

(** The header as 32-bit words; a header of fewer than five words is read past its end. *)
Definition ip_fast_csum (words : list Z) : option Z :=
  match words with
  | w0 :: w1 :: w2 :: w3 :: w4 :: rest =>
      Some (csum_fold (fold_left add_carry (w1 :: w2 :: w3 :: w4 :: rest) w0))
  | _ => None
  end.

Definition iph_words (h : iphdr) : list Z :=
  [ihl h + 16 * version h + 256 * tos h + 65536 * tot_len h;
   iph_id h + 65536 * frag_off h;
   ttl h + 256 * protocol h + 65536 * iph_check h;
   iph_saddr h; iph_daddr h].

Section Output.
Context `{Platform}.

(** ** Ethernet *)

Definition eidx_of (nif : Z) : MT Z :=
  m ← get;
  unwrap OutOfBounds (if nif <? 0 then None else nif_to_eidx (CONFIG m) !! Z.to_nat nif).

Definition eth_at (eidx : Z) : MT eth_table :=
  m ← get; unwrap OutOfBounds (if eidx <? 0 then None else eths (CONFIG m) !! Z.to_nat eidx).

Definition EthernetOutput (h_proto nif : Z) (dst_haddr : list Z) (iplen : Z) : MT (option nat) :=
  if nif <? 0 then mret None
  else
    eidx ← eidx_of nif;
    if eidx <? 0 then mret None
    else
      n ← env_tick;
      if negb (get_wptr n eidx (u16 iplen + ETHERNET_HEADER_LEN)) then mret None
      else
        e ← eth_at eidx;
        m ← get;
        modify (fun m => m <| tx ::= fun l => l ++ [Frame eidx dst_haddr (eth_haddr e) (htons h_proto) (u16 iplen) Blank] |>);;
        mret (Some (length (tx m))).

(** Writing the part of a frame behind its Ethernet header. *)
Definition frame_fill (i : nat) (b : frame_body) : MT unit :=
  modify (fun m => m <| tx ::= alter (fun f => f <| fr_body := b |>) i |>).

(** ** Address resolution *)

Fixpoint GetHWaddr (eths : list eth_table) (ip : Z) : option (list Z) :=
  match eths with
  | [] => None
  | e :: eths' => if ip =? ip_addr e then Some (eth_haddr e) else GetHWaddr eths' ip
  end.

(** The loop over the ARP table: the best address so far and its prefix. *)
Fixpoint arp_walk (l : list arp_entry) (dip : Z) (d_haddr : option (list Z)) (pre : Z) :
    option (list Z) :=
  match l with
  | [] => d_haddr
  | e :: l' =>
      if ae_prefix e =? 1 then
        if ae_ip e =? dip then Some (ae_haddr e) else arp_walk l' dip d_haddr pre
      else if (Z.land dip (ip_mask e) =? ip_masked e) && (pre <? ae_prefix e)
      then arp_walk l' dip (Some (ae_haddr e)) (ae_prefix e)
      else arp_walk l' dip d_haddr pre
  end.

Definition GetDestinationHWaddr (c : mtcp_config) (dip : Z) (is_gateway : bool) : option (list Z) :=
  match is_gateway, arp_gateway c with
  | true, Some g => Some (ae_haddr g)
  | _, _ => arp_walk (arp_entries c) dip None 0
  end.

Definition arp_op_request : Z := 1.
Definition arp_op_reply : Z := 2.
Definition sizeof_arphdr : Z := 28 + 18.

Definition ARPOutput (nif opcode dst_ip : Z) (dst_haddr : list Z) (target_haddr : option (list Z)) :
    MT Z :=
  f ← EthernetOutput ETH_P_ARP nif dst_haddr sizeof_arphdr;
  match f with
  | None => mret (-1)
  | Some f =>
      eidx ← eidx_of nif;
      e ← eth_at eidx;
      frame_fill f (Arp (ArpHdr (htons 1) (htons ETH_P_IP) 6 4 (htons opcode)
        (eth_haddr e) (ip_addr e) (default dst_haddr target_haddr) dst_ip));;
      mret 0
  end.

Definition RegisterARPEntry (ip : Z) (haddr : list Z) : MT unit :=
  let ent := ArpEntry ip 32 4294967295 ip haddr in
  m ← get;
  let is_gw := match gateway (CONFIG m) with
               | Some g => Z.land (rt_daddr g) (ip_mask ent) =? ip_masked ent
               | None => false
               end in
  whenM is_gw (modify (fun m => m <| CONFIG ::= arp_gateway ↦ Some ent |>));;
  modify (fun m => m <| CONFIG ::= fun c => c <| arp_entries ::= fun l => l ++ [ent] |> |>).

Definition RequestARP (ip nif cur_ts : Z) : MT unit :=
  m ← get;
  if existsb (fun ent => aq_ip ent =? ip) (g_arpm m) then mret tt
  else
    n ← env_tick;
    (if calloc n =? 0 then throw NullPointer
     else modify (fun m => m <| g_arpm ::= fun l => l ++ [ArpQueueEntry ip nif cur_ts] |>));;
    ARPOutput nif arp_op_request ip (repeat 255 6) (Some (repeat 0 6));;
    mret tt.

(** [register the arp entry if not exist] *)
Definition learn_arp (arph : arphdr) : MT unit :=
  m ← get;
  match GetDestinationHWaddr (CONFIG m) (ar_sip arph) false with
  | None => RegisterARPEntry (ar_sip arph) (ar_sha arph)
  | Some _ => mret tt
  end.

Definition ProcessARPRequest (arph : arphdr) (nif : Z) : MT unit :=
  learn_arp arph;;
  ARPOutput nif arp_op_reply (ar_sip arph) (ar_sha arph) None;;
  mret tt.

(** Removing the first request for an address from the queue. *)
Fixpoint arp_dequeue (l : list arp_queue_entry) (ip : Z) : list arp_queue_entry :=
  match l with
  | [] => []
  | ent :: l' => if aq_ip ent =? ip then l' else ent :: arp_dequeue l' ip
  end.

Definition ProcessARPReply (arph : arphdr) : MT unit :=
  learn_arp arph;;
  modify (fun m => m <| g_arpm ::= fun l => arp_dequeue l (ar_sip arph) |>).

Definition ProcessARPPacket (ifidx : Z) (arph : arphdr) : MT bool :=
  m ← get;
  if negb (existsb (fun e => ar_tip arph =? ip_addr e) (eths (CONFIG m))) then mret true
  else
    let op := ntohs (ar_op arph) in
    (if op =? arp_op_request then
       e ← eth_at ifidx; ProcessARPRequest arph (ifindex e)
     else if op =? arp_op_reply then ProcessARPReply arph
     else mret tt);;
    mret true.

Definition ARP_TIMEOUT_SEC : Z := 1.

Definition ARPTimer (cur_ts : Z) : MT unit :=
  modify (fun m => m <| g_arpm ::=
    filter (fun ent => TCP_SEQ_GT cur_ts (u32 (aq_ts_out ent + SEC_TO_TS ARP_TIMEOUT_SEC)) = false) |>).

(** ** IP *)

(** The loop over the routes stops at the first one that matches. *)
Fixpoint route_walk (l : list route_table) (gw : option route_table) (daddr : Z) : Z * bool :=
  match l with
  | [] => (-1, false)
  | r :: l' =>
      if Z.land daddr (mask r) =? masked r then
        if 0 <? prefix r then (nif r, false)
        else match gw with Some g => (nif g, true) | None => (-1, false) end
      else route_walk l' gw daddr
  end.

(** The interface and [*is_external]. *)
Definition GetOutputInterface (daddr : Z) : MT (Z * bool) :=
  m ← get;
  let r := route_walk (rtable (CONFIG m)) (gateway (CONFIG m)) daddr in
  assertM (0 <=? r.1);;
  mret r.

(** The answer of [dev_ioctl], [-1] when the module has none. *)
Definition ioctl (nif cmd : Z) : MT Z :=
  n ← env_tick;
  mret (match dev_ioctl with Some f => f n nif cmd | None => -1 end).

Definition csum_cmd (protocol : Z) : option Z :=
  if protocol =? IPPROTO_TCP then Some PKT_TX_TCPIP_CSUM_PEEK
  else if protocol =? IPPROTO_ICMP then Some PKT_TX_IP_CSUM
  else None.

Definition IP_DF : Z := 16384.

Definition ip_header (tot id proto saddr daddr : Z) : iphdr :=
  IpHdr (Z.shiftr IP_HEADER_LEN 2) 4 0 (htons (u16 tot)) (htons id) (htons IP_DF) 64 proto 0 saddr daddr.

(** Filling the IP header of frame [f], with its checksum unless the device computes it. *)
Definition ip_fill (f : nat) (nif : Z) (h : iphdr) : MT unit :=
  rc ← match csum_cmd (protocol h) with Some cmd => ioctl nif cmd | None => mret (-1) end;
  c ← (if rc =? -1 then unwrap OutOfBounds (ip_fast_csum (iph_words h)) else mret 0);
  frame_fill f (Ip (h <| iph_check := c |>) (L4Raw [])).

Definition gateway_daddr : MT Z :=
  m ← get; g ← unwrap NullPointer (gateway (CONFIG m)); mret (rt_daddr g).

Definition IPOutputStandalone (proto ip_id saddr daddr payloadlen : Z) : MT (option nat) :=
  r ← GetOutputInterface daddr;
  let '(nif, is_external) := r in
  if nif <? 0 then mret None
  else
    m ← get;
    match GetDestinationHWaddr (CONFIG m) daddr is_external with
    | None =>
        ip ← (if is_external then gateway_daddr else mret daddr);
        RequestARP ip nif (cur_ts m);;
        mret None
    | Some haddr =>
        f ← EthernetOutput ETH_P_IP nif haddr (payloadlen + IP_HEADER_LEN);
        match f with
        | None => mret None
        | Some f =>
            ip_fill f nif (ip_header (IP_HEADER_LEN + payloadlen) ip_id proto saddr daddr);;
            mret (Some f)
        end
    end.

Definition IPOutput (a : Z) (tcplen : Z) : MT (option nat) :=
  s ← stream_at a;
  (if 0 <=? nif_out (sndvar s) then mret tt
   else
     r ← GetOutputInterface (daddr s);
     stream_mod a (fun s => s <| sndvar ::= nif_out ↦ i8 r.1 |> <| is_external := r.2 |>));;
  s ← stream_at a;
  m ← get;
  match GetDestinationHWaddr (CONFIG m) (daddr s) (is_external s) with
  | None =>
      ip ← (if is_external s then gateway_daddr else mret (daddr s));
      RequestARP ip (nif_out (sndvar s)) (cur_ts m);;
      mret None
  | Some haddr =>
      f ← EthernetOutput ETH_P_IP (nif_out (sndvar s)) haddr (tcplen + IP_HEADER_LEN);
      match f with
      | None => mret None
      | Some f =>
          stream_mod a (fun s => s <| sndvar ::= ip_id ↦ u16 (ip_id (sndvar s) + 1) |>);;
          ip_fill f (nif_out (sndvar s))
            (ip_header (IP_HEADER_LEN + tcplen) (ip_id (sndvar s)) IPPROTO_TCP (saddr s) (daddr s));;
          mret (Some f)
      end
  end.

End Output.
