(* ===== verification/Events.v ===== *)
(** * Epoll events

    [AddEpollEvent] of [eventpoll.c] and the functions of [tcp_stream.c] that raise the
    events of a stream.  An event queue is a ring of fixed size; a socket's [events] word
    records which events are queued for it. *)

From S2P Require Import Prelude Mtcp.

(** [enum event_queue_type] *)
Inductive event_queue_type := USR_EVENT_QUEUE | USR_SHADOW_EVENT_QUEUE | MTCP_EVENT_QUEUE.

Definition CreateEventQueue (calloc_ok : bool) (size : Z) : option event_queue :=
  if calloc_ok
  then Some (EventQueue (replicate (Z.to_nat size) (EpollEventInt 0 0 0)) 0 0 size 0)
  else None.

Definition queue_of (qt : event_queue_type) : mtcp_epoll -> event_queue :=
  match qt with
  | USR_EVENT_QUEUE => usr_queue
  | USR_SHADOW_EVENT_QUEUE => usr_shadow_queue
  | MTCP_EVENT_QUEUE => mtcp_queue
  end.

Definition set_queue (qt : event_queue_type) (q : event_queue) (e : mtcp_epoll) : mtcp_epoll :=
  match qt with
  | USR_EVENT_QUEUE => e <| usr_queue := q |>
  | USR_SHADOW_EVENT_QUEUE => e <| usr_shadow_queue := q |>
  | MTCP_EVENT_QUEUE => e <| mtcp_queue := q |>
  end.

(** Appending an event to a queue that has room. *)
Definition eq_push (q : event_queue) (v : mtcp_epoll_event_int) : option event_queue :=
  let index := eq_end q in
  evs ← mem_write (eq_events q) index [v];
  Some (q <| eq_events := evs |>
          <| eq_end := if eq_size q <=? index + 1 then 0 else index + 1 |>
          <| num_events := num_events q + 1 |>).

(** Taking the oldest event of a queue. *)
Definition eq_pop (q : event_queue) : option (mtcp_epoll_event_int * event_queue) :=
  v ← mem_read (eq_events q) (eq_start q) 1;
  match v with
  | [v] =>
      let start := eq_start q + 1 in
      Some (v, q <| eq_start := if eq_size q <=? start then 0 else start |>
                 <| num_events := num_events q - 1 |>)
  | _ => None
  end.

(** The epoll object behind a pointer. *)
Definition epoll_at (p : Z) : MT mtcp_epoll :=
  m ← get; unwrap NullPointer (epolls m !! p).

Definition epoll_set (p : Z) (e : mtcp_epoll) : MT unit :=
  modify (fun m => m <| epolls ::= insert p e |>).

(** [p] is the pointer to the epoll object, [sock] the socket's index in the socket map;
    [0] and [None] are null pointers. *)
Definition AddEpollEvent (p : Z) (qt : event_queue_type) (sock : option Z) (event : Z) : MT Z :=
  match sock with
  | Some i =>
      if (p =? 0) || (event =? 0) then mret (-1)
      else
        e ← epoll_at p;
        let e := e <| issued := u64 (issued e + 1) |> in
        epoll_set p e;;
        s ← socket_at i;
        if has (events s) event then mret 0
        else
          let eq := queue_of qt e in
          if eq_size eq <=? num_events eq then mret (-1)
          else
            socket_mod i (fun s => s <| events := Z.lor (events s) event |>);;
            eq' ← unwrap OutOfBounds (eq_push eq (EpollEventInt event (ep_data s) (sock_id s)));
            epoll_set p (set_queue qt eq' e <| registered := u64 (registered e + 1) |>);;
            mret 0
  | None => mret (-1)
  end.

(** [if (socket->epoll & event) AddEpollEvent(...)] *)
Definition raise_if (sock : option Z) (event : Z) : MT bool :=
  match sock with
  | None => mret false
  | Some i =>
      s ← socket_at i;
      if has (epoll s) event
      then m ← get; AddEpollEvent (ep m) MTCP_EVENT_QUEUE sock event;; mret true
      else mret false
  end.

Definition RaiseReadEvent (a : Z) : MT unit :=
  s ← stream_at a; raise_if (socket s) MTCP_EPOLLIN;; mret tt.

Definition RaiseWriteEvent (a : Z) : MT unit :=
  s ← stream_at a; raise_if (socket s) MTCP_EPOLLOUT;; mret tt.

Definition RaiseCloseEvent (a : Z) : MT unit :=
  s ← stream_at a;
  b ← raise_if (socket s) MTCP_EPOLLRDHUP;
  whenM (negb b) (raise_if (socket s) MTCP_EPOLLIN;; mret tt).

Definition RaiseErrorEvent (a : Z) : MT unit :=
  s ← stream_at a; raise_if (socket s) MTCP_EPOLLERR;; mret tt.
