(* ===== verification/Fhash.v ===== *)
(** * Flow and listener tables ([fhash.c], the flow hash of [tcp_stream.c])

    Chained hash tables whose chains are intrusive lists.  The key of a stream is the four
    words [saddr], [daddr], [sport], [dport], which are adjacent in memory and hashed as
    twelve signed bytes. *)

From S2P Require Import Prelude Bytes Queues AddrPool Mtcp.

Definition NUM_BINS_FLOWS : Z := 131072.
Definition NUM_BINS_LISTENERS : Z := 1024.
Definition TCP_AR_CNT : Z := 3.

(** A table of empty chains; [calloc_ht] and [calloc_bins] say whether the two allocations
    succeed. *)
Definition CreateHashtable (calloc_ht calloc_bins : bool) : option (gmap Z (list Z)) :=
  if negb calloc_ht then None
  else if negb calloc_bins then None
  else Some ∅.

(** ** Keys *)

Record flow_key := FlowKey { k_saddr : Z; k_daddr : Z; k_sport : Z; k_dport : Z }.

#[export] Instance flow_key_eq_dec : EqDecision flow_key.
Proof. solve_decision. Defined.

Definition key_of (s : tcp_stream) : flow_key := FlowKey (saddr s) (daddr s) (sport s) (dport s).

(** The twelve bytes from [&flow->saddr] on. *)
Definition key_bytes (k : flow_key) : list Z :=
  bytes32 (k_saddr k) ++ bytes32 (k_daddr k) ++ bytes16 (k_sport k) ++ bytes16 (k_dport k).

(** One round of the hash; [char] is signed. *)
Definition hash_round (hash c : Z) : Z :=
  let hash := u32 (hash + i8 c) in
  let hash := u32 (hash + Z.shiftl hash 10) in
  Z.lxor hash (Z.shiftr hash 6).

Definition HashFlow (k : flow_key) : Z :=
  let hash := fold_left hash_round (key_bytes k) 0 in
  let hash := u32 (hash + Z.shiftl hash 3) in
  let hash := Z.lxor hash (Z.shiftr hash 11) in
  let hash := u32 (hash + Z.shiftl hash 15) in
  Z.land hash (NUM_BINS_FLOWS - 1).

Definition EqualFlow (k1 k2 : flow_key) : bool :=
  (k_saddr k1 =? k_saddr k2) && (k_sport k1 =? k_sport k2) &&
  (k_daddr k1 =? k_daddr k2) && (k_dport k1 =? k_dport k2).

(** ** Streams *)

Definition set_flow_bin (i : Z) (l : list Z) : MT unit :=
  modify (fun m => m <| tcp_flow_table ::= insert i l |>).

Definition StreamHTInsert (a : Z) : MT Z :=
  s ← stream_at a;
  let idx := HashFlow (key_of s) in
  assertM ((0 <=? idx) && (idx <? NUM_BINS_FLOWS));;
  m ← get;
  set_flow_bin idx (TAILQ_INSERT_TAIL (bin (tcp_flow_table m) idx) a);;
  stream_mod a (fun s => s <| ht_idx := TCP_AR_CNT |>);;
  mret 0.

Definition StreamHTRemove (a : Z) : MT unit :=
  s ← stream_at a;
  let idx := HashFlow (key_of s) in
  m ← get;
  l ← unwrap CorruptList (TAILQ_REMOVE (bin (tcp_flow_table m) idx) a);
  set_flow_bin idx l.

Fixpoint flow_walk (l : list Z) (k : flow_key) : MT (option Z) :=
  match l with
  | [] => mret None
  | a :: l' =>
      s ← stream_at a;
      if EqualFlow (key_of s) k then mret (Some a) else flow_walk l' k
  end.

Definition StreamHTSearch (k : flow_key) : MT (option Z) :=
  m ← get; flow_walk (bin (tcp_flow_table m) (HashFlow k)) k.

(** ** Listeners *)

Definition HashListener (port : Z) : Z := Z.land port (NUM_BINS_LISTENERS - 1).

Definition listener_at (l : Z) : MT tcp_listener :=
  m ← get; unwrap FreedListener (listener_heap m !! l).

(** [listener->socket->saddr.sin_port] *)
Definition listener_port (l : Z) : MT Z :=
  x ← listener_at l;
  i ← unwrap NullPointer (listen_socket x);
  s ← socket_at i;
  mret (sock_port s).

Definition ListenerHTInsert (l : Z) : MT Z :=
  port ← listener_port l;
  let idx := HashListener port in
  assertM ((0 <=? idx) && (idx <? NUM_BINS_LISTENERS));;
  modify (fun m => m <| listeners ::= fun t => <[idx := TAILQ_INSERT_TAIL (bin t idx) l]> t |>);;
  mret 0.

Definition ListenerHTRemove (l : Z) : MT unit :=
  port ← listener_port l;
  let idx := HashListener port in
  m ← get;
  k ← unwrap CorruptList (TAILQ_REMOVE (bin (listeners m) idx) l);
  modify (fun m => m <| listeners ::= insert idx k |>).

Fixpoint listener_walk (l : list Z) (port : Z) : MT (option Z) :=
  match l with
  | [] => mret None
  | x :: l' =>
      p ← listener_port x;
      if p =? port then mret (Some x) else listener_walk l' port
  end.

Definition ListenerHTSearch (port : Z) : MT (option Z) :=
  m ← get; listener_walk (bin (listeners m) (HashListener port)) port.
