(* ===== verification/Lists.v ===== *)
(** * The lists of a stream

    The functions of [tcp_out.c] that put a stream on the control, send and ACK lists of
    its sender, and those of [timer.c] that put it on the retransmission, time-wait and
    connection-timeout lists.  A flag (or slot number) in the stream records its
    membership. *)

From S2P Require Import Prelude SeqArith Mtcp.

(** ** Senders *)

(** A pointer to a sender: the global one or that of an interface. *)
Inductive sender_id := GSender | NSender (eidx : Z).

#[export] Instance sender_id_eq_dec : EqDecision sender_id.
Proof. solve_decision. Defined.

(** The sender of a stream whose output interface is [nif_out]; [None] is [NULL]. *)
Definition sender_of (c : mtcp_config) (nif_out : Z) : option sender_id :=
  if nif_out <? 0 then Some GSender
  else
    match nif_to_eidx c !! Z.to_nat nif_out with
    | Some eidx => if (eidx <? 0) || (zlen (eths c) <=? eidx) then None else Some (NSender eidx)
    | None => None
    end.

Definition GetSender (a : Z) : MT (option sender_id) :=
  s ← stream_at a;
  m ← get;
  let nif := nif_out (sndvar s) in
  whenM ((0 <=? nif) && bool_decide (nif_to_eidx (CONFIG m) !! Z.to_nat nif = None))
    (throw OutOfBounds);;
  mret (sender_of (CONFIG m) nif).

Definition sender_lookup (m : mtcp_manager) (i : sender_id) : option mtcp_sender :=
  match i with GSender => g_sender m | NSender eidx => n_sender m !! eidx end.

Definition sender_update (i : sender_id) (x : mtcp_sender) (m : mtcp_manager) : mtcp_manager :=
  match i with
  | GSender => m <| g_sender := Some x |>
  | NSender eidx => m <| n_sender ::= insert eidx x |>
  end.

Definition sender_at (i : sender_id) : MT mtcp_sender :=
  m ← get; unwrap NullPointer (sender_lookup m i).

Definition sender_mod (i : sender_id) (f : mtcp_sender -> mtcp_sender) : MT unit :=
  x ← sender_at i; modify (sender_update i (f x)).

(** [GetSender] followed by [assert(sender != NULL)]. *)
Definition the_sender (a : Z) : MT sender_id :=
  o ← GetSender a;
  m ← get;
  match o with
  | Some i => assertM (bool_decide (is_Some (sender_lookup m i)));; mret i
  | None => throw AssertFail
  end.

Definition AddtoControlList (a : Z) : MT unit :=
  s ← stream_at a;
  whenM (negb (on_control_list (sndvar s)))
    (i ← the_sender a;
     stream_mod a (fun s => s <| sndvar ::= on_control_list ↦ true |>);;
     sender_mod i (fun x => x <| control_list ::= fun l => TAILQ_INSERT_TAIL l a |>
                              <| control_list_cnt ::= Z.succ |>)).

Definition AddtoSendList (a : Z) : MT unit :=
  i ← the_sender a;
  s ← stream_at a;
  assertM (negb (sndbuf (sndvar s) =? 0));;
  whenM (negb (on_send_list (sndvar s)))
    (stream_mod a (fun s => s <| sndvar ::= on_send_list ↦ true |>);;
     sender_mod i (fun x => x <| send_list ::= fun l => TAILQ_INSERT_TAIL l a |>
                              <| send_list_cnt ::= Z.succ |>)).

Definition AddtoACKList (a : Z) : MT unit :=
  i ← the_sender a;
  s ← stream_at a;
  whenM (negb (on_ack_list (sndvar s)))
    (stream_mod a (fun s => s <| sndvar ::= on_ack_list ↦ true |>);;
     sender_mod i (fun x => x <| ack_list ::= fun l => TAILQ_INSERT_TAIL l a |>
                              <| ack_list_cnt ::= Z.succ |>)).

Definition RemoveFromControlList (a : Z) : MT unit :=
  i ← the_sender a;
  s ← stream_at a;
  whenM (on_control_list (sndvar s))
    (stream_mod a (fun s => s <| sndvar ::= on_control_list ↦ false |>);;
     x ← sender_at i;
     l ← unwrap CorruptList (TAILQ_REMOVE (control_list x) a);
     sender_mod i (fun x => x <| control_list := l |> <| control_list_cnt ::= Z.pred |>)).

Definition RemoveFromSendList (a : Z) : MT unit :=
  i ← the_sender a;
  s ← stream_at a;
  whenM (on_send_list (sndvar s))
    (stream_mod a (fun s => s <| sndvar ::= on_send_list ↦ false |>);;
     x ← sender_at i;
     l ← unwrap CorruptList (TAILQ_REMOVE (send_list x) a);
     sender_mod i (fun x => x <| send_list := l |> <| send_list_cnt ::= Z.pred |>)).

Definition RemoveFromACKList (a : Z) : MT unit :=
  i ← the_sender a;
  s ← stream_at a;
  whenM (on_ack_list (sndvar s))
    (stream_mod a (fun s => s <| sndvar ::= on_ack_list ↦ false |>);;
     x ← sender_at i;
     l ← unwrap CorruptList (TAILQ_REMOVE (ack_list x) a);
     sender_mod i (fun x => x <| ack_list := l |> <| ack_list_cnt ::= Z.pred |>)).

(** [ack_cnt] is a bit field of six bits; its increment is guarded by a comparison that is
    made in [int] and is always true. *)
Definition u6 (z : Z) : Z := z mod 64.

Definition EnqueueACK (a : Z) (opt : ack_opt) : MT unit :=
  s ← stream_at a;
  match opt with
  | ACK_OPT_NOW =>
      whenM (ack_cnt (sndvar s) <? ack_cnt (sndvar s) + 1)
        (stream_mod a (fun s => s <| sndvar ::= fun v => v <| ack_cnt := u6 (ack_cnt v + 1) |> |>))
  | ACK_OPT_AGGREGATE =>
      whenM (ack_cnt (sndvar s) =? 0)
        (stream_mod a (fun s => s <| sndvar ::= ack_cnt ↦ 1 |>))
  | ACK_OPT_WACK => stream_mod a (fun s => s <| sndvar ::= is_wack ↦ true |>)
  end;;
  AddtoACKList a.

(** ** Timers *)

Definition InitRTOHashstore (calloc_ok : bool) : option rto_hashstore :=
  if calloc_ok then Some (RtoHashstore 0 0 ∅) else None.

Definition set_rto_list (i : Z) (l : list Z) : MT unit :=
  modify (fun m => m <| rto_store ::= fun r => r <| rto_list ::= insert i l |> |>).

(** The slot for expiry [ts_rto]; the sum of [int] and [uint32_t] is unsigned. *)
Definition rto_slot (r : rto_hashstore) (diff : Z) : Z :=
  if diff <? RTO_HASH then u32 (diff + rto_now_idx r) mod RTO_HASH else RTO_HASH.

Definition AddtoRTOList (a : Z) : MT unit :=
  s ← stream_at a;
  m ← get;
  whenM (rto_list_cnt m =? 0)
    (modify (fun m => m <| rto_store ::= fun r =>
       r <| rto_now_idx := 0 |> <| rto_now_ts := ts_rto (sndvar s) |> |>));;
  whenM ((on_rto_idx s <? 0) && negb (on_timewait_list s))
    (m ← get;
     let diff := i32 (u32 (ts_rto (sndvar s) - rto_now_ts (rto_store m))) in
     let slot := rto_slot (rto_store m) diff in
     stream_mod a (fun s => s <| on_rto_idx := slot |>);;
     set_rto_list slot (TAILQ_INSERT_TAIL (bin (rto_list (rto_store m)) slot) a);;
     modify (fun m => m <| rto_list_cnt ::= Z.succ |>)).

Definition RemoveFromRTOList (a : Z) : MT unit :=
  s ← stream_at a;
  if on_rto_idx s <? 0 then mret tt
  else
    m ← get;
    l ← unwrap CorruptList (TAILQ_REMOVE (bin (rto_list (rto_store m)) (on_rto_idx s)) a);
    set_rto_list (on_rto_idx s) l;;
    stream_mod a (fun s => s <| on_rto_idx := -1 |>);;
    modify (fun m => m <| rto_list_cnt ::= Z.pred |>).

Definition AddtoTimewaitList (a cur_ts : Z) : MT unit :=
  m ← get;
  stream_mod a (fun s => s <| rcvvar ::= ts_tw_expire ↦ u32 (cur_ts + tcp_timewait (CONFIG m)) |>);;
  s ← stream_at a;
  if on_timewait_list s then
    l ← unwrap CorruptList (TAILQ_REMOVE (timewait_list m) a);
    modify (fun m => m <| timewait_list := TAILQ_INSERT_TAIL l a |>)
  else
    whenM (0 <=? on_rto_idx s) (RemoveFromRTOList a);;
    stream_mod a (fun s => s <| on_timewait_list := true |>);;
    modify (fun m => m <| timewait_list ::= fun l => TAILQ_INSERT_TAIL l a |>
                       <| timewait_list_cnt ::= Z.succ |>).

Definition RemoveFromTimewaitList (a : Z) : MT unit :=
  s ← stream_at a;
  assertM (on_timewait_list s);;
  m ← get;
  l ← unwrap CorruptList (TAILQ_REMOVE (timewait_list m) a);
  stream_mod a (fun s => s <| on_timewait_list := false |>);;
  modify (fun m => m <| timewait_list := l |> <| timewait_list_cnt ::= Z.pred |>).

Definition AddtoTimeoutList (a : Z) : MT unit :=
  s ← stream_at a;
  assertM (negb (on_timeout_list s));;
  stream_mod a (fun s => s <| on_timeout_list := true |>);;
  modify (fun m => m <| timeout_list ::= fun l => TAILQ_INSERT_TAIL l a |>
                     <| timeout_list_cnt ::= Z.succ |>).

(** [if (CONFIG.tcp_timeout > 0) AddtoTimeoutList(...)] *)
Definition watch_timeout (a : Z) : MT unit :=
  m ← get; whenM (0 <? tcp_timeout (CONFIG m)) (AddtoTimeoutList a).

Definition RemoveFromTimeoutList (a : Z) : MT unit :=
  s ← stream_at a;
  whenM (on_timeout_list s)
    (stream_mod a (fun s => s <| on_timeout_list := false |>);;
     m ← get;
     l ← unwrap CorruptList (TAILQ_REMOVE (timeout_list m) a);
     modify (fun m => m <| timeout_list := l |> <| timeout_list_cnt ::= Z.pred |>)).

Definition UpdateTimeoutList (a : Z) : MT unit :=
  s ← stream_at a;
  whenM (on_timeout_list s)
    (m ← get;
     l ← unwrap CorruptList (TAILQ_REMOVE (timeout_list m) a);
     modify (fun m => m <| timeout_list := TAILQ_INSERT_TAIL l a |>)).

Definition UpdateRetransmissionTimer (a cur_ts : Z) : MT unit :=
  s ← stream_at a;
  assertM (0 <? rto (sndvar s));;
  stream_mod a (fun s => s <| sndvar ::= nrtx ↦ 0 |>);;
  whenM (0 <=? on_rto_idx s) (RemoveFromRTOList a);;
  s ← stream_at a;
  whenM (TCP_SEQ_GT (snd_nxt s) (snd_una (sndvar s)))
    (stream_mod a (fun s => s <| sndvar ::= ts_rto ↦ u32 (cur_ts + rto (sndvar s)) |>);;
     AddtoRTOList a).
