(* ===== verification/TcpStream.v ===== *)
(** * Creating and destroying streams ([tcp_stream.c]) *)

From S2P Require Import Prelude Queues MemPool SendBuffer RingBuffer AddrPool Mtcp Output Fhash Lists.

Section TcpStream.
Context `{Platform}.

Definition free_stream (a : Z) : MT unit :=
  zoom flow_pool (MPFreeChunk a);;
  modify (fun m => m <| streams ::= delete a |>).

(** The allocations of [CreateTCPStream]: the stream and its two sets of variables, or
    none of them. *)
Definition alloc_stream : MT Z :=
  a ← zoom flow_pool MPAllocateChunk;
  if a =? 0 then mret 0
  else
    stream_set a zero_stream;;
    rv ← zoom rv_pool MPAllocateChunk;
    if rv =? 0 then free_stream a;; mret 0
    else
      sv ← zoom sv_pool MPAllocateChunk;
      if sv =? 0 then
        zoom rv_pool (MPFreeChunk rv);;
        free_stream a;; mret 0
      else
        stream_mod a (fun s => s <| rv_chunk := rv |> <| sv_chunk := sv |>);;
        mret a.

(** The assignments of [CreateTCPStream] after the stream is in the flow table. *)
Definition init_stream (a : Z) (type : Z) : MT unit :=
  stream_mod a (fun s => s <| stream_type := type |> <| state := TCP_ST_LISTEN |>
    <| on_rto_idx := -1 |>
    <| sndvar ::= fun v => v <| ip_id := 0 |> <| mss := TCP_DEFAULT_MSS |>
                             <| wscale_mine := TCP_DEFAULT_WSCALE |> <| wscale_peer := 0 |> |>);;
  s ← stream_at a;
  r ← GetOutputInterface (daddr s);
  n ← env_tick;
  m ← get;
  let seq := rand_r n mod TCP_MAX_SEQ in
  stream_mod a (fun s => s <| is_external := r.2 |>
    <| snd_nxt := seq |> <| rcv_nxt := 0 |>
    <| sndvar ::= fun v => v <| nif_out := i8 r.1 |> <| iss := seq |> <| snd_una := seq |>
                             <| snd_wnd := u32 (sndbuf_size (CONFIG m)) |> <| rto := TCP_INITIAL_RTO |> |>
    <| rcvvar ::= fun v => v <| irs := 0 |> <| rcv_wnd := TCP_INITIAL_WINDOW |>
                             <| snd_wl1 := u32 (0 - 1) |> |>).

(** The address of the new stream, [0] for [NULL]. *)
Definition CreateTCPStream (sock : option Z) (type saddr' sport' daddr' dport' : Z) : MT Z :=
  a ← alloc_stream;
  if a =? 0 then mret 0
  else
    m ← get;
    modify (fun m => m <| g_id := u32 (g_id m + 1) |>);;
    stream_mod a (fun s => s <| stream_id := g_id m mod 16777216 |> <| saddr := saddr' |>
      <| sport := sport' |> <| daddr := daddr' |> <| dport := dport' |>);;
    ret ← StreamHTInsert a;
    if ret <? 0 then free_stream a;; mret 0
    else
      stream_mod a (fun s => s <| on_hash_table := true |>);;
      modify (fun m => m <| flow_cnt := u32 (flow_cnt m + 1) |>);;
      match sock with
      | Some i =>
          stream_mod a (fun s => s <| socket := Some i |>);;
          socket_mod i (fun x => x <| sock_obj := a |>)
      | None => mret tt
      end;;
      init_stream a type;;
      mret a.

(** The buffers of a stream go back to their managers. *)
Definition free_buffers (a : Z) : MT unit :=
  s ← stream_at a;
  whenM (negb (sndbuf (sndvar s) =? 0))
    (zoom rbm_snd (Manager.SBFree (sndbuf (sndvar s)));;
     stream_mod a (fun s => s <| sndvar ::= sndbuf ↦ 0 |>));;
  s ← stream_at a;
  match rcvbuf (rcvvar s) with
  | Some _ =>
      rcvbuf_run a RBFree;;
      stream_mod a (fun s => s <| rcvvar ::= rcvbuf ↦ None |>)
  | None => mret tt
  end.

(** The address of a stream goes back to the pool it came from; the result of
    [FreeAddress] is only traced. *)
Definition free_bound_addr (addr : sockaddr_in) : MT unit :=
  m ← get;
  match ap m with
  | Some p =>
      match FreeAddress addr p with
      | Ok _ p' => modify (fun m => m <| ap := Some p' |>)
      | Fault e => throw e
      end
  | None =>
      r ← GetOutputInterface (sin_addr addr);
      eidx ← eidx_of r.1;
      match g_ap m !! eidx with
      | Some p =>
          match FreeAddress addr p with
          | Ok _ p' => modify (fun m => m <| g_ap ::= insert eidx p' |>)
          | Fault e => throw e
          end
      | None => mret tt
      end
  end.

(** Off every list, and the buffers freed; [s] is the stream as it was found. *)
Definition detach_stream (a : Z) (s : tcp_stream) : MT unit :=
  RemoveFromControlList a;;
  RemoveFromSendList a;;
  RemoveFromACKList a;;
  whenM (0 <=? on_rto_idx s) (RemoveFromRTOList a);;
  whenM (on_timewait_list s) (RemoveFromTimewaitList a);;
  m ← get;
  whenM (0 <? tcp_timeout (CONFIG m)) (RemoveFromTimeoutList a);;
  assertM (on_hash_table s);;
  free_buffers a.

(** Out of the flow table, back to the pools, and its address back to its pool. *)
Definition unlink_stream (a : Z) (s : tcp_stream) : MT unit :=
  StreamHTRemove a;;
  stream_mod a (fun s => s <| on_hash_table := false |>);;
  modify (fun m => m <| flow_cnt := u32 (flow_cnt m - 1) |>);;
  zoom rv_pool (MPFreeChunk (rv_chunk s));;
  zoom sv_pool (MPFreeChunk (sv_chunk s));;
  free_stream a;;
  whenM (is_bound_addr s) (free_bound_addr (SockaddrIn (saddr s) (sport s))).

Definition DestroyTCPStream (a : Z) : MT unit :=
  s ← stream_at a;
  detach_stream a s;;
  unlink_stream a s.

End TcpStream.
