(* ===== verification/TcpOut.v ===== *)
(** * Sending segments ([tcp_out.c]) *)

From S2P Require Import Prelude SeqArith Bytes SendBuffer RingBuffer Mtcp TcpUtil Output Lists TcpStream.

Section TcpOut.
Context `{Platform}.

(** ** One segment *)

(** Writing a TCP segment behind the IP header of frame [f]. *)
Definition frame_tcp (f : nat) (h : tcphdr) (rest : list Z) : MT unit :=
  modify (fun m => m <| tx ::= alter (fun fr =>
    match fr_body fr with
    | Ip ih _ => fr <| fr_body := Ip ih (L4Tcp h rest) |>
    | _ => fr
    end) f |>).

(** The checksum of a segment, [0] when the device computes it. *)
Definition tcp_check (nif : Z) (h : tcphdr) (rest : list Z) (sa da : Z) : MT Z :=
  rc ← ioctl nif PKT_TX_TCPIP_CSUM;
  mret (if rc =? -1 then TCPCalcChecksum (tcph_bytes h ++ rest) sa da else 0).

Definition SendTCPPacketStandalone (sa sp da dp seq ack_seq window flags : Z)
    (payload : list Z) (cur_ts echo_ts : Z) : MT Z :=
  let optlen := CalculateOptionLength flags in
  let payloadlen := zlen payload in
  if TCP_DEFAULT_MSS <? payloadlen + optlen then throw AssertFail
  else
    f ← IPOutputStandalone IPPROTO_TCP 0 sa da (TCP_HEADER_LEN + optlen + payloadlen);
    match f with
    | None => mret (-1)
    | Some f =>
        let opts := [TCP_OPT_NOP; TCP_OPT_NOP; TCP_OPT_TIMESTAMP; TCP_OPT_TIMESTAMP_LEN]
                    ++ bytes32 (htonl cur_ts) ++ bytes32 (htonl echo_ts)
                    ++ repeat 0 (Z.to_nat (optlen - 12)) in
        let h := TcpHdr sp dp (htonl seq) (if has flags TCP_FLAG_ACK then htonl ack_seq else 0)
                   (Z.shiftr (TCP_HEADER_LEN + optlen) 2)
                   (has flags TCP_FLAG_FIN) (has flags TCP_FLAG_SYN) (has flags TCP_FLAG_RST)
                   (has flags TCP_FLAG_PSH) (has flags TCP_FLAG_ACK) false
                   (htons (Z.min window TCP_MAX_WINDOW)) 0 0 0 0 in
        r ← (match dev_ioctl with
             | Some _ => GetOutputInterface da
             | None => mret (-1, false)
             end);
        c ← tcp_check r.1 h (opts ++ payload) sa da;
        frame_tcp f (h <| th_check := c |>) (opts ++ payload);;
        mret (if th_syn h || th_fin h then payloadlen + 1 else payloadlen)
    end.

(** The sequence number of a segment with [flags]. *)
Definition segment_seq (s : tcp_stream) (flags : Z) : Z :=
  if has flags TCP_FLAG_WACK then u32 (snd_nxt s - 1)
  else if has flags TCP_FLAG_FIN then fss (sndvar s)
  else snd_nxt s.

(** [fin] is only set when the segment is not a window probe. *)
Definition segment_fin (flags : Z) : bool := negb (has flags TCP_FLAG_WACK) && has flags TCP_FLAG_FIN.

(** The header of a segment, with its checksum field zero. *)
Definition segment_header (s : tcp_stream) (flags optlen : Z) : tcphdr :=
  let wscale := if has flags TCP_FLAG_SYN then 0 else wscale_mine (sndvar s) in
  let window32 := Z.shiftr (rcv_wnd (rcvvar s)) wscale in
  TcpHdr (sport s) (dport s) (htonl (segment_seq s flags))
    (if has flags TCP_FLAG_ACK then htonl (rcv_nxt s) else 0)
    (Z.shiftr (TCP_HEADER_LEN + optlen) 2)
    (segment_fin flags) (has flags TCP_FLAG_SYN) (has flags TCP_FLAG_RST)
    (has flags TCP_FLAG_PSH) (has flags TCP_FLAG_ACK) false
    (htons (u16 (Z.min window32 TCP_MAX_WINDOW))) 0 0 0 0.

(** The bookkeeping while the header is filled. *)
Definition segment_marks (a cur_ts flags : Z) : MT unit :=
  whenM (segment_fin flags) (stream_mod a (fun s => s <| sndvar ::= is_fin_sent ↦ true |>));;
  whenM (has flags TCP_FLAG_ACK)
    (stream_mod a (fun s => s <| sndvar ::= ts_lastack_sent ↦ cur_ts |> <| last_active_ts := cur_ts |>);;
     UpdateTimeoutList a);;
  s ← stream_at a;
  let wscale := if has flags TCP_FLAG_SYN then 0 else wscale_mine (sndvar s) in
  whenM (Z.shiftr (rcv_wnd (rcvvar s)) wscale =? 0)
    (stream_mod a (fun s => s <| need_wnd_adv := true |>)).

(** The sequence space and the retransmission timer after the segment is written; SYN and
    FIN ([synfin]) occupy a sequence number. *)
Definition segment_sent (a cur_ts payloadlen : Z) (synfin : bool) : MT Z :=
  stream_mod a (fun s => s <| snd_nxt := u32 (snd_nxt s + payloadlen) |>);;
  whenM synfin (stream_mod a (fun s => s <| snd_nxt := u32 (snd_nxt s + 1) |>));;
  let payloadlen := if synfin then u16 (payloadlen + 1) else payloadlen in
  whenM (0 <? payloadlen)
    (stream_mod a (fun s => s <| sndvar ::= ts_rto ↦ u32 (cur_ts + rto (sndvar s)) |>);;
     AddtoRTOList a);;
  mret payloadlen.

(** [src] is the memory [payload] points to. *)
Definition SendTCPPacket (a cur_ts flags : Z) (src : list Z) (payloadlen : Z) : MT Z :=
  let optlen := CalculateOptionLength flags in
  s ← stream_at a;
  if mss (sndvar s) <? payloadlen + optlen then mret (-1)
  else
    f ← IPOutput a (TCP_HEADER_LEN + optlen + payloadlen);
    match f with
    | None => mret (-2)
    | Some f =>
        segment_marks a cur_ts flags;;
        s ← stream_at a;
        payload ← (if 0 <? payloadlen then unwrap OutOfBounds (mem_read src 0 payloadlen) else mret []);
        let h := segment_header s flags optlen in
        let rest := GenerateTCPOptions s cur_ts flags ++ payload in
        c ← tcp_check (nif_out (sndvar s)) h rest (saddr s) (daddr s);
        frame_tcp f (h <| th_check := c |>) rest;;
        segment_sent a cur_ts payloadlen (th_syn h || th_fin h)
    end.

(** ** The send buffer *)

(** The loop of [FlushTCPSendingBuffer]; the result is [packets]. *)
Fixpoint flush_loop (fuel : nat) (a cur_ts packets : Z) : MT Z :=
  s ← stream_at a;
  let v := sndvar s in
  b ← sndbuf_at (sndbuf v);
  let seq := snd_nxt s in
  let off := u32 (seq - Buffer.head_seq b) in
  let len := u32 (Buffer.len b - off) in
  assertM (negb (TCP_SEQ_LT seq (Buffer.head_seq b)));;
  assertM (negb (TCP_SEQ_LT seq (snd_una v)));;
  assertM (negb (Buffer.len b <? off));;
  if len =? 0 then mret packets
  else
    let inflight := u32 (seq - snd_una v) in
    let remaining_window := i32 (u32 (Z.min (cwnd v) (peer_wnd v) - inflight)) in
    if (remaining_window <=? 0) || ((remaining_window <? mss v) && (0 <? inflight)) then
      whenM ((peer_wnd v <=? cwnd v) && (500 <? TS_TO_MSEC (u32 (cur_ts - ts_lastack_sent v))))
        (EnqueueACK a ACK_OPT_WACK);;
      mret (-3)
    else
      let len := Z.min len remaining_window in
      let pkt_len := Z.min len (u32 (mss v - CalculateOptionLength TCP_FLAG_ACK)) in
      sndlen ← SendTCPPacket a cur_ts TCP_FLAG_ACK
        (drop (Z.to_nat (Buffer.head b + off)) (Buffer.data b)) (u16 pkt_len);
      if sndlen <? 0 then mret (-3)
      else
        match fuel with
        | O => throw OutOfFuel
        | S fuel' => flush_loop fuel' a cur_ts (packets + 1)
        end.

(** Every segment takes at least a byte off what is left to send. *)
Definition FlushTCPSendingBuffer (a cur_ts : Z) : MT Z :=
  s ← stream_at a;
  assertM (negb (sndbuf (sndvar s) =? 0));;
  b ← sndbuf_at (sndbuf (sndvar s));
  if Buffer.len b =? 0 then mret 0
  else flush_loop (Z.to_nat (Buffer.len b)) a cur_ts 0.

(** ** Control segments *)

Definition SendControlPacket (a cur_ts : Z) : MT Z :=
  s ← stream_at a;
  let v := sndvar s in
  let send flags := SendTCPPacket a cur_ts flags [] 0 in
  match state s with
  | TCP_ST_SYN_SENT => send TCP_FLAG_SYN
  | TCP_ST_SYN_RCVD =>
      stream_mod a (fun s => s <| snd_nxt := iss v |>);;
      send (Z.lor TCP_FLAG_SYN TCP_FLAG_ACK)
  | TCP_ST_ESTABLISHED | TCP_ST_CLOSE_WAIT | TCP_ST_FIN_WAIT_2 | TCP_ST_TIME_WAIT =>
      send TCP_FLAG_ACK
  | TCP_ST_LAST_ACK | TCP_ST_FIN_WAIT_1 =>
      if on_send_list v || on_ack_list v then mret (-1)
      else send (Z.lor TCP_FLAG_FIN TCP_FLAG_ACK)
  | TCP_ST_CLOSING =>
      if is_fin_sent v then
        if snd_nxt s =? fss v then send (Z.lor TCP_FLAG_FIN TCP_FLAG_ACK) else send TCP_FLAG_ACK
      else send (Z.lor TCP_FLAG_FIN TCP_FLAG_ACK)
  | TCP_ST_CLOSED =>
      if on_send_list v || on_ack_list v then mret (-1)
      else
        ret ← send TCP_FLAG_RST;
        whenM (0 <=? ret) (DestroyTCPStream a);;
        mret ret
  | TCP_ST_LISTEN => mret 0
  end.

(** ** The three lists of a sender *)

(** The loops over the lists of a sender visit [cur], then the element that followed it,
    until the element that was last when the loop started; [cnt] counts the visits, and
    [visit] says whether to leave the loop. *)
Fixpoint sender_loop (list_of : mtcp_sender -> list Z) (visit : Z -> MT bool) (fuel : nat)
    (i : sender_id) (thresh : Z) (last cur : option Z) (cnt : Z) : MT Z :=
  match cur, fuel with
  | None, _ => mret cnt
  | Some a, O => throw EndlessLoop
  | Some a, S fuel' =>
      if thresh <? cnt + 1 then mret (cnt + 1)
      else
        x ← sender_at i;
        let next := TAILQ_NEXT (list_of x) a in
        stop ← visit a;
        if stop || bool_decide (Some a = last) then mret (cnt + 1)
        else sender_loop list_of visit fuel' i thresh last next (cnt + 1)
  end.

(** *** Control segments *)

Definition control_visit (i : sender_id) (cur_ts a : Z) : MT bool :=
  x ← sender_at i;
  l ← unwrap CorruptList (TAILQ_REMOVE (control_list x) a);
  sender_mod i (fun x => x <| control_list := l |> <| control_list_cnt ::= Z.pred |>);;
  s ← stream_at a;
  if on_control_list (sndvar s) then
    stream_mod a (fun s => s <| sndvar ::= on_control_list ↦ false |>);;
    ret ← SendControlPacket a cur_ts;
    if ret =? -2 then
      sender_mod i (fun x => x <| control_list ::= fun l => TAILQ_INSERT_HEAD l a |>
                               <| control_list_cnt ::= Z.succ |>);;
      stream_mod a (fun s => s <| sndvar ::= on_control_list ↦ true |>);;
      mret true
    else if ret <? 0 then
      sender_mod i (fun x => x <| control_list ::= fun l => TAILQ_INSERT_TAIL l a |>
                               <| control_list_cnt ::= Z.succ |>);;
      stream_mod a (fun s => s <| sndvar ::= on_control_list ↦ true |>);;
      mret false
    else mret false
  else mret false.

Definition WriteTCPControlList (i : sender_id) (cur_ts thresh : Z) : MT Z :=
  x ← sender_at i;
  sender_loop control_list (control_visit i cur_ts) (length (control_list x)) i
    (Z.min thresh (control_list_cnt x)) (list.last (control_list x)) (hd_error (control_list x)) 0.

(** *** Data *)

(** Sending the data of a stream in the states that allow it. *)
Definition send_data (a cur_ts : Z) : MT Z :=
  s ← stream_at a;
  match state s with
  | TCP_ST_ESTABLISHED =>
      if on_control_list (sndvar s) then mret (-1) else FlushTCPSendingBuffer a cur_ts
  | TCP_ST_CLOSE_WAIT | TCP_ST_FIN_WAIT_1 | TCP_ST_LAST_ACK => FlushTCPSendingBuffer a cur_ts
  | _ => mret 0
  end.

(** Acknowledgements carried by [packets] data segments. *)
Definition piggyback (packets : Z) (v : tcp_send_vars) : tcp_send_vars :=
  if 0 <? ack_cnt v
  then v <| ack_cnt := if packets <? ack_cnt v then ack_cnt v - packets else 0 |>
  else v.

(** The stream whose data was sent, in [packets] segments. *)
Definition data_served (i : sender_id) (a packets : Z) : MT unit :=
  stream_mod a (fun s => s <| sndvar ::= on_send_list ↦ false |>);;
  sender_mod i (fun x => x <| send_list_cnt ::= Z.pred |>);;
  stream_mod a (fun s => s <| sndvar ::= piggyback packets |>);;
  s ← stream_at a;
  whenM (control_list_waiting s && negb (on_ack_list (sndvar s)))
    (stream_mod a (fun s => s <| control_list_waiting := false |>);;
     AddtoControlList a).

Definition data_visit (i : sender_id) (cur_ts a : Z) : MT bool :=
  x ← sender_at i;
  l ← unwrap CorruptList (TAILQ_REMOVE (send_list x) a);
  sender_mod i (fun x => x <| send_list := l |>);;
  s ← stream_at a;
  if on_send_list (sndvar s) then
    ret ← send_data a cur_ts;
    if ret <? 0 then
      sender_mod i (fun x => x <| send_list ::= fun l => TAILQ_INSERT_TAIL l a |>);;
      mret true
    else data_served i a ret;; mret false
  else mret false.

Definition WriteTCPDataList (i : sender_id) (cur_ts thresh : Z) : MT Z :=
  x ← sender_at i;
  sender_loop send_list (data_visit i cur_ts) (length (send_list x)) i thresh
    (list.last (send_list x)) (hd_error (send_list x)) 0.

(** *** Acknowledgements *)

(** [while (ack_cnt > 0)]: the queued acknowledgements, until no frame is available. *)
Fixpoint ack_burst (fuel : nat) (a cur_ts : Z) : MT unit :=
  s ← stream_at a;
  if 0 <? ack_cnt (sndvar s) then
    match fuel with
    | O => throw OutOfFuel
    | S fuel' =>
        ret ← SendTCPPacket a cur_ts TCP_FLAG_ACK [] 0;
        if ret <? 0 then mret tt
        else
          stream_mod a (fun s => s <| sndvar ::= fun v => v <| ack_cnt := u6 (ack_cnt v - 1) |> |>);;
          ack_burst fuel' a cur_ts
    end
  else mret tt.

(** Whether the state of a stream allows its data to be acknowledged. *)
Definition to_ack (s : tcp_stream) : bool :=
  st_in (state s) [TCP_ST_ESTABLISHED; TCP_ST_CLOSE_WAIT; TCP_ST_FIN_WAIT_1; TCP_ST_FIN_WAIT_2;
                   TCP_ST_TIME_WAIT] &&
  match rcvbuf (rcvvar s) with
  | Some b => TCP_SEQ_LEQ (rcv_nxt s) (u32 (head_seq b + merged_len b))
  | None => false
  end.

Definition leave_ack_list (i : sender_id) (a : Z) : MT unit :=
  x ← sender_at i;
  l ← unwrap CorruptList (TAILQ_REMOVE (ack_list x) a);
  sender_mod i (fun x => x <| ack_list := l |> <| ack_list_cnt ::= Z.pred |>).

(** The acknowledgements of one stream of the list. *)
Definition send_acks (i : sender_id) (a cur_ts : Z) : MT unit :=
  s ← stream_at a;
  (if to_ack s then
     ack_burst (Z.to_nat (ack_cnt (sndvar s))) a cur_ts;;
     s ← stream_at a;
     whenM (is_wack (sndvar s))
       (stream_mod a (fun s => s <| sndvar ::= is_wack ↦ false |>);;
        ret ← SendTCPPacket a cur_ts (Z.lor TCP_FLAG_ACK TCP_FLAG_WACK) [] 0;
        whenM (ret <? 0) (stream_mod a (fun s => s <| sndvar ::= is_wack ↦ true |>)));;
     s ← stream_at a;
     whenM (negb (negb (ack_cnt (sndvar s) =? 0) || is_wack (sndvar s)))
       (stream_mod a (fun s => s <| sndvar ::= on_ack_list ↦ false |>);;
        leave_ack_list i a)
   else
     stream_mod a (fun s => s <| sndvar ::= fun v =>
       v <| on_ack_list := false |> <| ack_cnt := 0 |> <| is_wack := false |> |>);;
     leave_ack_list i a);;
  s ← stream_at a;
  whenM (control_list_waiting s && negb (on_send_list (sndvar s)))
    (stream_mod a (fun s => s <| control_list_waiting := false |>);;
     AddtoControlList a).

Definition ack_visit (i : sender_id) (cur_ts a : Z) : MT bool :=
  s ← stream_at a;
  (if on_ack_list (sndvar s) then send_acks i a cur_ts else leave_ack_list i a);;
  mret false.

Definition WriteTCPACKList (i : sender_id) (cur_ts thresh : Z) : MT Z :=
  x ← sender_at i;
  sender_loop ack_list (ack_visit i cur_ts) (length (ack_list x)) i thresh
    (list.last (ack_list x)) (hd_error (ack_list x)) 0.

End TcpOut.
