(* ===== verification/Timer.v ===== *)
(** * Timeouts ([timer.c]) *)

From S2P Require Import Prelude SeqArith Mtcp Events Lists TcpStream TcpOut.

Section Timer.
Context `{Platform}.

(** A stream that cannot go on is reported to its socket, or destroyed when it has none. *)
Definition abandon (a : Z) : MT unit :=
  s ← stream_at a;
  match socket s with
  | Some _ => RaiseErrorEvent a
  | None => DestroyTCPStream a
  end.

Definition close_with (st : tcp_state) (why : tcp_close_reason) (a : Z) : MT unit :=
  stream_mod a (fun s => s <| state := st |> <| close_reason := why |>).

(** The new timeout and congestion variables after a retransmission timeout. *)
Definition backoff_rto (s : tcp_stream) : Z :=
  let v := sndvar s in
  if st_num TCP_ST_ESTABLISHED <=? st_num (state s) then
    let backoff := Z.min (nrtx v) TCP_MAX_BACKOFF in
    let r := u32 (Z.shiftl (u32 (Z.shiftr (srtt (rcvvar s)) 3 + rttvar (rcvvar s))) backoff) in
    if r <=? 0 then rto v else r
  else if st_num TCP_ST_SYN_SENT <=? st_num (state s) then
    if nrtx v <? TCP_MAX_BACKOFF then u32 (Z.shiftl (rto v) 1) else rto v
  else rto v.

Definition half_window (v : tcp_send_vars) : Z :=
  let h := Z.min (cwnd v) (peer_wnd v) / 2 in
  if h <? 2 * mss v then mss v * 2 else h.

Definition collapse_window (v : tcp_send_vars) : tcp_send_vars :=
  v <| ssthresh := half_window v |> <| cwnd := mss v |>.

(** The states whose loss is handled. *)
Definition rto_states : list tcp_state :=
  [TCP_ST_SYN_SENT; TCP_ST_SYN_RCVD; TCP_ST_ESTABLISHED; TCP_ST_CLOSE_WAIT; TCP_ST_LAST_ACK;
   TCP_ST_FIN_WAIT_1; TCP_ST_CLOSING].

(** Going back to [snd_una] and putting the stream on the list its state calls for. *)
Definition retransmit (a : Z) : MT unit :=
  stream_mod a (fun s => s <| snd_nxt := snd_una (sndvar s) |>);;
  s ← stream_at a;
  if st_in (state s) [TCP_ST_ESTABLISHED; TCP_ST_CLOSE_WAIT] then AddtoSendList a
  else if st_in (state s) [TCP_ST_FIN_WAIT_1; TCP_ST_CLOSING; TCP_ST_LAST_ACK] then
    if TCP_SEQ_LT (snd_nxt s) (fss (sndvar s)) then
      whenM (on_control_list (sndvar s)) (RemoveFromControlList a);;
      stream_mod a (fun s => s <| control_list_waiting := true |>);;
      AddtoSendList a
    else AddtoControlList a
  else AddtoControlList a.

(** [0] or [ERROR]. *)
Definition HandleRTO (cur_ts a : Z) : MT Z :=
  s ← stream_at a;
  assertM (0 <? rto (sndvar s));;
  if negb (bool_decide (close_reason s = TCP_NOT_CLOSED)) then mret 0
  else if negb (nrtx (sndvar s) <? TCP_MAX_RTX) then
    (if st_num (state s) <? st_num TCP_ST_ESTABLISHED then
       close_with TCP_ST_CLOSED TCP_CONN_FAIL a;; DestroyTCPStream a
     else
       close_with TCP_ST_CLOSED TCP_CONN_LOST a;; abandon a);;
    mret (-1)
  else
    stream_mod a (fun s => s <| sndvar ::= fun v => v <| nrtx := u8 (nrtx v + 1) |> |>);;
    stream_mod a (fun s => s <| sndvar ::= fun v => v <| max_nrtx := Z.max (max_nrtx v) (nrtx v) |> |>);;
    stream_mod a (fun s => s <| sndvar ::= rto ↦ backoff_rto s |>);;
    stream_mod a (fun s => s <| sndvar ::= collapse_window |>);;
    s ← stream_at a;
    if st_in (state s) [TCP_ST_SYN_SENT] && (TCP_MAX_SYN_RETRY <? nrtx (sndvar s)) then
      close_with TCP_ST_CLOSED TCP_CONN_FAIL a;;
      abandon a;;
      mret (-1)
    else
      assertM (st_in (state s) rto_states);;
      if have_reset s && st_in (state s) [TCP_ST_SYN_RCVD] then DestroyTCPStream a;; mret 0
      else retransmit a;; mret 0.

(** The streams that were too far in the future for a slot: [walk] are those not visited
    yet. *)
Fixpoint RearrangeRTOStore_loop (walk : list Z) : MT unit :=
  match walk with
  | [] => mret tt
  | a :: next =>
      s ← stream_at a;
      m ← get;
      let r := rto_store m in
      let diff := i32 (u32 (rto_now_ts r - ts_rto (sndvar s))) in
      whenM (diff <? RTO_HASH)
        (let offset := u32 (diff + rto_now_idx r) mod RTO_HASH in
         l ← unwrap CorruptList (TAILQ_REMOVE (bin (rto_list r) RTO_HASH) a);
         set_rto_list RTO_HASH l;;
         stream_mod a (fun s => s <| on_rto_idx := offset |>);;
         m ← get;
         set_rto_list offset (TAILQ_INSERT_TAIL (bin (rto_list (rto_store m)) offset) a));;
      RearrangeRTOStore_loop next
  end.

Definition RearrangeRTOStore : MT unit :=
  m ← get; RearrangeRTOStore_loop (bin (rto_list (rto_store m)) RTO_HASH).

(** The loop over one slot; the result is the new [cnt]. *)
Fixpoint rto_slot_loop (fuel : nat) (cur_ts thresh idx : Z) (walk : option Z) (cnt : Z) : MT Z :=
  match walk, fuel with
  | None, _ => mret cnt
  | Some a, O => throw EndlessLoop
  | Some a, S fuel' =>
      if thresh <? cnt + 1 then mret (cnt + 1)
      else
        m ← get;
        let l := bin (rto_list (rto_store m)) idx in
        let next := TAILQ_NEXT l a in
        s ← stream_at a;
        whenM (0 <=? on_rto_idx s)
          (l' ← unwrap CorruptList (TAILQ_REMOVE l a);
           set_rto_list idx l';;
           modify (fun m => m <| rto_list_cnt ::= Z.pred |>);;
           stream_mod a (fun s => s <| on_rto_idx := -1 |>);;
           HandleRTO cur_ts a;;
           mret tt);;
        rto_slot_loop fuel' cur_ts thresh idx next (cnt + 1)
  end.

(** The loop over slots: each round advances the clock of the store by a tick. *)
Fixpoint rto_clock_loop (fuel : nat) (cur_ts thresh cnt : Z) : MT unit :=
  m ← get;
  let r := rto_store m in
  if i32 (u32 (cur_ts - rto_now_ts r)) <? 0 then mret tt
  else
    match fuel with
    | O => throw EndlessLoop
    | S fuel' =>
        let l := bin (rto_list r) (rto_now_idx r) in
        cnt ← rto_slot_loop (length l) cur_ts thresh (rto_now_idx r) (hd_error l) cnt;
        if thresh <? cnt then mret tt
        else
          modify (fun m => m <| rto_store ::= fun r =>
            r <| rto_now_idx := u32 (rto_now_idx r + 1) mod RTO_HASH |>
              <| rto_now_ts := u32 (rto_now_ts r + 1) |> |>);;
          m ← get;
          whenM (rto_now_idx (rto_store m) mod 1000 =? 0) RearrangeRTOStore;;
          rto_clock_loop fuel' cur_ts thresh cnt
    end.

Definition CheckRtmTimeout (cur_ts thresh : Z) : MT unit :=
  m ← get;
  if rto_list_cnt m =? 0 then mret tt
  else
    rto_clock_loop (Z.to_nat (i32 (u32 (cur_ts - rto_now_ts (rto_store m))) + 1)) cur_ts thresh 0.

Fixpoint timewait_loop (fuel : nat) (cur_ts thresh : Z) (walk : option Z) (cnt : Z) : MT unit :=
  match walk, fuel with
  | None, _ => mret tt
  | Some a, O => throw EndlessLoop
  | Some a, S fuel' =>
      if thresh <? cnt + 1 then mret tt
      else
        m ← get;
        let next := TAILQ_NEXT (timewait_list m) a in
        s ← stream_at a;
        if on_timewait_list s then
          if i32 (u32 (cur_ts - ts_tw_expire (rcvvar s))) <? 0 then mret tt
          else
            whenM (negb (on_control_list (sndvar s)))
              (l ← unwrap CorruptList (TAILQ_REMOVE (timewait_list m) a);
               modify (fun m => m <| timewait_list := l |> <| timewait_list_cnt ::= Z.pred |>);;
               stream_mod a (fun s => s <| on_timewait_list := false |>);;
               close_with TCP_ST_CLOSED TCP_ACTIVE_CLOSE a;;
               DestroyTCPStream a);;
            timewait_loop fuel' cur_ts thresh next (cnt + 1)
        else timewait_loop fuel' cur_ts thresh next (cnt + 1)
  end.

Definition CheckTimewaitExpire (cur_ts thresh : Z) : MT unit :=
  m ← get;
  timewait_loop (length (timewait_list m)) cur_ts thresh (hd_error (timewait_list m)) 0.

Fixpoint timeout_loop (fuel : nat) (cur_ts thresh : Z) (walk : option Z) (cnt : Z) : MT unit :=
  match walk, fuel with
  | None, _ => mret tt
  | Some a, O => throw EndlessLoop
  | Some a, S fuel' =>
      if thresh <? cnt + 1 then mret tt
      else
        m ← get;
        let next := TAILQ_NEXT (timeout_list m) a in
        s ← stream_at a;
        if tcp_timeout (CONFIG m) <=? i32 (u32 (cur_ts - last_active_ts s)) then
          stream_mod a (fun s => s <| on_timeout_list := false |>);;
          l ← unwrap CorruptList (TAILQ_REMOVE (timeout_list m) a);
          modify (fun m => m <| timeout_list := l |> <| timeout_list_cnt ::= Z.pred |>);;
          close_with TCP_ST_CLOSED TCP_TIMEDOUT a;;
          abandon a;;
          timeout_loop fuel' cur_ts thresh next (cnt + 1)
        else mret tt
  end.

Definition CheckConnectionTimeout (cur_ts thresh : Z) : MT unit :=
  m ← get;
  timeout_loop (length (timeout_list m)) cur_ts thresh (hd_error (timeout_list m)) 0.

End Timer.
