(* ===== verification/TcpIn.v ===== *)
(** * Receiving segments ([tcp_in.c])

    [ProcessTCPPacket] and everything it calls: lookup and creation of the stream, sequence
    validation, and one handler per connection state. *)

From S2P Require Import Prelude SeqArith Bytes Queues SendBuffer RingBuffer AddrPool Mtcp TcpUtil Output Events Fhash Lists TcpStream TcpOut.

Section TcpIn.
Context `{Platform}.

(** The segment being processed: its headers and the bytes behind the fixed TCP header;
    [p_ip_len] is the total length the IP header announces. *)
Record packet := Packet { p_iph : iphdr; p_tcph : tcphdr; p_rest : list Z; p_ip_len : Z }.

Definition seg_bytes (p : packet) : list Z := tcph_bytes (p_tcph p) ++ p_rest p.
Definition payload (p : packet) : list Z := drop (Z.to_nat (doff (p_tcph p) * 4)) (seg_bytes p).
Definition payloadlen (p : packet) : Z := p_ip_len p - (ihl (p_iph p) * 4 + doff (p_tcph p) * 4).
Definition opt_len (p : packet) : Z := doff (p_tcph p) * 4 - TCP_HEADER_LEN.
Definition p_seq (p : packet) : Z := ntohl (th_seq (p_tcph p)).
Definition p_ack (p : packet) : Z := ntohl (th_ack_seq (p_tcph p)).
Definition p_window (p : packet) : Z := ntohs (th_window (p_tcph p)).
(** [seq + payloadlen] *)
Definition p_end (p : packet) : Z := u32 (p_seq p + payloadlen p).

(** A segment that answers [p] without a stream. *)
Definition answer (p : packet) (seq ack_seq flags cur_ts : Z) : MT unit :=
  SendTCPPacketStandalone (iph_daddr (p_iph p)) (dest (p_tcph p)) (iph_saddr (p_iph p))
    (source (p_tcph p)) seq ack_seq 0 flags [] cur_ts 0;;
  mret tt.

(** ** Opening *)

Definition FilterSYNPacket (ip port : Z) : MT bool :=
  l ← ListenerHTSearch port;
  match l with
  | None => mret false
  | Some l =>
      x ← listener_at l;
      i ← unwrap NullPointer (listen_socket x);
      s ← socket_at i;
      if sock_port s =? port then
        if negb (sock_addr s =? 0) then mret (ip =? sock_addr s)
        else m ← get; mret (existsb (fun e => ip =? ip_addr e) (eths (CONFIG m)))
      else mret false
  end.


(** The new stream, [0] when there is none. *)
Definition HandlePassiveOpen (cur_ts : Z) (p : packet) : MT Z :=
  a ← CreateTCPStream None MTCP_SOCK_STREAM (iph_daddr (p_iph p)) (dest (p_tcph p))
        (iph_saddr (p_iph p)) (source (p_tcph p));
  if a =? 0 then mret 0
  else
    stream_mod a (fun s => s <| rcvvar ::= irs ↦ p_seq p |>
      <| sndvar ::= fun v => v <| peer_wnd := p_window p |> <| cwnd := 1 |> |>
      <| rcv_nxt := p_seq p |>);;
    stream_run a (ParseTCPOptions (p_rest p) (opt_len p) cur_ts);;
    mret a.

Definition HandleActiveOpen (a cur_ts : Z) (p : packet) : MT unit :=
  stream_mod a (fun s => s
    <| rcvvar ::= fun v => v <| irs := p_seq p |> <| snd_wl1 := u32 (p_seq p - 1) |>
                             <| last_ack_seq := p_ack p |> |>
    <| snd_nxt := p_ack p |> <| sndvar ::= peer_wnd ↦ p_window p |>
    <| rcv_nxt := u32 (p_seq p + 1) |>);;
  stream_run a (ParseTCPOptions (p_rest p) (opt_len p) cur_ts);;
  stream_mod a (fun s => s <| sndvar ::= fun v =>
    v <| cwnd := if cwnd v =? 1 then mss v * 2 else mss v |> <| ssthresh := mss v * 10 |> |>);;
  UpdateRetransmissionTimer a cur_ts.

(** ** Validation *)

(** Protection against wrapped sequence numbers; [false]: the segment is dropped. *)
Definition paws (a cur_ts : Z) (p : packet) : MT bool :=
  s ← stream_at a;
  if negb (th_rst (p_tcph p)) && saw_timestamp s then
    o ← ParseTCPTimestamp (p_rest p) (opt_len p);
    match o with
    | None => mret false
    | Some ts =>
        if TCP_SEQ_LT (ts_val ts) (ts_recent (rcvvar s)) then EnqueueACK a ACK_OPT_NOW;; mret false
        else
          whenM (TCP_SEQ_GT (ts_val ts) (ts_recent (rcvvar s)))
            (stream_mod a (fun s => s <| rcvvar ::= ts_last_ts_upd ↦ cur_ts |>));;
          stream_mod a (fun s => s <| rcvvar ::= fun v =>
            v <| ts_recent := ts_val ts |> <| ts_lastack_rcvd := ts_ref ts |> |>);;
          mret true
    end
  else mret true.

Definition ValidateSequence (a cur_ts : Z) (p : packet) : MT bool :=
  ok ← paws a cur_ts p;
  if negb ok then mret false
  else
    s ← stream_at a;
    if TCP_SEQ_BETWEEN (p_end p) (rcv_nxt s) (u32 (rcv_nxt s + rcv_wnd (rcvvar s))) then mret true
    else if th_rst (p_tcph p) then mret false
    else
      (if st_in (state s) [TCP_ST_ESTABLISHED] then
         if u32 (p_seq p + 1) =? rcv_nxt s then EnqueueACK a ACK_OPT_AGGREGATE
         else if TCP_SEQ_LEQ (p_seq p) (rcv_nxt s) then EnqueueACK a ACK_OPT_AGGREGATE
         else EnqueueACK a ACK_OPT_NOW
       else
         whenM (st_in (state s) [TCP_ST_TIME_WAIT]) (AddtoTimewaitList a cur_ts);;
         AddtoControlList a);;
      mret false.

(** Whether the segment is done with. *)
Definition ProcessRST (a : Z) (p : packet) : MT bool :=
  s ← stream_at a;
  if st_num (state s) <=? st_num TCP_ST_SYN_SENT then mret false
  else if st_in (state s) [TCP_ST_SYN_RCVD] then
    whenM (p_ack p =? snd_nxt s)
      (stream_mod a (fun s => s <| state := TCP_ST_CLOSED |> <| close_reason := TCP_RESET |>);;
       DestroyTCPStream a);;
    mret true
  else if st_in (state s) [TCP_ST_FIN_WAIT_1; TCP_ST_FIN_WAIT_2; TCP_ST_LAST_ACK; TCP_ST_CLOSING;
                           TCP_ST_TIME_WAIT] then
    stream_mod a (fun s => s <| state := TCP_ST_CLOSED |> <| close_reason := TCP_ACTIVE_CLOSE |>);;
    DestroyTCPStream a;;
    mret true
  else
    let v := sndvar s in
    whenM (negb (on_closeq v || on_closeq_int v || on_resetq v || on_resetq_int v))
      (stream_mod a (fun s => s <| state := TCP_ST_CLOSE_WAIT |> <| close_reason := TCP_RESET |>);;
       RaiseCloseEvent a);;
    mret true.

(** ** Acknowledgements *)

(** [m] is a [long]; [srtt], [mdev] and [rttvar] are 32 bits wide. *)
Definition EstimateRTT (mrtt : Z) (s : tcp_stream) : tcp_stream :=
  let r := rcvvar s in
  let m := if mrtt =? 0 then 1 else mrtt in
  if negb (srtt r =? 0) then
    let m := m - Z.shiftr (srtt r) 3 in
    let r := r <| srtt := u32 (srtt r + m) |> in
    let m := if m <? 0 then
               let m := - m - Z.shiftr (mdev r) 2 in
               if 0 <? m then Z.shiftr m 3 else m
             else m - Z.shiftr (mdev r) 2 in
    let r := r <| mdev := u32 (mdev r + m) |> in
    let r := if mdev_max r <? mdev r then
               let r := r <| mdev_max := mdev r |> in
               if rttvar r <? mdev_max r then r <| rttvar := mdev_max r |> else r
             else r in
    let r := if TCP_SEQ_GT (snd_una (sndvar s)) (rtt_seq r) then
               let r := if mdev_max r <? rttvar r
                        then r <| rttvar := rttvar r - Z.shiftr (rttvar r - mdev_max r) 2 |> else r in
               r <| rtt_seq := snd_nxt s |> <| mdev_max := 0 |>
             else r in
    s <| rcvvar := r |>
  else
    let r := r <| srtt := u32 (Z.shiftl m 3) |> <| mdev := u32 (Z.shiftl m 1) |> in
    s <| rcvvar := r <| rttvar := Z.max (mdev r) 0 |> <| mdev_max := Z.max (mdev r) 0 |>
                     <| rtt_seq := snd_nxt s |> |>.

(** [ack_seq] with the acknowledgement of our FIN taken off. *)
Definition data_ack (s : tcp_stream) (ack_seq : Z) : Z :=
  if st_in (state s) [TCP_ST_FIN_WAIT_1; TCP_ST_FIN_WAIT_2; TCP_ST_CLOSING; TCP_ST_CLOSE_WAIT;
                      TCP_ST_LAST_ACK]
     && is_fin_sent (sndvar s) && (ack_seq =? u32 (fss (sndvar s) + 1))
  then u32 (ack_seq - 1) else ack_seq.

Definition update_window (a seq ack_seq cwindow : Z) : MT unit :=
  s ← stream_at a;
  let r := rcvvar s in
  let v := sndvar s in
  whenM (TCP_SEQ_LT (snd_wl1 r) seq || ((snd_wl1 r =? seq) && TCP_SEQ_LT (snd_wl2 r) ack_seq)
         || ((snd_wl2 r =? ack_seq) && (peer_wnd v <? cwindow)))
    (stream_mod a (fun s => s <| sndvar ::= peer_wnd ↦ cwindow |>
       <| rcvvar ::= fun r => r <| snd_wl1 := seq |> <| snd_wl2 := ack_seq |> |>);;
     let inflight := u32 (snd_nxt s - snd_una v) in
     whenM ((peer_wnd v <? inflight) && (inflight <=? cwindow)) (RaiseWriteEvent a)).

(** Counting duplicate acknowledgements; the comparison that guards the increment is made
    in [int]. *)
Definition count_dup (a ack_seq payloadlen right_wnd_edge : Z) : MT bool :=
  s ← stream_at a;
  let r := rcvvar s in
  let dup := TCP_SEQ_LT ack_seq (snd_nxt s) && (ack_seq =? last_ack_seq r) && (payloadlen =? 0)
             && (u32 (snd_wl2 r + peer_wnd (sndvar s)) =? right_wnd_edge) in
  (if dup then
     whenM (dup_acks r <? dup_acks r + 1)
       (stream_mod a (fun s => s <| rcvvar ::= fun r => r <| dup_acks := u8 (dup_acks r + 1) |> |>))
   else
     stream_mod a (fun s => s <| rcvvar ::= fun r => r <| dup_acks := 0 |> <| last_ack_seq := ack_seq |> |>));;
  mret dup.

(** [ssthresh] after a loss. *)
Definition loss_ssthresh (v : tcp_send_vars) : Z :=
  let h := Z.min (cwnd v) (peer_wnd v) / 2 in
  if h <? 2 * mss v then 2 * mss v else h.

Definition fast_retransmit (a ack_seq : Z) (dup : bool) : MT unit :=
  s ← stream_at a;
  if dup && (dup_acks (rcvvar s) =? 3) then
    whenM (TCP_SEQ_LT ack_seq (snd_nxt s)) (stream_mod a (fun s => s <| snd_nxt := ack_seq |>));;
    stream_mod a (fun s => s <| sndvar ::= fun v => v <| ssthresh := loss_ssthresh v |> |>);;
    stream_mod a (fun s => s <| sndvar ::= fun v => v <| cwnd := u32 (ssthresh v + 3 * mss v) |> |>);;
    stream_mod a (fun s => s <| sndvar ::= fun v =>
      v <| nrtx := if nrtx v <? TCP_MAX_RTX then u8 (nrtx v + 1) else nrtx v |> |>);;
    AddtoSendList a
  else if 3 <? dup_acks (rcvvar s) then
    let v := sndvar s in
    whenM (cwnd v <? u32 (cwnd v + mss v))
      (stream_mod a (fun s => s <| sndvar ::= fun v => v <| cwnd := u32 (cwnd v + mss v) |> |>))
  else mret tt.

(** The new congestion window on [packets] newly acknowledged segments. *)
Definition grow_cwnd (packets : Z) (v : tcp_send_vars) : MT Z :=
  if cwnd v <? ssthresh v then
    mret (if cwnd v <? u32 (cwnd v + mss v) then u32 (cwnd v + mss v * packets) else cwnd v)
  else
    (if cwnd v =? 0 then throw DivByZero else mret tt);;
    mret (Z.max (cwnd v) (u32 (cwnd v + u32 (packets * mss v * mss v) / cwnd v))).

(** New data is acknowledged: [rmlen] bytes leave the send buffer. *)
Definition accept_ack (a cur_ts ack_seq rmlen : Z) : MT unit :=
  s ← stream_at a;
  (if eff_mss (sndvar s) =? 0 then throw DivByZero else mret tt);;
  let q := rmlen / eff_mss (sndvar s) in
  let packets := if rmlen <? u32 (q * eff_mss (sndvar s)) then u16 (u16 q + 1) else u16 q in
  whenM (saw_timestamp s)
    (stream_mod a (EstimateRTT (u32 (cur_ts - ts_lastack_rcvd (rcvvar s))));;
     stream_mod a (fun s => s <| sndvar ::= rto ↦ u32 (Z.shiftr (srtt (rcvvar s)) 3 + rttvar (rcvvar s)) |>);;
     s ← stream_at a;
     assertM (0 <? rto (sndvar s)));;
  s ← stream_at a;
  whenM (st_num TCP_ST_ESTABLISHED <=? st_num (state s))
    (w ← grow_cwnd packets (sndvar s);
     stream_mod a (fun s => s <| sndvar ::= cwnd ↦ w |>));;
  sndbuf_run (sndbuf (sndvar s)) (Buffer.SBRemove rmlen);;
  b ← sndbuf_at (sndbuf (sndvar s));
  stream_mod a (fun s => s <| sndvar ::= fun v =>
    v <| snd_una := ack_seq |> <| snd_wnd := u32 (Buffer.size b - Buffer.len b) |> |>);;
  whenM (snd_wnd (sndvar s) =? 0) (RaiseWriteEvent a);;
  UpdateRetransmissionTimer a cur_ts.

Definition ProcessACK (a cur_ts : Z) (p : packet) : MT unit :=
  s ← stream_at a;
  let v := sndvar s in
  cwindow ← (if th_syn (p_tcph p) then mret (p_window p) else shl32 (p_window p) (wscale_peer v));
  let right_wnd_edge := u32 (peer_wnd v + snd_wl2 (rcvvar s)) in
  let ack_seq := data_ack s (p_ack p) in
  b ← sndbuf_at (sndbuf v);
  if TCP_SEQ_GT ack_seq (u32 (Buffer.head_seq b + Buffer.len b)) then mret tt
  else
    update_window a (p_seq p) ack_seq cwindow;;
    dup ← count_dup a ack_seq (payloadlen p) right_wnd_edge;
    fast_retransmit a ack_seq dup;;
    s ← stream_at a;
    whenM (TCP_SEQ_GT ack_seq (snd_nxt s))
      (stream_mod a (fun s => s <| snd_nxt := ack_seq |>);;
       whenM (Buffer.len b =? 0) (RemoveFromSendList a));;
    if TCP_SEQ_GEQ (Buffer.head_seq b) ack_seq then mret tt
    else
      let rmlen := u32 (ack_seq - Buffer.head_seq b) in
      whenM (0 <? rmlen) (accept_ack a cur_ts ack_seq rmlen).

(** ** Data *)

Definition rcvbuf_of (a : Z) : MT tcp_ring_buffer :=
  s ← stream_at a; unwrap NullPointer (rcvbuf (rcvvar s)).

(** The receive buffer, created on first use; [false] when there is no memory. *)
Definition ensure_rcvbuf (a : Z) : MT bool :=
  s ← stream_at a;
  match rcvbuf (rcvvar s) with
  | Some _ => mret true
  | None =>
      n ← env_tick;
      o ← zoom rbm_rcv (RBInit (negb (calloc n =? 0)) (garbage n) (u32 (irs (rcvvar s) + 1)));
      match o with
      | Some b => stream_mod a (fun s => s <| rcvvar ::= rcvbuf ↦ Some b |>);; mret true
      | None =>
          stream_mod a (fun s => s <| state := TCP_ST_CLOSED |> <| close_reason := TCP_NO_MEM |>);;
          RaiseErrorEvent a;;
          mret false
      end
  end.

(** [TRUE] (1), [FALSE] (0) or [ERROR] (-1). *)
Definition ProcessTCPPayload (a cur_ts : Z) (p : packet) : MT Z :=
  s ← stream_at a;
  if TCP_SEQ_LT (p_end p) (rcv_nxt s) then mret 0
  else if TCP_SEQ_GT (p_end p) (u32 (rcv_nxt s + rcv_wnd (rcvvar s))) then mret 0
  else
    ok ← ensure_rcvbuf a;
    if negb ok then mret (-1)
    else
      let prev_rcv_nxt := rcv_nxt s in
      n ← env_tick;
      rcvbuf_run a (RBPut (calloc n) (payload p) (u32 (payloadlen p)) (p_seq p));;
      s ← stream_at a;
      b ← rcvbuf_of a;
      whenM (st_in (state s) [TCP_ST_FIN_WAIT_1; TCP_ST_FIN_WAIT_2])
        (rcvbuf_run a (RBRemove (merged_len b) AT_MTCP);; mret tt);;
      b ← rcvbuf_of a;
      stream_mod a (fun s => s <| rcv_nxt := u32 (head_seq b + merged_len b) |>
        <| rcvvar ::= rcv_wnd ↦ u32 (size b - merged_len b) |>);;
      s ← stream_at a;
      if TCP_SEQ_LEQ (rcv_nxt s) prev_rcv_nxt then mret 0
      else
        whenM (st_in (state s) [TCP_ST_ESTABLISHED]) (RaiseReadEvent a);;
        mret 1.

(** [if (payloadlen > 0) { if (ProcessTCPPayload(...)) ... else ... }] *)
Definition take_payload (a cur_ts : Z) (p : packet) : MT unit :=
  whenM (0 <? payloadlen p)
    (r ← ProcessTCPPayload a cur_ts p;
     EnqueueACK a (if r =? 0 then ACK_OPT_NOW else ACK_OPT_AGGREGATE)).

(** [if (sndbuf) ProcessACK(...)] *)
Definition take_ack (a cur_ts : Z) (p : packet) : MT unit :=
  s ← stream_at a;
  whenM (negb (sndbuf (sndvar s) =? 0)) (ProcessACK a cur_ts p).

(** ** Connection states *)

(** The stream for a segment that belongs to none; [None]: it has been answered or
    dropped. *)
Definition CreateNewFlowHTEntry (cur_ts : Z) (p : packet) : MT (option Z) :=
  let h := p_tcph p in
  if th_syn h && negb (th_ack h) then
    let refuse :=
      answer p 0 (u32 (p_seq p + payloadlen p + 1)) (Z.lor TCP_FLAG_RST TCP_FLAG_ACK) cur_ts;;
      mret None in
    ok ← FilterSYNPacket (iph_daddr (p_iph p)) (dest h);
    if negb ok then refuse
    else
      a ← HandlePassiveOpen cur_ts p;
      if a =? 0 then refuse else mret (Some a)
  else if th_rst h then mret None
  else
    (if th_ack h then answer p (p_ack p) 0 TCP_FLAG_RST cur_ts
     else answer p 0 (p_end p) (Z.lor TCP_FLAG_RST TCP_FLAG_ACK) cur_ts);;
    mret None.

Definition Handle_TCP_ST_LISTEN (a : Z) (p : packet) : MT unit :=
  whenM (th_syn (p_tcph p))
    (s ← stream_at a;
     whenM (st_in (state s) [TCP_ST_LISTEN]) (stream_mod a (fun s => s <| rcv_nxt := u32 (rcv_nxt s + 1) |>));;
     stream_mod a (fun s => s <| state := TCP_ST_SYN_RCVD |>);;
     AddtoControlList a).

Definition Handle_TCP_ST_SYN_SENT (a cur_ts : Z) (p : packet) : MT unit :=
  let h := p_tcph p in
  s ← stream_at a;
  if th_ack h && (TCP_SEQ_LEQ (p_ack p) (iss (sndvar s)) || TCP_SEQ_GT (p_ack p) (snd_nxt s)) then
    whenM (negb (th_rst h)) (answer p (p_ack p) 0 TCP_FLAG_RST cur_ts)
  else
    whenM (th_ack h) (stream_mod a (fun s => s <| sndvar ::= fun v => v <| snd_una := u32 (snd_una v + 1) |> |>));;
    if th_rst h then
      whenM (th_ack h)
        (stream_mod a (fun s => s <| state := TCP_ST_CLOSE_WAIT |> <| close_reason := TCP_RESET |>);;
         match socket s with
         | Some _ => RaiseErrorEvent a
         | None => DestroyTCPStream a
         end)
    else if th_syn h then
      if th_ack h then
        HandleActiveOpen a cur_ts p;;
        stream_mod a (fun s => s <| sndvar ::= nrtx ↦ 0 |> <| rcv_nxt := u32 (irs (rcvvar s) + 1) |>);;
        RemoveFromRTOList a;;
        stream_mod a (fun s => s <| state := TCP_ST_ESTABLISHED |>);;
        match socket s with
        | Some _ =>
            RaiseWriteEvent a;;
            AddtoControlList a;;
            watch_timeout a
        | None =>
            answer p 0 (u32 (p_seq p + payloadlen p + 1)) (Z.lor TCP_FLAG_RST TCP_FLAG_ACK) cur_ts;;
            stream_mod a (fun s => s <| close_reason := TCP_ACTIVE_CLOSE |>);;
            DestroyTCPStream a
        end
      else
        stream_mod a (fun s => s <| state := TCP_ST_SYN_RCVD |> <| snd_nxt := iss (sndvar s) |>);;
        AddtoControlList a
    else mret tt.

(** Handing the stream to the listener of its port. *)
Definition accept_queue (a : Z) (p : packet) : MT Z :=
  o ← ListenerHTSearch (dest (p_tcph p));
  l ← unwrap NullPointer o;
  x ← listener_at l;
  match Click.StreamEnqueue a (acceptq x) with
  | Ok r q =>
      modify (fun m => m <| listener_heap ::= insert l (x <| acceptq := q |>) |>);;
      (if r <? 0 then
         stream_mod a (fun s => s <| close_reason := TCP_NOT_ACCEPTED |> <| state := TCP_ST_CLOSED |>);;
         AddtoControlList a
       else mret tt);;
      mret l
  | Fault e => throw e
  end.

Definition Handle_TCP_ST_SYN_RCVD (a : Z) (p : packet) : MT unit :=
  s ← stream_at a;
  if th_ack (p_tcph p) then
    if negb (p_ack p =? u32 (iss (sndvar s) + 1)) then mret tt
    else
      stream_mod a (fun s => s <| snd_nxt := p_ack p |>
        <| sndvar ::= fun v => v <| snd_una := u32 (snd_una v + 1) |>
             <| cwnd := if cwnd v =? 1 then mss v * 2 else mss v |> <| nrtx := 0 |> |>
        <| rcv_nxt := u32 (irs (rcvvar s) + 1) |>);;
      RemoveFromRTOList a;;
      stream_mod a (fun s => s <| state := TCP_ST_ESTABLISHED |>);;
      l ← accept_queue a p;
      watch_timeout a;;
      x ← listener_at l;
      raise_if (listen_socket x) MTCP_EPOLLIN;;
      mret tt
  else
    stream_mod a (fun s => s <| snd_nxt := iss (sndvar s) |>);;
    AddtoControlList a.

Definition Handle_TCP_ST_ESTABLISHED (a cur_ts : Z) (p : packet) : MT unit :=
  let h := p_tcph p in
  if th_syn h then
    stream_mod a (fun s => s <| snd_nxt := p_ack p |>);;
    AddtoControlList a
  else
    take_payload a cur_ts p;;
    whenM (th_ack h) (take_ack a cur_ts p);;
    whenM (th_fin h)
      (s ← stream_at a;
       if p_end p =? rcv_nxt s then
         stream_mod a (fun s => s <| state := TCP_ST_CLOSE_WAIT |> <| rcv_nxt := u32 (rcv_nxt s + 1) |>);;
         AddtoControlList a;;
         RaiseReadEvent a
       else EnqueueACK a ACK_OPT_NOW).

Definition Handle_TCP_ST_CLOSE_WAIT (a cur_ts : Z) (p : packet) : MT unit :=
  s ← stream_at a;
  if TCP_SEQ_LT (p_seq p) (rcv_nxt s) then AddtoControlList a
  else take_ack a cur_ts p.

Definition Handle_TCP_ST_LAST_ACK (a cur_ts : Z) (p : packet) : MT unit :=
  s ← stream_at a;
  if TCP_SEQ_LT (p_seq p) (rcv_nxt s) then mret tt
  else if th_ack (p_tcph p) then
    take_ack a cur_ts p;;
    s ← stream_at a;
    if negb (is_fin_sent (sndvar s)) then mret tt
    else if p_ack p =? u32 (fss (sndvar s) + 1) then
      stream_mod a (fun s => s <| sndvar ::= fun v => v <| snd_una := u32 (snd_una v + 1) |> |>);;
      UpdateRetransmissionTimer a cur_ts;;
      stream_mod a (fun s => s <| state := TCP_ST_CLOSED |> <| close_reason := TCP_PASSIVE_CLOSE |>);;
      DestroyTCPStream a
    else AddtoControlList a
  else AddtoControlList a.

Definition Handle_TCP_ST_FIN_WAIT_1 (a cur_ts : Z) (p : packet) : MT unit :=
  let h := p_tcph p in
  s ← stream_at a;
  if TCP_SEQ_LT (p_seq p) (rcv_nxt s) then AddtoControlList a
  else if negb (th_ack h) then mret tt
  else
    take_ack a cur_ts p;;
    s ← stream_at a;
    whenM (is_fin_sent (sndvar s) && (p_ack p =? u32 (fss (sndvar s) + 1)))
      (stream_mod a (fun s => s <| sndvar ::= snd_una ↦ p_ack p |>);;
       whenM (TCP_SEQ_GT (p_ack p) (snd_nxt s)) (stream_mod a (fun s => s <| snd_nxt := p_ack p |>));;
       stream_mod a (fun s => s <| sndvar ::= nrtx ↦ 0 |>);;
       RemoveFromRTOList a;;
       stream_mod a (fun s => s <| state := TCP_ST_FIN_WAIT_2 |>));;
    take_payload a cur_ts p;;
    whenM (th_fin h)
      (s ← stream_at a;
       whenM (p_end p =? rcv_nxt s)
         (stream_mod a (fun s => s <| rcv_nxt := u32 (rcv_nxt s + 1) |>);;
          (if st_in (state s) [TCP_ST_FIN_WAIT_1] then
             stream_mod a (fun s => s <| state := TCP_ST_CLOSING |>)
           else if st_in (state s) [TCP_ST_FIN_WAIT_2] then
             stream_mod a (fun s => s <| state := TCP_ST_TIME_WAIT |>);;
             AddtoTimewaitList a cur_ts
           else mret tt);;
          AddtoControlList a)).

Definition Handle_TCP_ST_FIN_WAIT_2 (a cur_ts : Z) (p : packet) : MT unit :=
  let h := p_tcph p in
  if negb (th_ack h) then mret tt
  else
    take_ack a cur_ts p;;
    take_payload a cur_ts p;;
    whenM (th_fin h)
      (s ← stream_at a;
       whenM (p_end p =? rcv_nxt s)
         (stream_mod a (fun s => s <| state := TCP_ST_TIME_WAIT |> <| rcv_nxt := u32 (rcv_nxt s + 1) |>);;
          AddtoTimewaitList a cur_ts;;
          AddtoControlList a)).

Definition Handle_TCP_ST_CLOSING (a cur_ts : Z) (p : packet) : MT unit :=
  if negb (th_ack (p_tcph p)) then mret tt
  else
    take_ack a cur_ts p;;
    s ← stream_at a;
    if negb (is_fin_sent (sndvar s)) then mret tt
    else if negb (p_ack p =? u32 (fss (sndvar s) + 1)) then mret tt
    else
      stream_mod a (fun s => s <| sndvar ::= snd_una ↦ p_ack p |> <| snd_nxt := p_ack p |>);;
      UpdateRetransmissionTimer a cur_ts;;
      stream_mod a (fun s => s <| state := TCP_ST_TIME_WAIT |>);;
      AddtoTimewaitList a cur_ts.

Definition Handle_TCP_ST_TIME_WAIT (a cur_ts : Z) : MT unit :=
  s ← stream_at a;
  whenM (on_timewait_list s) (RemoveFromTimewaitList a;; AddtoTimewaitList a cur_ts);;
  AddtoControlList a.

(** The [switch] over the state of the stream. *)
Definition dispatch (a cur_ts : Z) (p : packet) : MT unit :=
  s ← stream_at a;
  match state s with
  | TCP_ST_LISTEN => Handle_TCP_ST_LISTEN a p
  | TCP_ST_SYN_SENT => Handle_TCP_ST_SYN_SENT a cur_ts p
  | TCP_ST_SYN_RCVD =>
      if th_syn (p_tcph p) && (p_seq p =? irs (rcvvar s)) then Handle_TCP_ST_LISTEN a p
      else
        Handle_TCP_ST_SYN_RCVD a p;;
        s ← stream_at a;
        whenM ((0 <? payloadlen p) && st_in (state s) [TCP_ST_ESTABLISHED])
          (Handle_TCP_ST_ESTABLISHED a cur_ts p)
  | TCP_ST_ESTABLISHED => Handle_TCP_ST_ESTABLISHED a cur_ts p
  | TCP_ST_CLOSE_WAIT => Handle_TCP_ST_CLOSE_WAIT a cur_ts p
  | TCP_ST_LAST_ACK => Handle_TCP_ST_LAST_ACK a cur_ts p
  | TCP_ST_FIN_WAIT_1 => Handle_TCP_ST_FIN_WAIT_1 a cur_ts p
  | TCP_ST_FIN_WAIT_2 => Handle_TCP_ST_FIN_WAIT_2 a cur_ts p
  | TCP_ST_CLOSING => Handle_TCP_ST_CLOSING a cur_ts p
  | TCP_ST_TIME_WAIT => Handle_TCP_ST_TIME_WAIT a cur_ts
  | TCP_ST_CLOSED => mret tt
  end.

(** [ProcessTCPPacket] from the point where the stream is known. *)
Definition process_stream (a cur_ts : Z) (p : packet) : MT unit :=
  s ← stream_at a;
  ok ← (if st_num TCP_ST_SYN_RCVD <? st_num (state s) then ValidateSequence a cur_ts p else mret true);
  whenM ok
    (s ← stream_at a;
     w ← (if th_syn (p_tcph p) then mret (p_window p) else shl32 (p_window p) (wscale_peer (sndvar s)));
     stream_mod a (fun s => s <| sndvar ::= peer_wnd ↦ w |> <| last_active_ts := cur_ts |>);;
     UpdateTimeoutList a;;
     stop ← (if th_rst (p_tcph p) then
               stream_mod a (fun s => s <| have_reset := true |>);;
               s ← stream_at a;
               if st_num TCP_ST_SYN_SENT <? st_num (state s) then ProcessRST a p else mret false
             else mret false);
     whenM (negb stop) (dispatch a cur_ts p)).

(** Whether the checksum has to be verified in software, and verifies. *)
Definition checksum_ok (ifidx : Z) (p : packet) : MT bool :=
  rc ← ioctl ifidx PKT_RX_TCP_CSUM;
  if rc =? -1 then
    bytes ← unwrap OutOfBounds
      (mem_read (seg_bytes p) 0 (u16 (doff (p_tcph p) * 4 + payloadlen p)));
    mret (TCPCalcChecksum bytes (iph_saddr (p_iph p)) (iph_daddr (p_iph p)) =? 0)
  else mret true.

(** [TRUE] (1) or [ERROR] (-1). *)
Definition ProcessTCPPacket (cur_ts ifidx : Z) (p : packet) : MT Z :=
  if p_ip_len p <? (ihl (p_iph p) + doff (p_tcph p)) * 4 then mret (-1)
  else
    ok ← checksum_ok ifidx p;
    if negb ok then mret (-1)
    else
      o ← StreamHTSearch (FlowKey (iph_daddr (p_iph p)) (iph_saddr (p_iph p))
                            (dest (p_tcph p)) (source (p_tcph p)));
      o ← match o with
          | Some a => mret (Some a)
          | None => CreateNewFlowHTEntry cur_ts p
          end;
      match o with
      | None => mret tt
      | Some a => process_stream a cur_ts p
      end;;
      mret 1.

End TcpIn.
