(* ===== verification/NetIn.v ===== *)
(** * Network input ([eth_in.c], [ip_in.c], [icmp.c])

    [ProcessPacket] reads a frame from the bytes of its buffer and hands it to the ARP, ICMP
    or TCP code.  A header is read as a whole; a read behind the end of the buffer faults.
    Nothing compares the length the IP header announces with the length of the frame. *)

From S2P Require Import Prelude SeqArith Bytes Mtcp TcpUtil Output Lists TcpStream TcpOut TcpIn.

Section NetIn.
Context `{Platform}.

(** ** Reading headers *)

Definition rd8 (mem : list Z) (i : Z) : MT Z :=
  unwrap OutOfBounds (if i <? 0 then None else mem !! Z.to_nat i).

Definition rd16 (mem : list Z) (i : Z) : MT Z :=
  a ← rd8 mem i; b ← rd8 mem (i + 1); mret (load16 a b).

Definition rd32 (mem : list Z) (i : Z) : MT Z :=
  a ← rd8 mem i; b ← rd8 mem (i + 1); c ← rd8 mem (i + 2); d ← rd8 mem (i + 3);
  mret (load32 a b c d).

Definition rd_bytes (mem : list Z) (i len : Z) : MT (list Z) :=
  unwrap OutOfBounds (mem_read mem i len).

Definition read_iphdr (mem : list Z) (o : Z) : MT iphdr :=
  b0 ← rd8 mem o; tos ← rd8 mem (o + 1); len ← rd16 mem (o + 2);
  id ← rd16 mem (o + 4); frag ← rd16 mem (o + 6);
  ttl ← rd8 mem (o + 8); proto ← rd8 mem (o + 9); check ← rd16 mem (o + 10);
  sa ← rd32 mem (o + 12); da ← rd32 mem (o + 16);
  mret (IpHdr (b0 mod 16) (b0 / 16) tos len id frag ttl proto check sa da).

Definition read_tcphdr (mem : list Z) (o : Z) : MT tcphdr :=
  sp ← rd16 mem o; dp ← rd16 mem (o + 2); seq ← rd32 mem (o + 4); ack ← rd32 mem (o + 8);
  b ← rd8 mem (o + 12); f ← rd8 mem (o + 13);
  win ← rd16 mem (o + 14); check ← rd16 mem (o + 16); urg ← rd16 mem (o + 18);
  mret (TcpHdr sp dp seq ack (b / 16) (Z.testbit f 0) (Z.testbit f 1) (Z.testbit f 2)
          (Z.testbit f 3) (Z.testbit f 4) (Z.testbit f 5) win check urg (b mod 16) (f / 64)).

Definition read_arphdr (mem : list Z) (o : Z) : MT arphdr :=
  hrd ← rd16 mem o; pro ← rd16 mem (o + 2); hln ← rd8 mem (o + 4); pln ← rd8 mem (o + 5);
  op ← rd16 mem (o + 6); sha ← rd_bytes mem (o + 8) 6; sip ← rd32 mem (o + 14);
  tha ← rd_bytes mem (o + 18) 6; tip ← rd32 mem (o + 24);
  mret (ArpHdr hrd pro hln pln op sha sip tha tip).

(** ** ICMP *)

Definition ICMP_ECHOREPLY : Z := 0.
Definition ICMP_ECHO : Z := 8.
Definition sizeof_icmphdr : Z := 8.

(** [odd_byte] is half initialised: [junk] is the byte the variable held before. *)
Fixpoint icmp_words (bytes : list Z) (junk sum : Z) : Z :=
  match bytes with
  | a :: b :: rest => icmp_words rest junk (u32 (sum + load16 a b))
  | [a] => u32 (sum + load16 a junk)
  | [] => sum
  end.

Definition icmp_sum (bytes : list Z) (junk : Z) : Z :=
  let sum := icmp_words bytes junk 0 in
  let sum := u32 (Z.shiftr sum 16 + Z.land sum 65535) in
  let sum := u32 (sum + Z.shiftr sum 16) in
  u16 (Z.lnot sum).

(** [ICMPChecksum] of the [len] bytes at offset [o] of the buffer. *)
Definition ICMPChecksum (mem : list Z) (o len : Z) : MT Z :=
  assertM (0 <=? len);;
  bytes ← rd_bytes mem o len;
  n ← env_tick;
  mret (icmp_sum bytes (hd 0 (garbage n) mod 256)).

Definition frame_icmp (f : nat) (bytes : list Z) : MT unit :=
  modify (fun m => m <| tx ::= alter (fun fr =>
    match fr_body fr with
    | Ip ih _ => fr <| fr_body := Ip ih (L4Raw bytes) |>
    | _ => fr
    end) f |>).

(** [len] bytes from offset [o] of the buffer are the data; the frame has room for the
    [uint16_t] sum of the two lengths. *)
Definition ICMPOutput (sa da type code id seq : Z) (mem : list Z) (o len : Z) : MT Z :=
  f ← IPOutputStandalone IPPROTO_ICMP 0 sa da (u16 (sizeof_icmphdr + len));
  match f with
  | None => mret (-1)
  | Some f =>
      data ← (if 0 <? len then
                whenM (u16 (sizeof_icmphdr + len) <? sizeof_icmphdr + len) (throw OutOfBounds);;
                rd_bytes mem o len
              else mret []);
      let h c := [type; code] ++ bytes16 c ++ bytes16 (htons id) ++ bytes16 (htons seq) ++ data in
      c ← ICMPChecksum (h 0) 0 (sizeof_icmphdr + len);
      frame_icmp f (h c);;
      mret 0
  end.

Definition RequestICMP (sa da id seq : Z) (data : list Z) (len : Z) : MT unit :=
  ICMPOutput sa da ICMP_ECHO 0 (ntohs id) (ntohs seq) data 0 len;; mret tt.

(** [o] is the offset of the ICMP header; the result is [0] or [ERROR]. *)
Definition ProcessICMPECHORequest (mem : list Z) (iph : iphdr) (o len : Z) : MT Z :=
  let len := len - 4 * ihl iph in
  c ← ICMPChecksum mem o len;
  if negb (c =? 0) then mret (-1)
  else
    id ← rd16 mem (o + 4); seq ← rd16 mem (o + 6);
    ICMPOutput (iph_daddr iph) (iph_saddr iph) ICMP_ECHOREPLY 0 (ntohs id) (ntohs seq)
      mem (o + sizeof_icmphdr) (u16 (len - sizeof_icmphdr));;
    mret 0.

Definition ProcessICMPPacket (mem : list Z) (iph : iphdr) (o len : Z) : MT Z :=
  m ← get;
  if negb (existsb (fun e => iph_daddr iph =? ip_addr e) (eths (CONFIG m))) then mret 1
  else
    type ← rd8 mem o;
    whenM (type =? ICMP_ECHO) (ProcessICMPECHORequest mem iph o len;; mret tt);;
    mret 1.

(** ** IP *)

Definition PKT_RX_IP_CSUM : Z := 5.

(** The header as [ihl] words. *)
Fixpoint rd_words (mem : list Z) (o : Z) (n : nat) : MT (list Z) :=
  match n with
  | O => mret []
  | S n' => w ← rd32 mem o; ws ← rd_words mem (o + 4) n'; mret (w :: ws)
  end.

Definition iph_checksum_ok (ifidx : Z) (mem : list Z) (o : Z) (iph : iphdr) : MT bool :=
  rc ← ioctl ifidx PKT_RX_IP_CSUM;
  if rc =? -1 then
    ws ← rd_words mem o (Z.to_nat (ihl iph));
    c ← unwrap OutOfBounds (ip_fast_csum ws);
    mret (c =? 0)
  else mret true.

(** [TRUE] (1), [FALSE] (0) or [ERROR] (-1); the build is promiscuous. *)
Definition ProcessIPv4Packet (cur_ts ifidx : Z) (mem : list Z) : MT Z :=
  let o := ETHERNET_HEADER_LEN in
  iph ← read_iphdr mem o;
  let ip_len := ntohs (tot_len iph) in
  if ip_len <? IP_HEADER_LEN then mret (-1)
  else
    ok ← iph_checksum_ok ifidx mem o iph;
    if negb ok then mret (-1)
    else if negb (version iph =? 4) then mret 0
    else
      let l4 := o + 4 * ihl iph in
      if protocol iph =? IPPROTO_TCP then
        tcph ← read_tcphdr mem l4;
        ProcessTCPPacket cur_ts ifidx
          (Packet iph tcph (drop (Z.to_nat (l4 + TCP_HEADER_LEN)) mem) ip_len)
      else if protocol iph =? IPPROTO_ICMP then ProcessICMPPacket mem iph l4 ip_len
      else mret 0.

(** ** Ethernet *)

Definition ProcessPacket (ifidx cur_ts : Z) (mem : list Z) : MT Z :=
  proto ← rd16 mem 12;
  if ntohs proto =? ETH_P_IP then ProcessIPv4Packet cur_ts ifidx mem
  else if ntohs proto =? ETH_P_ARP then
    arph ← read_arphdr mem ETHERNET_HEADER_LEN;
    ProcessARPPacket ifidx arph;;
    mret 1
  else mret 1.

End NetIn.
