(* ===== verification/Sockets.v ===== *)
(** * Sockets, epoll and pipes of the application ([socket.c], [eventpoll.c], [pipe.c])

    The calls of the application threads that allocate sockets, register interest in events,
    fetch events, and pass bytes through pipes.  A call runs to its end, or to the point
    where it waits on a condition variable: then it answers [Block], and the code that runs
    when it is woken is a definition of its own.  Mutexes are not part of the state: the
    code between two waits is one step. *)

From S2P Require Import Prelude SeqArith SendBuffer RingBuffer Mtcp Events.

(** ** Results *)

Inductive errno :=
| EBADF | EINVAL | ENFILE | EEXIST | ENOENT | EINTR | EAGAIN | EPIPE | ENOTSOCK | ENOTCONN
| EADDRINUSE | ETIMEDOUT | ENOMEM | EFAULT | EAFNOSUPPORT | EISCONN | EALREADY | EINPROGRESS | ENOSYS
| ECONNRESET | EACCES | EPERM | EUnset.

#[export] Instance errno_eq_dec : EqDecision errno.
Proof. solve_decision. Defined.

(** What a call answers: a value, [-1] with [errno] ([EUnset] when the code sets none), or
    nothing yet. *)
Inductive api_result (A : Type) :=
| Ret (a : A)
| Errno (e : errno)
| Block.
#[global] Arguments Ret {A} a.
#[global] Arguments Errno {A} e.
#[global] Arguments Block {A}.

(** The context of the calling thread: whether the context is valid, the flags of the stack
    thread, the core, and constants of the process. *)
Record app_ctx := AppCtx {
  ac_valid : bool;
  ac_done : bool;
  ac_exit : bool;
  ac_interrupt : bool;
  ac_cpu : Z;
  num_cpus : Z;
  num_queues : Z;
  endian_check : bool
}.

Definition GetMTCPManager (c : app_ctx) : option errno :=
  if negb (ac_valid c) then Some EINVAL
  else if ac_done c || ac_exit c then Some EPERM
  else None.

Definition with_manager {A} (c : app_ctx) (k : MT (api_result A)) : MT (api_result A) :=
  match GetMTCPManager c with Some e => mret (Errno e) | None => k end.

(** [if (sockid < 0 || sockid >= CONFIG.max_concurrency)] *)
Definition in_range (i : Z) (m : mtcp_manager) : bool :=
  (0 <=? i) && (i <? max_concurrency (CONFIG m)).

Definition with_socket {A} (i : Z) (k : socket_map -> MT (api_result A)) : MT (api_result A) :=
  m ← get;
  if in_range i m then s ← socket_at i; k s else mret (Errno EBADF).

(** ** [socket.c] *)

(** Free sockets that still have events go to the end of the list. *)
Fixpoint free_socket (fuel : nat) : MT (option Z) :=
  m ← get;
  match free_smap m with
  | [] => mret None
  | i :: l =>
      modify (fun m => m <| free_smap := l |>);;
      s ← socket_at i;
      if negb (events s =? 0) then
        modify (fun m => m <| free_smap ::= fun l => TAILQ_INSERT_TAIL l i |>);;
        match fuel with
        | O => throw EndlessLoop
        | S fuel' => free_socket fuel'
        end
      else mret (Some i)
  end.

Definition AllocateSocket (type : Z) : MT (option Z) :=
  m ← get;
  o ← free_socket (length (free_smap m));
  match o with
  | None => mret None
  | Some i =>
      socket_mod i (fun s => s <| socktype := type |> <| opts := 0 |> <| sock_obj := 0 |>
        <| epoll := 0 |> <| events := 0 |> <| sock_addr := 0 |> <| sock_port := 0 |>
        <| ep_data := 0 |>);;
      mret (Some i)
  end.

Definition FreeSocket (i : Z) : MT unit :=
  s ← socket_at i;
  whenM (negb (socktype s =? MTCP_SOCK_UNUSED))
    (socket_mod i (fun s => s <| socktype := MTCP_SOCK_UNUSED |> <| epoll := MTCP_EPOLLNONE |>
       <| events := 0 |> <| sock_obj := 0 |>);;
     modify (fun m => m <| free_smap ::= fun l => TAILQ_INSERT_TAIL l i |>)).

Definition GetSocket (i : Z) : MT (api_result Z) :=
  m ← get; mret (if in_range i m then Ret i else Errno EBADF).

(** ** [eventpoll.c] *)

Section Epoll.
Context `{Platform}.

(** [calloc]: an address, [0] for a null pointer. *)
Definition allocate : MT Z := n ← env_tick; mret (calloc n).

Definition new_event_queue (size : Z) : MT (option event_queue) :=
  a ← allocate;
  if a =? 0 then mret None
  else b ← allocate; mret (CreateEventQueue (negb (b =? 0)) size).

(** [locks] says whether the mutex and the condition variable can be initialised. *)
Definition mtcp_epoll_create (locks : bool) (size : Z) : MT (api_result Z) :=
  if size <=? 0 then mret (Errno EINVAL)
  else
    o ← AllocateSocket MTCP_SOCK_EPOLL;
    match o with
    | None => mret (Errno ENFILE)
    | Some i =>
        p ← allocate;
        if p =? 0 then FreeSocket i;; mret (Errno EUnset)
        else
          q1 ← new_event_queue size;
          match q1 with
          | None => FreeSocket i;; mret (Errno EUnset)
          | Some q1 =>
              q2 ← new_event_queue size;
              match q2 with
              | None => FreeSocket i;; mret (Errno EUnset)
              | Some q2 =>
                  q3 ← new_event_queue size;
                  match q3 with
                  | None => FreeSocket i;; mret (Errno EUnset)
                  | Some q3 =>
                      epoll_set p (MtcpEpoll q1 q2 q3 false 0 0 0 0 0 0 0);;
                      modify (fun m => m <| ep := p |>);;
                      socket_mod i (fun s => s <| sock_obj := p |>);;
                      if locks then s ← socket_at i; mret (Ret (sock_id s))
                      else
                        FreeSocket i;;
                        modify (fun m => m <| epolls ::= delete p |>);;
                        mret (Errno EUnset)
                  end
              end
          end
    end.

Definition CloseEpollSocket (i : Z) : MT (api_result Z) :=
  s ← socket_at i;
  let p := sock_obj s in
  if p =? 0 then mret (Errno EINVAL)
  else
    epoll_at p;;
    modify (fun m => m <| ep := 0 |> <| epolls ::= delete p |>);;
    socket_mod i (fun s => s <| sock_obj := 0 |>);;
    mret (Ret 0).

(** The bytes that wait in the receive buffer; [None] without a buffer. *)
Definition pending_bytes (s : tcp_stream) : option Z :=
  RingBuffer.merged_len <$> rcvbuf (rcvvar s).

Definition has_bytes (s : tcp_stream) : bool :=
  match pending_bytes s with Some n => 0 <? n | None => false end.

Definition RaisePendingStreamEvents (p i : Z) : MT Z :=
  sock ← socket_at i;
  let a := sock_obj sock in
  if a =? 0 then mret (-1)
  else
    s ← stream_at a;
    if st_num (state s) <? st_num TCP_ST_ESTABLISHED then mret (-1)
    else
      whenM (has (epoll sock) MTCP_EPOLLIN && (has_bytes s || st_in (state s) [TCP_ST_CLOSE_WAIT]))
        (AddEpollEvent p USR_SHADOW_EVENT_QUEUE (Some i) MTCP_EPOLLIN;; mret tt);;
      whenM (has (epoll sock) MTCP_EPOLLOUT)
        (let v := sndvar s in
         room ← (if sndbuf v =? 0 then mret true
                 else b ← sndbuf_at (sndbuf v); mret (Buffer.len b <? snd_wnd v));
         sock ← socket_at i;
         whenM (room && negb (has (events sock) MTCP_EPOLLOUT))
           (AddEpollEvent p USR_SHADOW_EVENT_QUEUE (Some i) MTCP_EPOLLOUT;; mret tt));;
      mret 0.

(** ** [pipe.c] *)

Definition PIPE_BUF_SIZE : Z := 10240.

Definition pipe_at (p : Z) : MT pipe := m ← get; unwrap NullPointer (pipes m !! p).
Definition pipe_set (p : Z) (x : pipe) : MT unit := modify (fun m => m <| pipes ::= insert p x |>).

(** [locks] says whether the mutex and the condition variable can be initialised. *)
Definition mtcp_pipe (locks : bool) : MT (api_result (Z * Z)) :=
  o ← AllocateSocket MTCP_SOCK_PIPE;
  match o with
  | None => mret (Errno ENFILE)
  | Some i =>
      o ← AllocateSocket MTCP_SOCK_PIPE;
      match o with
      | None => FreeSocket i;; mret (Errno ENFILE)
      | Some j =>
          p ← allocate;
          b ← (if p =? 0 then mret 0 else allocate);
          n ← env_tick;
          if (b =? 0) || negb locks then FreeSocket i;; FreeSocket j;; mret (Errno EUnset)
          else
            pipe_set p (Pipe PIPE_ACTIVE i j (resize (Z.to_nat PIPE_BUF_SIZE) 0 (garbage n)) 0 0 0 PIPE_BUF_SIZE);;
            socket_mod i (fun s => s <| sock_obj := p |>);;
            socket_mod j (fun s => s <| sock_obj := p |>);;
            s ← socket_at i;
            t ← socket_at j;
            mret (Ret (sock_id s, sock_id t))
      end
  end.

(** A blocked reader or writer of the pair is signalled through the condition variable. *)
Definition RaiseEventToPair (i event : Z) : MT unit :=
  s ← socket_at i;
  x ← pipe_at (sock_obj s);
  let j := if pp_socket0 x =? i then pp_socket1 x else pp_socket0 x in
  t ← socket_at j;
  m ← get;
  whenM (has (opts t) MTCP_NONBLOCK && negb (epoll t =? 0))
    (AddEpollEvent (ep m) USR_EVENT_QUEUE (Some j) event;; mret tt).

(** [to_read] bytes out of the ring, which may wrap. *)
Definition pipe_take (to_read : Z) (x : pipe) : option (list Z * pipe) :=
  if buf_off x + to_read <? buf_size x then
    d ← mem_read (pp_buf x) (buf_off x) to_read;
    Some (d, x <| buf_off := buf_off x + to_read |> <| buf_len := buf_len x - to_read |>)
  else
    let temp_read := buf_size x - buf_off x in
    d1 ← mem_read (pp_buf x) (buf_off x) temp_read;
    d2 ← mem_read (pp_buf x) 0 (to_read - temp_read);
    Some (d1 ++ d2, x <| buf_off := to_read - temp_read |> <| buf_len := buf_len x - to_read |>).

(** [to_write] bytes of [src] into the ring. *)
Definition pipe_give (src : list Z) (to_write : Z) (x : pipe) : option pipe :=
  if buf_tail x + to_write <? buf_size x then
    d ← mem_read src 0 to_write;
    b ← mem_write (pp_buf x) (buf_tail x) d;
    Some (x <| pp_buf := b |> <| buf_tail := buf_tail x + to_write |> <| buf_len := buf_len x + to_write |>)
  else
    let temp_write := buf_size x - buf_tail x in
    d1 ← mem_read src 0 temp_write;
    d2 ← mem_read src temp_write (to_write - temp_write);
    b ← mem_write (pp_buf x) (buf_tail x) d1;
    b ← mem_write b 0 d2;
    Some (x <| pp_buf := b |> <| buf_tail := to_write - temp_write |> <| buf_len := buf_len x + to_write |>).

Definition with_pipe {A} (c : app_ctx) (i : Z) (k : socket_map -> pipe -> MT (api_result A)) : MT (api_result A) :=
  with_manager c (with_socket i (fun s =>
    if negb (socktype s =? MTCP_SOCK_PIPE) then mret (Errno EBADF)
    else if sock_obj s =? 0 then mret (Errno EBADF)
    else
      x ← pipe_at (sock_obj s);
      match pp_state x with
      | PIPE_CLOSED => mret (Errno EINVAL)
      | _ => k s x
      end)).

(** The part of [PipeRead] behind the wait; [p] is the pointer that was read at the start. *)
Definition pipe_read_now (p : Z) (s : socket_map) (i len : Z) : MT (api_result (list Z)) :=
  x ← pipe_at p;
  let to_read := Z.min len (buf_len x) in
  if (to_read <=? 0) && bool_decide (pp_state x = PIPE_ACTIVE) then mret (Errno EAGAIN)
  else if (to_read <=? 0) && bool_decide (pp_state x = PIPE_CLOSE_WAIT) then mret (Ret [])
  else
    '(d, y) ← unwrap OutOfBounds (pipe_take to_read x);
    pipe_set p y;;
    whenM (buf_len x =? buf_size x) (RaiseEventToPair i MTCP_EPOLLOUT);;
    m ← get;
    (if 0 <? buf_len y then
       whenM (has (epoll s) MTCP_EPOLLIN && negb (has (epoll s) MTCP_EPOLLET))
         (AddEpollEvent (ep m) USR_SHADOW_EVENT_QUEUE (Some i) MTCP_EPOLLIN;; mret tt)
     else
       whenM (bool_decide (pp_state x = PIPE_CLOSE_WAIT) && (buf_len y =? 0))
         (AddEpollEvent (ep m) USR_SHADOW_EVENT_QUEUE (Some i) MTCP_EPOLLIN;; mret tt));;
    mret (Ret d).

(** The loop of a blocking reader around its wait. *)
Definition pipe_read_wait (p i len : Z) : MT (api_result (list Z)) :=
  s ← socket_at i;
  x ← pipe_at p;
  if negb (has (opts s) MTCP_NONBLOCK) && (buf_len x =? 0) then mret Block
  else pipe_read_now p s i len.

Definition PipeRead (c : app_ctx) (i len : Z) : MT (api_result (list Z)) :=
  with_pipe c i (fun s x =>
    if bool_decide (pp_state x = PIPE_CLOSE_WAIT) && (buf_len x =? 0) then mret (Ret [])
    else if len <=? 0 then
      mret (if has (opts s) MTCP_NONBLOCK then Errno EAGAIN else Ret [])
    else pipe_read_wait (sock_obj s) i len).

Definition pipe_write_now (p : Z) (s : socket_map) (i : Z) (src : list Z) (len : Z) : MT (api_result Z) :=
  x ← pipe_at p;
  let to_write := Z.min len (buf_size x - buf_len x) in
  if to_write <=? 0 then mret (Errno EAGAIN)
  else
    y ← unwrap OutOfBounds (pipe_give src to_write x);
    pipe_set p y;;
    whenM (buf_len x =? 0) (RaiseEventToPair i MTCP_EPOLLIN);;
    m ← get;
    whenM ((buf_len y <? buf_size y) && has (epoll s) MTCP_EPOLLOUT && negb (has (epoll s) MTCP_EPOLLET))
      (AddEpollEvent (ep m) USR_SHADOW_EVENT_QUEUE (Some i) MTCP_EPOLLOUT;; mret tt);;
    mret (Ret to_write).

Definition pipe_write_wait (p i : Z) (src : list Z) (len : Z) : MT (api_result Z) :=
  s ← socket_at i;
  x ← pipe_at p;
  if negb (has (opts s) MTCP_NONBLOCK) && (buf_len x =? buf_size x) then mret Block
  else pipe_write_now p s i src len.

Definition PipeWrite (c : app_ctx) (i : Z) (src : list Z) (len : Z) : MT (api_result Z) :=
  with_pipe c i (fun s x =>
    if bool_decide (pp_state x = PIPE_CLOSE_WAIT) then mret (Errno EPIPE)
    else if len <=? 0 then mret (if has (opts s) MTCP_NONBLOCK then Errno EAGAIN else Ret 0)
    else pipe_write_wait (sock_obj s) i src len).

Definition RaisePendingPipeEvents (p i : Z) : MT Z :=
  s ← socket_at i;
  if sock_obj s =? 0 then mret (-1)
  else
    x ← pipe_at (sock_obj s);
    if bool_decide (pp_state x = PIPE_CLOSED) then mret (-1)
    else
      whenM (has (epoll s) MTCP_EPOLLIN && ((0 <? buf_len x) || bool_decide (pp_state x = PIPE_CLOSE_WAIT)))
        (AddEpollEvent p USR_SHADOW_EVENT_QUEUE (Some i) MTCP_EPOLLIN;; mret tt);;
      whenM (has (epoll s) MTCP_EPOLLOUT && (buf_len x <? buf_size x))
        (AddEpollEvent p USR_SHADOW_EVENT_QUEUE (Some i) MTCP_EPOLLOUT;; mret tt);;
      mret 0.

(** The second close clears the pointers of both sockets, whatever they are used for by
    then, and frees the pipe. *)
Definition PipeClose (i : Z) : MT (api_result Z) :=
  s ← socket_at i;
  if negb (socktype s =? MTCP_SOCK_PIPE) then mret (Errno EINVAL)
  else if sock_obj s =? 0 then mret (Ret 0)
  else
    x ← pipe_at (sock_obj s);
    match pp_state x with
    | PIPE_CLOSED => mret (Ret 0)
    | PIPE_ACTIVE =>
        pipe_set (sock_obj s) (x <| pp_state := PIPE_CLOSE_WAIT |>);;
        RaiseEventToPair i MTCP_EPOLLIN;;
        mret (Ret 0)
    | PIPE_CLOSE_WAIT =>
        socket_mod (pp_socket0 x) (fun t => t <| sock_obj := 0 |>);;
        socket_mod (pp_socket1 x) (fun t => t <| sock_obj := 0 |>);;
        modify (fun m => m <| pipes ::= delete (sock_obj s) |>);;
        mret (Ret 0)
    end.

(** ** Registration and fetching of events *)

Definition MTCP_EPOLL_CTL_ADD : Z := 1.
Definition MTCP_EPOLL_CTL_DEL : Z := 2.
Definition MTCP_EPOLL_CTL_MOD : Z := 3.

(** The guards that [mtcp_epoll_ctl] and the two wait functions share; [p] is the epoll
    object. *)
Definition with_epoll {A} (c : app_ctx) (epid : Z) (k : Z -> MT (api_result A)) : MT (api_result A) :=
  with_manager c (with_socket epid (fun s =>
    if socktype s =? MTCP_SOCK_UNUSED then mret (Errno EBADF)
    else if negb (socktype s =? MTCP_SOCK_EPOLL) then mret (Errno EINVAL)
    else k (sock_obj s))).

(** [EPOLLERR] and [EPOLLHUP] are always registered. *)
Definition register_events (p i : Z) (ev data : Z) : MT unit :=
  socket_mod i (fun s => s <| ep_data := data |>
    <| epoll := Z.lor ev (Z.lor MTCP_EPOLLERR MTCP_EPOLLHUP) |>);;
  s ← socket_at i;
  if socktype s =? MTCP_SOCK_STREAM then RaisePendingStreamEvents p i;; mret tt
  else if socktype s =? MTCP_SOCK_PIPE then RaisePendingPipeEvents p i;; mret tt
  else mret tt.

(** [event] is [None] for a null pointer.  The range of [sockid] is checked after that of
    [epid] and before the type of the epoll socket. *)
Definition mtcp_epoll_ctl (c : app_ctx) (epid op sockid : Z) (event : option (Z * Z)) : MT (api_result Z) :=
  with_manager c (
    m ← get;
    if negb (in_range epid m) || negb (in_range sockid m) then mret (Errno EBADF)
    else
      with_epoll c epid (fun p =>
        if (p =? 0) || (bool_decide (event = None) && negb (op =? MTCP_EPOLL_CTL_DEL)) then mret (Errno EINVAL)
        else
          s ← socket_at sockid;
          if op =? MTCP_EPOLL_CTL_ADD then
            if negb (epoll s =? 0) then mret (Errno EEXIST)
            else
              '(ev, data) ← unwrap NullPointer event;
              register_events p sockid ev data;; mret (Ret 0)
          else if op =? MTCP_EPOLL_CTL_MOD then
            if epoll s =? 0 then mret (Errno ENOENT)
            else
              '(ev, data) ← unwrap NullPointer event;
              register_events p sockid ev data;; mret (Ret 0)
          else if op =? MTCP_EPOLL_CTL_DEL then
            if epoll s =? 0 then mret (Errno ENOENT)
            else socket_mod sockid (fun s => s <| epoll := MTCP_EPOLLNONE |>);; mret (Ret 0)
          else mret (Ret 0))).

(** An event is delivered when its socket is in use, still registered for it and still
    marked with it. *)
Definition deliverable (s : socket_map) (v : mtcp_epoll_event_int) : bool :=
  negb (socktype s =? MTCP_SOCK_UNUSED) && has (epoll s) (ev_events v) && has (events s) (ev_events v).

(** Fetching at most [n] events of a queue while there is [room] in the array of the
    caller; [skip] is the test on queue ids of [mtcp_epoll_queue_wait]. *)
Fixpoint fetch_events (p : Z) (qt : event_queue_type) (skip : Z -> bool) (n : nat) (room : Z) :
    MT (list (Z * Z)) :=
  match n with
  | O => mret []
  | S n =>
      if room <=? 0 then mret []
      else
        e ← epoll_at p;
        '(v, q) ← unwrap OutOfBounds (eq_pop (queue_of qt e));
        s ← socket_at (ev_sockid v);
        let ok := negb (skip (ev_sockid v)) && deliverable s v in
        assertM (negb ok || (0 <=? ev_sockid v));;
        let e := set_queue qt q e in
        epoll_set p (if ok then e <| handled := u64 (handled e + 1) |>
                     else e <| invalidated := u64 (invalidated e + 1) |>);;
        socket_mod (ev_sockid v) (fun s => s <| events := Z.ldiff (events s) (ev_events v) |>);;
        rest ← fetch_events p qt skip n (if ok then room - 1 else room);
        mret (if ok then (ev_events v, ev_data v) :: rest else rest)
  end.

(** Both queues of the user. *)
Definition fetch_both (p : Z) (skip : Z -> bool) (maxevents : Z) : MT (list (Z * Z)) :=
  e ← epoll_at p;
  l1 ← fetch_events p USR_EVENT_QUEUE skip (Z.to_nat (num_events (usr_queue e))) maxevents;
  e ← epoll_at p;
  l2 ← fetch_events p USR_SHADOW_EVENT_QUEUE skip (Z.to_nat (num_events (usr_shadow_queue e)))
         (maxevents - zlen l1);
  mret (l1 ++ l2).

Definition no_events (e : mtcp_epoll) : bool :=
  (num_events (usr_queue e) =? 0) && (num_events (usr_shadow_queue e) =? 0).

(** From the label [wait] to the next wait or to the end; [goto wait] takes one of the
    [fuel]: a pass that delivers nothing has emptied the queues. *)
Fixpoint epoll_wait_from (fuel : nat) (p : Z) (skip : Z -> bool) (maxevents timeout : Z) :
    MT (api_result (list (Z * Z))) :=
  e ← epoll_at p;
  if no_events e && negb (timeout =? 0) then
    epoll_set p (e <| waits := u64 (waits e + 1) |> <| waiting := true |>);;
    mret Block
  else
    l ← fetch_both p skip maxevents;
    if (zlen l =? 0) && negb (timeout =? 0) then
      match fuel with
      | O => throw EndlessLoop
      | S fuel' => epoll_wait_from fuel' p skip maxevents timeout
      end
    else mret (Ret l).

(** The code behind a wait: [ok] says whether the wait returned without an error. *)
Definition epoll_wake (c : app_ctx) (p : Z) (skip : Z -> bool) (ok : bool) (maxevents timeout : Z) :
    MT (api_result (list (Z * Z))) :=
  if negb ok then mret (Errno EUnset)
  else
    e ← epoll_at p;
    epoll_set p (e <| waiting := false |>);;
    if ac_done c || ac_exit c || ac_interrupt c then mret (Errno EINTR)
    else epoll_wait_from 1 p skip maxevents (if 0 <? timeout then 0 else timeout).

Definition epoll_wait_with (skip : Z -> bool) (c : app_ctx) (epid : Z) (null_events : bool)
    (maxevents timeout : Z) : MT (api_result (list (Z * Z))) :=
  with_epoll c epid (fun p =>
    if (p =? 0) || null_events || (maxevents <=? 0) then mret (Errno EINVAL)
    else
      e ← epoll_at p;
      epoll_set p (e <| calls := u64 (calls e + 1) |>);;
      epoll_wait_from 1 p skip maxevents timeout).

Definition mtcp_epoll_wait := epoll_wait_with (fun _ => false).

Definition qd_valid (query_qd : Z) (qds : list Z) : bool := existsb (Z.eqb query_qd) qds.

Definition mtcp_epoll_queue_wait (qds : list Z) := epoll_wait_with (fun i => qd_valid i qds).

End Epoll.
