(* ===== verification/Core.v ===== *)
(** * The stack thread ([core.c])

    The creation of a manager, the queues through which the application hands streams to
    the stack, the flushing of epoll events, and the main loop that calls the network
    input, the timers and the output once a round.  What the environment decides in a
    round (the time, the frames received, the flags of the thread context) is an argument
    of the round. *)

From S2P Require Import Prelude SeqArith Queues MemPool SendBuffer RingBuffer Reassembly AddrPool Mtcp Output Events Fhash Lists TcpStream TcpOut Timer TcpIn NetIn.

(** ** Creating a manager *)

Definition BACKLOG_SIZE : Z := 10 * 1024.

Definition CreateMTCPSender (calloc_ok : bool) (ifidx : Z) : option mtcp_sender :=
  if calloc_ok then Some (MtcpSender ifidx [] [] [] 0 0 0) else None.

(** The senders of interfaces [i], [i + 1], ...; [calloc_ok k] is the outcome of the
    allocation of the [k]-th. *)
Fixpoint create_senders (calloc_ok : Z -> bool) (i : Z) (n : nat) : option (gmap Z mtcp_sender) :=
  match n with
  | O => Some ∅
  | S n =>
      x ← CreateMTCPSender (calloc_ok i) i;
      rest ← create_senders calloc_ok (i + 1) n;
      Some (<[i := x]> rest)
  end.

(** A socket as [InitializeMTCPManager] leaves it. *)
Definition unused_socket (i : Z) : socket_map := SocketMap i MTCP_SOCK_UNUSED 0 0 0 0 0 0 0.

(** The outcomes of the allocations of [InitializeMTCPManager], in the order of the calls,
    and the sizes of the structures it allocates. *)
Record init_allocs := InitAllocs {
  al_mtcp : bool;
  al_flow_table : bool * bool;
  al_listeners : bool * bool;
  al_flow_pool : bool * option Z;
  al_rv_pool : bool * option Z;
  al_sv_pool : bool * option Z;
  al_snd : bool * (bool * option Z) * (bool * bool);
  al_rcv : rb_allocs;
  al_smap : bool;
  al_log : bool;
  al_connectq : bool * bool;
  al_sendq : bool * bool;
  al_ackq : bool * bool;
  al_closeq : bool * bool;
  al_closeq_int : bool * bool;
  al_resetq : bool * bool;
  al_resetq_int : bool * bool;
  al_destroyq : bool * bool;
  al_g_sender : bool;
  al_n_sender : Z -> bool;
  al_rto_store : bool;
  sizeof_tcp_stream : Z;
  sizeof_tcp_recv_vars : Z;
  sizeof_tcp_send_vars : Z
}.

(** [if (!x) return NULL;] after an allocation *)
Definition checked {A B} (o : outcome unit (option A)) (k : A -> outcome unit (option B)) :
    outcome unit (option B) :=
  match o with
  | Fault e => Fault e
  | Ok None _ => Ok None tt
  | Ok (Some x) _ => k x
  end.

Definition given {A} (o : option A) : outcome unit (option A) := Ok o tt.

(** The state of the process that the thread shares is an argument: the address pools of
    the interfaces, the next stream id and the ARP queue.  The result of
    [InitRTOHashstore] is not checked: without memory the manager has a null store, which
    the first use of a timer dereferences. *)
Definition InitializeMTCPManager (al : init_allocs) (c : mtcp_config) (pools : gmap Z addr_pool)
    (id : Z) (arpm : list arp_queue_entry) : outcome unit (option mtcp_manager) :=
  let n := max_concurrency c in
  checked (given (if al_mtcp al then Some tt else None)) (fun _ =>
  checked (given (CreateHashtable (al_flow_table al).1 (al_flow_table al).2)) (fun flows =>
  checked (given (CreateHashtable (al_listeners al).1 (al_listeners al).2)) (fun lsts =>
  checked (MPCreate (al_flow_pool al).1 (al_flow_pool al).2 (sizeof_tcp_stream al)
             (u64 (sizeof_tcp_stream al * n))) (fun fp =>
  checked (MPCreate (al_rv_pool al).1 (al_rv_pool al).2 (sizeof_tcp_recv_vars al)
             (u64 (sizeof_tcp_recv_vars al * n))) (fun rvp =>
  checked (MPCreate (al_sv_pool al).1 (al_sv_pool al).2 (sizeof_tcp_send_vars al)
             (u64 (sizeof_tcp_send_vars al * n))) (fun svp =>
  checked (let '(sbm, (mp, block), (sq, q)) := al_snd al in
           Manager.SBManagerCreate sbm mp block sq q (sndbuf_size c) (max_num_buffers c)) (fun snd =>
  checked (RBManagerCreate (al_rcv al) (rcvbuf_size c) (max_num_buffers c)) (fun rcv =>
  checked (given (if al_smap al then Some tt else None)) (fun _ =>
  checked (given (if al_log al then Some tt else None)) (fun _ =>
  checked (given (Click.CreateStreamQueue (al_connectq al).1 (al_connectq al).2 BACKLOG_SIZE)) (fun q1 =>
  checked (given (Click.CreateStreamQueue (al_sendq al).1 (al_sendq al).2 n)) (fun q2 =>
  checked (given (Click.CreateStreamQueue (al_ackq al).1 (al_ackq al).2 n)) (fun q3 =>
  checked (given (Click.CreateStreamQueue (al_closeq al).1 (al_closeq al).2 n)) (fun q4 =>
  checked (given (Internal.CreateInternalStreamQueue (al_closeq_int al).1 (al_closeq_int al).2 n)) (fun q5 =>
  checked (given (Click.CreateStreamQueue (al_resetq al).1 (al_resetq al).2 n)) (fun q6 =>
  checked (given (Internal.CreateInternalStreamQueue (al_resetq_int al).1 (al_resetq_int al).2 n)) (fun q7 =>
  checked (given (Click.CreateStreamQueue (al_destroyq al).1 (al_destroyq al).2 n)) (fun q8 =>
  checked (given (CreateMTCPSender (al_g_sender al) (-1))) (fun g =>
  checked (given (create_senders (al_n_sender al) 0 (length (eths c)))) (fun ns =>
  match InitRTOHashstore (al_rto_store al) with
  | None => Fault NullPointer
  | Some store =>
      Ok (Some (MtcpManager fp rvp svp ∅ (Manager.SbWorld snd ∅) rcv ∅ flows
        (list_to_map ((fun i => (i, unused_socket i)) <$> seqZ 0 n)) (seqZ 0 n) None pools
        id 0 0 ∅ ∅ ∅ lsts q1 q2 q3 q4 q6 q8 q5 q7 (Some g) ns store [] [] 0 0 0 0 false false
        c arpm [] 0)) tt
  end)))))))))))))))))))).

(** ** Events to the application *)

(** The copying loop, at most [n] times; a round takes an event off [mtcpq]. *)
Fixpoint flush_events (n : nat) (usrq mtcpq : event_queue) : option (event_queue * event_queue) :=
  match n with
  | O => Some (usrq, mtcpq)
  | S n =>
      if (0 <? num_events mtcpq) && (num_events usrq <? eq_size usrq) then
        '(v, mtcpq) ← eq_pop mtcpq;
        usrq ← eq_push usrq v;
        flush_events n usrq mtcpq
      else Some (usrq, mtcpq)
  end.

Definition FlushEpollEvents : MT unit :=
  m ← get;
  e ← epoll_at (ep m);
  '(usrq, mtcpq) ← unwrap OutOfBounds
    (flush_events (Z.to_nat (num_events (mtcp_queue e))) (usr_queue e) (mtcp_queue e));
  let e := e <| usr_queue := usrq |> <| mtcp_queue := mtcpq |> in
  let pending := (0 <? num_events (usr_queue e)) || (0 <? num_events (usr_shadow_queue e)) in
  let e := if waiting e && pending then e <| wakes := u64 (wakes e + 1) |> else e in
  epoll_set (ep m) e.

Section Core.
Context `{Platform}.

(** ** The queues of the application *)

(** [while ((stream = StreamDequeue(q))) body(stream)], for a body that does not add to
    the queue: as many rounds as the queue has streams. *)
Fixpoint drain (deq : MT Z) (body : Z -> MT unit) (fuel : nat) : MT unit :=
  a ← deq;
  if a =? 0 then mret tt
  else
    match fuel with
    | O => throw EndlessLoop
    | S n => body a;; drain deq body n
    end.

Definition drain_queue (q : mtcp_manager -> Click.click_queue) `{!Setter q} (body : Z -> MT unit) : MT unit :=
  m ← get; drain (zoom q Click.StreamDequeue) body (Z.to_nat (Click.count (q m))).

(** [cnt = 0; while (cnt++ < max_cnt) body(StreamInternalDequeue(q))] *)
Fixpoint repeat_int (deq : MT Z) (body : Z -> MT unit) (n : nat) : MT unit :=
  match n with
  | O => mret tt
  | S n => a ← deq; body a;; repeat_int deq body n
  end.

Definition walk_int (q : mtcp_manager -> Internal.stream_queue_int) `{!Setter q} (body : Z -> MT unit) : MT unit :=
  m ← get; repeat_int (zoom q Internal.StreamInternalDequeue) body (Z.to_nat (Internal.count (q m))).

Definition send_visit (a : Z) : MT unit :=
  stream_mod a (fun s => s <| sndvar ::= on_sendq ↦ false |>);;
  AddtoSendList a.

Definition ack_request_visit (a : Z) : MT unit :=
  stream_mod a (fun s => s <| sndvar ::= on_ackq ↦ false |>);;
  EnqueueACK a ACK_OPT_AGGREGATE.

(** The state a stream that is being closed enters. *)
Definition closing_state (st : tcp_state) : tcp_state :=
  match st with
  | TCP_ST_ESTABLISHED => TCP_ST_FIN_WAIT_1
  | TCP_ST_CLOSE_WAIT => TCP_ST_LAST_ACK
  | st => st
  end.

Definition is_closed (s : tcp_stream) : bool := bool_decide (state s = TCP_ST_CLOSED).

(** The branch of a stream that was reset by its peer. *)
Definition destroy_reset (a : Z) : MT unit :=
  s ← stream_at a;
  whenM (negb (is_closed s))
    (stream_mod a (fun s => s <| close_reason := TCP_RESET |> <| state := TCP_ST_CLOSED |>);;
     DestroyTCPStream a).

(** [if (CONFIG.tcp_timeout > 0) RemoveFromTimeoutList(...)] *)
Definition unwatch_timeout (a : Z) : MT unit :=
  m ← get; whenM (0 <? tcp_timeout (CONFIG m)) (RemoveFromTimeoutList a).

Definition close_visit (a : Z) : MT unit :=
  stream_mod a (fun s => s <| sndvar ::= on_closeq ↦ false |>);;
  s ← stream_at a;
  fin ← (if sndbuf (sndvar s) =? 0 then mret (snd_nxt s)
         else b ← sndbuf_at (sndbuf (sndvar s));
              mret (u32 (Buffer.head_seq b + Buffer.len b)));
  stream_mod a (fun s => s <| sndvar ::= fss ↦ fin |>);;
  unwatch_timeout a;;
  s ← stream_at a;
  if have_reset s then destroy_reset a
  else if on_control_list (sndvar s) then
    stream_mod a (fun s => s <| sndvar ::= on_closeq_int ↦ true |>);;
    zoom closeq_int (Internal.StreamInternalEnqueue a);; mret tt
  else if on_send_list (sndvar s) || on_ack_list (sndvar s) then
    stream_mod a (fun s => s <| state ::= closing_state |> <| control_list_waiting := true |>)
  else
    whenM (negb (is_closed s))
      (stream_mod a (fun s => s <| state ::= closing_state |>);;
       AddtoControlList a).

Definition close_int_visit (a : Z) : MT unit :=
  s ← stream_at a;
  if on_control_list (sndvar s) then zoom closeq_int (Internal.StreamInternalEnqueue a);; mret tt
  else
    stream_mod a (fun s => s <| sndvar ::= on_closeq_int ↦ false |>);;
    whenM (negb (is_closed s))
      (stream_mod a (fun s => s <| state ::= closing_state |>);;
       AddtoControlList a).

Definition listed_for_output (s : tcp_stream) : bool :=
  on_control_list (sndvar s) || on_send_list (sndvar s) || on_ack_list (sndvar s).

(** The reset of a stream that is on no list: the control list will send it. *)
Definition abort_stream (a : Z) : MT unit :=
  s ← stream_at a;
  whenM (negb (is_closed s))
    (stream_mod a (fun s => s <| close_reason := TCP_ACTIVE_CLOSE |> <| state := TCP_ST_CLOSED |>);;
     AddtoControlList a).

Definition reset_visit (a : Z) : MT unit :=
  stream_mod a (fun s => s <| sndvar ::= on_resetq ↦ false |>);;
  unwatch_timeout a;;
  s ← stream_at a;
  if have_reset s then destroy_reset a
  else if listed_for_output s then
    stream_mod a (fun s => s <| sndvar ::= on_resetq_int ↦ true |>);;
    zoom resetq_int (Internal.StreamInternalEnqueue a);; mret tt
  else abort_stream a.

Definition reset_int_visit (a : Z) : MT unit :=
  s ← stream_at a;
  if listed_for_output s then zoom resetq_int (Internal.StreamInternalEnqueue a);; mret tt
  else
    stream_mod a (fun s => s <| sndvar ::= on_resetq_int ↦ false |>);;
    abort_stream a.

Definition HandleApplicationCalls : MT unit :=
  drain_queue connectq AddtoControlList;;
  drain_queue sendq send_visit;;
  drain_queue ackq ack_request_visit;;
  drain_queue closeq close_visit;;
  walk_int closeq_int close_int_visit;;
  drain_queue resetq reset_visit;;
  walk_int resetq_int reset_int_visit;;
  drain_queue destroyq DestroyTCPStream;;
  modify (fun m => m <| wakeup_flag := false |>).

(** ** Output *)

Definition write_sender (cur_ts thresh : Z) (i : sender_id) : MT unit :=
  m ← get;
  assertM (bool_decide (is_Some (sender_lookup m i)));;
  x ← sender_at i;
  whenM (negb (control_list_cnt x =? 0)) (WriteTCPControlList i cur_ts thresh;; mret tt);;
  x ← sender_at i;
  whenM (negb (ack_list_cnt x =? 0)) (WriteTCPACKList i cur_ts thresh;; mret tt);;
  x ← sender_at i;
  whenM (negb (send_list_cnt x =? 0)) (WriteTCPDataList i cur_ts thresh;; mret tt).

Fixpoint for_each {A} (body : A -> MT unit) (l : list A) : MT unit :=
  match l with
  | [] => mret tt
  | x :: l => body x;; for_each body l
  end.

(** [for (k = i; k < i + n; k++) body(k)] *)
Fixpoint for_range (body : Z -> MT unit) (i : Z) (n : nat) : MT unit :=
  match n with
  | O => mret tt
  | S n => body i;; for_range body (i + 1) n
  end.

Definition eths_num (m : mtcp_manager) : nat := length (eths (CONFIG m)).

Definition WritePacketsToChunks (cur_ts : Z) : MT unit :=
  m ← get;
  let thresh := max_concurrency (CONFIG m) in
  write_sender cur_ts thresh GSender;;
  for_range (fun i => write_sender cur_ts thresh (NSender i)) 0 (eths_num m).

(** ** The main loop *)

(** What the environment decides in a round: the flags of the thread context, the time,
    and for each interface the frames that [recv_pkts] and [get_rptr] give ([None] for a
    null pointer). *)
Record tick := Tick {
  t_done : bool;
  t_exit : bool;
  t_interrupt : bool;
  t_ts : Z;
  t_rx : Z -> list (option (list Z))
}.

Definition receive (ts : Z) (t : tick) (rx_inf : Z) : MT unit :=
  for_each (fun o => match o with
    | Some pktbuf => ProcessPacket rx_inf ts pktbuf;; mret tt
    | None => mret tt
    end) (t_rx t rx_inf).

Definition check_timers (ts ts_prev : Z) : MT unit :=
  m ← get;
  let thresh := max_concurrency (CONFIG m) in
  whenM (0 <? flow_cnt m)
    (CheckRtmTimeout ts thresh;;
     CheckTimewaitExpire ts thresh;;
     whenM ((0 <? tcp_timeout (CONFIG m)) && negb (ts =? ts_prev)) (CheckConnectionTimeout ts thresh)).

(** Signalling the threads that wait does not change the state of the stack; the sockets
    of the listeners are dereferenced. *)
Definition interrupt_port (i : Z) : MT unit :=
  o ← ListenerHTSearch i;
  match o with
  | None => mret tt
  | Some l =>
      x ← listener_at l;
      k ← unwrap NullPointer (listen_socket x);
      socket_at k;; mret tt
  end.

Definition InterruptApplication : MT unit := for_range interrupt_port 0 (Z.to_nat MAX_PORT).

(** A round up to the calls of the application: the frames, the timers and the events. *)
Definition take_input (t : tick) (ts_prev : Z) : MT unit :=
  let ts := t_ts t in
  modify (fun m => m <| cur_ts := ts |>);;
  m ← get;
  for_range (receive ts t) 0 (eths_num m);;
  check_timers ts ts_prev;;
  m ← get;
  whenM (negb (ep m =? 0)) FlushEpollEvents.

Definition round (master : bool) (t : tick) (ts_prev : Z) : MT unit :=
  let ts := t_ts t in
  take_input t ts_prev;;
  m ← get;
  whenM (0 <? flow_cnt m) HandleApplicationCalls;;
  WritePacketsToChunks ts;;
  whenM (negb (ts =? ts_prev) && master) (ARPTimer ts);;
  whenM (t_interrupt t) InterruptApplication.

(** The loop, for as long as the environment is described; the result says whether the
    loop ended by its own condition. *)
Fixpoint RunMainLoop (master : bool) (ticks : list tick) (ts_prev : Z) : MT bool :=
  match ticks with
  | [] => mret false
  | t :: ticks =>
      m ← get;
      if (negb (t_done t) || negb (flow_cnt m =? 0)) && negb (t_exit t) then
        round master t ts_prev;;
        RunMainLoop master ticks (t_ts t)
      else InterruptApplication;; mret true
  end.

End Core.
