(* ===== verification/Api.v ===== *)
(** * The socket calls of the application ([api.c])

    Each call is a function of the state of the stack thread it talks to; what it waits for
    is as in [Sockets.v].  The calls hand streams to the stack through its queues.
    [mtcp_writev] also runs the stack's own output code, which is duplicated in [api.c]. *)

From S2P Require Import Prelude SeqArith Rss Queues MemPool SendBuffer RingBuffer AddrPool Mtcp Output Events Fhash Lists TcpStream TcpIn Sockets Core.

Definition INADDR_ANY : Z := 0.
Definition INPORT_ANY : Z := 0.
Definition AF_INET : Z := 2.
Definition SOCK_STREAM : Z := 1.
Definition MSG_PEEK : Z := 2.
Definition sizeof_sockaddr_in : Z := 16.

(** [socktype == MTCP_SOCK_UNUSED] is rejected; stream and listening sockets pass. *)
Definition endpoint (s : socket_map) : bool :=
  (socktype s =? MTCP_SOCK_LISTENER) || (socktype s =? MTCP_SOCK_STREAM).

Definition with_endpoint {A} (c : app_ctx) (i : Z) (k : socket_map -> MT (api_result A)) : MT (api_result A) :=
  with_manager c (with_socket i (fun s =>
    if socktype s =? MTCP_SOCK_UNUSED then mret (Errno EBADF)
    else if negb (endpoint s) then mret (Errno ENOTSOCK)
    else k s)).

(** ** Names and options *)

Definition mtcp_is_connected (a : Z) : MT bool :=
  if a =? 0 then mret false
  else s ← stream_at a; mret (st_in (state s) [TCP_ST_ESTABLISHED]).

(** The answer is the address and the port of the socket. *)
Definition mtcp_getsockname (c : app_ctx) (i addrlen : Z) : MT (api_result (Z * Z)) :=
  with_manager c (with_socket i (fun s =>
    if socktype s =? MTCP_SOCK_UNUSED then mret (Errno EBADF)
    else if addrlen <=? 0 then mret (Errno EINVAL)
    else if negb (endpoint s) then mret (Errno ENOTSOCK)
    else mret (Ret (sock_addr s, sock_port s)))).

(** The object of the socket is taken for a stream although the socket may listen. *)
Definition mtcp_getpeername (c : app_ctx) (i addrlen : Z) : MT (api_result (Z * Z)) :=
  with_manager c (with_socket i (fun s =>
    if socktype s =? MTCP_SOCK_UNUSED then mret (Errno EBADF)
    else if addrlen <=? 0 then mret (Errno EINVAL)
    else if negb (endpoint s) then mret (Errno ENOTSOCK)
    else
      ok ← mtcp_is_connected (sock_obj s);
      if negb ok then mret (Errno ENOTCONN)
      else t ← stream_at (sock_obj s); mret (Ret (daddr t, dport t)))).

(** [SO_ERROR]: the pending error of the stream ([None] is 0); [last] is [errno] at the
    time of the call. *)
Definition GetSocketError (s : socket_map) (last : errno) : MT (api_result (option errno)) :=
  if sock_obj s =? 0 then mret (Errno EBADF)
  else
    t ← stream_at (sock_obj s);
    let lost := match close_reason t with TCP_TIMEDOUT | TCP_CONN_FAIL | TCP_CONN_LOST => true | _ => false end in
    if st_in (state t) [TCP_ST_CLOSED] && lost then mret (Ret (Some ETIMEDOUT))
    else if st_in (state t) [TCP_ST_CLOSE_WAIT; TCP_ST_CLOSED]
            && bool_decide (close_reason t = TCP_RESET) then mret (Ret (Some ECONNRESET))
    else if st_in (state t) [TCP_ST_SYN_SENT] && bool_decide (last = EINPROGRESS) then
      mret (Errno EINPROGRESS)
    else if bool_decide (close_reason t = TCP_NOT_CLOSED) then mret (Ret None)
    else mret (Errno ENOSYS).

(** [so_error]: the level and the option are [SOL_SOCKET] and [SO_ERROR]. *)
Definition mtcp_getsockopt (c : app_ctx) (i : Z) (so_error : bool) (last : errno) : MT (api_result (option errno)) :=
  with_endpoint c i (fun s =>
    if so_error && (socktype s =? MTCP_SOCK_STREAM) then GetSocketError s last
    else mret (Errno ENOSYS)).

Definition mtcp_setsockopt (c : app_ctx) (i : Z) : MT (api_result Z) :=
  with_endpoint c i (fun _ => mret (Ret 0)).

Definition mtcp_setsock_nonblock (c : app_ctx) (i : Z) : MT (api_result Z) :=
  with_manager c (with_socket i (fun s =>
    if socktype s =? MTCP_SOCK_UNUSED then mret (Errno EBADF)
    else
      socket_mod i (fun s => s <| opts := Z.lor (opts s) MTCP_NONBLOCK |>);;
      mret (Ret 0))).

Inductive ioctl_request := FIONREAD | FIONBIO (arg : Z) | OtherRequest.

(** The answer is what is stored at [argp]; [null] says that [argp] is a null pointer. *)
Definition mtcp_socket_ioctl (c : app_ctx) (i : Z) (request : ioctl_request) (null : bool) : MT (api_result Z) :=
  with_manager c (with_socket i (fun s =>
    if negb (endpoint s) then mret (Errno EBADF)
    else if null then mret (Errno EFAULT)
    else
      match request with
      | FIONREAD =>
          if sock_obj s =? 0 then mret (Errno EBADF)
          else
            t ← stream_at (sock_obj s);
            mret (Ret (default 0 (pending_bytes t)))
      | FIONBIO arg => if negb (arg =? 0) then mtcp_setsock_nonblock c i else mret (Ret 0)
      | OtherRequest => mret (Errno EINVAL)
      end)).

(** ** Sockets *)

Definition mtcp_socket (c : app_ctx) (domain type : Z) : MT (api_result Z) :=
  with_manager c (
    if negb (domain =? AF_INET) then mret (Errno EAFNOSUPPORT)
    else if negb (type =? SOCK_STREAM) then mret (Errno EINVAL)
    else
      o ← AllocateSocket MTCP_SOCK_STREAM;
      match o with
      | None => mret (Errno ENFILE)
      | Some i => s ← socket_at i; mret (Ret (sock_id s))
      end).

(** An address argument: family, length, address and port. *)
Record sockaddr := Sockaddr { sa_family : Z; sa_len : Z; sa_addr : Z; sa_port : Z }.

Definition valid_inet (a : sockaddr) : bool :=
  (sa_family a =? AF_INET) && negb (sa_len a <? sizeof_sockaddr_in).

Definition mtcp_bind (c : app_ctx) (i : Z) (addr : option sockaddr) : MT (api_result Z) :=
  with_endpoint c i (fun s =>
    match addr with
    | None => mret (Errno EINVAL)
    | Some a =>
        if has (opts s) MTCP_ADDR_BIND then mret (Errno EINVAL)
        else if negb (valid_inet a) then mret (Errno EINVAL)
        else
          socket_mod i (fun s => s <| sock_addr := sa_addr a |> <| sock_port := sa_port a |>
            <| opts := Z.lor (opts s) MTCP_ADDR_BIND |>);;
          mret (Ret 0)
    end).

Section Api.
Context `{Platform}.

(** ** Listening *)

(** [locks] says whether the mutex and the condition variable can be initialised. *)
Definition mtcp_listen (c : app_ctx) (locks : bool) (i backlog : Z) : MT (api_result Z) :=
  with_manager c (with_socket i (fun s =>
    if socktype s =? MTCP_SOCK_UNUSED then mret (Errno EBADF)
    else
      whenM (socktype s =? MTCP_SOCK_STREAM) (socket_mod i (fun s => s <| socktype := MTCP_SOCK_LISTENER |>));;
      s ← socket_at i;
      if negb (socktype s =? MTCP_SOCK_LISTENER) then mret (Errno ENOTSOCK)
      else
        m ← get;
        if (backlog <=? 0) || (max_concurrency (CONFIG m) <? backlog) then mret (Errno EINVAL)
        else
          o ← ListenerHTSearch (sock_port s);
          match o with
          | Some _ => mret (Errno EADDRINUSE)
          | None =>
              l ← allocate;
              if l =? 0 then mret (Errno EUnset)
              else if negb locks then mret (Errno EUnset)
              else
                a ← allocate;
                b ← (if a =? 0 then mret 0 else allocate);
                match Click.CreateStreamQueue (negb (a =? 0)) (negb (b =? 0)) backlog with
                | None => mret (Errno ENOMEM)
                | Some q =>
                    modify (fun m => m <| listener_heap ::= insert l (TcpListener i (Some i) backlog q) |>);;
                    socket_mod i (fun s => s <| sock_obj := l |>);;
                    ListenerHTInsert l;;
                    mret (Ret 0)
                end
          end)).

Definition listener_behind (p : Z) : MT tcp_listener :=
  if p =? 0 then throw NullPointer else listener_at p.

Definition accept_dequeue (l : Z) : MT Z :=
  x ← listener_behind l;
  match Click.StreamDequeue (acceptq x) with
  | Ok a q => modify (fun m => m <| listener_heap ::= insert l (x <| acceptq := q |>) |>);; mret a
  | Fault e => throw e
  end.

(** What is done with an accepted stream: a socket is allocated for it.  The answer is the
    socket and the address of the peer. *)
Definition accept_stream (l a : Z) : MT (api_result (Z * Z * Z)) :=
  s ← stream_at a;
  o ← match socket s with
      | Some i => mret (Some i)
      | None =>
          o ← AllocateSocket MTCP_SOCK_STREAM;
          match o with
          | None => mret None
          | Some i =>
              socket_mod i (fun x => x <| sock_obj := a |> <| sock_port := dport s |> <| sock_addr := daddr s |>);;
              stream_mod a (fun s => s <| socket := Some i |>);;
              mret (Some i)
          end
      end;
  match o with
  | None => mret (Errno ENFILE)
  | Some i =>
      x ← listener_behind l;
      k ← unwrap NullPointer (listen_socket x);
      lsock ← socket_at k;
      m ← get;
      whenM (negb (has (epoll lsock) MTCP_EPOLLET) && negb (Click.StreamQueueIsEmpty (acceptq x)))
        (AddEpollEvent (ep m) USR_SHADOW_EVENT_QUEUE (Some k) MTCP_EPOLLIN;; mret tt);;
      sock ← socket_at i;
      mret (Ret (sock_id sock, daddr s, dport s))
  end.

(** Dequeueing, without the lock at first; a blocking socket waits when there is nothing. *)
Definition accept_from (l : Z) : MT (api_result (Z * Z * Z)) :=
  a ← accept_dequeue l;
  if negb (a =? 0) then accept_stream l a
  else
    x ← listener_behind l;
    k ← unwrap NullPointer (listen_socket x);
    s ← socket_at k;
    mret (if has (opts s) MTCP_NONBLOCK then Errno EAGAIN else Block).

Definition mtcp_accept (c : app_ctx) (i : Z) : MT (api_result (Z * Z * Z)) :=
  with_manager c (with_socket i (fun s =>
    if negb (socktype s =? MTCP_SOCK_LISTENER) then mret (Errno EINVAL)
    else accept_from (sock_obj s))).

(** The code behind the wait: the loop dequeues again. *)
Definition accept_wake (c : app_ctx) (l : Z) : MT (api_result (Z * Z * Z)) :=
  if ac_done c || ac_exit c then mret (Errno EINTR)
  else
    a ← accept_dequeue l;
    if negb (a =? 0) then accept_stream l a else mret Block.

(** ** Connecting *)

(** The address of the interface towards [daddr]. *)
Definition output_addr (daddr : Z) : MT (option Z) :=
  r ← GetOutputInterface daddr;
  if r.1 <? 0 then mret None
  else
    eidx ← eidx_of r.1;
    e ← eth_at eidx;
    mret (Some (ip_addr e)).

Definition mtcp_init_rss (c : app_ctx) (saddr_base num_addr daddr dport : Z) : MT (api_result Z) :=
  match GetMTCPManager c with
  | Some _ => mret (Errno EACCES)
  | None =>
      modify (fun m => m <| ap := None |>);;
      base ← (if saddr_base =? INADDR_ANY then output_addr daddr else mret (Some saddr_base));
      match base with
      | None => mret (Errno EINVAL)
      | Some base =>
          n ← allocate;
          match CreateAddressPoolPerCore (negb (n =? 0)) (endian_check c) (ac_cpu c) (num_cpus c)
                  base num_addr daddr dport with
          | Ok (Some _) p => modify (fun m => m <| ap := Some p |>);; mret (Ret 0)
          | Ok None _ => mret (Errno ENOMEM)
          | Fault e => throw e
          end
      end
  end.

(** A local address for the socket: the one it is bound to, if replies will arrive at this
    core, or a leased one ([true]); [inr] stands for an answer of [-1]. *)
Definition fetch_local (c : app_ctx) (i : Z) (dip dport : Z) : MT (bool + errno) :=
  s ← socket_at i;
  if has (opts s) MTCP_ADDR_BIND && negb (sock_port s =? INPORT_ANY) && negb (sock_addr s =? INADDR_ANY) then
    rss_core ← unwrap DivByZero (GetRSSCPUCore (sock_addr s) dip (sock_port s) dport (num_queues c) (endian_check c));
    mret (if rss_core =? ac_cpu c then inl false else inr EINVAL)
  else
    m ← get;
    let bound := SockaddrIn (sock_addr s) (sock_port s) in
    r ← match ap m with
        | Some p =>
            match FetchAddressPerCore bound p with
            | Ok r p' => modify (fun m => m <| ap := Some p' |>);; mret (Some r)
            | Fault e => throw e
            end
        | None =>
            r ← GetOutputInterface dip;
            if r.1 <? 0 then mret None
            else
              p ← unwrap NullPointer (g_ap m !! r.1);
              match FetchAddress (ac_cpu c) (num_queues c) (endian_check c) (SockaddrIn dip dport) bound p with
              | Ok x p' => modify (fun m => m <| g_ap ::= insert r.1 p' |>);; mret (Some x)
              | Fault e => throw e
              end
        end;
    match r with
    | None => mret (inr EINVAL)
    | Some r =>
        if r.1 <? 0 then mret (inr EAGAIN)
        else
          socket_mod i (fun s => s <| sock_addr := sin_addr r.2 |> <| sock_port := sin_port r.2 |>
            <| opts := Z.lor (opts s) MTCP_ADDR_BIND |>);;
          mret (inl true)
    end.

(** The new stream is handed to the stack. *)
Definition connect_request (i a : Z) : MT (api_result Z) :=
  ret ← zoom connectq (Click.StreamEnqueue a);
  modify (fun m => m <| wakeup_flag := true |>);;
  if ret <? 0 then
    zoom destroyq (Click.StreamEnqueue a);;
    mret (Errno EAGAIN)
  else
    s ← socket_at i;
    mret (if has (opts s) MTCP_NONBLOCK then Errno EINPROGRESS else Block).

Definition connect_stream (i a : Z) (is_dyn_bound : bool) : MT (api_result Z) :=
  whenM is_dyn_bound (stream_mod a (fun s => s <| is_bound_addr := true |>));;
  stream_mod a (fun s => s <| sndvar ::= fun v => v <| cwnd := 1 |> <| ssthresh := mss v * 10 |> |>
    <| state := TCP_ST_SYN_SENT |>);;
  connect_request i a.

Definition mtcp_connect (c : app_ctx) (i : Z) (addr : option sockaddr) : MT (api_result Z) :=
  with_manager c (with_socket i (fun s =>
    if socktype s =? MTCP_SOCK_UNUSED then mret (Errno EBADF)
    else if negb (socktype s =? MTCP_SOCK_STREAM) then mret (Errno ENOTSOCK)
    else
      match addr with
      | None => mret (Errno EFAULT)
      | Some a =>
          if negb (valid_inet a) then mret (Errno EAFNOSUPPORT)
          else if negb (sock_obj s =? 0) then
            t ← stream_at (sock_obj s);
            mret (Errno (if st_num TCP_ST_ESTABLISHED <=? st_num (state t) then EISCONN else EALREADY))
          else
            r ← fetch_local c i (sa_addr a) (sa_port a);
            match r with
            | inr e => mret (Errno e)
            | inl dyn =>
                s ← socket_at i;
                p ← CreateTCPStream (Some i) (socktype s) (sock_addr s) (sock_port s) (sa_addr a) (sa_port a);
                if p =? 0 then mret (Errno ENOMEM) else connect_stream i p dyn
            end
      end)).

(** A blocking [mtcp_connect] looks at the stream once a millisecond. *)
Definition connect_poll (a : Z) : MT (api_result Z) :=
  s ← stream_at a;
  mret (if st_num TCP_ST_ESTABLISHED <? st_num (state s) then Errno ENOSYS
        else if st_in (state s) [TCP_ST_ESTABLISHED] then Ret 0
        else Block).

(** ** Closing *)

Definition wake_stack : MT unit := modify (fun m => m <| wakeup_flag := true |>).

(** To be destroyed by the stack. *)
Definition discard (a : Z) : MT unit :=
  zoom destroyq (Click.StreamEnqueue a);; wake_stack.

Definition CloseStreamSocket (i : Z) : MT (api_result Z) :=
  sock ← socket_at i;
  let a := sock_obj sock in
  if a =? 0 then mret (Errno ENOTCONN)
  else
    s ← stream_at a;
    if closed s then mret (Ret 0)
    else
      stream_mod a (fun s => s <| closed := true |> <| socket := None |>);;
      if st_in (state s) [TCP_ST_CLOSED] then discard a;; mret (Ret 0)
      else if st_in (state s) [TCP_ST_SYN_SENT] then discard a;; mret (Errno EUnset)
      else if negb (st_in (state s) [TCP_ST_ESTABLISHED; TCP_ST_CLOSE_WAIT]) then mret (Errno EBADF)
      else
        stream_mod a (fun s => s <| sndvar ::= on_closeq ↦ true |>);;
        ret ← zoom closeq (Click.StreamEnqueue a);
        wake_stack;;
        mret (if ret <? 0 then Errno EAGAIN else Ret 0).

(** The listener is freed but stays in the table of listeners. *)
Definition CloseListeningSocket (i : Z) : MT (api_result Z) :=
  sock ← socket_at i;
  let l := sock_obj sock in
  if l =? 0 then mret (Errno EINVAL)
  else
    listener_at l;;
    modify (fun m => m <| listener_heap ::= delete l |>);;
    socket_mod i (fun s => s <| sock_obj := 0 |>);;
    mret (Ret 0).

Definition mtcp_close (c : app_ctx) (i : Z) : MT (api_result Z) :=
  with_manager c (with_socket i (fun s =>
    if socktype s =? MTCP_SOCK_UNUSED then mret (Errno EBADF)
    else
      ret ← (if socktype s =? MTCP_SOCK_STREAM then CloseStreamSocket i
             else if socktype s =? MTCP_SOCK_LISTENER then CloseListeningSocket i
             else if socktype s =? MTCP_SOCK_EPOLL then CloseEpollSocket i
             else if socktype s =? MTCP_SOCK_PIPE then PipeClose i
             else mret (Errno EINVAL));
      FreeSocket i;;
      mret ret)).

Definition mtcp_abort (c : app_ctx) (i : Z) : MT (api_result Z) :=
  with_manager c (with_socket i (fun sock =>
    if socktype sock =? MTCP_SOCK_UNUSED then mret (Errno EBADF)
    else if negb (socktype sock =? MTCP_SOCK_STREAM) then mret (Errno ENOTSOCK)
    else if sock_obj sock =? 0 then mret (Errno ENOTCONN)
    else
      let a := sock_obj sock in
      FreeSocket i;;
      stream_mod a (fun s => s <| socket := None |>);;
      s ← stream_at a;
      if st_in (state s) [TCP_ST_CLOSED] then mret (Errno EUnset)
      else if st_in (state s) [TCP_ST_SYN_SENT; TCP_ST_CLOSING; TCP_ST_LAST_ACK; TCP_ST_TIME_WAIT] then
        stream_mod a (fun s => s <| state := TCP_ST_CLOSED |> <| close_reason := TCP_ACTIVE_CLOSE |>);;
        discard a;;
        mret (Ret 0)
      else if on_resetq (sndvar s) then mret (Errno ECONNRESET)
      else
        stream_mod a (fun s => s <| sndvar ::= on_resetq ↦ true |>);;
        ret ← zoom resetq (Click.StreamEnqueue a);
        wake_stack;;
        mret (if ret <? 0 then Errno EAGAIN else Ret 0))).

(** ** Reading *)

Definition PeekForUser (a len : Z) : MT (api_result (list Z)) :=
  b ← rcvbuf_of a;
  let copylen := Z.min (merged_len b) len in
  if copylen <=? 0 then mret (Errno EAGAIN)
  else d ← unwrap OutOfBounds (mem_read (data b) (head b) copylen); mret (Ret d).

(** A window that was closed is advertised again once it exceeds a segment. *)
Definition advertise_window (a : Z) : MT unit :=
  s ← stream_at a;
  whenM (need_wnd_adv s && (eff_mss (sndvar s) <? rcv_wnd (rcvvar s)) && negb (on_ackq (sndvar s)))
    (stream_mod a (fun s => s <| sndvar ::= on_ackq ↦ true |>);;
     zoom ackq (Click.StreamEnqueue a);;
     stream_mod a (fun s => s <| need_wnd_adv := false |>);;
     wake_stack).

Definition CopyToUser (a len : Z) : MT (api_result (list Z)) :=
  b ← rcvbuf_of a;
  let copylen := Z.min (merged_len b) len in
  if copylen <=? 0 then mret (Errno EAGAIN)
  else
    d ← unwrap OutOfBounds (mem_read (data b) (head b) copylen);
    rcvbuf_run a (RBRemove copylen AT_APP);;
    b ← rcvbuf_of a;
    stream_mod a (fun s => s <| rcvvar ::= rcv_wnd ↦ u32 (size b - merged_len b) |>);;
    advertise_window a;;
    mret (Ret d).

(** The states in which data can be read. *)
Definition readable_state (s : tcp_stream) : bool :=
  (st_num TCP_ST_ESTABLISHED <=? st_num (state s)) && (st_num (state s) <=? st_num TCP_ST_CLOSE_WAIT).

(** The guards of the read calls; [k] gets the stream. *)
Definition with_reader {A} (sock : socket_map) (at_end : A) (k : Z -> MT (api_result A)) : MT (api_result A) :=
  let a := sock_obj sock in
  if a =? 0 then mret (Errno ENOTCONN)
  else
    s ← stream_at a;
    if negb (readable_state s) then mret (Errno ENOTCONN)
    else
      let empty := match pending_bytes s with Some n => n =? 0 | None => true end in
      if st_in (state s) [TCP_ST_CLOSE_WAIT] && empty then mret (Ret at_end)
      else if has (opts sock) MTCP_NONBLOCK && empty then mret (Errno EAGAIN)
      else k a.

(** Whether an event is to be raised after a read of [got] bytes. *)
Definition event_remaining (sock : socket_map) (a got : Z) : MT bool :=
  s ← stream_at a;
  left ← (if has (epoll sock) MTCP_EPOLLIN && negb (has (epoll sock) MTCP_EPOLLET)
          then b ← rcvbuf_of a; mret (0 <? merged_len b) else mret false);
  drained ← (if st_in (state s) [TCP_ST_CLOSE_WAIT]
             then b ← rcvbuf_of a; mret ((merged_len b =? 0) && (0 <? got)) else mret false);
  mret (left || drained).

Definition got_bytes (r : api_result (list Z)) : Z :=
  match r with Ret d => zlen d | _ => -1 end.

(** [len] is a [size_t] that is passed on as an [int]. *)
Definition mtcp_recv (c : app_ctx) (i len flags : Z) : MT (api_result (list Z)) :=
  with_manager c (with_socket i (fun sock =>
    if socktype sock =? MTCP_SOCK_UNUSED then mret (Errno EBADF)
    else if socktype sock =? MTCP_SOCK_PIPE then PipeRead c i (i32 len)
    else if negb (socktype sock =? MTCP_SOCK_STREAM) then mret (Errno ENOTSOCK)
    else
      with_reader sock [] (fun a =>
        if negb (flags =? 0) && negb (flags =? MSG_PEEK) then mret (Errno EINVAL)
        else
          ret ← (if flags =? 0 then CopyToUser a (i32 len) else PeekForUser a (i32 len));
          more ← event_remaining sock a (got_bytes ret);
          m ← get;
          whenM (more && negb (epoll sock =? 0))
            (AddEpollEvent (ep m) USR_SHADOW_EVENT_QUEUE (Some i) MTCP_EPOLLIN;; mret tt);;
          mret ret))).

Definition mtcp_read (c : app_ctx) (i len : Z) : MT (api_result (list Z)) := mtcp_recv c i len 0.

(** The loop over the buffers; the bytes that were read so far are [acc]. *)
Fixpoint readv_loop (a : Z) (lens : list Z) (acc : list Z) : MT (list Z) :=
  match lens with
  | [] => mret acc
  | n :: lens =>
      if n <=? 0 then readv_loop a lens acc
      else
        r ← CopyToUser a (i32 n);
        match r with
        | Ret d =>
            if zlen d <=? 0 then mret acc
            else if zlen d <? n then mret (acc ++ d)
            else readv_loop a lens (acc ++ d)
        | _ => mret acc
        end
  end.

Definition mtcp_readv (c : app_ctx) (i : Z) (iov : list Z) : MT (api_result (list Z)) :=
  with_manager c (with_socket i (fun sock =>
    if socktype sock =? MTCP_SOCK_UNUSED then mret (Errno EBADF)
    else if negb (socktype sock =? MTCP_SOCK_STREAM) then mret (Errno ENOTSOCK)
    else
      with_reader sock [] (fun a =>
        d ← readv_loop a iov [];
        more ← event_remaining sock a (zlen d);
        m ← get;
        whenM (more && has (epoll sock) MTCP_EPOLLIN && negb (has (epoll sock) MTCP_EPOLLET))
          (AddEpollEvent (ep m) USR_SHADOW_EVENT_QUEUE (Some i) MTCP_EPOLLIN;; mret tt);;
        mret (Ret d)))).

(** ** Writing *)

(** The send buffer, created on first use. *)
Definition ensure_sndbuf (a : Z) : MT bool :=
  s ← stream_at a;
  if negb (sndbuf (sndvar s) =? 0) then mret true
  else
    n ← env_tick;
    b ← zoom rbm_snd (Manager.SBInit (calloc n) (garbage n) (u32 (iss (sndvar s) + 1)));
    stream_mod a (fun s => s <| sndvar ::= sndbuf ↦ b |>);;
    if b =? 0 then stream_mod a (fun s => s <| close_reason := TCP_NO_MEM |>);; mret false
    else mret true.

Definition CopyFromUser (a : Z) (buf : list Z) (len : Z) : MT (api_result Z) :=
  s ← stream_at a;
  let sndlen := Z.min (i32 (snd_wnd (sndvar s))) len in
  if sndlen <=? 0 then mret (Errno EAGAIN)
  else
    ok ← ensure_sndbuf a;
    if negb ok then mret (Errno ENOMEM)
    else
      s ← stream_at a;
      ret ← sndbuf_run (sndbuf (sndvar s)) (Buffer.SBPut buf sndlen);
      assertM (i32 ret =? sndlen);;
      b ← sndbuf_at (sndbuf (sndvar s));
      stream_mod a (fun s => s <| sndvar ::= snd_wnd ↦ u32 (Buffer.size b - Buffer.len b) |>);;
      mret (if i32 ret <=? 0 then Errno EAGAIN else Ret (i32 ret)).

(** The states in which data can be written. *)
Definition with_writer {A} (sock : socket_map) (k : Z -> MT (api_result A)) : MT (api_result A) :=
  let a := sock_obj sock in
  if a =? 0 then mret (Errno ENOTCONN)
  else
    s ← stream_at a;
    if negb (st_in (state s) [TCP_ST_ESTABLISHED; TCP_ST_CLOSE_WAIT]) then mret (Errno ENOTCONN)
    else k a.

(** Handing the stream to the stack, unless the stack already knows of its data. *)
Definition request_send (a : Z) : MT unit :=
  s ← stream_at a;
  whenM (negb (on_sendq (sndvar s) || on_send_list (sndvar s)))
    (stream_mod a (fun s => s <| sndvar ::= on_sendq ↦ true |>);;
     zoom sendq (Click.StreamEnqueue a);;
     wake_stack).

(** The write event of a level-triggered socket whose buffer has room. *)
Definition raise_writable (sock : socket_map) (i a : Z) : MT unit :=
  s ← stream_at a;
  m ← get;
  whenM ((0 <? snd_wnd (sndvar s)) && has (epoll sock) MTCP_EPOLLOUT && negb (has (epoll sock) MTCP_EPOLLET))
    (AddEpollEvent (ep m) USR_SHADOW_EVENT_QUEUE (Some i) MTCP_EPOLLOUT;; mret tt).

Definition mtcp_write (c : app_ctx) (i : Z) (buf : list Z) (len : Z) : MT (api_result Z) :=
  with_manager c (with_socket i (fun sock =>
    if socktype sock =? MTCP_SOCK_UNUSED then mret (Errno EBADF)
    else if socktype sock =? MTCP_SOCK_PIPE then PipeWrite c i buf (i32 len)
    else if negb (socktype sock =? MTCP_SOCK_STREAM) then mret (Errno ENOTSOCK)
    else
      with_writer sock (fun a =>
        if len <=? 0 then mret (if has (opts sock) MTCP_NONBLOCK then Errno EAGAIN else Ret 0)
        else
          ret ← CopyFromUser a buf (i32 len);
          match ret with
          | Ret n => whenM (0 <? n) (request_send a)
          | _ => mret tt
          end;;
          raise_writable sock i a;;
          mret (match ret with
                | Ret 0 => if has (opts sock) MTCP_NONBLOCK then Errno EAGAIN else Ret 0
                | r => r
                end)))).

Fixpoint writev_loop (a : Z) (iov : list (list Z)) (acc : Z) : MT Z :=
  match iov with
  | [] => mret acc
  | buf :: iov =>
      if zlen buf <=? 0 then writev_loop a iov acc
      else
        r ← CopyFromUser a buf (i32 (zlen buf));
        match r with
        | Ret n =>
            if n <=? 0 then mret acc
            else if n <? zlen buf then mret (acc + n)
            else writev_loop a iov (acc + n)
        | _ => mret acc
        end
  end.

(** The application thread does the work of a round of the stack, for the time [ts]. *)
Definition flush_calls (ts : Z) : MT unit :=
  m ← get;
  whenM (negb (ep m =? 0)) FlushEpollEvents;;
  HandleApplicationCalls;;
  WritePacketsToChunks ts.

Definition mtcp_writev (c : app_ctx) (ts i : Z) (iov : list (list Z)) : MT (api_result Z) :=
  with_manager c (with_socket i (fun sock =>
    if socktype sock =? MTCP_SOCK_UNUSED then mret (Errno EBADF)
    else if negb (socktype sock =? MTCP_SOCK_STREAM) then mret (Errno ENOTSOCK)
    else
      with_writer sock (fun a =>
        to_write ← writev_loop a iov 0;
        whenM (0 <? to_write) (request_send a);;
        raise_writable sock i a;;
        whenM (0 <? to_write) (flush_calls ts);;
        mret (if (to_write =? 0) && has (opts sock) MTCP_NONBLOCK then Errno EAGAIN else Ret to_write)))).

End Api.
