(* ===== verification/Frame.v ===== *)
(** * What the stack leaves alone

    The queues through which the application hands streams over are read by
    [HandleApplicationCalls] only: nothing else of the stack changes them. *)

From S2P Require Import Prelude SeqArith Bytes Queues MemPool SendBuffer RingBuffer AddrPool Mtcp TcpUtil Output Events Fhash Lists TcpStream TcpOut Timer TcpIn NetIn.

(** ** Projections that code keeps *)

Definition same {T} (p : mtcp_manager -> T) (m m' : mtcp_manager) : Prop := p m' = p m.

#[export] Instance same_preorder {T} (p : mtcp_manager -> T) : PreOrder (same p).
Proof. unfold same. split; [done|]. intros x y z. congruence. Qed.

(** Whatever the state, [f] either faults or leaves [p] as it was. *)
Notation frames p f := (stable (fun _ => True) (fun _ => True) (same p) f).

Lemma frames_modify {T} (p : mtcp_manager -> T) g : (forall m, p (g m) = p m) -> frames p (modify g).
Proof. intros Hg. apply stable_modify. intros m _. split; [done|apply Hg]. Qed.

Lemma frames_zoom {T U A} (p : mtcp_manager -> T) (proj : mtcp_manager -> U) `{!Setter proj} (op : M U A) :
  (forall m t, p (upd proj (fun _ => t) m) = p m) -> frames p (zoom proj op).
Proof.
  intros Hp m _. unfold wpe, zoom. destruct (op (proj m)); [|done]. split; [done|apply Hp].
Qed.

(** The queues of the application. *)
Definition app_queues (m : mtcp_manager) :=
  (connectq m, sendq m, ackq m, closeq m, resetq m, destroyq m, closeq_int m, resetq_int m).

Notation kept f := (frames app_queues f).

Create HintDb frames.

Ltac frames_leaf :=
  match goal with
  | |- stable _ _ _ (modify _) =>
      apply frames_modify; intros ?; first [reflexivity | unfold sender_update; case_match; reflexivity]
  | |- stable _ _ _ (zoom _ _) => apply frames_zoom; intros ? ?; reflexivity
  | |- _ => solve [eauto 2 with frames nocore]
  end.

Ltac frames := repeat descend ltac:(fail) ltac:(idtac; frames_leaf) ltac:(exact I).

Section Frames.
Context `{Platform}.

(** ** Output *)

Lemma kept_DestroyTCPStream a : kept (DestroyTCPStream a).
Proof using. frames. Qed.

Lemma kept_IPOutput a l : kept (IPOutput a l).
Proof using. frames. Qed.

Lemma kept_AddtoRTOList a : kept (AddtoRTOList a).
Proof using. frames. Qed.

Hint Resolve kept_DestroyTCPStream kept_IPOutput kept_AddtoRTOList : frames.

Lemma kept_EnqueueACK a o : kept (EnqueueACK a o).
Proof using. frames. Qed.

Lemma kept_SendTCPPacket a ts fl src n : kept (SendTCPPacket a ts fl src n).
Proof using. frames. Qed.

Hint Resolve kept_EnqueueACK kept_SendTCPPacket : frames.

Lemma kept_flush_loop a ts fuel : forall n, kept (flush_loop fuel a ts n).
Proof using. induction fuel as [|f IH]; intros n; cbn [flush_loop]; frames. Qed.

Lemma kept_ack_burst a ts fuel : kept (ack_burst fuel a ts).
Proof using. induction fuel as [|f IH]; cbn [ack_burst]; frames. Qed.

Lemma kept_sender_loop ls visit fuel i t last : (forall a, kept (visit a)) ->
  forall cur n, kept (sender_loop ls visit fuel i t last cur n).
Proof using.
  intros Hv. induction fuel as [|f IH]; intros cur n; cbn [sender_loop]; frames.
Qed.

Hint Resolve kept_flush_loop kept_ack_burst kept_sender_loop : frames.

Lemma kept_control_visit i ts a : kept (control_visit i ts a).
Proof using. frames. Qed.

Lemma kept_data_visit i ts a : kept (data_visit i ts a).
Proof using. frames. Qed.

Lemma kept_ack_visit i ts a : kept (ack_visit i ts a).
Proof using. frames. Qed.

Hint Resolve kept_control_visit kept_data_visit kept_ack_visit : frames.

Lemma kept_WriteTCPControlList i ts t : kept (WriteTCPControlList i ts t).
Proof using. frames. Qed.

Lemma kept_WriteTCPDataList i ts t : kept (WriteTCPDataList i ts t).
Proof using. frames. Qed.

Lemma kept_WriteTCPACKList i ts t : kept (WriteTCPACKList i ts t).
Proof using. frames. Qed.

(** ** Timers *)

Lemma kept_HandleRTO ts a : kept (HandleRTO ts a).
Proof using. frames. Qed.

Lemma kept_abandon a : kept (abandon a).
Proof using. frames. Qed.

Lemma kept_RearrangeRTOStore_loop l : kept (RearrangeRTOStore_loop l).
Proof using. induction l as [|a l IH]; cbn [RearrangeRTOStore_loop]; frames. Qed.

Hint Resolve kept_HandleRTO kept_abandon kept_RearrangeRTOStore_loop : frames.

Lemma kept_rto_slot_loop ts t idx fuel : forall walk n, kept (rto_slot_loop fuel ts t idx walk n).
Proof using. induction fuel as [|f IH]; intros walk n; cbn [rto_slot_loop]; frames. Qed.

Hint Resolve kept_rto_slot_loop : frames.

Lemma kept_rto_clock_loop ts t fuel : forall n, kept (rto_clock_loop fuel ts t n).
Proof using. induction fuel as [|f IH]; intros n; cbn [rto_clock_loop]; frames. Qed.

Lemma kept_timewait_loop ts t fuel : forall walk n, kept (timewait_loop fuel ts t walk n).
Proof using. induction fuel as [|f IH]; intros walk n; cbn [timewait_loop]; frames. Qed.

Lemma kept_timeout_loop ts t fuel : forall walk n, kept (timeout_loop fuel ts t walk n).
Proof using. induction fuel as [|f IH]; intros walk n; cbn [timeout_loop]; frames. Qed.

Hint Resolve kept_rto_clock_loop kept_timewait_loop kept_timeout_loop : frames.

Lemma kept_CheckRtmTimeout ts t : kept (CheckRtmTimeout ts t).
Proof using. frames. Qed.

Lemma kept_CheckTimewaitExpire ts t : kept (CheckTimewaitExpire ts t).
Proof using. frames. Qed.

Lemma kept_CheckConnectionTimeout ts t : kept (CheckConnectionTimeout ts t).
Proof using. frames. Qed.

(** ** Input *)

Lemma kept_flow_walk k l : kept (flow_walk l k).
Proof using. induction l as [|a l IH]; cbn [flow_walk]; frames. Qed.

Lemma kept_listener_walk k l : kept (listener_walk l k).
Proof using. induction l as [|a l IH]; cbn [listener_walk]; frames. Qed.

Hint Resolve kept_flow_walk kept_listener_walk : frames.

Lemma kept_ProcessACK a ts p : kept (ProcessACK a ts p).
Proof using. frames. Qed.

Lemma kept_ProcessTCPPayload a ts p : kept (ProcessTCPPayload a ts p).
Proof using. frames. Qed.

Lemma kept_CreateTCPStream sock ty sa sp da dp : kept (CreateTCPStream sock ty sa sp da dp).
Proof using. frames. Qed.

Hint Resolve kept_ProcessACK kept_ProcessTCPPayload kept_CreateTCPStream : frames.

Lemma kept_HandleActiveOpen a ts p : kept (HandleActiveOpen a ts p).
Proof using. frames. Qed.

Lemma kept_ParseTCPTimestamp_loop mem len fuel : forall i,
  kept (ParseTCPTimestamp_loop mem len fuel i).
Proof using. induction fuel as [|f IH]; intros i; cbn [ParseTCPTimestamp_loop]; frames. Qed.

Hint Resolve kept_ParseTCPTimestamp_loop : frames.

Lemma kept_ValidateSequence a ts p : kept (ValidateSequence a ts p).
Proof using. frames. Qed.

Hint Resolve kept_HandleActiveOpen kept_ValidateSequence : frames.

Lemma kept_CreateNewFlowHTEntry ts p : kept (CreateNewFlowHTEntry ts p).
Proof using. frames. Qed.

Lemma kept_dispatch a ts p : kept (dispatch a ts p).
Proof using. frames. Qed.

Hint Resolve kept_CreateNewFlowHTEntry kept_dispatch : frames.

Lemma kept_ProcessTCPPacket ts i p : kept (ProcessTCPPacket ts i p).
Proof using. frames. Qed.

Lemma kept_rd_words mem n : forall o, kept (rd_words mem o n).
Proof using. induction n as [|n IH]; intros o; cbn [rd_words]; frames. Qed.

Hint Resolve kept_ProcessTCPPacket kept_rd_words : frames.

Lemma kept_ProcessPacket i ts mem : kept (ProcessPacket i ts mem).
Proof using. frames. Qed.

End Frames.

#[export] Hint Resolve kept_DestroyTCPStream kept_EnqueueACK kept_WriteTCPControlList
  kept_WriteTCPDataList kept_WriteTCPACKList kept_CheckRtmTimeout kept_CheckTimewaitExpire
  kept_CheckConnectionTimeout kept_listener_walk kept_ProcessPacket : frames.
