(* ===== verification/StackInv.v ===== *)
(** * The invariant of the stack

    Every stream is on exactly the lists its flags say, on each of them once; the counters
    are the lengths of the lists; the retransmission and time-wait lists, which share a
    link, are disjoint; the flow table holds the live streams under their hash; streams lie
    on allocated chunks of their pool; and a bound local address is leased. *)

From S2P Require Import Prelude Queues MemPool AddrPool Mtcp Fhash Lists.

(** ** Flags of the sender lists *)

(** The three lists of a sender. *)
Inductive lkind := KControl | KSend | KAck.

#[export] Instance lkind_eq_dec : EqDecision lkind.
Proof. solve_decision. Defined.

Definition flag (k : lkind) (v : tcp_send_vars) : bool :=
  match k with KControl => on_control_list v | KSend => on_send_list v | KAck => on_ack_list v end.

Definition set_flag (k : lkind) (b : bool) (v : tcp_send_vars) : tcp_send_vars :=
  match k with
  | KControl => v <| on_control_list := b |>
  | KSend => v <| on_send_list := b |>
  | KAck => v <| on_ack_list := b |>
  end.

Definition lst (k : lkind) (x : mtcp_sender) : list Z :=
  match k with KControl => control_list x | KSend => send_list x | KAck => ack_list x end.

Definition cnt (k : lkind) (x : mtcp_sender) : Z :=
  match k with
  | KControl => control_list_cnt x | KSend => send_list_cnt x | KAck => ack_list_cnt x
  end.

Definition set_lst (k : lkind) (l : list Z) (n : Z) (x : mtcp_sender) : mtcp_sender :=
  match k with
  | KControl => x <| control_list := l |> <| control_list_cnt := n |>
  | KSend => x <| send_list := l |> <| send_list_cnt := n |>
  | KAck => x <| ack_list := l |> <| ack_list_cnt := n |>
  end.

(** ** Definitions *)

Definition alive (a : Z) (m : mtcp_manager) : Prop := is_Some (streams m !! a).

(** [a] is a stream that satisfies [P]. *)
Definition member (m : gmap Z tcp_stream) (P : tcp_stream -> Prop) (a : Z) : Prop :=
  exists s, m !! a = Some s /\ P s.

(** [l] lists exactly the streams that satisfy [P], once each. *)
Record tracks (l : list Z) (m : gmap Z tcp_stream) (P : tcp_stream -> Prop) : Prop := {
  tr_nodup : NoDup l;
  tr_elem : forall a, a ∈ l <-> member m P a
}.

Definition on_sender (c : mtcp_config) (k : lkind) (i : sender_id) (s : tcp_stream) : Prop :=
  flag k (sndvar s) = true /\ sender_of c (nif_out (sndvar s)) = Some i.

(** The number of streams on a retransmission list. *)
Definition on_rto (s : tcp_stream) : bool := 0 <=? on_rto_idx s.
Definition rto_count (m : gmap Z tcp_stream) : Z :=
  Z.of_nat (size (filter (fun kv => on_rto kv.2 = true) m)).

(** The configured routes fit the [int8_t] of [nif_out]. *)
Definition routes_ok (c : mtcp_config) : Prop :=
  Forall (fun r => nif r < 128) (rtable c) /\ forall g, gateway c = Some g -> nif g < 128.

Definition addr_of (s : tcp_stream) : sockaddr_in := SockaddrIn (saddr s) (sport s).

(** While the data of a stream is being sent, the stream is off the send list although its
    flag is set and the counter includes it: [Some (i, a)] says that [a] is held out of the
    send list of sender [i]. *)
Definition hole : Type := option (sender_id * Z).

Definition pending (h : hole) (k : lkind) (i : sender_id) : list Z :=
  match h, k with
  | Some (j, a), KSend => if decide (i = j) then [a] else []
  | _, _ => []
  end.

(** The lists of the senders. *)
Definition senders_inv (h : hole) (m : mtcp_manager) : Prop :=
  forall k i x, sender_lookup m i = Some x ->
    tracks (pending h k i ++ lst k x) (streams m) (on_sender (CONFIG m) k i) /\
    cnt k x = zlen (pending h k i ++ lst k x).

(** The retransmission and time-wait lists. *)
Record timers_inv (m : mtcp_manager) : Prop := {
  ti_rto : forall idx, tracks (bin (rto_list (rto_store m)) idx) (streams m)
    (fun s => on_rto s = true /\ on_rto_idx s = idx);
  ti_rto_cnt : rto_list_cnt m = rto_count (streams m);
  ti_rto_idx : forall a s, streams m !! a = Some s -> -1 <= on_rto_idx s <= RTO_HASH;
  ti_tw : tracks (timewait_list m) (streams m) (fun s => on_timewait_list s = true);
  ti_tw_cnt : timewait_list_cnt m = zlen (timewait_list m);
  ti_excl : forall a s, streams m !! a = Some s -> on_timewait_list s = true -> on_rto s = false
}.

(** The connection timeout list, which is not used when the timeout is disabled. *)
Record timeout_inv (m : mtcp_manager) : Prop := {
  to_list : tracks (timeout_list m) (streams m) (fun s => on_timeout_list s = true);
  to_cnt : timeout_list_cnt m = zlen (timeout_list m);
  to_off : tcp_timeout (CONFIG m) <= 0 -> timeout_list m = []
}.

(** The flow table, the pool and the leased addresses. *)
Record table_inv (m : mtcp_manager) : Prop := {
  tb_flow : forall idx, tracks (bin (tcp_flow_table m) idx) (streams m)
    (fun s => HashFlow (key_of s) = idx);
  tb_table : forall a s, streams m !! a = Some s -> on_hash_table s = true;
  tb_keys : forall a b s t, streams m !! a = Some s -> streams m !! b = Some t ->
    key_of s = key_of t -> a = b;
  tb_nif : forall a s, streams m !! a = Some s -> 0 <= nif_out (sndvar s);
  tb_routes : routes_ok (CONFIG m);
  tb_pool : exists F, cp_inv (flow_pool m) F /\ dom (streams m) ⊆ cp_chunks (flow_pool m) ∖ F;
  tb_bound : forall a s, streams m !! a = Some s -> is_bound_addr s = true ->
    exists p, ap m = Some p /\ ap_wf p /\ addr_of s ∈ leased p;
  tb_bound_inj : forall a b s t, streams m !! a = Some s -> streams m !! b = Some t ->
    is_bound_addr s = true -> is_bound_addr t = true -> addr_of s = addr_of t -> a = b
}.

Record stack_inv (h : hole) (m : mtcp_manager) : Prop := {
  si_senders : senders_inv h m;
  si_timers : timers_inv m;
  si_timeout : timeout_inv m;
  si_table : table_inv m
}.

(** ** The parts of the state each invariant speaks about *)

Definition config_core (c : mtcp_config) :=
  (nif_to_eidx c, zlen (eths c), rtable c, gateway c, tcp_timeout c).

Definition senders_core (m : mtcp_manager) := (g_sender m, n_sender m, config_core (CONFIG m)).
Definition timers_core (m : mtcp_manager) :=
  (rto_list (rto_store m), rto_list_cnt m, timewait_list m, timewait_list_cnt m).
Definition timeout_core (m : mtcp_manager) :=
  (timeout_list m, timeout_list_cnt m, config_core (CONFIG m)).
Definition table_core (m : mtcp_manager) :=
  (tcp_flow_table m, config_core (CONFIG m), flow_pool m, ap m).

Definition senders_marks (s : tcp_stream) :=
  (flag KControl (sndvar s), flag KSend (sndvar s), flag KAck (sndvar s), nif_out (sndvar s)).
Definition timers_marks (s : tcp_stream) := (on_rto_idx s, on_timewait_list s).
Definition timeout_marks (s : tcp_stream) := on_timeout_list s.
Definition table_marks (s : tcp_stream) :=
  (on_hash_table s, key_of s, is_bound_addr s, nif_out (sndvar s)).

(** Two heaps whose streams agree on [f]. *)
Definition same_by {B} (f : tcp_stream -> B) (h h' : gmap Z tcp_stream) : Prop := f <$> h' = f <$> h.

(** [P] only depends on [f]. *)
Definition depends {B} (f : tcp_stream -> B) (P : tcp_stream -> Prop) : Prop :=
  forall s t, f s = f t -> P s -> P t.

Section Same.
Context {B : Type} (f : tcp_stream -> B) (h h' : gmap Z tcp_stream).
Hypothesis Hsame : same_by f h h'.

Lemma same_by_lookup a s' : h' !! a = Some s' -> exists s, h !! a = Some s /\ f s = f s'.
Proof using Hsame.
  intros Ha. assert (Hf : (f <$> h') !! a = Some (f s')) by by rewrite lookup_fmap, Ha.
  rewrite Hsame, lookup_fmap in Hf. by apply fmap_Some in Hf as (s & ? & ?); exists s.
Qed.

Lemma same_by_dom : dom h' = dom h.
Proof using Hsame. by rewrite <- (dom_fmap_L f h'), Hsame, dom_fmap_L. Qed.

Lemma tracks_same P l : depends f P -> tracks l h P -> tracks l h' P.
Proof using Hsame.
  intros HP [Hn He]. split; [done|]. intros a. rewrite He. split.
  - intros (s & Ha & Hs). assert (Hf : (f <$> h') !! a = Some (f s)) by by rewrite Hsame, lookup_fmap, Ha.
    rewrite lookup_fmap in Hf. apply fmap_Some in Hf as (t & Ht & E). exists t. split; [done|]. by eapply HP.
  - intros (s & Ha & Hs). destruct (same_by_lookup _ _ Ha) as (t & Ht & E). exists t.
    split; [done|]. by eapply HP.
Qed.

End Same.

Lemma same_by_insert {B} (f : tcp_stream -> B) h a s s' :
  h !! a = Some s -> f s' = f s -> same_by f h (<[a := s']> h).
Proof.
  intros Hs E. unfold same_by. rewrite fmap_insert, E. apply insert_id. by rewrite lookup_fmap, Hs.
Qed.

Lemma same_by_refl {B} (f : tcp_stream -> B) h : same_by f h h.
Proof. done. Qed.

Lemma rto_count_same h h' : same_by timers_marks h h' -> rto_count h' = rto_count h.
Proof.
  intros Hm. unfold rto_count. f_equal.
  assert (Hc : forall g : gmap Z tcp_stream, size (filter (fun kv => on_rto kv.2 = true) g) =
    size (filter (fun kv => (0 <=? kv.2.1) = true) (timers_marks <$> g))).
  { intros g. rewrite map_filter_fmap, map_size_fmap. done. }
  by rewrite !Hc, Hm.
Qed.

Lemma sender_core_eq m m' i : senders_core m' = senders_core m -> sender_lookup m' i = sender_lookup m i.
Proof. unfold senders_core. intros [= ? ?]. destruct i; cbn; congruence. Qed.

Lemma sender_of_core c c' n : config_core c' = config_core c -> sender_of c' n = sender_of c n.
Proof. unfold config_core, sender_of. intros [= -> -> _ _ _]. done. Qed.

Lemma on_sender_core c c' k i s : config_core c' = config_core c ->
  on_sender c' k i s <-> on_sender c k i s.
Proof. intros Hc. unfold on_sender. by rewrite (sender_of_core _ _ _ Hc). Qed.

Lemma senders_flag s t k : senders_marks s = senders_marks t -> flag k (sndvar s) = flag k (sndvar t).
Proof. unfold senders_marks. intros [= ? ? ? ?]. by destruct k. Qed.

Lemma senders_inv_same h m m' : senders_inv h m -> senders_core m' = senders_core m ->
  same_by senders_marks (streams m) (streams m') -> senders_inv h m'.
Proof.
  intros Hi Hc Hm k i x. rewrite (sender_core_eq _ _ _ Hc). intros Hx.
  destruct (Hi k i x Hx) as [Ht Hn]. split; [|done].
  assert (Hcfg : config_core (CONFIG m') = config_core (CONFIG m)).
  { unfold senders_core in Hc. congruence. }
  eapply tracks_same in Ht as [Hnd He]; [|done|].
  - split; [done|]. intros a. rewrite He. unfold member. by setoid_rewrite (on_sender_core _ _ k i _ Hcfg).
  - intros s t E [H1 H2]. pose proof (senders_flag s t k E). unfold senders_marks in E. split; congruence.
Qed.

Lemma timers_inv_same m m' : timers_inv m -> timers_core m' = timers_core m ->
  same_by timers_marks (streams m) (streams m') -> timers_inv m'.
Proof.
  intros [Hr Hrc Hri Ht Htc He] Hc Hm. unfold timers_core in Hc. injection Hc as Hrl Hrlc Htw Htwc.
  assert (Hlook : forall a s', streams m' !! a = Some s' -> exists s, streams m !! a = Some s /\
    on_rto_idx s = on_rto_idx s' /\ on_timewait_list s = on_timewait_list s').
  { intros a s' Ha. destruct (same_by_lookup _ _ _ Hm _ _ Ha) as (s & Hs & [= ? ?]). eauto. }
  split.
  - intros idx. rewrite Hrl. eapply tracks_same; [done| |apply Hr].
    intros s t [= E _]. unfold on_rto. by rewrite E.
  - by rewrite Hrlc, Hrc, (rto_count_same _ _ Hm).
  - intros a s (t & Ha & <- & _)%Hlook. eauto.
  - rewrite Htw. eapply tracks_same; [done| |done]. intros s t [= _ E]. by rewrite E.
  - congruence.
  - intros a s (t & Ha & E1 & <-)%Hlook. unfold on_rto. rewrite <- E1. by eapply He.
Qed.

Lemma timeout_inv_same m m' : timeout_inv m -> timeout_core m' = timeout_core m ->
  same_by timeout_marks (streams m) (streams m') -> timeout_inv m'.
Proof.
  intros [Ht Hc Ho] Hcore Hm. unfold timeout_core, config_core in Hcore.
  injection Hcore as Hl Hn _ _ _ _ Htt. split; rewrite ?Hl, ?Hn, ?Htt; try done.
  eapply tracks_same; [done| |done]. unfold timeout_marks. intros s t E. by rewrite E.
Qed.

Lemma table_inv_same m m' : table_inv m -> table_core m' = table_core m ->
  same_by table_marks (streams m) (streams m') -> table_inv m'.
Proof.
  intros [Hf Ht Hk Hn Hr Hp Hb Hbi] Hc Hm. unfold table_core, config_core in Hc.
  injection Hc as Hft _ _ Hrt Hgw _ Hfp Hap.
  assert (Hlook : forall a s', streams m' !! a = Some s' -> exists s, streams m !! a = Some s /\
    on_hash_table s' = on_hash_table s /\ key_of s' = key_of s /\ is_bound_addr s' = is_bound_addr s /\
    nif_out (sndvar s') = nif_out (sndvar s) /\ addr_of s' = addr_of s).
  { intros a s' Ha. destruct (same_by_lookup _ _ _ Hm _ _ Ha) as (s & Hs & E). exists s.
    unfold table_marks, key_of, addr_of in *. split_and!; congruence. }
  split.
  - intros idx. rewrite Hft. eapply tracks_same; [done| |apply Hf].
    intros s t E. assert (Ek : key_of s = key_of t) by (unfold table_marks in E; congruence). by rewrite Ek.
  - intros a s (t & Ha & -> & _)%Hlook. eauto.
  - intros a b s t (s' & Hs & _ & Es & _)%Hlook (t' & Ht' & _ & Et & _)%Hlook E.
    apply (Hk a b s' t'); congruence.
  - intros a s (t & Ha & _ & _ & _ & -> & _)%Hlook. eauto.
  - unfold routes_ok. by rewrite Hrt, Hgw.
  - rewrite Hfp, (same_by_dom _ _ _ Hm). done.
  - intros a s (t & Ha & _ & _ & -> & _ & ->)%Hlook. rewrite Hap. eauto.
  - intros a b s t (s' & Hs & _ & _ & Es & _ & As)%Hlook (t' & Ht' & _ & _ & Et & _ & At)%Hlook Hbs Hbt E.
    apply (Hbi a b s' t'); congruence.
Qed.

(** *** Together *)

Definition marks_of (s : tcp_stream) :=
  (senders_marks s, timers_marks s, timeout_marks s, table_marks s).

(** The clock of the timer wheel. *)
Definition clock (m : mtcp_manager) := (rto_now_idx (rto_store m), rto_now_ts (rto_store m)).

Definition inv_core (m : mtcp_manager) :=
  (clock m, senders_core m, timers_core m, timeout_core m, table_core m).

Lemma same_by_comp {B C} (f : tcp_stream -> B) (g : B -> C) h h' :
  same_by f h h' -> same_by (fun s => g (f s)) h h'.
Proof. unfold same_by. intros E. by rewrite !(map_fmap_compose f g _ : (fun s => g (f s)) <$> _ = _), E. Qed.

Lemma stack_inv_same h m m' :
  stack_inv h m -> inv_core m' = inv_core m -> same_by marks_of (streams m) (streams m') -> stack_inv h m'.
Proof.
  intros [H1 H2 H3 H4] Hc Hm. unfold inv_core in Hc. split.
  - apply (senders_inv_same h m); [done|congruence|]. by apply (same_by_comp _ (fun t => t.1.1.1)) in Hm.
  - apply (timers_inv_same m); [done|congruence|]. by apply (same_by_comp _ (fun t => t.1.1.2)) in Hm.
  - apply (timeout_inv_same m); [done|congruence|]. by apply (same_by_comp _ (fun t => t.1.2)) in Hm.
  - apply (table_inv_same m); [done|congruence|]. by apply (same_by_comp _ (fun t => t.2)) in Hm.
Qed.

(** ** Code that keeps the invariant *)

(** The faults that a corrupted list, a freed stream or a list that never ends would cause
    are excluded. *)
Definition benign (e : fault) : Prop := e <> CorruptList /\ e <> DanglingPointer /\ e <> EndlessLoop.

#[export] Hint Extern 1 (benign _) => (split_and!; discriminate) : stab.

(** The invariant holds and [a] is a live stream. *)
Definition live (h : hole) (a : Z) (m : mtcp_manager) : Prop := stack_inv h m /\ alive a m.

(** *** The lists *)

(** The kinds of lists, and the lists. *)
Inductive lane := LSender (k : lkind) | LRto | LTimewait | LTimeout.

#[export] Instance lane_eq_dec : EqDecision lane.
Proof. solve_decision. Defined.

Definition all_lanes : list lane :=
  [LSender KControl; LSender KSend; LSender KAck; LRto; LTimewait; LTimeout].

Inductive place := PSender (k : lkind) (i : sender_id) | PRto (idx : Z) | PTimewait | PTimeout.

Definition lane_of (p : place) : lane :=
  match p with PSender k _ => LSender k | PRto _ => LRto | PTimewait => LTimewait | PTimeout => LTimeout end.

Definition list_at (p : place) (m : mtcp_manager) : list Z :=
  match p with
  | PSender k i => from_option (lst k) [] (sender_lookup m i)
  | PRto idx => bin (rto_list (rto_store m)) idx
  | PTimewait => timewait_list m
  | PTimeout => timeout_list m
  end.

(** What a stream says of its membership. *)
Definition mark (l : lane) (s : tcp_stream) : Z :=
  match l with
  | LSender k => Z.b2z (flag k (sndvar s))
  | LRto => on_rto_idx s
  | LTimewait => Z.b2z (on_timewait_list s)
  | LTimeout => Z.b2z (on_timeout_list s)
  end.

Lemma list_at_core p m m' : senders_core m' = senders_core m -> timers_core m' = timers_core m ->
  timeout_core m' = timeout_core m -> list_at p m' = list_at p m.
Proof.
  intros Hs Ht Ho. destruct p; cbn.
  - by rewrite (sender_core_eq _ _ _ Hs).
  - unfold timers_core in Ht. congruence.
  - unfold timers_core in Ht. congruence.
  - unfold timeout_core in Ho. congruence.
Qed.

Lemma mark_marks l s s' : marks_of s' = marks_of s -> mark l s' = mark l s.
Proof.
  unfold marks_of, senders_marks, timers_marks, timeout_marks. intros E. destruct l as [k| | |]; cbn.
  - assert (flag k (sndvar s') = flag k (sndvar s)) as -> by (destruct k; cbn in *; congruence). done.
  - congruence.
  - f_equal. congruence.
  - f_equal. congruence.
Qed.

(** *** What code on a stream changes *)

(** No stream but [a] has changed, no list but for [a], and not the configuration. *)
Record others (a : Z) (m m' : mtcp_manager) : Prop := {
  ot_stream : forall b, b <> a -> streams m' !! b = streams m !! b;
  ot_list : forall p, strip a (list_at p m') = strip a (list_at p m);
  ot_config : config_core (CONFIG m') = config_core (CONFIG m)
}.

#[export] Instance others_preorder a : PreOrder (others a).
Proof.
  split; [by intros m; split|]. intros m1 m2 m3 [H12 L12 C12] [H23 L23 C23]. split.
  - intros b Hb. by rewrite H23, H12.
  - intros p. by rewrite L23, L12.
  - congruence.
Qed.

(** The value of [f] at [a] is the same. *)
Definition same_at {B} (f : tcp_stream -> B) (a : Z) (m m' : mtcp_manager) : Prop :=
  f <$> streams m' !! a = f <$> streams m !! a.

#[export] Instance same_at_preorder {B} (f : tcp_stream -> B) a : PreOrder (same_at f a).
Proof. split; [done|]. intros m1 m2 m3. unfold same_at. congruence. Qed.

(** Only [a] has changed, not its key, its output interface and its address, and only its
    place on the lists of [L]; only the retransmission list moves the clock of its wheel. *)
Record moves (L : list lane) (a : Z) (m m' : mtcp_manager) : Prop := {
  mv_others : others a m m';
  mv_table : same_at table_marks a m m';
  mv_mark : forall l, l ∉ L -> same_at (mark l) a m m';
  mv_list : forall p, lane_of p ∉ L -> list_at p m' = list_at p m;
  mv_clock : LRto ∉ L -> clock m' = clock m
}.

#[export] Instance moves_preorder L a : PreOrder (moves L a).
Proof.
  split; [by intros m; split|]. intros m1 m2 m3 [O12 T12 M12 L12 C12] [O23 T23 M23 L23 C23]. split.
  - by etransitivity.
  - by etransitivity.
  - intros l Hl. etransitivity; eauto.
  - intros p Hp. by rewrite L23, L12.
  - intros Hc. by rewrite C23, C12.
Qed.

Lemma moves_weaken L K a m m' : L ⊆ K -> moves L a m m' -> moves K a m m'.
Proof. intros HL [O T M P C]. split; [done|done|..]; intros; [apply M|apply P|apply C]; set_solver. Qed.

Lemma moves_intro L a s s' m m' :
  streams m !! a = Some s -> streams m' = <[a := s']> (streams m) -> table_marks s' = table_marks s ->
  (forall l, l ∉ L -> mark l s' = mark l s) ->
  (forall p, list_at p m' = list_at p m \/ (lane_of p ∈ L /\ strip a (list_at p m') = strip a (list_at p m))) ->
  config_core (CONFIG m') = config_core (CONFIG m) -> LRto ∈ L \/ clock m' = clock m -> moves L a m m'.
Proof.
  intros Hs Hst Ht Hm Hp Hc Hk.
  assert (Hsame : forall B (f : tcp_stream -> B), f s' = f s -> same_at f a m m').
  { intros B f E. unfold same_at. rewrite Hst, lookup_insert_eq, Hs. cbn. by rewrite E. }
  split.
  - split; [intros b Hb; by rewrite Hst, lookup_insert_ne| |done].
    intros p. destruct (Hp p) as [->|[_ E]]; done.
  - by apply Hsame.
  - intros l Hl. by apply Hsame, Hm.
  - intros p Hl. by destruct (Hp p) as [E|[E _]].
  - intros Hl. by destruct Hk.
Qed.

Lemma moves_relink L a m m' : streams m' = streams m ->
  (forall p, list_at p m' = list_at p m \/ (lane_of p ∈ L /\ strip a (list_at p m') = strip a (list_at p m))) ->
  config_core (CONFIG m') = config_core (CONFIG m) -> LRto ∈ L \/ clock m' = clock m -> moves L a m m'.
Proof.
  intros Hst Hp Hc Hk. split; [|unfold same_at; by rewrite Hst|intros; unfold same_at; by rewrite Hst| |].
  - split; [intros b Hb; by rewrite Hst| |done]. intros p. destruct (Hp p) as [->|[_ E]]; done.
  - intros p Hl. by destruct (Hp p) as [E|[E _]].
  - intros Hl. by destruct Hk.
Qed.

(** Code that works on the live stream [a], leaves it alive and only moves it on the lists
    of [L]. *)
Notation touches L h a f := (stable benign (live h a) (moves L a) f).
Notation keeps h a f := (touches all_lanes h a f).

#[export] Hint Extern 1 (@elem_of lane _ _ _ _) => solve [assumption | unfold all_lanes; repeat constructor] : stab.

Section Keeps.
Variables (L : list lane) (h : hole) (a : Z).

Lemma moves_still m m' : inv_core m' = inv_core m -> streams m' = streams m -> moves L a m m'.
Proof using.
  intros Hc Hs. assert (Hl : forall p, list_at p m' = list_at p m).
  { intros p. unfold inv_core in Hc. apply list_at_core; congruence. }
  split; [|unfold same_at; by rewrite Hs|intros; unfold same_at; by rewrite Hs|done|].
  2: intros _; unfold inv_core in Hc; congruence.
  split; [intros; by rewrite Hs|intros p; by rewrite Hl|].
  unfold inv_core, senders_core in Hc. congruence.
Qed.

Lemma touches_modify g : (forall m, inv_core (g m) = inv_core m /\ streams (g m) = streams m) ->
  touches L h a (modify g).
Proof.
  intros Hg. apply stable_modify. intros m [Hi Ha]. destruct (Hg m) as [Hc Hs]. split; [split|].
  - by apply (stack_inv_same h m); [| |rewrite Hs].
  - unfold alive. by rewrite Hs.
  - by apply moves_still.
Qed.

Lemma stream_at_live m Q : live h a m ->
  (forall s, streams m !! a = Some s -> Q s m) -> wpe benign (stream_at a) Q m.
Proof.
  intros [_ [s Hs]] HQ. unfold stream_at. rewrite wpe_bind, wpe_get, wpe_unwrap, Hs. auto.
Qed.

Lemma touches_stream_at : touches L h a (stream_at a).
Proof. intros m Hm. eapply stream_at_live; [done|]. intros s _. split; [done|reflexivity]. Qed.

Lemma stream_mod_live m f Q : live h a m ->
  (forall s, streams m !! a = Some s -> Q tt (m <| streams ::= insert a (f s) |>)) ->
  wpe benign (stream_mod a f) Q m.
Proof.
  intros Hm HQ. unfold stream_mod. rewrite wpe_bind. eapply stream_at_live; [done|].
  intros s Hs. unfold stream_set. rewrite wpe_modify. auto.
Qed.

(** Changing [a] without changing its marks. *)
Lemma live_insert m s s' : live h a m -> streams m !! a = Some s -> marks_of s' = marks_of s ->
  live h a (m <| streams ::= insert a s' |>).
Proof.
  intros [Hi _] Hs E. split.
  - apply (stack_inv_same h m); [done|done|]. by eapply same_by_insert.
  - unfold alive, upd; cbn. rewrite lookup_insert_eq. eauto.
Qed.

Lemma moves_insert m s s' : streams m !! a = Some s -> marks_of s' = marks_of s ->
  moves L a m (m <| streams ::= insert a s' |>).
Proof.
  intros Hs E. eapply moves_intro; [done|done| | | |done|by right].
  - unfold marks_of in E. congruence.
  - intros l _. by apply mark_marks.
  - intros p. left. by destruct p as [? []| | |].
Qed.

Lemma touches_stream_set_same s' m : live h a m ->
  (forall s, streams m !! a = Some s -> marks_of s' = marks_of s) ->
  wpe benign (stream_set a s') (fun _ m' => live h a m' /\ moves L a m m') m.
Proof.
  intros Hm Hs. unfold stream_set. rewrite wpe_modify. destruct Hm as [Hi [s Ha]].
  split; [|eapply moves_insert; [done|by apply Hs]].
  apply (live_insert _ s); [by split; [|exists s]|done|by apply Hs].
Qed.

Lemma touches_stream_mod f : (forall s, marks_of (f s) = marks_of s) -> touches L h a (stream_mod a f).
Proof.
  intros Hf m Hm. eapply stream_mod_live; [done|]. intros s Hs.
  split; [by eapply live_insert|by eapply moves_insert].
Qed.

(** Code on the stream that keeps its marks. *)
Lemma touches_stream_run {A} (op : M tcp_stream A) :
  stable benign (fun _ => True) (fun s s' => marks_of s' = marks_of s) op -> touches L h a (stream_run a op).
Proof.
  intros Hop m Hm. unfold stream_run. rewrite wpe_bind. eapply stream_at_live; [done|]. intros s Hs.
  specialize (Hop s I). unfold wpe in Hop. destruct (op s) as [r s'|e]; [|done].
  rewrite wpe_bind. eapply wpe_mono; [apply touches_stream_set_same; [done|]|done].
  intros t Ht. assert (t = s) as -> by congruence. apply Hop.
Qed.

End Keeps.

#[export] Hint Resolve touches_stream_at : stab.
#[export] Hint Extern 1 (stable _ (live _ _) (moves _ _) (modify _)) => (apply touches_modify; intros ?; done) : stab.
#[export] Hint Extern 1 (stable _ _ (moves _ _) (stream_mod _ _)) => (apply touches_stream_mod; intros ?; done) : stab.

(** ** Code that does not touch the streams *)

(** The heap of streams and everything the invariant speaks about are unchanged. *)
Definition still (m m' : mtcp_manager) : Prop := inv_core m' = inv_core m /\ streams m' = streams m.

#[export] Instance still_preorder : PreOrder still.
Proof. split; [done|]. intros m1 m2 m3 [] []. split; congruence. Qed.

Notation quiet f := (stable benign (fun _ => True) still f).

Lemma still_inv h m m' : still m m' -> stack_inv h m -> stack_inv h m'.
Proof. intros [Hc Hs] Hi. by apply (stack_inv_same h m); [| |rewrite Hs]. Qed.

Lemma still_live h a m m' : still m m' -> live h a m -> live h a m'.
Proof. intros Hs [Hi Ha]. split; [by apply (still_inv h m)|]. unfold alive. by rewrite (proj2 Hs). Qed.

Lemma still_moves L a m m' : still m m' -> moves L a m m'.
Proof. intros [Hc Hs]. by apply moves_still. Qed.

Lemma still_others a m m' : still m m' -> others a m m'.
Proof. intros Hs. by eapply mv_others, (still_moves []). Qed.

Lemma still_clock m m' : still m m' -> clock m' = clock m.
Proof. intros [Hc _]. unfold inv_core in Hc. congruence. Qed.

Lemma quiet_touches {A} L h a (f : MT A) : quiet f -> touches L h a f.
Proof.
  intros Hf m Hm. eapply wpe_mono; [by apply Hf|]. intros r m' [_ Hs].
  split; [by eapply still_live|by apply still_moves].
Qed.

Lemma quiet_modify g : (forall m, inv_core (g m) = inv_core m /\ streams (g m) = streams m) ->
  quiet (modify g).
Proof. intros Hg. apply stable_modify. intros m _. by split; [|apply Hg]. Qed.

#[export] Hint Resolve quiet_touches : stab.
#[export] Hint Extern 1 (stable _ _ still (modify _)) => (apply quiet_modify; intros ?; done) : stab.

Lemma quiet_env_tick : quiet env_tick.
Proof. unfold env_tick. stab. Qed.

Lemma quiet_socket_at i : quiet (socket_at i).
Proof. unfold socket_at. stab. Qed.

#[export] Hint Resolve quiet_env_tick quiet_socket_at : stab.

Lemma quiet_socket_mod i f : quiet (socket_mod i f).
Proof. unfold socket_mod. stab. Qed.

Lemma quiet_sndbuf_at b : quiet (sndbuf_at b).
Proof. unfold sndbuf_at. stab. Qed.

Lemma quiet_shl32 x k : quiet (shl32 x k).
Proof. unfold shl32. stab. Qed.

#[export] Hint Resolve quiet_socket_mod quiet_sndbuf_at quiet_shl32 : stab.

Lemma only_fault {S A} (E : fault -> Prop) (op : M S A) s e : only E op -> op s = Fault e -> E e.
Proof. intros Hop He. specialize (Hop s I). unfold wpe in Hop. by rewrite He in Hop. Qed.

Lemma quiet_sndbuf_run {A} b (op : M _ A) : only benign op -> quiet (sndbuf_run b op).
Proof. intros Hop. unfold sndbuf_run. stab. by eapply only_fault. Qed.

Lemma touches_rcvbuf_run {A} L h a (op : M _ A) : only benign op -> touches L h a (rcvbuf_run a op).
Proof. intros Hop. unfold rcvbuf_run. stab. by eapply only_fault. Qed.

Lemma quiet_zoom {T A} (proj : mtcp_manager -> T) `{!Setter proj} (op : M T A) :
  only benign op ->
  (forall m t, inv_core (upd proj (fun _ => t) m) = inv_core m /\ streams (upd proj (fun _ => t) m) = streams m) ->
  quiet (zoom proj op).
Proof. intros Hop Hp. eapply stable_zoom; [done|done|]. intros m t _ _ _. by split; [|apply Hp]. Qed.
