(* ===== verification/ListOps.v ===== *)
(** * The list operations keep the invariant *)

From S2P Require Import Prelude SeqArith Queues MemPool AddrPool Mtcp Fhash Lists StackInv.

(** ** Lists that track a property *)

Section Tracks.
Variables (l : list Z) (h : gmap Z tcp_stream) (P : tcp_stream -> Prop) (a : Z) (s s' : tcp_stream).

Lemma member_insert b : member (<[a := s']> h) P b <-> (b = a /\ P s') \/ (b <> a /\ member h P b).
Proof using.
  unfold member. destruct (decide (b = a)) as [->|Hb].
  - rewrite lookup_insert_eq. naive_solver.
  - rewrite lookup_insert_ne by done. naive_solver.
Qed.

Lemma member_at : h !! a = Some s -> member h P a <-> P s.
Proof using. unfold member. intros ->. naive_solver. Qed.

Lemma tracks_insert_same : h !! a = Some s -> (P s <-> P s') -> tracks l h P -> tracks l (<[a := s']> h) P.
Proof using.
  intros Hs HP [Hn He]. split; [done|]. intros b. rewrite He, member_insert.
  destruct (decide (b = a)) as [->|]; [rewrite member_at by done|]; naive_solver.
Qed.

Lemma tracks_insert_in l' : h !! a = Some s -> ~ P s -> P s' -> l' ≡ₚ a :: l ->
  tracks l h P -> tracks l' (<[a := s']> h) P.
Proof using.
  intros Hs Hn HP Hp [Hnd He]. split.
  - rewrite Hp. apply list.NoDup_cons. split; [|done]. by rewrite He, member_at.
  - intros b. rewrite Hp, elem_of_cons, He, member_insert.
    destruct (decide (b = a)) as [->|]; [rewrite member_at by done|]; naive_solver.
Qed.

Lemma tracks_insert_out l' : h !! a = Some s -> ~ P s' -> l ≡ₚ a :: l' ->
  tracks l h P -> tracks l' (<[a := s']> h) P.
Proof using.
  intros Hs Hn Hp [Hnd He]. rewrite Hp in Hnd. apply list.NoDup_cons in Hnd as [Ha Hnd].
  split; [done|]. intros b. rewrite member_insert. specialize (He b).
  rewrite Hp, elem_of_cons in He. destruct (decide (b = a)) as [->|]; naive_solver.
Qed.

Lemma tracks_perm l' : l' ≡ₚ l -> tracks l h P -> tracks l' h P.
Proof using. intros Hp [Hn He]. split; [by rewrite Hp|]. intros b. by rewrite Hp, He. Qed.

Lemma tracks_delete : h !! a = Some s -> ~ P s -> tracks l h P -> tracks l (delete a h) P.
Proof using.
  intros Hs Hn [Hnd He]. split; [done|]. intros b. rewrite He. unfold member.
  destruct (decide (b = a)) as [->|].
  - rewrite lookup_delete_eq, Hs. naive_solver.
  - by rewrite lookup_delete_ne by done.
Qed.

Lemma tracks_fresh : h !! a = None -> ~ P s' -> tracks l h P -> tracks l (<[a := s']> h) P.
Proof using.
  intros Hs Hn [Hnd He]. split; [done|]. intros b. rewrite He, member_insert. unfold member.
  destruct (decide (b = a)) as [->|]; [rewrite Hs|]; naive_solver.
Qed.

Lemma tracks_remove : h !! a = Some s -> P s -> tracks l h P ->
  exists l', TAILQ_REMOVE l a = Some l' /\ l ≡ₚ a :: l'.
Proof using.
  intros Hs HP [_ He]. destruct (TAILQ_REMOVE_elem l a) as [l' Hl'].
  - apply He. by exists s.
  - exists l'. split; [done|]. by apply TAILQ_REMOVE_perm.
Qed.

End Tracks.

Lemma insert_tail_perm l a : TAILQ_INSERT_TAIL l a ≡ₚ a :: l.
Proof. unfold TAILQ_INSERT_TAIL. by rewrite Permutation_app_comm. Qed.

(** The number of streams on a retransmission list changes with the stream that changes. *)
Lemma rto_count_insert h a s s' : h !! a = Some s ->
  rto_count (<[a := s']> h) = rto_count h + (if on_rto s' then 1 else 0) - (if on_rto s then 1 else 0).
Proof.
  intros Hs. unfold rto_count.
  rewrite <- (insert_delete_id h a s Hs) at 2. rewrite <- insert_delete_eq.
  assert (Hd : delete a h !! a = None) by apply lookup_delete_eq.
  assert (Hc : forall t, Z.of_nat (size (filter (fun kv => on_rto kv.2 = true) (<[a := t]> (delete a h)))) =
    Z.of_nat (size (filter (fun kv => on_rto kv.2 = true) (delete a h))) + (if on_rto t then 1 else 0)).
  { intros t. destruct (on_rto t) eqn:E.
    - rewrite map_filter_insert_True by done. rewrite map_size_insert_None; [lia|].
      apply map_lookup_filter_None_2. by left.
    - rewrite map_filter_insert_False by (cbn; congruence).
      rewrite delete_id by done. lia. }
  rewrite !Hc. lia.
Qed.

Lemma rto_count_delete h a s : h !! a = Some s -> on_rto s = false -> rto_count (delete a h) = rto_count h.
Proof.
  intros Hs E. unfold rto_count. do 2 f_equal.
  rewrite map_filter_delete. apply delete_id.
  apply map_lookup_filter_None_2. right. intros t Ht. cbn. congruence.
Qed.

(** ** Senders *)

Lemma sender_lookup_update i j x m :
  sender_lookup (sender_update i x m) j = if decide (j = i) then Some x else sender_lookup m j.
Proof.
  destruct i as [|e], j as [|f]; cbn; try done; try (by rewrite decide_False).
  case_decide as E; [injection E as ->; apply lookup_insert_eq|]. apply lookup_insert_ne. congruence.
Qed.

(** Everything but the senders. *)
Lemma sender_update_frame i x m :
  streams (sender_update i x m) = streams m /\ CONFIG (sender_update i x m) = CONFIG m /\
  timers_core (sender_update i x m) = timers_core m /\
  timeout_core (sender_update i x m) = timeout_core m /\ table_core (sender_update i x m) = table_core m.
Proof. by destruct i. Qed.

Lemma flag_set k k' b v : flag k' (set_flag k b v) = if decide (k' = k) then b else flag k' v.
Proof. by destruct k, k'. Qed.

Lemma nif_set k b v : nif_out (set_flag k b v) = nif_out v.
Proof. by destruct k. Qed.

Lemma lst_set k k' l n x : lst k' (set_lst k l n x) = if decide (k' = k) then l else lst k' x.
Proof. by destruct k, k'. Qed.

Lemma cnt_set k k' l n x : cnt k' (set_lst k l n x) = if decide (k' = k) then n else cnt k' x.
Proof. by destruct k, k'. Qed.

(** The stream [a] enters or leaves list [k] of its sender. *)
Definition relisted (k : lkind) (b : bool) (a : Z) (l l' : list Z) : Prop :=
  if b then l' ≡ₚ a :: l else l ≡ₚ a :: l'.

Lemma senders_insert h m a s s' i x k b l n :
  senders_inv h m -> streams m !! a = Some s ->
  sender_of (CONFIG m) (nif_out (sndvar s)) = Some i -> sender_lookup m i = Some x ->
  senders_marks s' = senders_marks (s <| sndvar ::= set_flag k b |>) ->
  flag k (sndvar s) = negb b -> relisted k b a (pending h k i ++ lst k x) (pending h k i ++ l) ->
  n = zlen (pending h k i ++ l) ->
  senders_inv h (sender_update i (set_lst k l n x) (m <| streams ::= insert a s' |>)).
Proof.
  intros Hinv Hs Hof Hx Hmarks Hflag Hl -> k' j y. rewrite sender_lookup_update.
  destruct (sender_update_frame i (set_lst k l (zlen (pending h k i ++ l)) x) (m <| streams ::= insert a s' |>)) as (-> & -> & _).
  unfold upd; cbn. assert (Hf : forall k0, flag k0 (sndvar s') = if decide (k0 = k) then b else flag k0 (sndvar s)).
  { intros k0. rewrite (senders_flag _ _ k0 Hmarks). apply flag_set. }
  assert (Hn : nif_out (sndvar s') = nif_out (sndvar s)).
  { unfold senders_marks in Hmarks. injection Hmarks as _ _ _ ->. apply nif_set. }
  assert (Hother : forall k0 j0, k0 <> k \/ j0 <> i ->
    on_sender (CONFIG m) k0 j0 s <-> on_sender (CONFIG m) k0 j0 s').
  { intros k0 j0 Hne. unfold on_sender. rewrite Hf, Hn, Hof. case_decide; [|done].
    split; intros [_ [= <-]]; by destruct Hne. }
  case_decide as Hj; intros Hy.
  - injection Hy as <-. subst j. rewrite lst_set, cnt_set. case_decide as Hk.
    + subst k'. split; [|done]. destruct (Hinv k i x Hx) as [Ht _].
      assert (HPs : on_sender (CONFIG m) k i s <-> b = false).
      { unfold on_sender. rewrite Hflag, Hof. destruct b; naive_solver. }
      assert (HPs' : on_sender (CONFIG m) k i s' <-> b = true).
      { unfold on_sender. rewrite Hf, Hn, Hof, decide_True by done. naive_solver. }
      destruct b; cbn in Hl.
      * eapply tracks_insert_in; try done; [by rewrite HPs|by apply HPs'].
      * eapply tracks_insert_out; try done. by rewrite HPs'.
    + destruct (Hinv k' i x Hx) as [Ht Hc]. split; [|done].
      eapply tracks_insert_same; [done| |done]. apply Hother. by left.
  - destruct (Hinv k' j y Hy) as [Ht Hc]. split; [|done].
    eapply tracks_insert_same; [done| |done]. apply Hother. by right.
Qed.

(** The marks that the sender lists do not concern. *)
Definition calm_marks (s : tcp_stream) := (timers_marks s, timeout_marks s, table_marks s).

Lemma moves_relist a m s s' i x k b l n :
  streams m !! a = Some s -> sender_lookup m i = Some x ->
  senders_marks s' = senders_marks (s <| sndvar ::= set_flag k b |>) -> calm_marks s' = calm_marks s ->
  strip a l = strip a (lst k x) ->
  moves [LSender k] a m (sender_update i (set_lst k l n x) (m <| streams ::= insert a s' |>)).
Proof.
  intros Hs Hx Hm Hc Hl. set (m1 := m <| streams ::= insert a s' |>).
  destruct (sender_update_frame i (set_lst k l n x) m1) as (Hst & _ & Ht & Hto & _).
  pose proof (f_equal (fun t => t.1.1) Hc) as C1. pose proof (f_equal (fun t => t.1.2) Hc) as C2.
  pose proof (f_equal snd Hc) as C3. cbn in C1, C2, C3. unfold timers_marks, timeout_marks in C1, C2.
  eapply moves_intro; [done|by rewrite Hst|done| | |by destruct i|right; by destruct i].
  - intros [k'| | |] Hk'; cbn; try congruence.
    rewrite (senders_flag _ _ k' Hm). unfold upd; cbn. rewrite flag_set, decide_False; [done|]. set_solver.
  - unfold timers_core, timeout_core in Ht, Hto. injection Ht as T1 _ T2 _. injection Hto as O1 _ _.
    intros [k' j|idx| |]; [|left; cbn; congruence..]. cbn. rewrite sender_lookup_update.
    case_decide as E; [subst j|left; by destruct j]. rewrite Hx. cbn. rewrite lst_set.
    case_decide as E; [subst k'|by left]. right. split; [|done]. by constructor.
Qed.

Lemma stack_inv_relist h m a s s' i x k b l n :
  live h a m -> streams m !! a = Some s ->
  sender_of (CONFIG m) (nif_out (sndvar s)) = Some i -> sender_lookup m i = Some x ->
  senders_marks s' = senders_marks (s <| sndvar ::= set_flag k b |>) -> calm_marks s' = calm_marks s ->
  flag k (sndvar s) = negb b -> relisted k b a (pending h k i ++ lst k x) (pending h k i ++ l) ->
  n = zlen (pending h k i ++ l) -> strip a l = strip a (lst k x) ->
  let m' := sender_update i (set_lst k l n x) (m <| streams ::= insert a s' |>) in
  live h a m' /\ streams m' !! a = Some s' /\ moves [LSender k] a m m'.
Proof.
  intros [[H1 H2 H3 H4] Ha] Hs Hof Hx Hm Hcalm Hf Hl Hn Hstrip m'.
  destruct (sender_update_frame i (set_lst k l n x) (m <| streams ::= insert a s' |>))
    as (Hst & _ & Ht & Hto & Htb).
  fold m' in Hst, Ht, Hto, Htb. change (streams m' = <[a := s']> (streams m)) in Hst.
  split; [|split; [by rewrite Hst, lookup_insert_eq|by eapply moves_relist]].
  unfold calm_marks in Hcalm. injection Hcalm as Ht1 Hto1 Htb1. split.
  - split; [by apply (senders_insert h m a s s' i x k b l)| | |].
    + apply (timers_inv_same m); [done|done|]. rewrite Hst. eapply same_by_insert; [done|].
      unfold timers_marks in *. congruence.
    + apply (timeout_inv_same m); [done|done|]. rewrite Hst. by eapply same_by_insert.
    + apply (table_inv_same m); [done|done|]. rewrite Hst. eapply same_by_insert; [done|].
      unfold table_marks, key_of in *. congruence.
  - unfold alive. rewrite Hst, lookup_insert_eq. eauto.
Qed.

(** *** The sender of a live stream *)

Lemma the_sender_live h a m Q : live h a m ->
  (forall s i x, streams m !! a = Some s -> sender_of (CONFIG m) (nif_out (sndvar s)) = Some i ->
     sender_lookup m i = Some x -> Q i m) ->
  wpe benign (the_sender a) Q m.
Proof.
  intros Hm HQ. unfold the_sender, GetSender. rewrite !wpe_bind. eapply stream_at_live; [done|].
  intros s Hs. rewrite wpe_bind, wpe_get, wpe_bind, wpe_when.
  destruct (_ && _); [done|]. rewrite wpe_ret, wpe_bind, wpe_get.
  destruct (sender_of _ _) as [i|] eqn:Hi; [|done]. rewrite wpe_bind, wpe_assert.
  case_bool_decide as Hx; [|done]. destruct Hx as [x Hx]. by eapply HQ.
Qed.

Lemma touches_the_sender L h a : touches L h a (the_sender a).
Proof. intros m Hm. eapply the_sender_live; [done|]. intros. split; [done|reflexivity]. Qed.

#[export] Hint Resolve touches_the_sender : stab.

(** Changing a flag and the list of the sender it stands for. *)
Lemma relist_live h a m i s x k b f l n :
  live h a m -> streams m !! a = Some s ->
  sender_of (CONFIG m) (nif_out (sndvar s)) = Some i -> sender_lookup m i = Some x ->
  senders_marks (f s) = senders_marks (s <| sndvar ::= set_flag k b |>) -> calm_marks (f s) = calm_marks s ->
  flag k (sndvar s) = negb b -> relisted k b a (pending h k i ++ lst k x) (pending h k i ++ l) ->
  n = zlen (pending h k i ++ l) -> strip a l = strip a (lst k x) ->
  forall g, g x = set_lst k l n x ->
  wpe benign (stream_mod a f;; sender_mod i g)
    (fun _ m' => live h a m' /\ streams m' !! a = Some (f s) /\ moves [LSender k] a m m') m.
Proof.
  intros Hm Hs Hof Hx Hmk Hc Hf Hl Hn Hstrip g Hg. rewrite wpe_bind. eapply stream_mod_live; [done|].
  intros t Ht. assert (t = s) as -> by congruence.
  unfold sender_mod, sender_at. rewrite !wpe_bind, wpe_get.
  assert (Hx' : sender_lookup (m <| streams ::= insert a (f s) |>) i = Some x) by by destruct i.
  rewrite wpe_unwrap, Hx', wpe_modify, Hg. by eapply stack_inv_relist.
Qed.

(** Entering list [k] at the tail. *)
Lemma enlist_live h a m i s x k f g :
  live h a m -> streams m !! a = Some s ->
  sender_of (CONFIG m) (nif_out (sndvar s)) = Some i -> sender_lookup m i = Some x ->
  senders_marks (f s) = senders_marks (s <| sndvar ::= set_flag k true |>) -> calm_marks (f s) = calm_marks s ->
  flag k (sndvar s) = false ->
  g x = set_lst k (TAILQ_INSERT_TAIL (lst k x) a) (Z.succ (cnt k x)) x ->
  wpe benign (stream_mod a f;; sender_mod i g)
    (fun _ m' => live h a m' /\ moves [LSender k] a m m') m.
Proof.
  intros Hm Hs Hof Hx Hmk Hc Hf Hg. eapply wpe_mono.
  1: apply (relist_live h a m i s x k true f (TAILQ_INSERT_TAIL (lst k x) a) (Z.succ (cnt k x))); try done.
  - cbn. unfold TAILQ_INSERT_TAIL. by rewrite app_assoc, (Permutation_app_comm _ [a]).
  - rewrite (proj2 (si_senders _ _ (proj1 Hm) k i x Hx)). unfold TAILQ_INSERT_TAIL.
    rewrite !zlen_app. change (zlen [a]) with 1. lia.
  - apply strip_insert_tail.
  - by intros ? m' (Hl & _ & Hv).
Qed.

Lemma touches_AddtoControlList L h a : LSender KControl ∈ L -> touches L h a (AddtoControlList a).
Proof.
  intros HL m Hm. unfold AddtoControlList. rewrite wpe_bind. eapply stream_at_live; [done|]. intros s Hs.
  rewrite wpe_when. destruct (on_control_list (sndvar s)) eqn:Hf; cbn [negb]; [split; [done|reflexivity]|].
  rewrite wpe_bind. eapply the_sender_live; [done|]. intros t i x Ht Hi Hx.
  assert (t = s) as -> by congruence. eapply wpe_mono; [eapply (enlist_live h a m i s x KControl); done|].
  intros _ m' [Hl Hv]. split; [done|]. eapply moves_weaken; [|done]. set_solver.
Qed.

Lemma touches_AddtoSendList L h a : LSender KSend ∈ L -> touches L h a (AddtoSendList a).
Proof.
  intros HL m Hm. unfold AddtoSendList. rewrite wpe_bind. eapply the_sender_live; [done|].
  intros s i x Hs Hi Hx. rewrite wpe_bind. eapply stream_at_live; [done|]. intros t Ht.
  assert (t = s) as -> by congruence. rewrite wpe_bind, wpe_assert. destruct (negb _); [|done].
  rewrite wpe_when. destruct (on_send_list (sndvar s)) eqn:Hf; cbn [negb]; [split; [done|reflexivity]|].
  eapply wpe_mono; [eapply (enlist_live h a m i s x KSend); done|].
  intros _ m' [Hl Hv]. split; [done|]. eapply moves_weaken; [|done]. set_solver.
Qed.

Lemma touches_AddtoACKList L h a : LSender KAck ∈ L -> touches L h a (AddtoACKList a).
Proof.
  intros HL m Hm. unfold AddtoACKList. rewrite wpe_bind. eapply the_sender_live; [done|].
  intros s i x Hs Hi Hx. rewrite wpe_bind. eapply stream_at_live; [done|]. intros t Ht.
  assert (t = s) as -> by congruence.
  rewrite wpe_when. destruct (on_ack_list (sndvar s)) eqn:Hf; cbn [negb]; [split; [done|reflexivity]|].
  eapply wpe_mono; [eapply (enlist_live h a m i s x KAck); done|].
  intros _ m' [Hl Hv]. split; [done|]. eapply moves_weaken; [|done]. set_solver.
Qed.

(** Taking [a] off list [k]: the flag first, then the list. *)
Lemma unlist_live a m i s x k f (g : list Z -> mtcp_sender -> mtcp_sender) :
  live None a m -> streams m !! a = Some s ->
  sender_of (CONFIG m) (nif_out (sndvar s)) = Some i -> sender_lookup m i = Some x ->
  senders_marks (f s) = senders_marks (s <| sndvar ::= set_flag k false |>) ->
  calm_marks (f s) = calm_marks s -> flag k (sndvar s) = true ->
  (forall l, g l x = set_lst k l (Z.pred (cnt k x)) x) ->
  wpe benign (stream_mod a f;;
              x ← sender_at i; l ← unwrap CorruptList (TAILQ_REMOVE (lst k x) a); sender_mod i (g l))
    (fun _ m' => live None a m' /\ streams m' !! a = Some (f s) /\ moves [LSender k] a m m') m.
Proof.
  intros Hm Hs Hof Hx Hmk Hc Hf Hg. destruct (proj1 Hm) as [Hse _ _ _].
  destruct (Hse k i x Hx) as [Ht Hn]. cbn [pending app] in Ht, Hn.
  destruct (tracks_remove _ _ _ _ _ Hs (conj Hf Hof) Ht) as (l & Hl & Hp).
  rewrite wpe_bind. eapply stream_mod_live; [done|]. intros t Ht'. assert (t = s) as -> by congruence.
  assert (Hx' : sender_lookup (m <| streams ::= insert a (f s) |>) i = Some x) by by destruct i.
  unfold sender_at. rewrite !wpe_bind, wpe_get, wpe_unwrap, Hx', wpe_bind, wpe_unwrap, Hl.
  unfold sender_mod, sender_at. rewrite !wpe_bind, wpe_get, wpe_unwrap, Hx', wpe_modify, Hg, Hn.
  replace (Z.pred (zlen (lst k x))) with (zlen l).
  2:{ unfold zlen. rewrite Hp. cbn. lia. }
  eapply stack_inv_relist; try done. by apply strip_remove.
Qed.

(** A removal from the lists leaves the rest of the marks alone and the flag off. *)
Definition cleared (k : lkind) (s s' : tcp_stream) : Prop :=
  senders_marks s' = senders_marks (s <| sndvar ::= set_flag k false |>) /\ calm_marks s' = calm_marks s.

Definition removed (k : lkind) (a : Z) (m m' : mtcp_manager) : Prop :=
  live None a m' /\ moves [LSender k] a m m' /\
  exists s s', streams m !! a = Some s /\ streams m' !! a = Some s' /\ cleared k s s'.

Lemma cleared_off k s : flag k (sndvar s) = false -> cleared k s s.
Proof.
  intros Hf. split; [|done]. unfold senders_marks. unfold upd; cbn.
  destruct k; cbn in *; by rewrite Hf.
Qed.

Lemma RemoveFromControlList_live a m : live None a m ->
  wpe benign (RemoveFromControlList a) (fun _ m' => removed KControl a m m') m.
Proof.
  intros Hm. unfold RemoveFromControlList. rewrite wpe_bind. eapply the_sender_live; [done|].
  intros s i x Hs Hi Hx. rewrite wpe_bind. eapply stream_at_live; [done|]. intros t Ht.
  assert (t = s) as -> by congruence. rewrite wpe_when. destruct (on_control_list (sndvar s)) eqn:Hf.
  - eapply wpe_mono; [eapply (unlist_live a m i s x KControl); try done; intros; reflexivity|].
    intros _ m' (Hl & Hs' & Hv). split; [done|]. split; [done|]. eexists _, _. done.
  - split; [done|]. split; [reflexivity|]. exists s, s. split_and!; try done. by apply cleared_off.
Qed.

Lemma RemoveFromSendList_live a m : live None a m ->
  wpe benign (RemoveFromSendList a) (fun _ m' => removed KSend a m m') m.
Proof.
  intros Hm. unfold RemoveFromSendList. rewrite wpe_bind. eapply the_sender_live; [done|].
  intros s i x Hs Hi Hx. rewrite wpe_bind. eapply stream_at_live; [done|]. intros t Ht.
  assert (t = s) as -> by congruence. rewrite wpe_when. destruct (on_send_list (sndvar s)) eqn:Hf.
  - eapply wpe_mono; [eapply (unlist_live a m i s x KSend); try done; intros; reflexivity|].
    intros _ m' (Hl & Hs' & Hv). split; [done|]. split; [done|]. eexists _, _. done.
  - split; [done|]. split; [reflexivity|]. exists s, s. split_and!; try done. by apply cleared_off.
Qed.

Lemma RemoveFromACKList_live a m : live None a m ->
  wpe benign (RemoveFromACKList a) (fun _ m' => removed KAck a m m') m.
Proof.
  intros Hm. unfold RemoveFromACKList. rewrite wpe_bind. eapply the_sender_live; [done|].
  intros s i x Hs Hi Hx. rewrite wpe_bind. eapply stream_at_live; [done|]. intros t Ht.
  assert (t = s) as -> by congruence. rewrite wpe_when. destruct (on_ack_list (sndvar s)) eqn:Hf.
  - eapply wpe_mono; [eapply (unlist_live a m i s x KAck); try done; intros; reflexivity|].
    intros _ m' (Hl & Hs' & Hv). split; [done|]. split; [done|]. eexists _, _. done.
  - split; [done|]. split; [reflexivity|]. exists s, s. split_and!; try done. by apply cleared_off.
Qed.

Lemma removed_touches {A} L k a (f : MT A) : LSender k ∈ L ->
  (forall m, live None a m -> wpe benign f (fun _ m' => removed k a m m') m) -> touches L None a f.
Proof.
  intros HL Hf m Hm. eapply wpe_mono; [by apply Hf|].
  intros _ m' (Hl & Hv & _). split; [done|]. eapply moves_weaken; [|done]. set_solver.
Qed.

Lemma touches_RemoveFromControlList L a : LSender KControl ∈ L -> touches L None a (RemoveFromControlList a).
Proof. intros HL. eapply removed_touches, RemoveFromControlList_live; done. Qed.

Lemma touches_RemoveFromSendList L a : LSender KSend ∈ L -> touches L None a (RemoveFromSendList a).
Proof. intros HL. eapply removed_touches, RemoveFromSendList_live; done. Qed.

#[export] Hint Resolve touches_AddtoControlList touches_AddtoSendList touches_AddtoACKList
  touches_RemoveFromControlList touches_RemoveFromSendList : stab.

Lemma touches_EnqueueACK L h a o : LSender KAck ∈ L -> touches L h a (EnqueueACK a o).
Proof. intros HL. unfold EnqueueACK. stab. Qed.

#[export] Hint Resolve touches_EnqueueACK : stab.

(** ** The retransmission and time-wait lists *)

Lemma bin_insert t i l j : bin (<[i := l]> t) j = if decide (j = i) then l else bin t j.
Proof.
  unfold bin. case_decide as E; [subst; by rewrite lookup_insert_eq|by rewrite lookup_insert_ne].
Qed.

(** The marks and the state that the timer lists do not concern. *)
Definition still_marks (s : tcp_stream) := (senders_marks s, timeout_marks s, table_marks s).
Definition still_core (m : mtcp_manager) := (senders_core m, timeout_core m, table_core m).

Lemma live_timers h m m' a s s' :
  live h a m -> streams m !! a = Some s -> streams m' = <[a := s']> (streams m) ->
  still_core m' = still_core m -> still_marks s' = still_marks s -> timers_inv m' -> live h a m'.
Proof.
  intros [[H1 H2 H3 H4] Ha] Hs Hst Hc Hmk Ht. unfold still_core, still_marks in *. split.
  - split; [|done| |].
    + eapply senders_inv_same with (m := m); [done|congruence|]. rewrite Hst. eapply same_by_insert; [done|congruence].
    + apply (timeout_inv_same m); [done|congruence|]. rewrite Hst. eapply same_by_insert; [done|congruence].
    + apply (table_inv_same m); [done|congruence|]. rewrite Hst. eapply same_by_insert; [done|congruence].
  - unfold alive. rewrite Hst, lookup_insert_eq. eauto.
Qed.

(** The lanes whose mark is the same, but for one of [L]. *)
Ltac off_lane :=
  let Hn := fresh in intros [?| | |] Hn; first [done | exfalso; apply Hn; first [assumption | repeat constructor]].

Ltac clock_side := first [by right | left; first [assumption | by repeat constructor]].

Section TimerLists.
Variables (m m' : mtcp_manager) (a : Z) (s s' : tcp_stream).
Hypothesis Hinv : timers_inv m.
Hypothesis Hs : streams m !! a = Some s.
Hypothesis Hst : streams m' = <[a := s']> (streams m).

(** A stream that is not on the time-wait list moves between slots: [slot] is the new one,
    [-1] for none. *)
Lemma timers_move_rto slot :
  -1 <= slot <= RTO_HASH -> on_rto_idx s' = slot -> on_timewait_list s' = on_timewait_list s ->
  (on_timewait_list s = true -> slot < 0) ->
  (forall idx, 0 <= idx -> idx = slot -> idx <> on_rto_idx s ->
     bin (rto_list (rto_store m')) idx ≡ₚ a :: bin (rto_list (rto_store m)) idx) ->
  (forall idx, 0 <= idx -> idx <> slot -> idx = on_rto_idx s ->
     bin (rto_list (rto_store m)) idx ≡ₚ a :: bin (rto_list (rto_store m')) idx) ->
  (forall idx, (idx = slot /\ idx = on_rto_idx s) \/ (idx <> slot /\ idx <> on_rto_idx s) \/ idx < 0 ->
     bin (rto_list (rto_store m')) idx ≡ₚ bin (rto_list (rto_store m)) idx) ->
  rto_list_cnt m' = rto_list_cnt m + (if 0 <=? slot then 1 else 0) - (if on_rto s then 1 else 0) ->
  timewait_list m' = timewait_list m -> timewait_list_cnt m' = timewait_list_cnt m ->
  timers_inv m'.
Proof using Hinv Hs Hst.
  intros Hslot Hidx Htw Hex Hin Hout Hsame Hcnt Hl Hlc. destruct Hinv as [Hr Hrc Hri Ht Htc He].
  split; rewrite ?Hst, ?Hl, ?Hlc.
  - intros idx. specialize (Hr idx). unfold on_rto.
    destruct (decide (0 <= idx)) as [Hi|Hi].
    2:{ eapply (tracks_insert_same _ _ _ _ _ _ Hs); [lia|]. eapply tracks_perm; [|done]. apply Hsame. lia. }
    destruct (decide (idx = slot)) as [E1|E1], (decide (idx = on_rto_idx s)) as [E2|E2].
    + eapply (tracks_insert_same _ _ _ _ _ _ Hs); [lia|]. eapply tracks_perm; [|done]. apply Hsame. lia.
    + eapply (tracks_insert_in _ _ _ _ _ _ _ Hs); [lia|lia|by apply Hin|done].
    + eapply (tracks_insert_out _ _ _ _ _ _ _ Hs); [lia|by apply Hout|done].
    + eapply (tracks_insert_same _ _ _ _ _ _ Hs); [lia|]. eapply tracks_perm; [|done]. apply Hsame. lia.
  - rewrite (rto_count_insert _ _ s) by done. rewrite Hcnt, Hrc. unfold on_rto. by rewrite Hidx.
  - intros b t. destruct (decide (b = a)) as [->|]; [rewrite lookup_insert_eq; intros [= <-]; lia|].
    rewrite lookup_insert_ne by done. eauto.
  - eapply tracks_insert_same; [done| |done]. by rewrite Htw.
  - done.
  - intros b t. destruct (decide (b = a)) as [->|]; [|rewrite lookup_insert_ne by done; eauto].
    rewrite lookup_insert_eq. intros [= <-] E. rewrite Htw in E. specialize (Hex E). unfold on_rto. lia.
Qed.

(** A stream that is on no retransmission list enters or leaves the time-wait list. *)
Lemma timers_move_tw b :
  on_rto_idx s' = on_rto_idx s -> on_rto s = false -> on_timewait_list s = negb b ->
  on_timewait_list s' = b ->
  (if b then timewait_list m' ≡ₚ a :: timewait_list m else timewait_list m ≡ₚ a :: timewait_list m') ->
  timewait_list_cnt m' = zlen (timewait_list m') ->
  rto_list (rto_store m') = rto_list (rto_store m) -> rto_list_cnt m' = rto_list_cnt m ->
  timers_inv m'.
Proof using Hinv Hs Hst.
  intros Hidx Hno Htw Htw' Hl Hlc Hrl Hrlc. destruct Hinv as [Hr Hrc Hri Ht Htc He].
  split; rewrite ?Hst, ?Hrl, ?Hrlc; try done.
  - intros idx. eapply tracks_insert_same; [done| |apply Hr]. unfold on_rto. by rewrite Hidx.
  - rewrite (rto_count_insert _ _ s) by done. unfold on_rto. rewrite Hidx. lia.
  - intros c t. destruct (decide (c = a)) as [->|]; [rewrite lookup_insert_eq; intros [= <-]|].
    + rewrite Hidx. eauto.
    + rewrite lookup_insert_ne by done. eauto.
  - destruct b; cbn in Hl.
    + eapply tracks_insert_in; [done| |done|done|done]. rewrite Htw. done.
    + eapply tracks_insert_out; [done| |done|done]. rewrite Htw'. done.
  - intros c t. destruct (decide (c = a)) as [->|]; [rewrite lookup_insert_eq; intros [= <-] _|].
    + unfold on_rto in *. by rewrite Hidx.
    + rewrite lookup_insert_ne by done. eauto.
Qed.

End TimerLists.

(** *** Operations *)

(** What an operation that only takes [a] off lists does to it. *)
Record fewer (s s' : tcp_stream) : Prop := {
  fw_flag : forall k, flag k (sndvar s') = true -> flag k (sndvar s) = true;
  fw_rto : on_rto s' = true -> on_rto s = true;
  fw_tw : on_timewait_list s' = true -> on_timewait_list s = true;
  fw_to : on_timeout_list s' = true -> on_timeout_list s = true;
  fw_table : table_marks s' = table_marks s
}.

#[export] Instance fewer_preorder : PreOrder fewer.
Proof.
  split; [by intros s; split|]. intros s1 s2 s3 [] []. split; eauto. congruence.
Qed.

Lemma fewer_marks s s' : marks_of s' = marks_of s -> fewer s s'.
Proof.
  intros E. pose proof (f_equal (fun t => t.1.1.1) E) as E1. pose proof (f_equal (fun t => t.1.1.2) E) as E2.
  pose proof (f_equal (fun t => t.1.2) E) as E3. pose proof (f_equal snd E) as E4.
  cbn in E1, E2, E3, E4. unfold timers_marks, timeout_marks in E2, E3. injection E2 as E2 E2'.
  split; try congruence.
  - intros k. by rewrite (senders_flag s' s k E1).
  - unfold on_rto. by rewrite E2.
Qed.

(** Nothing but [a] and the lists, for [a], has changed. *)
Definition drops (a : Z) (m m' : mtcp_manager) : Prop := others a m m' /\ clock m' = clock m.

#[export] Instance drops_preorder a : PreOrder (drops a).
Proof. split; [by intros m|]. intros m1 m2 m3 [] []. split; [by etransitivity|congruence]. Qed.

Lemma moves_drops L a m m' : LRto ∉ L -> moves L a m m' -> drops a m m'.
Proof. intros HL Hv. split; [apply Hv|by apply (mv_clock _ _ _ _ Hv)]. Qed.

(** [a] is still a live stream and has only left lists. *)
Definition leaves (a : Z) (P : tcp_stream -> Prop) (m m' : mtcp_manager) : Prop :=
  live None a m' /\ drops a m m' /\
  exists s s', streams m !! a = Some s /\ streams m' !! a = Some s' /\ fewer s s' /\ P s'.

Lemma moves_all a m m' : others a m m' -> same_at table_marks a m m' -> moves all_lanes a m m'.
Proof.
  intros Ho Ht. assert (Hall : forall l : lane, l ∈ all_lanes) by (intros [[]| | |]; repeat constructor).
  split; [done|done|..]; [intros l Hl|intros l Hl|intros Hl]; by destruct Hl.
Qed.

Lemma leaves_moves a P m m' : leaves a P m m' -> moves all_lanes a m m'.
Proof.
  intros (Hl & Ho & s & s' & Hs & Hs' & Hw & _). apply moves_all; [apply Ho|].
  unfold same_at. rewrite Hs, Hs'. cbn. f_equal. apply Hw.
Qed.

Lemma leaves_keeps {A} a P (f : MT A) :
  (forall m, live None a m -> wpe benign f (fun _ m' => leaves a P m m') m) -> keeps None a f.
Proof.
  intros Hf m Hm. eapply wpe_mono; [by apply Hf|].
  intros u m' Hl. split; [apply Hl|exact (leaves_moves _ _ _ _ Hl)].
Qed.

Lemma removed_leaves k a m m' :
  removed k a m m' -> leaves a (fun s => flag k (sndvar s) = false) m m'.
Proof.
  intros (Hl & Ho & s & s' & Hs & Hs' & Hc1 & Hc2). split; [done|].
  split; [eapply moves_drops; [|done]; set_solver|]. exists s, s'. split; [done|]. split; [done|].
  pose proof (f_equal (fun t => t.1.1) Hc2) as Ht. pose proof (f_equal (fun t => t.1.2) Hc2) as Hto.
  pose proof (f_equal snd Hc2) as Htb. cbn in Ht, Hto, Htb. unfold timers_marks, timeout_marks in Ht, Hto.
  assert (Hf : forall k0, flag k0 (sndvar s') = if decide (k0 = k) then false else flag k0 (sndvar s)).
  { intros k0. rewrite (senders_flag _ _ k0 Hc1). apply flag_set. }
  split; [split|].
  - intros k0. rewrite Hf. by case_decide.
  - injection Ht as E _. unfold on_rto. by rewrite E.
  - injection Ht as _ E. by rewrite E.
  - by rewrite Hto.
  - done.
  - by rewrite Hf, decide_True.
Qed.

(** Leaving a slot. *)
Lemma rto_leave_live a m s l :
  live None a m -> streams m !! a = Some s -> 0 <= on_rto_idx s ->
  TAILQ_REMOVE (bin (rto_list (rto_store m)) (on_rto_idx s)) a = Some l ->
  let m' := m <| rto_store ::= (fun r => r <| rto_list ::= insert (on_rto_idx s) l |>) |>
              <| streams ::= insert a (s <| on_rto_idx := -1 |>) |> <| rto_list_cnt ::= Z.pred |> in
  leaves a (fun s => on_rto s = false) m m'.
Proof.
  intros Hm Hs Hi Hl m'. pose proof (TAILQ_REMOVE_perm _ _ _ Hl) as Hp. destruct (proj1 Hm) as [_ Hti _ _].
  assert (Hex : on_timewait_list s = false).
  { destruct (on_timewait_list s) eqn:E; [|done]. pose proof (ti_excl _ Hti a s Hs E). unfold on_rto in *. lia. }
  assert (Hb : forall idx, bin (rto_list (rto_store m')) idx =
    if decide (idx = on_rto_idx s) then l else bin (rto_list (rto_store m)) idx) by (intros; apply bin_insert).
  split; [|split].
  - apply (live_timers None m m' a s (s <| on_rto_idx := -1 |>)); try done.
    apply (timers_move_rto m m' a s _ Hti Hs eq_refl (-1)); try done; try (cbn; lia).
    + intros idx _ _ ->. by rewrite Hb, decide_True.
    + intros idx Hc. rewrite Hb, decide_False; [done|]. lia.
    + change (rto_list_cnt m') with (Z.pred (rto_list_cnt m)). unfold on_rto.
      rewrite (proj2 (Z.leb_le _ _) Hi). cbn. lia.
  - split; [|done]. apply (mv_others [LRto]).
    eapply moves_intro; [done|done|done|off_lane| |done|clock_side].
    intros [| idx| |]; [left; done|right|left; done..]. split; [by constructor|]. cbn.
    rewrite Hb. case_decide; [|done]. subst. by apply strip_remove.
  - exists s, (s <| on_rto_idx := -1 |>). split; [done|].
    split; [apply lookup_insert_eq|]. by split.
Qed.

Lemma RemoveFromRTOList_live a m : live None a m ->
  wpe benign (RemoveFromRTOList a) (fun _ m' => leaves a (fun s => on_rto s = false) m m') m.
Proof.
  intros Hm. unfold RemoveFromRTOList. rewrite wpe_bind. eapply stream_at_live; [done|]. intros s Hs.
  destruct (Z.ltb_spec (on_rto_idx s) 0) as [Hi|Hi].
  { split; [done|]. split; [reflexivity|]. exists s, s. split_and!; try done. unfold on_rto. lia. }
  pose proof (ti_rto _ (si_timers _ _ (proj1 Hm)) (on_rto_idx s)) as Ht.
  destruct (tracks_remove _ _ _ _ _ Hs (conj (proj2 (Z.leb_le _ _) Hi) eq_refl) Ht) as (l & Hl & _).
  rewrite wpe_bind, wpe_get, wpe_bind, wpe_unwrap, Hl. unfold set_rto_list.
  rewrite wpe_bind, wpe_modify, wpe_bind. set (m1 := upd _ _ _).
  unfold stream_mod, stream_at, stream_set. rewrite !wpe_bind, wpe_get, wpe_unwrap.
  change (streams m1) with (streams m). rewrite Hs, !wpe_modify. by apply rto_leave_live.
Qed.

Lemma keeps_RemoveFromRTOList a : keeps None a (RemoveFromRTOList a).
Proof. eapply leaves_keeps, RemoveFromRTOList_live. Qed.

#[export] Hint Resolve keeps_RemoveFromRTOList : stab.

Lemma rto_slot_range r diff : 0 <= rto_slot r diff <= RTO_HASH.
Proof. unfold rto_slot, RTO_HASH. case (_ <? _); [|lia]. pose proof (Z.mod_pos_bound (u32 (diff + rto_now_idx r)) 3000). lia. Qed.

(** Entering a slot. *)
Lemma rto_enter_live L h a m s slot : LRto ∈ L -> live h a m -> streams m !! a = Some s ->
  on_rto_idx s < 0 -> on_timewait_list s = false -> 0 <= slot <= RTO_HASH ->
  wpe benign (stream_mod a (fun s => s <| on_rto_idx := slot |>);;
              set_rto_list slot (TAILQ_INSERT_TAIL (bin (rto_list (rto_store m)) slot) a);;
              modify (fun m => m <| rto_list_cnt ::= Z.succ |>))
    (fun _ m' => live h a m' /\ moves L a m m') m.
Proof.
  intros HL Hm Hs Hi Htw Hslot. destruct (proj1 Hm) as [_ Hti _ _].
  rewrite wpe_bind. eapply stream_mod_live; [done|]. intros t Ht. assert (t = s) as -> by congruence.
  unfold set_rto_list. rewrite wpe_bind, !wpe_modify. set (m2 := upd _ _ _).
  assert (Hb : forall idx, bin (rto_list (rto_store m2)) idx =
    if decide (idx = slot) then TAILQ_INSERT_TAIL (bin (rto_list (rto_store m)) slot) a
    else bin (rto_list (rto_store m)) idx) by (intros; apply bin_insert).
  split.
  2:{ eapply (moves_intro _ _ s (s <| on_rto_idx := slot |>)); [done|done|done|off_lane| |done|clock_side].
      intros [| idx| |]; [left; done|right|left; done..]. split; [done|]. cbn. rewrite Hb.
      case_decide; [|done]. subst. apply strip_insert_tail. }
  apply (live_timers _ m m2 a s (s <| on_rto_idx := slot |>)); try done.
  apply (timers_move_rto m m2 a s _ Hti Hs eq_refl slot); try done; try lia.
  - intros E. congruence.
  - intros idx _ -> _. rewrite Hb, decide_True by done. apply insert_tail_perm.
  - intros idx Hc. rewrite Hb, decide_False; [done|]. lia.
  - change (rto_list_cnt m2) with (Z.succ (rto_list_cnt m)). unfold on_rto.
    rewrite (proj2 (Z.leb_le _ _)), (proj2 (Z.leb_gt _ _)) by lia. lia.
Qed.

(** Setting the clock of the wheel. *)
Lemma stack_inv_clock h m f : (forall r, rto_list (f r) = rto_list r) -> stack_inv h m ->
  stack_inv h (m <| rto_store ::= f |>).
Proof.
  intros Hf [H1 H2 H3 H4].
  assert (Ht : timers_core (m <| rto_store ::= f |>) = timers_core m).
  { unfold timers_core, upd; cbn. by rewrite Hf. }
  split; [by eapply senders_inv_same|by eapply timers_inv_same|by eapply timeout_inv_same|by eapply table_inv_same].
Qed.

Lemma moves_set_clock L a m f : (forall r, rto_list (f r) = rto_list r) -> LRto ∈ L ->
  moves L a m (m <| rto_store ::= f |>).
Proof.
  intros Hf HL. apply moves_relink; [done| |done|by left]. intros [? []|idx| |]; left; try done.
  cbn. unfold upd; cbn. by rewrite Hf.
Qed.

Lemma touches_AddtoRTOList L h a : LRto ∈ L -> touches L h a (AddtoRTOList a).
Proof.
  intros HL m Hm. unfold AddtoRTOList. rewrite wpe_bind. eapply stream_at_live; [done|]. intros s Hs.
  rewrite wpe_bind, wpe_get, wpe_bind.
  apply (wpe_mono _ _ (fun _ m' => live h a m' /\ moves L a m m' /\ streams m' = streams m)).
  { rewrite wpe_when. case (_ =? _); [|split; [done|by split]]. rewrite wpe_modify.
    split; [split; [apply stack_inv_clock; [done|apply Hm]|apply Hm]|]. split; [|done]. by apply moves_set_clock. }
  intros _ m1 (Hm1 & V1 & E). rewrite wpe_when.
  destruct (Z.ltb_spec (on_rto_idx s) 0) as [Hi|_]; [|by split].
  destruct (on_timewait_list s) eqn:Htw; cbn [negb andb]; [by split|].
  rewrite wpe_bind, wpe_get. eapply wpe_mono.
  - apply (rto_enter_live L h a m1 s); try done; [by rewrite E|apply rto_slot_range].
  - intros _ m2 [H1 H2]. split; [done|]. by etransitivity.
Qed.

#[export] Hint Resolve touches_AddtoRTOList : stab.

Lemma keeps_UpdateRetransmissionTimer a ts : keeps None a (UpdateRetransmissionTimer a ts).
Proof. unfold UpdateRetransmissionTimer. stab. Qed.

#[export] Hint Resolve keeps_UpdateRetransmissionTimer : stab.

(** *** Time wait *)

(** A permutation of the time-wait list. *)
Lemma live_tw_perm a m l : live None a m -> l ≡ₚ timewait_list m ->
  live None a (m <| timewait_list := l |>).
Proof.
  intros [[H1 [Hr Hrc Hri Ht Htc He] H3 H4] Ha] Hp. split; [|done]. split.
  - by eapply senders_inv_same with (m := m).
  - split; try done; unfold upd; cbn.
    + by eapply tracks_perm.
    + rewrite Htc. unfold zlen. by rewrite Hp.
  - by apply (timeout_inv_same m).
  - by apply (table_inv_same m).
Qed.

Lemma tw_enter_live a m s : live None a m -> streams m !! a = Some s -> on_rto s = false ->
  on_timewait_list s = false ->
  wpe benign (stream_mod a (fun s => s <| on_timewait_list := true |>);;
              modify (fun m => m <| timewait_list ::= fun l => TAILQ_INSERT_TAIL l a |>
                       <| timewait_list_cnt ::= Z.succ |>))
    (fun _ m' => live None a m' /\ moves all_lanes a m m') m.
Proof.
  intros Hm Hs Hr Htw. destruct (proj1 Hm) as [_ Hti _ _].
  rewrite wpe_bind. eapply stream_mod_live; [done|]. intros t Ht. assert (t = s) as -> by congruence.
  rewrite wpe_modify. set (m2 := upd _ _ _). split.
  2:{ eapply (moves_intro _ _ s (s <| on_timewait_list := true |>)); [done|done|done|off_lane| |done|clock_side].
      intros []; [left; done..|right|left; done]. split; [repeat constructor|]. apply strip_insert_tail. }
  apply (live_timers _ m m2 a s (s <| on_timewait_list := true |>)); try done.
  apply (timers_move_tw m m2 a s _ Hti Hs eq_refl true); try done.
  - apply insert_tail_perm.
  - change (timewait_list_cnt m2) with (Z.succ (timewait_list_cnt m)). rewrite (ti_tw_cnt _ Hti).
    change (timewait_list m2) with (timewait_list m ++ [a]). rewrite zlen_app. change (zlen [a]) with 1. lia.
Qed.

Lemma keeps_AddtoTimewaitList a ts : keeps None a (AddtoTimewaitList a ts).
Proof.
  intros m Hm. unfold AddtoTimewaitList. rewrite wpe_bind, wpe_get, wpe_bind.
  eapply stream_mod_live; [done|]. intros s0 Hs0. set (s := upd rcvvar _ s0). set (m1 := upd streams _ m).
  assert (Hm1 : live None a m1) by by eapply live_insert.
  assert (Ho : moves all_lanes a m m1) by by eapply moves_insert.
  assert (Hs : streams m1 !! a = Some s) by apply lookup_insert_eq.
  rewrite wpe_bind. eapply stream_at_live; [done|]. intros t Ht. assert (t = s) as -> by congruence. clear Ht.
  destruct (proj1 Hm1) as [_ Hti _ _]. destruct (on_timewait_list s) eqn:Htw.
  - destruct (tracks_remove _ _ _ _ _ Hs Htw (ti_tw _ Hti)) as (l & Hl & Hp).
    change (timewait_list m1) with (timewait_list m) in Hl. rewrite wpe_bind, wpe_unwrap, Hl, wpe_modify. split.
    + apply live_tw_perm; [done|]. by rewrite insert_tail_perm, Hp.
    + etransitivity; [exact Ho|]. apply moves_relink; [done| |done|by right].
      intros []; [left; done..|right|left; done]. split; [repeat constructor|].
      change (strip a (TAILQ_INSERT_TAIL l a) = strip a (timewait_list m)).
      rewrite strip_insert_tail. by apply strip_remove.
  - rewrite wpe_bind, wpe_when.
    assert (Hk : forall m2, leaves a (fun s => on_rto s = false) m1 m2 ->
      wpe benign (stream_mod a (fun s => s <| on_timewait_list := true |>);;
              modify (fun m => m <| timewait_list ::= fun l => TAILQ_INSERT_TAIL l a |>
                       <| timewait_list_cnt ::= Z.succ |>)) (fun _ m' => live None a m' /\ moves all_lanes a m m') m2).
    { intros m2 Hlv. pose proof (leaves_moves _ _ _ _ Hlv) as Ho2.
      destruct Hlv as (Hl & _ & x & y & Hx & Hy & Hf & Hr). eapply wpe_mono.
      - apply (tw_enter_live a m2 y); try done. destruct (on_timewait_list y) eqn:E; [|done].
        apply (fw_tw _ _ Hf) in E. congruence.
      - intros _ m3 [H1 H2]. split; [done|]. etransitivity; [done|]. by etransitivity. }
    destruct (Z.leb_spec 0 (on_rto_idx s)) as [Hi|Hi].
    + eapply wpe_mono; [by apply RemoveFromRTOList_live|]. intros u m2. apply Hk.
    + apply Hk. split; [done|]. split; [reflexivity|]. exists s, s. split_and!; try done. unfold on_rto. lia.
Qed.

(** Leaving the time-wait list. *)
Lemma tw_leave_live a m s l :
  live None a m -> streams m !! a = Some s -> on_timewait_list s = true ->
  TAILQ_REMOVE (timewait_list m) a = Some l ->
  let m' := m <| streams ::= insert a (s <| on_timewait_list := false |>) |>
              <| timewait_list := l |> <| timewait_list_cnt ::= Z.pred |> in
  leaves a (fun s => on_timewait_list s = false) m m'.
Proof.
  intros Hm Hs Htw Hl m'. destruct (proj1 Hm) as [_ Hti _ _]. pose proof Hl as Hrm. apply TAILQ_REMOVE_perm in Hl.
  split; [|split].
  - apply (live_timers None m m' a s (s <| on_timewait_list := false |>)); try done.
    apply (timers_move_tw m m' a s _ Hti Hs eq_refl false); try done.
    + by apply (ti_excl _ Hti a).
    + change (timewait_list_cnt m') with (Z.pred (timewait_list_cnt m)). rewrite (ti_tw_cnt _ Hti).
      change (timewait_list m') with l. unfold zlen. rewrite Hl. cbn. lia.
  - split; [|done]. apply (mv_others [LTimewait]). eapply moves_intro; [done|done|done|off_lane| |done|clock_side].
    intros []; [left; done..|right|left; done]. split; [by constructor|]. by apply strip_remove.
  - exists s, (s <| on_timewait_list := false |>). split; [done|].
    split; [apply lookup_insert_eq|]. by split.
Qed.

Lemma RemoveFromTimewaitList_live a m : live None a m ->
  wpe benign (RemoveFromTimewaitList a)
    (fun _ m' => leaves a (fun s => on_timewait_list s = false) m m') m.
Proof.
  intros Hm. unfold RemoveFromTimewaitList. rewrite wpe_bind. eapply stream_at_live; [done|]. intros s Hs.
  rewrite wpe_bind, wpe_assert. destruct (on_timewait_list s) eqn:Htw; [|done].
  destruct (tracks_remove _ _ _ _ _ Hs Htw (ti_tw _ (si_timers _ _ (proj1 Hm)))) as (l & Hl & Hp).
  rewrite wpe_bind, wpe_get, wpe_bind, wpe_unwrap, Hl, wpe_bind.
  eapply stream_mod_live; [done|]. intros t Ht. assert (t = s) as -> by congruence.
  rewrite wpe_modify. by apply tw_leave_live.
Qed.

Lemma keeps_RemoveFromTimewaitList a : keeps None a (RemoveFromTimewaitList a).
Proof. eapply leaves_keeps, RemoveFromTimewaitList_live. Qed.

#[export] Hint Resolve keeps_AddtoTimewaitList keeps_RemoveFromTimewaitList : stab.

(** *** Connection timeout *)

(** The marks and the state that the timeout list does not concern. *)
Definition settled_marks (s : tcp_stream) := (senders_marks s, timers_marks s, table_marks s).
Definition settled_core (m : mtcp_manager) := (senders_core m, timers_core m, table_core m).

Lemma live_timeout h m m' a s s' :
  live h a m -> streams m !! a = Some s -> streams m' = <[a := s']> (streams m) ->
  settled_core m' = settled_core m -> settled_marks s' = settled_marks s -> timeout_inv m' -> live h a m'.
Proof.
  intros [[H1 H2 H3 H4] Ha] Hs Hst Hc Hmk Ht. unfold settled_core, settled_marks in *. split.
  - split; [| |done|].
    + eapply senders_inv_same with (m := m); [done|congruence|]. rewrite Hst. eapply same_by_insert; [done|congruence].
    + apply (timers_inv_same m); [done|congruence|]. rewrite Hst. eapply same_by_insert; [done|congruence].
    + apply (table_inv_same m); [done|congruence|]. rewrite Hst. eapply same_by_insert; [done|congruence].
  - unfold alive. rewrite Hst, lookup_insert_eq. eauto.
Qed.

Lemma touches_watch_timeout L h a : LTimeout ∈ L -> touches L h a (watch_timeout a).
Proof.
  intros HL m Hm. unfold watch_timeout, AddtoTimeoutList. rewrite wpe_bind, wpe_get, wpe_when.
  destruct (Z.ltb_spec 0 (tcp_timeout (CONFIG m))) as [Hto|_]; [|split; [done|reflexivity]].
  rewrite wpe_bind. eapply stream_at_live; [done|]. intros s Hs. rewrite wpe_bind, wpe_assert.
  destruct (on_timeout_list s) eqn:Hf; cbn [negb]; [done|].
  rewrite wpe_bind. eapply stream_mod_live; [done|]. intros t Ht. assert (t = s) as -> by congruence.
  rewrite wpe_modify. set (m2 := upd _ _ _). destruct (proj1 Hm) as [_ _ [Hl Hc Ho] _].
  split.
  2:{ eapply (moves_intro _ _ s (s <| on_timeout_list := true |>)); [done|done|done|off_lane| |done|clock_side].
      intros []; [left; done..|right]. split; [done|]. apply strip_insert_tail. }
  apply (live_timeout _ m m2 a s (s <| on_timeout_list := true |>)); try done.
  split.
  - eapply (tracks_insert_in _ _ _ _ _ _ _ Hs); [by rewrite Hf|done|apply insert_tail_perm|done].
  - change (timeout_list_cnt m2) with (Z.succ (timeout_list_cnt m)). rewrite Hc.
    change (timeout_list m2) with (timeout_list m ++ [a]). rewrite zlen_app. change (zlen [a]) with 1. lia.
  - change (CONFIG m2) with (CONFIG m). lia.
Qed.

(** Leaving the timeout list. *)
Lemma timeout_leave_live a m s l :
  live None a m -> streams m !! a = Some s -> on_timeout_list s = true ->
  TAILQ_REMOVE (timeout_list m) a = Some l ->
  let m' := m <| streams ::= insert a (s <| on_timeout_list := false |>) |>
              <| timeout_list := l |> <| timeout_list_cnt ::= Z.pred |> in
  leaves a (fun s => on_timeout_list s = false) m m'.
Proof.
  intros Hm Hs Hf Hl m'. destruct (proj1 Hm) as [_ _ [Ht Hc Ho] _]. pose proof Hl as Hrm. apply TAILQ_REMOVE_perm in Hl.
  split; [|split].
  - apply (live_timeout None m m' a s (s <| on_timeout_list := false |>)); try done.
    split.
    + eapply (tracks_insert_out _ _ _ _ _ _ _ Hs); [|done|done]. done.
    + change (timeout_list_cnt m') with (Z.pred (timeout_list_cnt m)). rewrite Hc.
      change (timeout_list m') with l. unfold zlen. rewrite Hl. cbn. lia.
    + intros E. apply Ho in E. rewrite E in Hl. by apply Permutation_nil_cons in Hl.
  - split; [|done]. apply (mv_others [LTimeout]). eapply moves_intro; [done|done|done|off_lane| |done|clock_side].
    intros []; [left; done..|right]. split; [by constructor|]. by apply strip_remove.
  - exists s, (s <| on_timeout_list := false |>). split; [done|].
    split; [apply lookup_insert_eq|]. by split.
Qed.

Lemma RemoveFromTimeoutList_live a m : live None a m ->
  wpe benign (RemoveFromTimeoutList a)
    (fun _ m' => leaves a (fun s => on_timeout_list s = false) m m') m.
Proof.
  intros Hm. unfold RemoveFromTimeoutList. rewrite wpe_bind. eapply stream_at_live; [done|]. intros s Hs.
  rewrite wpe_when. destruct (on_timeout_list s) eqn:Hf.
  2:{ split; [done|]. split; [reflexivity|]. by exists s, s. }
  destruct (tracks_remove _ _ _ _ _ Hs Hf (to_list _ (si_timeout _ _ (proj1 Hm)))) as (l & Hl & Hp).
  rewrite wpe_bind. eapply stream_mod_live; [done|]. intros t Ht. assert (t = s) as -> by congruence.
  rewrite wpe_bind, wpe_get, wpe_bind, wpe_unwrap. unfold upd at 1; cbn [timeout_list]. rewrite Hl, wpe_modify.
  by apply timeout_leave_live.
Qed.

Lemma touches_UpdateTimeoutList L h a : LTimeout ∈ L -> touches L h a (UpdateTimeoutList a).
Proof.
  intros HL m Hm. unfold UpdateTimeoutList. rewrite wpe_bind. eapply stream_at_live; [done|]. intros s Hs.
  rewrite wpe_when. destruct (on_timeout_list s) eqn:Hf; [|split; [done|reflexivity]].
  destruct Hm as [[H1 H2 [Ht Hc Ho] H4] Ha].
  destruct (tracks_remove _ _ _ _ _ Hs Hf Ht) as (l & Hl & Hp).
  rewrite wpe_bind, wpe_get, wpe_bind, wpe_unwrap, Hl, wpe_modify. split.
  2:{ apply moves_relink; [done| |done|by right]. intros []; [left; done..|right]. split; [done|].
      change (strip a (TAILQ_INSERT_TAIL l a) = strip a (timeout_list m)).
      rewrite strip_insert_tail. by apply strip_remove. }
  assert (Hq : TAILQ_INSERT_TAIL l a ≡ₚ timeout_list m) by by rewrite insert_tail_perm, Hp.
  split; [|done]. split.
  - by eapply senders_inv_same with (m := m).
  - by apply (timers_inv_same m).
  - split; unfold upd; cbn.
    + by eapply tracks_perm.
    + rewrite Hc. unfold zlen. by rewrite Hq.
    + intros E. apply Ho in E. rewrite E in Hq. by apply Permutation_nil_r in Hq.
  - by apply (table_inv_same m).
Qed.

#[export] Hint Resolve touches_watch_timeout touches_UpdateTimeoutList : stab.
