(* ===== verification/Benign.v ===== *)
(** * Code that cannot corrupt the stream lists

    The operations of the pools, buffers and queues, the output path, the events and the
    table searches never touch a stream list: whatever they are called on, they do not
    fault with a corrupted list or a dangling stream pointer, and (where they work on the
    stack's state) they leave everything the invariant of [StackInv.v] speaks about as it
    was. *)

From S2P Require Import Prelude SeqArith Queues MemPool SendBuffer RingBuffer AddrPool Mtcp TcpUtil Output Events Fhash Lists TcpStream TcpOut StackInv.

(** [stab_rest] closes a [wpe] goal whose code is [stable] for the relation of the goal. *)
Ltac stab_rest :=
  cbv beta;
  match goal with
  | Hm : live ?h ?a ?m |- wpe benign ?f (fun _ m' => _ /\ moves ?L _ _ m') ?m =>
      let Hk := fresh in assert (Hk : touches L h a f) by stab; exact (Hk m Hm)
  end.

(** ** Pools, queues and buffers *)

Lemma only_modify {S} E (f : S -> S) : only E (modify f).
Proof. by apply stable_modify. Qed.

Lemma only_put {S} E (s : S) : only E (put s).
Proof. by intros t _. Qed.

Lemma only_zoom {S T A} E (proj : S -> T) `{!Setter proj} (m : M T A) : only E m -> only E (zoom proj m).
Proof. intros Hm. by eapply stable_zoom. Qed.

#[export] Hint Resolve only_modify only_put only_zoom : stab.

Lemma benign_chunk_read p : only benign (chunk_read p).
Proof. unfold chunk_read. stab. Qed.

Lemma benign_chunk_write p c : only benign (chunk_write p c).
Proof. unfold chunk_write. stab. Qed.

#[export] Hint Resolve benign_chunk_read benign_chunk_write : stab.

Lemma benign_MPAllocateChunk : only benign MPAllocateChunk.
Proof. unfold MPAllocateChunk. stab. Qed.

Lemma benign_MPFreeChunk p : only benign (MPFreeChunk p).
Proof. unfold MPFreeChunk. stab. Qed.

Lemma benign_Enqueue v : only benign (Click.Enqueue v).
Proof. unfold Click.Enqueue, Click.store. stab. Qed.

Lemma benign_Dequeue : only benign Click.Dequeue.
Proof. unfold Click.Dequeue, Click.load. stab. Qed.

#[export] Hint Resolve benign_MPAllocateChunk benign_MPFreeChunk benign_Enqueue benign_Dequeue : stab.

(** The interfaces, at the implementations the stack uses. *)
Lemma benign_cp_alloc : only benign (cp_alloc (P := mem_pool)).
Proof. apply benign_MPAllocateChunk. Qed.

Lemma benign_cp_free p : only benign (cp_free (P := mem_pool) p).
Proof. apply benign_MPFreeChunk. Qed.

Lemma benign_fifo_enq v : only benign (fifo_enq (Q := Click.click_queue) v).
Proof. apply benign_Enqueue. Qed.

Lemma benign_fifo_deq : only benign (fifo_deq (Q := Click.click_queue)).
Proof. apply benign_Dequeue. Qed.

#[export] Hint Resolve benign_cp_alloc benign_cp_free benign_fifo_enq benign_fifo_deq : stab.

Lemma benign_SBRemove n : only benign (Buffer.SBRemove n).
Proof. unfold Buffer.SBRemove. stab. Qed.

Lemma benign_SBFree b : only benign (Manager.SBFree (P := mem_pool) (Q := Click.click_queue) b).
Proof. unfold Manager.SBFree. stab. Qed.

(** ** The receive buffer *)

Section Receive.
Notation W := (@rb_world mem_pool Click.click_queue).

Lemma benign_frag_read p : only benign (frag_read p : M W _).
Proof. unfold frag_read. stab. Qed.

Lemma benign_frag_modify p f : only benign (frag_modify p f : M W _).
Proof. unfold frag_modify. stab. apply benign_frag_read. Qed.

Lemma benign_buff_modify f : only benign (buff_modify f : M W _).
Proof. unfold buff_modify. stab. Qed.

Hint Resolve benign_frag_read benign_frag_modify benign_buff_modify : stab.

Lemma benign_FreeFragmentContextSingle p : only benign (FreeFragmentContextSingle p : M W _).
Proof. unfold FreeFragmentContextSingle. stab. Qed.

Hint Resolve benign_FreeFragmentContextSingle : stab.

Lemma benign_FreeFragmentContext p : only benign (FreeFragmentContext p : M W _).
Proof.
  unfold FreeFragmentContext. stab. generalize (base.size (frags a0)) as n.
  intros n. revert p. induction n; intros; cbn; stab.
Qed.

Lemma benign_AllocateFragmentContext c : only benign (AllocateFragmentContext c : M W _).
Proof. unfold AllocateFragmentContext. stab. Qed.

Lemma benign_RBPut_loop n cs len it pr pp nc me :
  only benign (RBPut_loop n cs len it pr pp nc me : M W _).
Proof. revert it pr pp nc me. induction n; intros; cbn; stab. Qed.

Hint Resolve benign_FreeFragmentContext benign_AllocateFragmentContext benign_RBPut_loop : stab.

Lemma benign_RBPut c src len cs : only benign (RBPut c src len cs : M W _).
Proof. unfold RBPut, RBPut_compact, RBPut_copy, RBPut_insert, RBPut_link, RBPut_publish. stab. Qed.

Lemma benign_RBRemove len o : only benign (RBRemove len o : M W _).
Proof. unfold RBRemove, RBRemove_list. stab. Qed.

Lemma benign_RBFree : only benign (RBFree : M W _).
Proof. unfold RBFree. stab. Qed.

End Receive.

Lemma benign_RBInit ok g seq : only benign (RBInit (P := mem_pool) (Q := Click.click_queue) ok g seq).
Proof. unfold RBInit. stab. Qed.

#[export] Hint Resolve benign_SBRemove benign_SBFree benign_RBPut benign_RBRemove benign_RBFree
  benign_RBInit : stab.

(** ** Parsing of options *)

(** The parser changes no mark of the stream. *)
Definition unmarked (s s' : tcp_stream) : Prop := marks_of s' = marks_of s.

#[export] Instance unmarked_preorder : PreOrder unmarked.
Proof. split; [done|]. intros s1 s2 s3. unfold unmarked. congruence. Qed.

Notation plain f := (stable benign (fun _ => True) unmarked f).

#[export] Hint Extern 1 (stable _ _ unmarked (modify _)) =>
  (apply stable_modify; intros ? ?; split; [exact I|exact eq_refl]) : stab.

Section Options.
Variables (mem : list Z) (len : Z).

Lemma benign_opt_byte {S} i (R : S -> S -> Prop) `{!PreOrder R} :
  stable benign (fun _ => True) R (opt_byte mem (S := S) i).
Proof using. unfold opt_byte. stab. Qed.

Lemma benign_opt_u32 {S} i (R : S -> S -> Prop) `{!PreOrder R} :
  stable benign (fun _ => True) R (opt_u32 mem (S := S) i).
Proof using. unfold opt_u32. stab; apply benign_opt_byte; typeclasses eauto. Qed.

Lemma plain_ParseTCPOptions ts : plain (ParseTCPOptions mem len ts).
Proof using.
  unfold ParseTCPOptions. generalize 0 as i. generalize (Z.to_nat len) as n.
  induction n as [|n IH]; intros i; cbn [ParseTCPOptions_loop]; unfold ParseTCPOptions_opt; stab;
    (apply IH || (apply benign_opt_byte || apply benign_opt_u32); typeclasses eauto).
Qed.

Lemma quiet_ParseTCPTimestamp : quiet (ParseTCPTimestamp mem len : MT _).
Proof using.
  unfold ParseTCPTimestamp. generalize 0 as i. generalize (Z.to_nat len) as n.
  induction n as [|n IH]; intros i; cbn [ParseTCPTimestamp_loop]; stab;
    (apply IH || (apply benign_opt_byte || apply benign_opt_u32); typeclasses eauto).
Qed.

End Options.

#[export] Hint Resolve quiet_ParseTCPTimestamp : stab.

Lemma touches_ParseTCPOptions L h a mem len ts : touches L h a (stream_run a (ParseTCPOptions mem len ts)).
Proof. apply touches_stream_run. apply plain_ParseTCPOptions. Qed.

#[export] Hint Resolve touches_ParseTCPOptions : stab.

(** ** Events and listeners *)

Lemma quiet_epoll_at p : quiet (epoll_at p).
Proof. unfold epoll_at. stab. Qed.

#[export] Hint Resolve quiet_epoll_at : stab.

Lemma quiet_AddEpollEvent p qt sock ev : quiet (AddEpollEvent p qt sock ev).
Proof. unfold AddEpollEvent, epoll_set. stab. Qed.

#[export] Hint Resolve quiet_AddEpollEvent : stab.

Lemma quiet_raise_if sock ev : quiet (raise_if sock ev).
Proof. unfold raise_if. stab. Qed.

#[export] Hint Resolve quiet_raise_if : stab.

Lemma touches_RaiseReadEvent L h a : touches L h a (RaiseReadEvent a).
Proof. unfold RaiseReadEvent. stab. Qed.

Lemma touches_RaiseWriteEvent L h a : touches L h a (RaiseWriteEvent a).
Proof. unfold RaiseWriteEvent. stab. Qed.

Lemma touches_RaiseCloseEvent L h a : touches L h a (RaiseCloseEvent a).
Proof. unfold RaiseCloseEvent. stab. Qed.

Lemma touches_RaiseErrorEvent L h a : touches L h a (RaiseErrorEvent a).
Proof. unfold RaiseErrorEvent. stab. Qed.

#[export] Hint Resolve touches_RaiseReadEvent touches_RaiseWriteEvent touches_RaiseCloseEvent
  touches_RaiseErrorEvent : stab.

Lemma quiet_listener_at l : quiet (listener_at l).
Proof. unfold listener_at. stab. Qed.

#[export] Hint Resolve quiet_listener_at : stab.

Lemma quiet_listener_port l : quiet (listener_port l).
Proof. unfold listener_port. stab. Qed.

#[export] Hint Resolve quiet_listener_port : stab.

Lemma quiet_ListenerHTSearch port : quiet (ListenerHTSearch port).
Proof.
  unfold ListenerHTSearch. stab. generalize (bin (listeners a) (HashListener port)) as l.
  induction l; cbn; stab.
Qed.

#[export] Hint Resolve quiet_ListenerHTSearch : stab.

(** ** The output path *)

Section Output.
Context `{Platform}.

Lemma quiet_eidx_of n : quiet (eidx_of n).
Proof using. unfold eidx_of. stab. Qed.

Lemma quiet_eth_at n : quiet (eth_at n).
Proof using. unfold eth_at. stab. Qed.

Lemma quiet_frame_fill i b : quiet (frame_fill i b).
Proof using. unfold frame_fill. stab. Qed.

Hint Resolve quiet_eidx_of quiet_eth_at quiet_frame_fill : stab.

Lemma quiet_EthernetOutput p n d l : quiet (EthernetOutput p n d l).
Proof using. unfold EthernetOutput. stab. Qed.

Hint Resolve quiet_EthernetOutput : stab.

Lemma quiet_ARPOutput n o d h t : quiet (ARPOutput n o d h t).
Proof using. unfold ARPOutput. stab. Qed.

Hint Resolve quiet_ARPOutput : stab.

Lemma quiet_RequestARP ip n ts : quiet (RequestARP ip n ts).
Proof using. unfold RequestARP. stab. Qed.

Lemma quiet_learn_arp h : quiet (learn_arp h).
Proof using. unfold learn_arp, RegisterARPEntry. stab. Qed.

Hint Resolve quiet_RequestARP quiet_learn_arp : stab.

Lemma quiet_ProcessARPPacket i h : quiet (ProcessARPPacket i h).
Proof using. unfold ProcessARPPacket, ProcessARPRequest, ProcessARPReply. stab. Qed.

Lemma quiet_ARPTimer ts : quiet (ARPTimer ts).
Proof using. unfold ARPTimer. stab. Qed.

Lemma quiet_GetOutputInterface d : quiet (GetOutputInterface d).
Proof using. unfold GetOutputInterface. stab. Qed.

Lemma quiet_ioctl n c : quiet (ioctl n c).
Proof using. unfold ioctl. stab. Qed.

Lemma quiet_gateway_daddr : quiet gateway_daddr.
Proof using. unfold gateway_daddr. stab. Qed.

Hint Resolve quiet_GetOutputInterface quiet_ioctl quiet_gateway_daddr : stab.

Lemma quiet_ip_fill f n h : quiet (ip_fill f n h).
Proof using. unfold ip_fill. stab. Qed.

Hint Resolve quiet_ip_fill : stab.

Lemma quiet_IPOutputStandalone p i s d l : quiet (IPOutputStandalone p i s d l).
Proof using. unfold IPOutputStandalone. stab. Qed.

(** The output interface of a stream is known. *)
Lemma touches_IPOutput L h a l : touches L h a (IPOutput a l).
Proof using.
  intros m Hm. unfold IPOutput. rewrite wpe_bind. eapply stream_at_live; [done|]. intros s Hs.
  pose proof (tb_nif _ (si_table _ _ (proj1 Hm)) a s Hs) as Hn.
  rewrite (proj2 (Z.leb_le _ _) Hn), wpe_bind, wpe_ret. stab_rest.
Qed.

Lemma quiet_frame_tcp f h r : quiet (frame_tcp f h r).
Proof using. unfold frame_tcp. stab. Qed.

Lemma quiet_tcp_check n h r sa da : quiet (tcp_check n h r sa da).
Proof using. unfold tcp_check. stab. Qed.

Hint Resolve quiet_IPOutputStandalone quiet_frame_tcp quiet_tcp_check : stab.

Lemma quiet_SendTCPPacketStandalone sa sp da dp seq ack w fl pl ts ets :
  quiet (SendTCPPacketStandalone sa sp da dp seq ack w fl pl ts ets).
Proof using. unfold SendTCPPacketStandalone. stab. Qed.

End Output.

#[export] Hint Resolve quiet_GetOutputInterface quiet_eidx_of quiet_tcp_check quiet_frame_tcp touches_IPOutput
  quiet_SendTCPPacketStandalone : stab.
