(* ===== verification/StreamLife.v ===== *)
(** * Destroying and creating streams keeps the invariant

    [DestroyTCPStream] takes a stream off every list, out of the flow table and back to its
    pools, so that no list can reach it any more; [CreateTCPStream] puts a fresh chunk into
    the flow table under a key no other stream has. *)

From S2P Require Import Prelude SeqArith Queues MemPool SendBuffer RingBuffer AddrPool Mtcp Output Fhash Lists TcpStream StackInv ListOps Benign.

(** ** Removing a stream *)

(** [a] is no longer a stream; the others are as they were. *)
Definition gone (a : Z) (m m' : mtcp_manager) : Prop :=
  stack_inv None m' /\ drops a m m' /\ streams m' !! a = None.

(** The same, of the clock of the timer wheel nothing is said. *)
Definition ended (a : Z) (m m' : mtcp_manager) : Prop :=
  stack_inv None m' /\ others a m m' /\ streams m' !! a = None.

Lemma moves_ended L a m m1 m2 : moves L a m m1 -> gone a m1 m2 -> ended a m m2.
Proof. intros Hv (Hi & Ho & Hn). split; [done|]. split; [|done]. etransitivity; [apply Hv|apply Ho]. Qed.

(** On no list but the flow table. *)
Record detached (s : tcp_stream) : Prop := {
  de_flag : forall k, flag k (sndvar s) = false;
  de_rto : on_rto s = false;
  de_tw : on_timewait_list s = false;
  de_to : on_timeout_list s = false
}.

Section Delete.
Variables (m m' : mtcp_manager) (a : Z) (s : tcp_stream).
Hypothesis Hs : streams m !! a = Some s.
Hypothesis Hst : streams m' = delete a (streams m).
Hypothesis Hd : detached s.

Lemma delete_lookup b t : streams m' !! b = Some t -> b <> a /\ streams m !! b = Some t.
Proof using Hst.
  rewrite Hst. destruct (decide (b = a)) as [->|Hb]; [by rewrite lookup_delete_eq|].
  by rewrite lookup_delete_ne.
Qed.

Lemma senders_inv_delete : senders_core m' = senders_core m -> senders_inv None m -> senders_inv None m'.
Proof using Hs Hst Hd.
  intros Hc Hi. apply (senders_inv_same None (m <| streams := delete a (streams m) |>)).
  - intros k i x Hx. assert (Hx' : sender_lookup m i = Some x) by by destruct i.
    destruct (Hi k i x Hx') as [Ht Hn]. split; [|done]. eapply tracks_delete; [done| |done].
    intros [E _]. by rewrite (de_flag _ Hd) in E.
  - done.
  - by rewrite Hst.
Qed.

Lemma timers_inv_delete : timers_core m' = timers_core m -> timers_inv m -> timers_inv m'.
Proof using Hs Hst Hd.
  intros Hc [Hr Hrc Hri Ht Htc He]. unfold timers_core in Hc. injection Hc as E1 E2 E3 E4.
  split; rewrite ?Hst, ?E1, ?E2, ?E3, ?E4; try done.
  - intros idx. eapply tracks_delete; [done| |apply Hr]. intros [E _]. by rewrite (de_rto _ Hd) in E.
  - rewrite (rto_count_delete _ _ s) by (done || apply Hd). done.
  - intros b t Hb. rewrite <- Hst in Hb. apply delete_lookup in Hb as [_ Hb]. eauto.
  - eapply tracks_delete; [done| |done]. by rewrite (de_tw _ Hd).
  - intros b t Hb. rewrite <- Hst in Hb. apply delete_lookup in Hb as [_ Hb]. eauto.
Qed.

Lemma timeout_inv_delete : timeout_core m' = timeout_core m -> timeout_inv m -> timeout_inv m'.
Proof using Hs Hst Hd.
  intros Hc [Ht Hn Ho]. unfold timeout_core, config_core in Hc. injection Hc as E1 E2 _ _ _ _ E3.
  split; rewrite ?Hst, ?E1, ?E2, ?E3; try done.
  eapply tracks_delete; [done| |done]. by rewrite (de_to _ Hd).
Qed.

(** Leaving the flow table and the pool. *)
Lemma table_inv_delete l F p :
  table_inv m -> config_core (CONFIG m') = config_core (CONFIG m) ->
  TAILQ_REMOVE (bin (tcp_flow_table m) (HashFlow (key_of s))) a = Some l ->
  tcp_flow_table m' = <[HashFlow (key_of s) := l]> (tcp_flow_table m) ->
  cp_inv (flow_pool m) F -> dom (streams m) ⊆ cp_chunks (flow_pool m) ∖ F ->
  flow_pool m' = p -> cp_inv p ({[a]} ∪ F) -> cp_chunks p = cp_chunks (flow_pool m) ->
  (forall b t, b <> a -> streams m !! b = Some t -> is_bound_addr t = true ->
     exists p, ap m' = Some p /\ ap_wf p /\ addr_of t ∈ leased p) ->
  table_inv m'.
Proof using Hs Hst.
  intros [Hf Ht Hk Hn Hr Hp Hb Hbi] Hcfg Hl Htab HF Hdom Hpool Hp' Hch Hap.
  unfold config_core in Hcfg. injection Hcfg as _ _ Hrt Hgw _.
  split; try (intros b t Hb1; apply delete_lookup in Hb1 as [? Hb1]; by eauto).
  - intros idx. rewrite Hst, Htab, bin_insert. case_decide as E.
    + subst idx. apply TAILQ_REMOVE_perm in Hl. destruct (Hf (HashFlow (key_of s))) as [Hnd He].
      rewrite Hl in Hnd. apply list.NoDup_cons in Hnd as [Hna Hnd]. split; [done|]. intros b.
      specialize (He b). rewrite Hl, elem_of_cons in He. unfold member in *.
      destruct (decide (b = a)) as [->|Hba].
      * rewrite lookup_delete_eq. split; [done|]. by intros (? & ? & _).
      * rewrite lookup_delete_ne by exact (not_eq_sym Hba). rewrite <- He. tauto.
    + eapply tracks_delete; [done| |apply Hf]. congruence.
  - intros b c t u [_ Hb1]%delete_lookup [_ Hb2]%delete_lookup. eauto.
  - unfold routes_ok. by rewrite Hrt, Hgw.
  - exists ({[a]} ∪ F). rewrite Hpool. split; [done|]. rewrite Hst, Hch, dom_delete_L. clear - Hdom. set_solver.
  - intros b c t u [_ Hb1]%delete_lookup [_ Hb2]%delete_lookup. eauto.
Qed.

End Delete.

(** Giving an address back leaves the other leases. *)
Lemma FreeAddress_leased p addr : ap_wf p -> addr ∈ leased p ->
  wp (FreeAddress addr) (fun _ p' => ap_wf p' /\ forall b, b ∈ leased p -> b <> addr -> b ∈ leased p') p.
Proof.
  intros Hwf Hin. apply list_elem_of_omap in Hin as (w & Hw & Ha).
  eapply wp_mono; [by apply (FreeAddress_ok p w)|].
  intros r p' (_ & Hwf' & Hpool & _ & _ & Hrm). split; [done|]. intros b Hb Hne.
  apply list_elem_of_omap in Hb as (v & Hv & Hb). apply list_elem_of_omap. exists v.
  apply TAILQ_REMOVE_perm in Hrm. rewrite Hrm in Hv. apply elem_of_cons in Hv as [->|Hv]; [congruence|].
  split; [done|]. unfold entry in *. by rewrite Hpool.
Qed.

Lemma wpe_zoom_only {T A} (proj : mtcp_manager -> T) `{!Setter proj} (op : M T A) (Q : A -> mtcp_manager -> Prop) m :
  only benign op -> (forall r t, Q r (upd proj (fun _ => t) m)) -> wpe benign (zoom proj op) Q m.
Proof.
  intros Hop HQ. unfold wpe, zoom. destruct (op (proj m)) as [r t|e] eqn:E; [apply HQ|].
  by eapply only_fault.
Qed.

(** Only [a] has changed, and none of its marks. *)
Definition brush (a : Z) (m m' : mtcp_manager) : Prop :=
  drops a m m' /\ same_by marks_of (streams m) (streams m').

#[export] Instance brush_preorder a : PreOrder (brush a).
Proof.
  split; [by intros m; split; [|]|]. intros m1 m2 m3 [O1 S1] [O2 S2].
  split; [by etransitivity|]. unfold same_by in *. congruence.
Qed.

Lemma brush_stream_at a : stable benign (live None a) (brush a) (stream_at a).
Proof. intros m Hm. eapply stream_at_live; [done|]. intros s _. split; [done|reflexivity]. Qed.

Lemma brush_stream_mod a f : (forall s, marks_of (f s) = marks_of s) ->
  stable benign (live None a) (brush a) (stream_mod a f).
Proof.
  intros Hf m Hm. eapply stream_mod_live; [done|]. intros s Hs.
  split; [by eapply live_insert|]. split; [by eapply (moves_drops []), moves_insert; [set_solver|..]|]. by eapply same_by_insert.
Qed.

Lemma quiet_brush {A} a (f : MT A) : quiet f -> stable benign (live None a) (brush a) f.
Proof.
  intros Hf m Hm. eapply wpe_mono; [by apply Hf|]. intros r m' [_ Hs].
  split; [by eapply still_live|]. split; [|by rewrite (proj2 Hs)].
  split; [by apply still_others|by apply still_clock].
Qed.

#[export] Hint Resolve brush_stream_at quiet_brush : stab.
#[export] Hint Extern 1 (stable _ _ (brush _) (stream_mod _ _)) =>
  (apply brush_stream_mod; intros ?; done) : stab.
#[export] Hint Extern 1 (stable _ _ (brush _) (modify _)) =>
  (apply quiet_brush, quiet_modify; intros ?; done) : stab.

(** *** The steps of [DestroyTCPStream] *)

Section Destroy.
Context `{Platform}.

(** Taking the stream off the lists, one after the other. *)
Lemma leaves_bind {A B} a (P Q R : tcp_stream -> Prop) m m0 (f : MT A) (g : A -> MT B) :
  (forall s s', fewer s s' -> P s -> P s') ->
  leaves a P m0 m ->
  wpe benign f (fun _ m' => leaves a Q m m') m ->
  (forall r m', leaves a (fun s => P s /\ Q s) m0 m' -> wpe benign (g r) (fun _ m'' => leaves a R m0 m'') m') ->
  wpe benign (f ≫= g) (fun _ m'' => leaves a R m0 m'') m.
Proof using.
  intros Hmono (Hl & Ho & s0 & s & Hs0 & Hs & Hf & HP) Hwp Hg. rewrite wpe_bind.
  eapply wpe_mono; [exact Hwp|]. intros r m' (Hl' & Ho' & t & s' & Ht & Hs' & Hf' & HQ).
  assert (t = s) as -> by congruence. apply Hg. split; [done|]. split; [by etransitivity|].
  exists s0, s'. split_and!; eauto. by etransitivity.
Qed.

Lemma leaves_refl a m s : live None a m -> streams m !! a = Some s -> leaves a (fun _ => True) m m.
Proof using. intros Hl Hs. split; [done|]. split; [reflexivity|]. by exists s, s. Qed.

(** Code that leaves the marks of [a] alone, as a removal. *)
Lemma leaves_plain {A} a (f : MT A) m :
  live None a m -> stable benign (live None a) (brush a) f ->
  wpe benign f (fun _ m' => leaves a (fun _ => True) m m') m.
Proof using.
  intros Hm Hf. eapply wpe_mono; [by apply Hf|]. intros r m' (Hl & Ho & Hmk).
  destruct (proj2 Hm) as [s Hs], (proj2 Hl) as [s' Hs'].
  split; [done|]. split; [done|]. exists s, s'. split; [done|]. split; [done|]. split; [|done].
  destruct (same_by_lookup _ _ _ Hmk _ _ Hs') as (t & Ht & E). apply fewer_marks. congruence.
Qed.

Lemma brush_free_buffers a : stable benign (live None a) (brush a) (free_buffers a).
Proof using.
  unfold free_buffers, rcvbuf_run. stab.
  - apply quiet_brush, quiet_zoom; [auto with stab|done].
  - eapply only_fault; [apply benign_RBFree|done].
Qed.

Lemma fewer_off s s' : fewer s s' ->
  (forall k, flag k (sndvar s) = false -> flag k (sndvar s') = false) /\
  (on_rto s = false -> on_rto s' = false) /\
  (on_timewait_list s = false -> on_timewait_list s' = false) /\
  (on_timeout_list s = false -> on_timeout_list s' = false).
Proof using.
  assert (Hb : forall b b' : bool, (b' = true -> b = true) -> b = false -> b' = false) by (intros [] []; naive_solver).
  intros [H1 H2 H3 H4 _]. split_and!; intros; eapply Hb; eauto.
Qed.

(** A removal that is only called when the stream is on the list. *)
Lemma leaves_when a P m0 m (Q : tcp_stream -> Prop) b f :
  leaves a P m0 m -> wpe benign f (fun _ m' => leaves a Q m m') m ->
  (b = false -> forall s0 s, streams m0 !! a = Some s0 -> streams m !! a = Some s -> fewer s0 s -> Q s) ->
  wpe benign (whenM b f) (fun _ m' => leaves a Q m m') m.
Proof using.
  intros (Hl & Ho & s0 & s & Hs0 & Hs & Hf & HP) Hwp HQ. rewrite wpe_when. destruct b; [done|].
  split; [done|]. split; [reflexivity|]. exists s, s. split_and!; try done. by eapply HQ.
Qed.

Ltac off_mono := intros ?s ?s' (? & ? & ? & ?)%fewer_off ?; destruct_and?; split_and?; auto.

(** The first half: everything up to the buffers. *)
Lemma detach_live a m s : live None a m -> streams m !! a = Some s ->
  wpe benign (detach_stream a s)
    (fun _ m' => leaves a detached m m') m.
Proof using.
  intros Hm Hs. unfold detach_stream.
  assert (Hrm : forall k f, (forall m, live None a m -> wpe benign f (fun _ : unit => removed k a m) m) ->
    forall m, live None a m -> wpe benign f (fun _ => leaves a (fun s => flag k (sndvar s) = false) m) m).
  { intros k f Hf m1 Hm1. eapply wpe_mono; [by apply Hf|]. intros ? m2. apply removed_leaves. }
  eapply leaves_bind; [|by eapply leaves_refl|by apply (Hrm KControl), Hm; apply RemoveFromControlList_live|];
    [done|]. intros ? m1 L1.
  eapply leaves_bind; [|done|by apply (Hrm KSend), L1; apply RemoveFromSendList_live|]; [off_mono|]. intros ? m2 L2.
  eapply leaves_bind; [|done|by apply (Hrm KAck), L2; apply RemoveFromACKList_live|]; [off_mono|]. intros ? m3 L3.
  eapply leaves_bind; [|done|eapply leaves_when; [done|by apply RemoveFromRTOList_live, L3|]|]; [off_mono| |].
  { intros E s0 s1 H0 _ Hf. assert (s0 = s) as -> by congruence. by apply (fewer_off _ _ Hf). }
  intros ? m4 L4.
  eapply leaves_bind; [|done|eapply leaves_when; [done|by apply RemoveFromTimewaitList_live, L4|]|]; [off_mono| |].
  { intros E s0 s1 H0 _ Hf. assert (s0 = s) as -> by congruence. by apply (fewer_off _ _ Hf). }
  intros ? m5 L5. rewrite wpe_bind, wpe_get.
  eapply leaves_bind; [|done|eapply leaves_when; [done|by apply RemoveFromTimeoutList_live, L5|]|]; [off_mono| |].
  { intros E%Z.ltb_ge s0 s1 _ H1 _. destruct L5 as [[Hi _] _]. destruct (si_timeout _ _ Hi) as [[_ Ht] _ Ho].
    destruct (on_timeout_list s1) eqn:Hto; [|done]. rewrite (Ho E) in Ht.
    exfalso. apply (not_elem_of_nil a), Ht. by exists s1. }
  intros ? m6 L6. rewrite wpe_bind, wpe_assert. destruct (on_hash_table s); [|done].
  eapply wpe_mono; [apply leaves_plain; [apply L6|apply brush_free_buffers]|].
  intros ? m7 (Hl7 & Ho7 & t & s7 & Ht & Hs7 & Hf7 & _).
  destruct L6 as (_ & Ho & s0 & s6 & Hs0 & Hs6 & Hf & HP). assert (t = s6) as -> by congruence.
  split; [done|]. split; [by etransitivity|]. exists s0, s7. split; [done|]. split; [done|].
  split; [by etransitivity|]. destruct (fewer_off _ _ Hf7) as (F1 & F2 & F3 & F4). destruct_and!.
  split; auto. intros []; auto.
Qed.

(** The leases that remain when the address of [a] goes back. *)
Lemma free_bound_addr_ok a s m m1 :
  table_inv m -> streams m !! a = Some s -> is_bound_addr s = true -> ap m1 = ap m ->
  wpe benign (free_bound_addr (addr_of s))
    (fun _ m' => (exists p, m' = m1 <| ap := Some p |>) /\
       forall b t, b <> a -> streams m !! b = Some t -> is_bound_addr t = true ->
         exists p, ap m' = Some p /\ ap_wf p /\ addr_of t ∈ leased p) m1.
Proof using.
  intros Ht Hs Hb Hap. destruct (tb_bound _ Ht a s Hs Hb) as (p & Hp & Hwf & Hin).
  unfold free_bound_addr. rewrite wpe_bind, wpe_get, Hap, Hp.
  destruct (wp_elim _ _ _ (FreeAddress_leased p _ Hwf Hin)) as (r & p' & -> & Hwf' & Hoth).
  rewrite wpe_modify. split; [by exists p'|]. intros b t Hne Ht1 Hbt. exists p'.
  split; [done|]. split; [done|]. destruct (tb_bound _ Ht b t Ht1 Hbt) as (q & Hq & _ & Hin').
  assert (q = p) as -> by congruence. apply Hoth; [done|]. intros E. apply Hne.
  by apply (tb_bound_inj _ Ht b a t s).
Qed.

(** Everything but the flow table and the pool is as [m] has it, and [a] is deleted. *)
Record unlinked (a : Z) (m m' : mtcp_manager) : Prop := {
  ul_streams : streams m' = delete a (streams m);
  ul_core : senders_core m' = senders_core m;
  ul_timers : timers_core m' = timers_core m;
  ul_timeout : timeout_core m' = timeout_core m;
  ul_clock : clock m' = clock m
}.

Lemma unlinked_gone a m m' s l F :
  live None a m -> streams m !! a = Some s -> detached s -> unlinked a m m' ->
  TAILQ_REMOVE (bin (tcp_flow_table m) (HashFlow (key_of s))) a = Some l ->
  tcp_flow_table m' = <[HashFlow (key_of s) := l]> (tcp_flow_table m) ->
  cp_inv (flow_pool m) F -> dom (streams m) ⊆ cp_chunks (flow_pool m) ∖ F ->
  cp_inv (flow_pool m') ({[a]} ∪ F) -> cp_chunks (flow_pool m') = cp_chunks (flow_pool m) ->
  (forall b t, b <> a -> streams m !! b = Some t -> is_bound_addr t = true ->
     exists p, ap m' = Some p /\ ap_wf p /\ addr_of t ∈ leased p) ->
  gone a m m'.
Proof using.
  intros [[I1 I2 I3 I4] _] Hs Hd [U1 U2 U3 U4 U5] Hl Htab HF Hdom HF' Hch Hap. split; [split|split].
  - by apply (senders_inv_delete m m' a s).
  - by apply (timers_inv_delete m m' a s).
  - by apply (timeout_inv_delete m m' a s).
  - apply (table_inv_delete m m' a s Hs U1 l F (flow_pool m')); try exact eq_refl; try assumption.
    exact (f_equal snd U2).
  - split; [|done]. split; [intros b Hb; by rewrite U1, lookup_delete_ne| |exact (f_equal snd U2)].
    intros p. f_equal. by apply list_at_core.
  - rewrite U1. apply lookup_delete_eq.
Qed.

(** The second half: out of the flow table and back to the pools. *)
Lemma unlink_live a m s0 s : live None a m -> streams m !! a = Some s -> detached s ->
  is_bound_addr s0 = is_bound_addr s -> addr_of s0 = addr_of s ->
  wpe benign (unlink_stream a s0) (fun _ m' => gone a m m') m.
Proof using.
  intros Hm Hs Hd Eb Ea. unfold unlink_stream. fold (addr_of s0). rewrite Eb, Ea. pose proof (si_table _ _ (proj1 Hm)) as Ht. destruct (tb_pool _ Ht) as (F & HF & Hdom).
  destruct (tracks_remove _ _ _ _ _ Hs eq_refl (tb_flow _ Ht (HashFlow (key_of s)))) as (l & Hl & _).
  unfold StreamHTRemove. rewrite !wpe_bind. eapply stream_at_live; [done|]. intros t Hs1.
  assert (t = s) as -> by congruence. cbv zeta. rewrite wpe_bind, wpe_get, wpe_bind, wpe_unwrap, Hl.
  unfold set_flow_bin. rewrite wpe_modify, wpe_bind. unfold stream_mod, stream_at, stream_set.
  rewrite !wpe_bind, wpe_get, wpe_unwrap. set (m1 := upd tcp_flow_table _ m).
  change (streams m1) with (streams m). rewrite Hs, wpe_modify, wpe_bind, wpe_modify, wpe_bind.
  apply wpe_zoom_only; [auto with stab|]. intros _ rv'. rewrite wpe_bind.
  apply wpe_zoom_only; [auto with stab|]. intros _ sv'. unfold free_stream. rewrite !wpe_bind.
  set (m2 := upd sv_pool _ _).
  destruct (cp_free_ok (flow_pool m) F a HF) as (p & Hfree & HF' & Hch).
  { apply elem_of_dom_2 in Hs. clear - Hs Hdom. set_solver. }
  { apply elem_of_dom_2 in Hs. clear - Hs Hdom. set_solver. }
  unfold wpe at 1, zoom. change (flow_pool m2) with (flow_pool m).
  change (MPFreeChunk a) with (cp_free (P := mem_pool) a). rewrite Hfree, wpe_modify.
  set (m3 := upd streams _ _). rewrite wpe_when.
  assert (Hul : forall p, unlinked a m (m3 <| ap := p |>)).
  { intros q. split; try exact eq_refl. apply delete_insert_eq. }
  destruct (is_bound_addr s) eqn:Hb.
  - eapply wpe_mono; [by apply (free_bound_addr_ok a s m m3)|]. intros _ m' [(q & ->) Hap].
    by eapply (unlinked_gone a m _ s l F).
  - apply (unlinked_gone a m m3 s l F); try done.
    { split; try exact eq_refl. apply delete_insert_eq. }
    intros b t Hne. by apply (tb_bound _ Ht).
Qed.

Lemma DestroyTCPStream_gone a m : live None a m ->
  wpe benign (DestroyTCPStream a) (fun _ m' => gone a m m') m.
Proof using.
  intros Hm. unfold DestroyTCPStream. rewrite wpe_bind. eapply stream_at_live; [done|]. intros s Hs.
  rewrite wpe_bind. eapply wpe_mono; [by apply detach_live|].
  intros ? m1 (Hl1 & Ho1 & s0 & s1 & H0 & H1 & Hf & Hd). assert (s0 = s) as -> by congruence.
  pose proof (fw_table _ _ Hf) as Hmk. unfold table_marks, key_of in Hmk.
  eapply wpe_mono; [apply (unlink_live a m1 s s1); try done; unfold addr_of; congruence|].
  intros ? m2 (Hi & Ho & Hn). split; [done|]. split; [by etransitivity|done].
Qed.

End Destroy.

(** ** Creating a stream *)

(** [a] is a new chunk holding [s], in addition to the streams of [m]; the flow table is
    [tab]. *)
Record draft (a : Z) (s : tcp_stream) (tab : gmap Z (list Z)) (m m' : mtcp_manager) : Prop := {
  dr_fresh : streams m !! a = None;
  dr_nonnull : a <> 0;
  dr_streams : streams m' = <[a := s]> (streams m);
  dr_senders : senders_core m' = senders_core m;
  dr_timers : timers_core m' = timers_core m;
  dr_timeout : timeout_core m' = timeout_core m;
  dr_ap : ap m' = ap m;
  dr_pool : exists F, cp_inv (flow_pool m') F /\
    {[a]} ∪ dom (streams m) ⊆ cp_chunks (flow_pool m') ∖ F;
  dr_table : tcp_flow_table m' = tab
}.

(** What a stream has to be to join the others. *)
Record presentable (k : flow_key) (s : tcp_stream) : Prop := {
  pr_off : detached s;
  pr_idx : on_rto_idx s = -1;
  pr_table : on_hash_table s = true;
  pr_key : key_of s = k;
  pr_bound : is_bound_addr s = false;
  pr_nif : 0 <= nif_out (sndvar s)
}.

Section Draft.
Variables (a : Z) (s : tcp_stream) (tab : gmap Z (list Z)) (m m' : mtcp_manager).
Hypothesis Hd : draft a s tab m m'.

Lemma draft_lookup : streams m' !! a = Some s.
Proof using Hd. rewrite (dr_streams _ _ _ _ _ Hd). apply lookup_insert_eq. Qed.

Lemma draft_still m'' : still m' m'' -> draft a s tab m m''.
Proof using Hd.
  intros [Hc Hs]. destruct Hd as [F0 F00 F1 F2 F3 F4 F5 F6 F7].
  pose proof (f_equal (fun t => t.1.1.1.2) Hc) as C1. pose proof (f_equal (fun t => t.1.1.2) Hc) as C2.
  pose proof (f_equal (fun t => t.1.2) Hc) as C3. pose proof (f_equal snd Hc) as C4. cbn in C1, C2, C3, C4.
  pose proof (f_equal (fun t => t.1.1.1) C4) as T1. pose proof (f_equal (fun t => t.1.2) C4) as T2.
  pose proof (f_equal snd C4) as T3. cbn in T1, T2, T3.
  split; try congruence. by rewrite T2.
Qed.

Lemma draft_set s' : draft a s' tab m (m' <| streams ::= insert a s' |>).
Proof using Hd.
  destruct Hd as [F0 F00 F1 F2 F3 F4 F5 F6 F7]. split; try assumption.
  change (<[a := s']> (streams m') = <[a := s']> (streams m)). rewrite F1. apply insert_insert_eq.
Qed.

Lemma draft_at (Q : tcp_stream -> mtcp_manager -> Prop) : Q s m' -> wpe benign (stream_at a) Q m'.
Proof using Hd. unfold stream_at. intros HQ. by rewrite wpe_bind, wpe_get, wpe_unwrap, draft_lookup. Qed.

Lemma draft_mod f (Q : unit -> mtcp_manager -> Prop) :
  (forall m'', draft a (f s) tab m m'' -> Q tt m'') -> wpe benign (stream_mod a f) Q m'.
Proof using Hd.
  intros HQ. unfold stream_mod. rewrite wpe_bind. apply draft_at. unfold stream_set. rewrite wpe_modify.
  apply HQ, draft_set.
Qed.

Lemma draft_quiet {A} (f : MT A) (Q : A -> mtcp_manager -> Prop) : quiet f ->
  (forall r m'', draft a s tab m m'' -> Q r m'') -> wpe benign f Q m'.
Proof using Hd.
  intros Hf HQ. eapply wpe_mono; [by apply Hf|]. intros r m'' [_ Hst]. apply HQ. by apply draft_still.
Qed.

Lemma draft_modify g (Q : unit -> mtcp_manager -> Prop) : still m' (g m') ->
  (forall m'', draft a s tab m m'' -> Q tt m'') -> wpe benign (modify g) Q m'.
Proof using Hd. intros Hg HQ. rewrite wpe_modify. by apply HQ, draft_still. Qed.

End Draft.

(** *** Adding the stream to the invariant *)

Section Insert.
Variables (a : Z) (s : tcp_stream) (k : flow_key) (m m' : mtcp_manager).
Hypothesis Hp : presentable k s.
Hypothesis Hd : draft a s (<[HashFlow k := TAILQ_INSERT_TAIL (bin (tcp_flow_table m) (HashFlow k)) a]>
                             (tcp_flow_table m)) m m'.

Lemma insert_lookup b t : <[a := s]> (streams m) !! b = Some t ->
  (b = a /\ t = s) \/ (b <> a /\ streams m !! b = Some t).
Proof using.
  destruct (decide (b = a)) as [->|Hb].
  - rewrite lookup_insert_eq. intros [= <-]. auto.
  - rewrite lookup_insert_ne by exact (not_eq_sym Hb). auto.
Qed.

Lemma senders_inv_fresh : senders_inv None m -> senders_inv None m'.
Proof using Hp Hd.
  intros I1. apply (senders_inv_same None (m <| streams ::= insert a s |>)); [|apply Hd|by rewrite (dr_streams _ _ _ _ _ Hd)].
  intros k0 i x Hx. assert (Hx' : sender_lookup m i = Some x) by by destruct i.
  destruct (I1 k0 i x Hx') as [Ht Hn]. split; [|done]. apply tracks_fresh; [apply Hd| |done].
  intros [E _]. by rewrite (de_flag _ (pr_off _ _ Hp)) in E.
Qed.

Lemma timers_inv_fresh : timers_inv m -> timers_inv m'.
Proof using Hp Hd.
  intros [Hr Hrc Hri Ht Htc He]. destruct (pr_off _ _ Hp) as [_ P2 P3 _].
  apply (timers_inv_same (m <| streams ::= insert a s |>)); [|apply Hd|by rewrite (dr_streams _ _ _ _ _ Hd)].
  split; try done; unfold upd; cbn.
  - intros idx. apply tracks_fresh; [apply Hd| |apply Hr]. intros [E _]. by rewrite P2 in E.
  - rewrite Hrc. unfold rto_count. rewrite map_filter_insert_False by (cbn; congruence).
    by rewrite delete_id by apply Hd.
  - intros b t [[-> ->]|[_ Hb]]%insert_lookup; [by rewrite (pr_idx _ _ Hp)|eauto].
  - apply tracks_fresh; [apply Hd|congruence|done].
  - intros b t [[-> ->]|[_ Hb]]%insert_lookup; eauto.
Qed.

Lemma timeout_inv_fresh : timeout_inv m -> timeout_inv m'.
Proof using Hp Hd.
  intros [Hl Hc Ho]. apply (timeout_inv_same (m <| streams ::= insert a s |>));
    [|apply Hd|by rewrite (dr_streams _ _ _ _ _ Hd)].
  split; try done. apply tracks_fresh; [apply Hd| |done]. rewrite (de_to _ (pr_off _ _ Hp)). done.
Qed.

Lemma table_inv_fresh :
  (forall b t, streams m !! b = Some t -> key_of t <> k) -> table_inv m -> table_inv m'.
Proof using Hp Hd.
  intros Hnew [Hf Ht Hk Hn Hr Hpl Hb Hbi]. destruct Hp as [_ _ P5 P6 P7 P8].
  destruct Hd as [F0 F00 F1 F2 F3 F4 F5 F6 F7]. pose proof (f_equal snd F2) as Fc. cbn in Fc.
  unfold config_core in Fc. injection Fc as _ _ Hrt Hgw _. split.
  - intros idx. rewrite F1, F7, bin_insert. case_decide as E.
    + subst idx. destruct (Hf (HashFlow k)) as [Hnd He]. split.
      * rewrite insert_tail_perm. apply list.NoDup_cons. split; [|exact Hnd]. rewrite He.
        intros (t & Hta & _). congruence.
      * intros b. rewrite insert_tail_perm, elem_of_cons, He, member_insert, P6. unfold member.
        destruct (decide (b = a)) as [->|Hba]; [rewrite F0|tauto]. split; [auto|]. by left.
    + apply tracks_fresh; [exact F0| |apply Hf]. rewrite P6. exact (not_eq_sym E).
  - intros b t. rewrite F1. intros [[-> ->]|[_ Hb1]]%insert_lookup; [exact P5|by eapply Ht].
  - intros b c t u. rewrite F1. intros [[-> ->]|[_ Hb1]]%insert_lookup [[-> ->]|[_ Hc1]]%insert_lookup E.
    + reflexivity.
    + exfalso. apply (Hnew c u Hc1). congruence.
    + exfalso. apply (Hnew b t Hb1). congruence.
    + by apply (Hk b c t u).
  - intros b t. rewrite F1. intros [[-> ->]|[_ Hb1]]%insert_lookup; [exact P8|by eapply Hn].
  - unfold routes_ok. by rewrite Hrt, Hgw.
  - destruct F6 as (F & HF & Hdom). exists F. split; [exact HF|]. rewrite F1, dom_insert_L. exact Hdom.
  - intros b t. rewrite F1, F5. intros [[-> ->]|[_ Hb1]]%insert_lookup; [congruence|exact (Hb b t Hb1)].
  - intros b c t u. rewrite F1. intros [[-> ->]|[_ Hb1]]%insert_lookup [[-> ->]|[_ Hc1]]%insert_lookup E;
      [congruence..|by apply Hbi].
Qed.

(** A draft under a new key becomes a stream. *)
Lemma draft_live : stack_inv None m -> (forall b t, streams m !! b = Some t -> key_of t <> k) ->
  live None a m' /\ others a m m'.
Proof using Hp Hd.
  intros [I1 I2 I3 I4] Hnew. split; [split|].
  - split; [by apply senders_inv_fresh|by apply timers_inv_fresh|by apply timeout_inv_fresh|
            by apply table_inv_fresh].
  - exists s. apply (draft_lookup _ _ _ _ _ Hd).
  - split; [intros b Hb; rewrite (dr_streams _ _ _ _ _ Hd); apply lookup_insert_ne, not_eq_sym, Hb| |].
    2: exact (f_equal snd (dr_senders _ _ _ _ _ Hd)).
    intros p. f_equal. apply list_at_core; apply Hd.
Qed.

End Insert.

(** *** Allocation *)

(** The same streams on another state of the pool. *)
Lemma stack_inv_pool m m' :
  stack_inv None m -> streams m' = streams m -> senders_core m' = senders_core m ->
  timers_core m' = timers_core m -> timeout_core m' = timeout_core m -> ap m' = ap m ->
  tcp_flow_table m' = tcp_flow_table m ->
  (exists F, cp_inv (flow_pool m') F /\ dom (streams m) ⊆ cp_chunks (flow_pool m') ∖ F) -> stack_inv None m'.
Proof.
  intros [I1 I2 I3 [T1 T2 T3 T4 T5 T6 T7 T8]] Es E1 E2 E3 E4 E5 HF. split.
  - by apply (senders_inv_same None m); [| |rewrite Es].
  - by apply (timers_inv_same m); [| |rewrite Es].
  - by apply (timeout_inv_same m); [| |rewrite Es].
  - pose proof (f_equal snd E1) as Ec. cbn in Ec. unfold config_core in Ec. injection Ec as _ _ Hr Hg _.
    split; rewrite ?Es, ?E4, ?E5; try assumption. unfold routes_ok. by rewrite Hr, Hg.
Qed.

Section Create.
Context `{Platform}.

(** Nothing was created. *)
Definition refused (m m' : mtcp_manager) : Prop := stack_inv None m' /\ streams m' = streams m.

Lemma free_draft a s m m' : stack_inv None m -> draft a s (tcp_flow_table m) m m' ->
  wpe benign (free_stream a) (fun _ m'' => refused m m'') m'.
Proof using.
  intros Hi [F0 F00 F1 F2 F3 F4 F5 (F & HF & Hdom) F7]. unfold free_stream. rewrite wpe_bind.
  destruct (cp_free_ok (flow_pool m') F a HF) as (p & Hfree & HF' & Hch); [clear - Hdom; set_solver..|].
  unfold wpe at 1, zoom. change (MPFreeChunk a) with (cp_free (P := mem_pool) a). rewrite Hfree, wpe_modify.
  set (m'' := upd streams _ _).
  assert (Es : streams m'' = streams m).
  { change (streams m'') with (delete a (streams m')). rewrite F1, delete_insert_eq. by apply delete_id. }
  split; [|exact Es]. apply (stack_inv_pool m); try assumption. exists ({[a]} ∪ F). split; [exact HF'|].
  change (flow_pool m'') with p. rewrite Hch. apply not_elem_of_dom in F0. clear - Hdom F0. set_solver.
Qed.

Definition new_stream (rv sv : Z) : tcp_stream := zero_stream <| rv_chunk := rv |> <| sv_chunk := sv |>.

Lemma alloc_stream_ok m : stack_inv None m ->
  wpe benign alloc_stream (fun a m' => if a =? 0 then refused m m' else
    exists rv sv, draft a (new_stream rv sv) (tcp_flow_table m) m m') m.
Proof using.
  intros Hi. destruct (tb_pool _ (si_table _ _ Hi)) as (F & HF & Hdom). unfold alloc_stream. rewrite wpe_bind.
  unfold wpe at 1, zoom. change MPAllocateChunk with (cp_alloc (P := mem_pool)).
  destruct (decide (F = ∅)) as [->|Hne].
  { rewrite (cp_alloc_none _ HF). rewrite Z.eqb_refl, wpe_ret, Z.eqb_refl. split; [|done].
    apply (stack_inv_pool m); try done. by exists ∅. }
  destruct (cp_alloc_some _ _ HF Hne) as (a & p & -> & Ha & HF' & Hch).
  assert (Ha0 : a <> 0).
  { intros ->. by apply (cp_nonnull _ _ HF), (cp_free_chunks _ _ HF). }
  rewrite (proj2 (Z.eqb_neq a 0) Ha0), wpe_bind. unfold stream_set at 1. rewrite wpe_modify.
  set (m1 := upd streams _ _).
  assert (Hd1 : draft a zero_stream (tcp_flow_table m) m m1).
  { pose proof (cp_free_chunks _ _ HF) as Hsub.
    split; try exact eq_refl; [|exact Ha0|].
    - apply not_elem_of_dom. clear - Ha Hdom. set_solver.
    - exists (F ∖ {[a]}). split; [exact HF'|]. change (flow_pool m1) with p. rewrite Hch.
      clear - Hdom Ha Hsub. set_solver. }
  rewrite wpe_bind. eapply (draft_quiet _ _ _ _ _ Hd1).
  { apply quiet_zoom; [apply benign_MPAllocateChunk|done]. }
  intros rv m2 Hd2. destruct (rv =? 0).
  { rewrite wpe_bind. eapply wpe_mono; [by eapply free_draft|]. intros ? m3 Hr. rewrite wpe_ret. done. }
  rewrite wpe_bind. eapply (draft_quiet _ _ _ _ _ Hd2).
  { apply quiet_zoom; [apply benign_MPAllocateChunk|done]. }
  intros sv m3 Hd3. destruct (sv =? 0).
  { rewrite wpe_bind. eapply (draft_quiet _ _ _ _ _ Hd3).
    { apply quiet_zoom; [apply benign_MPFreeChunk|done]. }
    intros ? m4 Hd4. rewrite wpe_bind. eapply wpe_mono; [by eapply free_draft|].
    intros ? m5 Hr. rewrite wpe_ret. done. }
  rewrite wpe_bind. eapply (draft_mod _ _ _ _ _ Hd3). intros m4 Hd4. rewrite wpe_ret.
  rewrite (proj2 (Z.eqb_neq a 0) Ha0). eauto.
Qed.

Lemma route_walk_nif c d : routes_ok c -> 0 <= (route_walk (rtable c) (gateway c) d).1 ->
  i8 (route_walk (rtable c) (gateway c) d).1 = (route_walk (rtable c) (gateway c) d).1.
Proof using.
  intros [Hr Hg]. enough (Hlt : (route_walk (rtable c) (gateway c) d).1 < 128).
  { intros Hpos. unfold i8. rewrite Z.mod_small by lia. lia. }
  induction Hr as [|r l Hr1 _ IH]; cbn; [lia|]. case (_ =? _); [|done]. case (_ <? _); [done|].
  destruct (gateway c) as [g|]; [by apply Hg|cbn; lia].
Qed.

(** The fields [CreateTCPStream] sets at the end. *)
Lemma init_stream_ok a s tab m m' ty k : routes_ok (CONFIG m) -> draft a s tab m m' ->
  key_of s = k -> on_hash_table s = true -> is_bound_addr s = false -> (forall k, flag k (sndvar s) = false) ->
  on_timewait_list s = false -> on_timeout_list s = false ->
  wpe benign (init_stream a ty) (fun _ m'' => exists s', draft a s' tab m m'' /\ presentable k s' /\
    state s' = TCP_ST_LISTEN /\ socket s' = socket s) m'.
Proof using.
  intros Hroutes Hd Hk Ht Hb Hf Htw Hto. unfold init_stream. rewrite wpe_bind.
  eapply (draft_mod _ _ _ _ _ Hd). intros m1 Hd1. rewrite wpe_bind. eapply (draft_at _ _ _ _ _ Hd1).
  unfold GetOutputInterface. rewrite !wpe_bind, wpe_get. cbv zeta. rewrite wpe_bind, wpe_assert.
  match goal with |- context [route_walk _ _ ?x] => set (d := x) end.
  destruct (Z.leb_spec 0 (route_walk (rtable (CONFIG m1)) (gateway (CONFIG m1)) d).1) as [Hn|Hn]; [|done].
  assert (Hr1 : routes_ok (CONFIG m1)).
  { pose proof (f_equal snd (dr_senders _ _ _ _ _ Hd1)) as E. unfold senders_core, config_core in E. cbn in E.
    injection E as _ _ Er Eg _. unfold routes_ok. by rewrite Er, Eg. }
  pose proof Hn as Hn8. rewrite <- (route_walk_nif _ _ Hr1 Hn) in Hn8. rewrite wpe_ret, wpe_bind.
  eapply (draft_quiet _ _ _ _ _ Hd1); [apply quiet_env_tick|]. intros n m2 Hd2.
  rewrite wpe_bind, wpe_get. eapply (draft_mod _ _ _ _ _ Hd2). intros m3 Hd3. eexists. split; [exact Hd3|].
  split; [|done]. by split.
Qed.

Definition created (sock : option Z) (k : flow_key) (m : mtcp_manager) (a : Z) (m' : mtcp_manager) : Prop :=
  live None a m' /\ others a m m' /\ streams m !! a = None /\
  exists s, streams m' !! a = Some s /\ key_of s = k /\ state s = TCP_ST_LISTEN /\ socket s = sock.

Lemma draft_entered a s m m' h : draft a s (tcp_flow_table m) m m' ->
  draft a s (<[h := TAILQ_INSERT_TAIL (bin (tcp_flow_table m) h) a]> (tcp_flow_table m)) m
    (m' <| tcp_flow_table ::= insert h (TAILQ_INSERT_TAIL (bin (tcp_flow_table m') h) a) |>).
Proof using.
  intros [F0 F00 F1 F2 F3 F4 F5 F6 F7]. split; try assumption. rewrite <- F7. reflexivity.
Qed.

(** The new stream is live, listening and under its key; or nothing was created. *)
Lemma CreateTCPStream_created sock ty sa sp da dp m :
  let k := FlowKey sa da sp dp in
  stack_inv None m -> (forall b t, streams m !! b = Some t -> key_of t <> k) ->
  wpe benign (CreateTCPStream sock ty sa sp da dp)
    (fun a m' => if a =? 0 then refused m m' else created sock k m a m') m.
Proof using.
  intros k Hi Hnew. unfold CreateTCPStream. rewrite wpe_bind.
  eapply wpe_mono; [by apply alloc_stream_ok|]. cbn beta. intros a m1 Ha. destruct (a =? 0) eqn:E0.
  { rewrite wpe_ret. done. }
  destruct Ha as (rv & sv & Hd1). rewrite wpe_bind, wpe_get, wpe_bind.
  eapply (draft_modify _ _ _ _ _ Hd1); [done|]. intros m2 Hd2. rewrite wpe_bind.
  eapply (draft_mod _ _ _ _ _ Hd2). intros m3 Hd3. rewrite wpe_bind. unfold StreamHTInsert.
  rewrite wpe_bind. eapply (draft_at _ _ _ _ _ Hd3). cbv zeta.
  change (key_of _) with k. set (h := HashFlow k). rewrite wpe_bind, wpe_assert.
  destruct (_ && _); [|done]. rewrite wpe_bind, wpe_get, wpe_bind. unfold set_flow_bin. rewrite wpe_modify.
  set (m4 := upd tcp_flow_table _ m3).
  pose proof (draft_entered _ _ _ _ h Hd3) as Hd4. fold m4 in Hd4.
  rewrite wpe_bind. eapply (draft_mod _ _ _ _ _ Hd4). intros m5 Hd5. rewrite wpe_ret.
  change (0 <? 0) with false. cbn iota. rewrite wpe_bind.
  eapply (draft_mod _ _ _ _ _ Hd5). intros m6 Hd6. rewrite wpe_bind.
  eapply (draft_modify _ _ _ _ _ Hd6); [done|]. intros m7 Hd7. rewrite wpe_bind.
  eapply (wpe_mono _ _ (fun _ m8 => exists s, draft a s
    (<[h := TAILQ_INSERT_TAIL (bin (tcp_flow_table m) h) a]> (tcp_flow_table m)) m m8 /\
    key_of s = k /\ on_hash_table s = true /\ is_bound_addr s = false /\ (forall k, flag k (sndvar s) = false) /\
    on_timewait_list s = false /\ on_timeout_list s = false /\ socket s = sock)).
  { destruct sock as [i|].
    - rewrite wpe_bind. eapply (draft_mod _ _ _ _ _ Hd7). intros m8 Hd8.
      eapply (draft_quiet _ _ _ _ _ Hd8); [apply quiet_socket_mod|]. intros ? m9 Hd9. eexists.
      split; [exact Hd9|]. split_and!; try done. by intros [].
    - rewrite wpe_ret. eexists. split; [exact Hd7|]. split_and!; try done. by intros []. }
  intros ? m8 (s & Hd8 & H1 & H2 & H3 & H4 & H5 & H6 & H7). rewrite wpe_bind.
  eapply wpe_mono; [by apply (init_stream_ok _ _ _ _ _ ty k (tb_routes _ (si_table _ _ Hi)) Hd8)|].
  intros ? m9 (s' & Hd9 & Hp & Hst & Hso). rewrite wpe_ret, E0.
  destruct (draft_live _ _ _ _ _ Hp Hd9 Hi Hnew) as [Hl Ho]. split; [done|]. split; [done|].
  split; [apply Hd9|]. exists s'. split; [apply (draft_lookup _ _ _ _ _ Hd9)|].
  split; [apply Hp|]. split; [exact Hst|]. congruence.
Qed.

End Create.

(** ** Code that may destroy its stream *)

(** [a] is still a stream and has moved on the lists of [L] only, or it is gone. *)
Definition fate (L : list lane) (a : Z) (m m' : mtcp_manager) : Prop :=
  (live None a m' /\ moves L a m m') \/ (ended a m m' /\ (LRto ∉ L -> clock m' = clock m)).

Definition ends {A} (L : list lane) (a : Z) (f : MT A) : Prop :=
  forall m, live None a m -> wpe benign f (fun _ m' => fate L a m m') m.

Lemma fate_inv L a m m' : fate L a m m' -> stack_inv None m'.
Proof. intros [[[Hi _] _]|[[Hi _] _]]; done. Qed.

Lemma fate_others L a m m' : fate L a m m' -> others a m m'.
Proof. intros [[_ Hv]|[(_ & Ho & _) _]]; [apply Hv|done]. Qed.

Lemma fate_clock L a m m' : fate L a m m' -> LRto ∉ L -> clock m' = clock m.
Proof. intros [[_ Hv]|[_ Hc]] HL; [by apply (mv_clock _ _ _ _ Hv)|auto]. Qed.

Lemma moves_fate L a m0 m m' : moves L a m0 m -> fate L a m m' -> fate L a m0 m'.
Proof.
  intros Hv [[Hl Hv']|[(Hi & Ho & Hn) Hc]]; [left; split; [done|by etransitivity]|right].
  split; [split; [done|split; [|done]]; etransitivity; [apply Hv|done]|].
  intros HL. by rewrite Hc, (mv_clock _ _ _ _ Hv).
Qed.

Section Ends.
Context (L : list lane) (a : Z).

Lemma ends_touches {A} (f : MT A) : touches L None a f -> ends L a f.
Proof. intros Hf m Hm. eapply wpe_mono; [by apply Hf|]. intros r m' Hr. by left. Qed.

Lemma ends_bind {A B} (f : MT A) (g : A -> MT B) :
  touches L None a f -> (forall r, ends L a (g r)) -> ends L a (f ≫= g).
Proof.
  intros Hf Hg m Hm. rewrite wpe_bind. eapply wpe_mono; [by apply Hf|]. intros r m1 [Hm1 Hv].
  eapply wpe_mono; [by apply Hg|]. intros r' m2 Hr. by eapply moves_fate.
Qed.

(** Nothing follows but a result. *)
Lemma ends_tail {A B} (f : MT A) (r : A -> B) : ends L a f -> ends L a (x ← f; mret (r x)).
Proof. intros Hf m Hm. rewrite wpe_bind. eapply wpe_mono; [by apply Hf|]. done. Qed.

Lemma ends_when b (f : MT unit) : ends L a f -> ends L a (whenM b f).
Proof.
  destruct b; [done|]. intros _. apply ends_touches, stable_ret. typeclasses eauto.
Qed.

Lemma ends_Destroy : ends L a (DestroyTCPStream a).
Proof.
  intros m Hm. eapply wpe_mono; [by apply DestroyTCPStream_gone|]. intros r m' (Hi & [Ho Hc] & Hn).
  right. split; [by split|]. done.
Qed.

End Ends.

(** [ends] decomposes an [ends] goal along the structure of the code. *)
Create HintDb ends.
#[export] Hint Resolve ends_Destroy : ends.

Ltac ends_step :=
  match goal with
  | |- ends _ _ (mbind _ _) => first [apply ends_bind; [solve [stab]|intros ?] | apply ends_tail]
  | |- ends _ _ (whenM _ _) => apply ends_when
  | |- ends _ _ (let _ := _ in _) => cbv zeta
  | |- ends _ _ (if ?b then _ else _) => destruct b eqn:?
  | |- ends _ _ (match ?x with _ => _ end) => destruct x eqn:?
  | |- ends _ _ _ => solve [eauto with ends] || (apply ends_touches; solve [stab])
  end.

Ltac ends := repeat ends_step.

(** *** The lists after the visit of a stream *)

Lemma list_at_alive p a m : stack_inv None m -> a ∈ list_at p m -> alive a m.
Proof.
  intros [H1 [Hr _ _ Ht _ _] [Hto _ _] _] Ha. destruct p as [k i|idx| |]; cbn in Ha.
  - destruct (sender_lookup m i) as [x|] eqn:Hx; [|by apply not_elem_of_nil in Ha].
    apply (H1 k i x Hx) in Ha as (s & Hs & _). by exists s.
  - apply Hr in Ha as (s & Hs & _). by exists s.
  - apply Ht in Ha as (s & Hs & _). by exists s.
  - apply Hto in Ha as (s & Hs & _). by exists s.
Qed.

Lemma list_at_nodup p m : stack_inv None m -> NoDup (list_at p m).
Proof.
  intros [H1 [Hr _ _ Ht _ _] [Hto _ _] _]. destruct p as [k i|idx| |]; cbn.
  - destruct (sender_lookup m i) as [x|] eqn:Hx; [|constructor]. apply (H1 k i x Hx).
  - apply Hr.
  - apply Ht.
  - apply Hto.
Qed.

Lemma others_strip p a m m' : others a m m' -> a ∉ list_at p m' -> list_at p m' = strip a (list_at p m).
Proof. intros Ho Ha. by rewrite <- (ot_list _ _ _ Ho), strip_notin. Qed.

(** A list on which the stream was not, and on which it was not put. *)
Lemma fate_list L p a m m' : fate L a m m' -> lane_of p ∉ L -> a ∉ list_at p m -> list_at p m' = list_at p m.
Proof.
  intros [[_ Hv]|[(Hi & Ho & Hn) _]] HL Ha; [by apply (mv_list _ _ _ _ Hv)|].
  rewrite <- (strip_notin a (list_at p m)), <- (ot_list _ _ _ Ho) by done. symmetry. apply strip_notin.
  intros Hin. destruct (list_at_alive p a m' Hi Hin) as [s Hs]. congruence.
Qed.
