(* ===== verification/OutSafe.v ===== *)
(** * The output engine keeps the invariant

    Sending a segment leaves the lists alone but for the timers; the loops over the lists
    of a sender end, and leave every stream on the lists its flags say. *)

From S2P Require Import Prelude SeqArith Bytes SendBuffer RingBuffer Mtcp TcpUtil Output Events Fhash Lists TcpStream TcpOut StackInv ListOps Benign StreamLife.

(** ** Segments *)

Section OutSafe.
Context `{Platform}.

Lemma touches_segment_marks L h a ts fl : LTimeout ∈ L -> touches L h a (segment_marks a ts fl).
Proof using. intros HL. unfold segment_marks. stab. Qed.

Lemma touches_segment_sent L h a ts n b : LRto ∈ L -> touches L h a (segment_sent a ts n b).
Proof using. intros HL. unfold segment_sent. stab. Qed.

Hint Resolve touches_segment_marks touches_segment_sent : stab.

Lemma touches_SendTCPPacket L h a ts fl src n : LTimeout ∈ L -> LRto ∈ L ->
  touches L h a (SendTCPPacket a ts fl src n).
Proof using. intros H1 H2. unfold SendTCPPacket. stab. Qed.

Hint Resolve touches_SendTCPPacket : stab.

Lemma touches_flush_loop L h a ts fuel : LTimeout ∈ L -> LRto ∈ L -> LSender KAck ∈ L ->
  forall n, touches L h a (flush_loop fuel a ts n).
Proof using.
  intros H1 H2 H3. induction fuel as [|fuel IH]; intros n; cbn [flush_loop]; stab; try apply IH.
Qed.

Hint Resolve touches_flush_loop : stab.

Lemma touches_FlushTCPSendingBuffer L h a ts : LTimeout ∈ L -> LRto ∈ L -> LSender KAck ∈ L ->
  touches L h a (FlushTCPSendingBuffer a ts).
Proof using. intros H1 H2 H3. unfold FlushTCPSendingBuffer. stab. Qed.

Hint Resolve touches_FlushTCPSendingBuffer : stab.

Lemma touches_send_data L h a ts : LTimeout ∈ L -> LRto ∈ L -> LSender KAck ∈ L ->
  touches L h a (send_data a ts).
Proof using. intros H1 H2 H3. unfold send_data. stab. Qed.

Lemma touches_ack_burst L h a ts fuel : LTimeout ∈ L -> LRto ∈ L ->
  touches L h a (ack_burst fuel a ts).
Proof using.
  intros H1 H2. induction fuel as [|fuel IH]; cbn [ack_burst]; stab; try apply IH.
Qed.

(** ** Control segments *)

Definition timer_lanes : list lane := [LTimeout; LRto].

(** [a] is still a stream, or it is gone and the call returned a [0] or more. *)
Definition sent_or_gone (a : Z) (m : mtcp_manager) (r : Z) (m' : mtcp_manager) : Prop :=
  (live None a m' /\ moves timer_lanes a m m') \/ (0 <= r /\ ended a m m').

Lemma SendControlPacket_ok a ts m : live None a m ->
  wpe benign (SendControlPacket a ts) (sent_or_gone a m) m.
Proof using.
  intros Hm. unfold SendControlPacket. rewrite wpe_bind. eapply stream_at_live; [done|]. intros s Hs.
  assert (Hk : forall f : MT Z, touches timer_lanes None a f -> wpe benign f (sent_or_gone a m) m).
  { intros f Hf. eapply wpe_mono; [by apply Hf|]. intros r m' Hr. by left. }
  cbv zeta. destruct (state s); try solve [apply Hk; unfold timer_lanes; stab].
  destruct (_ || _); [rewrite wpe_ret; by left|]. rewrite wpe_bind.
  eapply wpe_mono; [apply (touches_SendTCPPacket timer_lanes None a); [repeat constructor..|done]|].
  intros r m1 [Hl1 Hv1]. rewrite wpe_bind, wpe_when. destruct (Z.leb_spec 0 r) as [Hr|Hr]; [|by left].
  eapply wpe_mono; [by apply DestroyTCPStream_gone|]. intros u m2 Hg. right.
  split; [done|]. by eapply moves_ended.
Qed.

(** ** Visiting the streams of a list *)

(** The list is as before, without [a], or with [a] at its end. *)
Definition requeued (a : Z) (l l' : list Z) : Prop :=
  l' = l \/ l' = strip a l \/ l' = TAILQ_INSERT_TAIL (strip a l) a.

(** What a visit of [a] on list [k] of sender [i] has done. *)
Definition visited (k : lkind) (i : sender_id) (a : Z) (m : mtcp_manager) (stop : bool) (m' : mtcp_manager) : Prop :=
  stack_inv None m' /\ others a m m' /\
  (stop = false -> requeued a (list_at (PSender k i) m) (list_at (PSender k i) m')).

Lemma listed k i a m : stack_inv None m -> a ∈ list_at (PSender k i) m ->
  exists x s, sender_lookup m i = Some x /\ streams m !! a = Some s /\ live None a m /\
    flag k (sndvar s) = true /\ sender_of (CONFIG m) (nif_out (sndvar s)) = Some i /\
    NoDup (lst k x) /\ cnt k x = zlen (lst k x) /\
    TAILQ_REMOVE (lst k x) a = Some (strip a (lst k x)) /\ lst k x ≡ₚ a :: strip a (lst k x).
Proof using.
  intros Hi Ha. cbn in Ha. destruct (sender_lookup m i) as [x|] eqn:Hx; [|by apply not_elem_of_nil in Ha].
  destruct (si_senders _ _ Hi k i x Hx) as [[Hn He] Hc]. cbn [pending app from_option] in *.
  destruct (proj1 (He a) Ha) as (s & Hs & Hf & Hof). exists x, s.
  destruct (TAILQ_REMOVE_elem _ _ Ha) as [l Hl]. pose proof (TAILQ_REMOVE_strip _ _ _ Hn Hl) as ->.
  split_and!; try done; [split; [done|by exists s]|by apply TAILQ_REMOVE_perm].
Qed.

Lemma sender_update_streams i y m f :
  (sender_update i y m) <| streams ::= f |> = sender_update i y (m <| streams ::= f |>).
Proof using. by destruct i. Qed.

Lemma sender_at_some i x m Q : sender_lookup m i = Some x -> Q x m -> wpe benign (sender_at i) Q m.
Proof using. intros Hx HQ. unfold sender_at. by rewrite wpe_bind, wpe_get, wpe_unwrap, Hx. Qed.

Lemma sender_mod_ok i g m Q :
  (forall x, sender_lookup m i = Some x -> Q tt (sender_update i (g x) m)) -> wpe benign (sender_mod i g) Q m.
Proof using.
  intros HQ. unfold sender_mod, sender_at. rewrite !wpe_bind, wpe_get, wpe_unwrap.
  destruct (sender_lookup m i) as [x|] eqn:Hx; [|split_and!; discriminate]. rewrite wpe_modify. by apply HQ.
Qed.

(** Back on list [k], the list first and then the flag. *)
Lemma back_on_list k i a m s f g l' :
  live None a m -> streams m !! a = Some s -> sender_of (CONFIG m) (nif_out (sndvar s)) = Some i ->
  flag k (sndvar s) = false ->
  senders_marks (f s) = senders_marks (s <| sndvar ::= set_flag k true |>) -> calm_marks (f s) = calm_marks s ->
  (forall x, g x = set_lst k (l' (lst k x)) (Z.succ (cnt k x)) x) ->
  (forall l, l' l ≡ₚ a :: l /\ strip a (l' l) = strip a l) ->
  wpe benign (sender_mod i g;; stream_mod a f)
    (fun _ m' => live None a m' /\ moves [LSender k] a m m' /\
       list_at (PSender k i) m' = l' (list_at (PSender k i) m)) m.
Proof using.
  intros Hm Hs Hof Hfl Hmk Hcalm Hg Hl'. rewrite wpe_bind. apply sender_mod_ok. intros x Hx.
  destruct (sender_update_frame i (g x) m) as (Hst & _).
  unfold stream_mod, stream_at, stream_set. rewrite !wpe_bind, wpe_get, wpe_unwrap, Hst, Hs, wpe_modify.
  rewrite sender_update_streams, Hg. destruct (Hl' (lst k x)) as [Hp Hst'].
  destruct (stack_inv_relist None m a s (f s) i x k true (l' (lst k x)) (Z.succ (cnt k x))) as (H1 & _ & H3); try done.
  - rewrite (proj2 (si_senders _ _ (proj1 Hm) k i x Hx)). unfold zlen. cbn [pending app]. rewrite Hp. cbn. lia.
  - split; [done|]. split; [done|].
    unfold list_at. rewrite sender_lookup_update, decide_True, Hx by done. cbn [from_option].
    by rewrite lst_set, decide_True.
Qed.

(** A stream that is on no list of kind [k]. *)
Lemma not_listed k i a m : stack_inv None m ->
  (forall s, streams m !! a = Some s -> flag k (sndvar s) = false) -> a ∉ list_at (PSender k i) m.
Proof using.
  intros Hi Hf Ha. destruct (listed k i a m Hi Ha) as (x & s & _ & Hs & _ & E & _).
  rewrite (Hf s Hs) in E. done.
Qed.

Lemma moves_flag L k h a m m' s : LSender k ∉ L -> moves L a m m' -> live h a m' -> streams m !! a = Some s ->
  exists s', streams m' !! a = Some s' /\ flag k (sndvar s') = flag k (sndvar s) /\
    nif_out (sndvar s') = nif_out (sndvar s).
Proof using.
  intros HL Hv [_ [s' Hs']] Hs. exists s'. split; [done|].
  pose proof (mv_mark _ _ _ _ Hv _ HL) as Hm. pose proof (mv_table _ _ _ _ Hv) as Ht.
  unfold same_at in Hm, Ht. rewrite Hs, Hs' in Hm, Ht. cbn in Hm, Ht. injection Hm as Hm.
  split; [by destruct (flag k (sndvar s)), (flag k (sndvar s'))|]. unfold table_marks in Ht. congruence.
Qed.

(** Off list [k], the list first and then the flag. *)
Lemma off_list k i a m x s f g Q :
  live None a m -> streams m !! a = Some s -> sender_lookup m i = Some x ->
  sender_of (CONFIG m) (nif_out (sndvar s)) = Some i -> flag k (sndvar s) = true ->
  senders_marks (f s) = senders_marks (s <| sndvar ::= set_flag k false |>) -> calm_marks (f s) = calm_marks s ->
  TAILQ_REMOVE (lst k x) a = Some (strip a (lst k x)) -> g x = set_lst k (strip a (lst k x)) (Z.pred (cnt k x)) x ->
  (forall m', live None a m' -> streams m' !! a = Some (f s) -> moves [LSender k] a m m' -> Q tt m') ->
  wpe benign (sender_mod i g) (fun _ => wpe benign (stream_at a) (fun t m1 => t = s /\
    wpe benign (stream_mod a f) Q m1)) m.
Proof using.
  intros Hm Hs Hx Hof Hfl Hmk Hcalm Hrm Hg HQ. apply sender_mod_ok. intros y Hy.
  assert (y = x) as -> by congruence. destruct (sender_update_frame i (g x) m) as (Hst & _).
  unfold stream_mod, stream_at, stream_set. rewrite !wpe_bind, wpe_get, wpe_unwrap, Hst, Hs. split; [done|].
  rewrite !wpe_bind, wpe_get, wpe_unwrap, Hst, Hs, wpe_modify, sender_update_streams, Hg.
  destruct (si_senders _ _ (proj1 Hm) k i x Hx) as [_ Hc]. apply TAILQ_REMOVE_perm in Hrm.
  destruct (stack_inv_relist None m a s (f s) i x k false (strip a (lst k x)) (Z.pred (cnt k x))) as (H1 & H2 & H3); try done.
  - rewrite Hc. unfold zlen. cbn [pending app]. rewrite Hrm at 1. cbn. lia.
  - apply strip_notin. unfold strip. rewrite list_elem_of_filter. naive_solver.
  - by apply HQ.
Qed.

Lemma others_sender a m m' n : others a m m' -> sender_of (CONFIG m') n = sender_of (CONFIG m) n.
Proof using. intros Ho. apply sender_of_core, Ho. Qed.

(** [a], which was taken off list [k], goes back to it. *)
Lemma revisited k i a m m1 m2 s1 f g l' stop :
  others a m m1 -> list_at (PSender k i) m1 = strip a (list_at (PSender k i) m) ->
  streams m1 !! a = Some s1 -> flag k (sndvar s1) = false ->
  sender_of (CONFIG m) (nif_out (sndvar s1)) = Some i ->
  live None a m2 -> moves timer_lanes a m1 m2 ->
  (forall s, senders_marks (f s) = senders_marks (s <| sndvar ::= set_flag k true |>) /\ calm_marks (f s) = calm_marks s) ->
  (forall x, g x = set_lst k (l' (lst k x)) (Z.succ (cnt k x)) x) ->
  (forall l, l' l ≡ₚ a :: l /\ strip a (l' l) = strip a l) ->
  (stop = false -> forall l, l' l = TAILQ_INSERT_TAIL l a) ->
  wpe benign (sender_mod i g;; stream_mod a f;; mret stop) (visited k i a m) m2.
Proof using.
  intros Ho1 Hl1 Hs1 Hf1 Hof Hm2 Hv Hf Hg Hl' Hstop.
  assert (HL : LSender k ∉ timer_lanes) by (unfold timer_lanes; set_solver).
  destruct (moves_flag _ _ _ _ _ _ _ HL Hv Hm2 Hs1) as (s2 & Hs2 & Hf2 & Hn2).
  pose proof (back_on_list k i a m2 s2 f g l' Hm2 Hs2) as Hb. rewrite wpe_bind in Hb. rewrite wpe_bind.
  eapply wpe_mono; [apply Hb; try done|].
  - rewrite Hn2, (others_sender _ _ _ _ (mv_others _ _ _ _ Hv)), (others_sender _ _ _ _ Ho1). done.
  - congruence.
  - apply Hf.
  - apply Hf.
  - intros u m3 H3. rewrite wpe_bind. eapply wpe_mono; [exact H3|]. intros w m4 (Hl4 & Hv4 & El).
    rewrite wpe_ret. split; [apply Hl4|]. split.
    + etransitivity; [done|]. etransitivity; [apply Hv|apply Hv4].
    + intros ->. right; right. rewrite El, (mv_list _ _ _ _ Hv), Hl1 by done. by apply Hstop.
Qed.

Lemma control_visit_ok i ts a m : stack_inv None m -> a ∈ list_at (PSender KControl i) m ->
  wpe benign (control_visit i ts a) (visited KControl i a m) m.
Proof using.
  intros Hi Ha. destruct (listed _ _ _ _ Hi Ha) as (x & s & Hx & Hs & Hm & Hf & Hof & Hn & Hc & Hrm & Hp).
  unfold control_visit. rewrite wpe_bind. eapply sender_at_some; [done|].
  change (control_list x) with (lst KControl x). rewrite wpe_bind, wpe_unwrap, Hrm, wpe_bind.
  set (Q := fun (_ : unit) m1 => live None a m1 /\ moves [LSender KControl] a m m1 /\
    exists s1, streams m1 !! a = Some s1 /\ flag KControl (sndvar s1) = false /\ nif_out (sndvar s1) = nif_out (sndvar s)).
  eapply wpe_mono; [eapply (off_list KControl i a m x s (fun s => s <| sndvar ::= on_control_list ↦ false |>) _ Q); try done|].
  { intros m1 H1 H2 H3. split_and!; try done. by eexists. }
  intros u m1 H1. rewrite wpe_bind. eapply wpe_mono; [exact H1|]. intros t m2 [-> H2].
  change (on_control_list (sndvar s)) with (flag KControl (sndvar s)). rewrite Hf, wpe_bind.
  eapply wpe_mono; [exact H2|]. clear u m1 m2 H1 H2. intros u m1 (Hl1 & Hv1 & s1 & Hs1 & Hf1 & Hn1).
  assert (El : list_at (PSender KControl i) m1 = strip a (list_at (PSender KControl i) m)).
  { apply others_strip; [apply Hv1|]. eapply not_listed; [apply Hl1|]. congruence. }
  rewrite wpe_bind. eapply wpe_mono; [by apply SendControlPacket_ok|]. intros r m2 Hr.
  rewrite <- Hn1 in Hof. destruct (Z.eqb_spec r (-2)) as [->|Hne].
  { destruct Hr as [[Hl2 Hv2]|[? _]]; [|lia].
    eapply (revisited KControl i a m m1 m2 s1 _ _ (fun l => TAILQ_INSERT_HEAD l a)); try done; [apply Hv1|].
    intros l. split; [done|apply strip_insert_head]. }
  destruct (Z.ltb_spec r 0) as [Hlt|Hge].
  { destruct Hr as [[Hl2 Hv2]|[? _]]; [|lia].
    eapply (revisited KControl i a m m1 m2 s1 _ _ (fun l => TAILQ_INSERT_TAIL l a)); try done; [apply Hv1|].
    intros l. split; [apply insert_tail_perm|apply strip_insert_tail]. }
  rewrite wpe_ret. destruct Hr as [[Hl2 Hv2]|[_ (Hi2 & Ho2 & Hg2)]].
  - split; [apply Hl2|]. split; [etransitivity; [apply Hv1|apply Hv2]|]. intros _. right; left.
    rewrite <- El. apply (mv_list _ _ _ _ Hv2). unfold timer_lanes. set_solver.
  - split; [done|]. split; [etransitivity; [apply Hv1|done]|]. intros _. right; left.
    apply others_strip; [etransitivity; [apply Hv1|done]|]. eapply not_listed; [done|]. congruence.
Qed.

(** ** Data *)

(** While its data is sent, the stream is held out of the send list. *)
Lemma pending_other i a k j : k <> KSend \/ j <> i -> pending (Some (i, a)) k j = [].
Proof using. intros Hne. destruct k; try done. cbn. rewrite decide_False; naive_solver. Qed.

Lemma pending_here i a : pending (Some (i, a)) KSend i = [a].
Proof using. cbn. by rewrite decide_True. Qed.

Lemma stack_inv_frame h h' m m' :
  stack_inv h m -> streams m' = streams m -> timers_core m' = timers_core m ->
  timeout_core m' = timeout_core m -> table_core m' = table_core m -> senders_inv h' m' -> stack_inv h' m'.
Proof using.
  intros [H1 H2 H3 H4] Es Et Eo Eb Hs. split; [done|..].
  - by apply (timers_inv_same m); [| |rewrite Es].
  - by apply (timeout_inv_same m); [| |rewrite Es].
  - by apply (table_inv_same m); [| |rewrite Es].
Qed.

(** A change of the send list of sender [i] that the hole makes up for. *)
Lemma live_hole h h' i a m x y :
  live h a m -> sender_lookup m i = Some x ->
  lst KControl y = lst KControl x -> lst KAck y = lst KAck x -> (forall k, cnt k y = cnt k x) ->
  (forall k j, k <> KSend \/ j <> i -> pending h' k j = pending h k j) ->
  pending h' KSend i ++ lst KSend y ≡ₚ pending h KSend i ++ lst KSend x ->
  strip a (lst KSend y) = strip a (lst KSend x) ->
  live h' a (sender_update i y m) /\ moves [LSender KSend] a m (sender_update i y m).
Proof using.
  intros [Hi Ha] Hx E1 E2 Ec Hpe Hp Hst.
  destruct (sender_update_frame i y m) as (Fs & Fc & Ft & Fo & Fb). split; [split|].
  - eapply stack_inv_frame; try done. intros k j z. rewrite sender_lookup_update, Fs, Fc.
    case_decide as Ej; intros Hz.
    + injection Hz as <-. subst j. destruct (si_senders _ _ Hi k i x Hx) as [Ht Hc].
      rewrite Ec, Hc. destruct k.
      * rewrite E1, Hpe by (left; discriminate). done.
      * split; [by eapply tracks_perm|]. unfold zlen. by rewrite Hp.
      * rewrite E2, Hpe by (left; discriminate). done.
    + rewrite Hpe by by right. by apply (si_senders _ _ Hi).
  - unfold alive. by rewrite Fs.
  - apply moves_relink; [done| |by rewrite Fc|right; by destruct i]. unfold timers_core, timeout_core in Ft, Fo.
    injection Ft as T1 _ T2 _. injection Fo as O1 _ _.
    intros [k j|idx| |]; [|left; cbn; congruence..]. cbn. rewrite sender_lookup_update.
    case_decide as Ej; [subst j|by left]. rewrite Hx. cbn.
    destruct k; [by left|right|by left]. split; [by constructor|done].
Qed.

(** The stream has been served: it leaves the list for good. *)
Lemma live_served i a m s x y f :
  live (Some (i, a)) a m -> streams m !! a = Some s -> sender_lookup m i = Some x ->
  flag KSend (sndvar s) = true -> sender_of (CONFIG m) (nif_out (sndvar s)) = Some i ->
  senders_marks (f s) = senders_marks (s <| sndvar ::= set_flag KSend false |>) -> calm_marks (f s) = calm_marks s ->
  y = set_lst KSend (lst KSend x) (Z.pred (cnt KSend x)) x ->
  let m' := sender_update i y (m <| streams ::= insert a (f s) |>) in
  live None a m' /\ moves [LSender KSend] a m m'.
Proof using.
  intros Hm Hs Hx Hf Hof Hmk Hcalm -> m'. destruct (proj1 Hm) as [H1 _ _ _].
  destruct (H1 KSend i x Hx) as [[Hn _] Hc]. rewrite pending_here in Hn, Hc.
  apply list.NoDup_cons in Hn as [Hna _].
  (* put the stream back, then remove it *)
  set (z := set_lst KSend (a :: lst KSend x) (cnt KSend x) x).
  destruct (live_hole (Some (i, a)) None i a m x z) as [H2 V2]; try done.
  { intros k j Hne. by rewrite pending_other. }
  { by rewrite pending_here. }
  { apply strip_same. }
  set (m2 := sender_update i z m) in *.
  assert (Hx2 : sender_lookup m2 i = Some z).
  { unfold m2. by rewrite sender_lookup_update, decide_True. }
  destruct (sender_update_frame i z m) as (Fs & Fc & _). fold m2 in Fs, Fc.
  destruct (stack_inv_relist None m2 a s (f s) i z KSend false (lst KSend x) (Z.pred (cnt KSend x)))
    as (H3 & _ & V3); try done.
  { by rewrite Fs. }
  { by rewrite Fc. }
  { exact (Permutation_refl (a :: lst KSend x)). }
  { rewrite Hc, zlen_app. change (zlen [a]) with 1. cbn [pending app]. lia. }
  { symmetry. apply strip_same. }
  assert (E : sender_update i (set_lst KSend (lst KSend x) (Z.pred (cnt KSend x)) z) (m2 <| streams ::= insert a (f s) |>) = m').
  { unfold m', m2. destruct i as [|e]; [done|]. unfold sender_update, upd; cbn. f_equal. apply insert_insert_eq. }
  rewrite E in H3, V3. split; [done|]. by etransitivity.
Qed.

Definition send_lanes : list lane := [LTimeout; LRto; LSender KAck].

Lemma touches_piggyback L h a n : touches L h a (stream_mod a (fun s => s <| sndvar ::= piggyback n |>)).
Proof using.
  apply touches_stream_mod. intros s. unfold piggyback, marks_of, upd; cbn.
  by destruct (0 <? ack_cnt (sndvar s)).
Qed.

Hint Resolve touches_piggyback : stab.

Lemma data_served_ok i a n m m2 s :
  live (Some (i, a)) a m2 -> others a m m2 -> streams m2 !! a = Some s ->
  flag KSend (sndvar s) = true -> sender_of (CONFIG m2) (nif_out (sndvar s)) = Some i ->
  wpe benign (data_served i a n) (fun _ => visited KSend i a m false) m2.
Proof using.
  intros Hm2 Ho2 Hs Hf Hof. unfold data_served. rewrite wpe_bind. eapply stream_mod_live; [done|].
  intros t Ht. assert (t = s) as -> by congruence. clear Ht. rewrite wpe_bind. apply sender_mod_ok. intros x Hx.
  assert (Hx2 : sender_lookup m2 i = Some x) by (by destruct i).
  destruct (live_served i a m2 s x (x <| send_list_cnt ::= Z.pred |>) (fun s => s <| sndvar ::= on_send_list ↦ false |>) Hm2 Hs Hx2 Hf Hof)
    as [Hm3 Hv3]; try done.
  match type of Hm3 with live _ _ ?m => set (m3 := m) in * end.
  assert (E3 : list_at (PSender KSend i) m3 = strip a (list_at (PSender KSend i) m)).
  { apply others_strip; [etransitivity; [done|apply Hv3]|]. eapply not_listed; [apply Hm3|].
    intros t. unfold m3. destruct i; cbn; rewrite lookup_insert_eq; by intros [= <-]. }
  eapply wpe_mono.
  { match goal with |- wpe _ ?f _ _ => assert (Hk : touches [LSender KControl] None a f) by stab end.
    exact (Hk m3 Hm3). }
  intros u m4 [Hm4 Hv4]. split; [apply Hm4|]. split.
  - etransitivity; [done|]. etransitivity; [apply Hv3|apply Hv4].
  - intros _. right; left. rewrite <- E3. apply (mv_list _ _ _ _ Hv4). set_solver.
Qed.

Lemma data_visit_ok i ts a m : stack_inv None m -> a ∈ list_at (PSender KSend i) m ->
  wpe benign (data_visit i ts a) (visited KSend i a m) m.
Proof using.
  intros Hi Ha. destruct (listed _ _ _ _ Hi Ha) as (x & s & Hx & Hs & Hm & Hf & Hof & Hn & Hc & Hrm & Hp).
  unfold data_visit. rewrite wpe_bind. eapply sender_at_some; [done|].
  change (send_list x) with (lst KSend x). rewrite wpe_bind, wpe_unwrap, Hrm, wpe_bind.
  apply sender_mod_ok. intros y Hy. assert (y = x) as -> by congruence. clear Hy.
  set (y := upd send_list _ x). set (m1 := sender_update i y m).
  destruct (live_hole None (Some (i, a)) i a m x y) as [Hm1 Hv1]; try done.
  { intros k j Hne. by rewrite pending_other. }
  { rewrite pending_here. symmetry. exact Hp. }
  { apply strip_notin. unfold strip. rewrite list_elem_of_filter. naive_solver. }
  fold m1 in Hm1, Hv1. rewrite wpe_bind. eapply stream_at_live; [done|].
  destruct (sender_update_frame i y m) as (Fs & Fc & _). fold m1 in Fs, Fc.
  intros t Ht. rewrite Fs in Ht. assert (t = s) as -> by congruence.
  change (on_send_list (sndvar s)) with (flag KSend (sndvar s)). rewrite Hf, wpe_bind.
  eapply wpe_mono; [apply (touches_send_data send_lanes); [repeat constructor..|exact Hm1]|].
  intros r m2 [Hm2 Hv2]. assert (Ho2 : others a m m2) by (etransitivity; [apply Hv1|apply Hv2]).
  destruct (Z.ltb_spec r 0) as [Hr|Hr].
  - rewrite wpe_bind. apply sender_mod_ok. intros z Hz. rewrite wpe_ret.
    destruct (live_hole (Some (i, a)) None i a m2 z (z <| send_list ::= fun l => TAILQ_INSERT_TAIL l a |>)) as [Hm3 Hv3]; try done.
    { intros k j Hne. by rewrite pending_other. }
    { rewrite pending_here. apply insert_tail_perm. }
    { apply strip_insert_tail. }
    split; [apply Hm3|]. split; [|done]. etransitivity; [done|apply Hv3].
  - assert (Hs2 : exists s2, streams m2 !! a = Some s2 /\ flag KSend (sndvar s2) = true /\
      nif_out (sndvar s2) = nif_out (sndvar s)).
    { eapply (moves_flag _ KSend) in Hv2 as (s2 & ? & E & ?); [|unfold send_lanes; set_solver|exact Hm2|by rewrite Fs].
      exists s2. split_and!; congruence. }
    destruct Hs2 as (s2 & Hs2 & Hf2 & Hn2). rewrite wpe_bind.
    eapply wpe_mono; [eapply data_served_ok; [done|done|done|done|]|intros u m3 Hvis; exact Hvis].
    by rewrite Hn2, (others_sender _ _ _ _ Ho2).
Qed.

(** ** Acknowledgements *)

Lemma touches_send_control_waiting L a : LSender KControl ∈ L ->
  touches L None a (s ← stream_at a;
    whenM (control_list_waiting s && negb (on_send_list (sndvar s)))
      (stream_mod a (fun s => s <| control_list_waiting := false |>);; AddtoControlList a)).
Proof using. intros HL. stab. Qed.

(** Off the ACK list, the flag first and then the list. *)
Lemma leave_ack_list_ok i a m m1 s f :
  live None a m1 -> moves timer_lanes a m m1 -> streams m1 !! a = Some s ->
  on_ack_list (sndvar s) = true -> sender_of (CONFIG m1) (nif_out (sndvar s)) = Some i ->
  senders_marks (f s) = senders_marks (s <| sndvar ::= set_flag KAck false |>) -> calm_marks (f s) = calm_marks s ->
  wpe benign (stream_mod a f;; leave_ack_list i a)
    (fun _ m' => live None a m' /\ others a m m' /\
       list_at (PSender KAck i) m' = strip a (list_at (PSender KAck i) m)) m1.
Proof using.
  intros Hm1 Hv1 Hs Hf Hof Hmk Hc. destruct (sender_lookup m1 i) as [x|] eqn:Hx.
  - eapply wpe_mono; [eapply (unlist_live a m1 i s x KAck f); try done; intros; reflexivity|].
    intros u m2 (Hm2 & Hs2 & Hv2). split; [done|].
    assert (Ho : others a m m2) by (etransitivity; [apply Hv1|apply Hv2]). split; [done|].
    apply others_strip; [done|]. eapply not_listed; [apply Hm2|]. intros t Ht.
    assert (t = f s) as -> by congruence. by rewrite (senders_flag _ _ KAck Hmk).
  - rewrite wpe_bind. eapply stream_mod_live; [done|]. intros t Ht. unfold leave_ack_list, sender_at.
    rewrite !wpe_bind, wpe_get, wpe_unwrap. assert (Hn : forall m', sender_lookup (m1 <| streams ::= m' |>) i = None).
    { intros m'. by destruct i. }
    rewrite Hn. split_and!; discriminate.
Qed.

Hint Resolve touches_ack_burst : stab.

Lemma send_acks_ok i ts a m : stack_inv None m -> a ∈ list_at (PSender KAck i) m ->
  wpe benign (send_acks i a ts) (fun _ => visited KAck i a m false) m.
Proof using.
  intros Hi Ha. destruct (listed _ _ _ _ Hi Ha) as (x & s & Hx & Hs & Hm & Hf & Hof & Hn & Hc & Hrm & Hp).
  unfold send_acks. rewrite wpe_bind. eapply stream_at_live; [done|]. intros t Ht.
  assert (t = s) as -> by congruence. clear Ht. rewrite wpe_bind.
  eapply (wpe_mono _ _ (fun _ m1 => live None a m1 /\ others a m m1 /\
    requeued a (list_at (PSender KAck i) m) (list_at (PSender KAck i) m1))).
  2:{ intros u m1 (Hm1 & Ho1 & Hq).
      eapply wpe_mono; [apply (touches_send_control_waiting [LSender KControl]); [by constructor|exact Hm1]|].
      intros w m2 [Hm2 Hv2]. split; [apply Hm2|]. split; [etransitivity; [done|apply Hv2]|].
      intros _. by rewrite (mv_list _ _ _ _ Hv2) by (cbn; set_solver). }
  assert (Hk : forall m1 t f, live None a m1 -> moves timer_lanes a m m1 -> streams m1 !! a = Some t ->
    senders_marks (f t) = senders_marks (t <| sndvar ::= set_flag KAck false |>) -> calm_marks (f t) = calm_marks t ->
    wpe benign (stream_mod a f;; leave_ack_list i a) (fun _ m2 => live None a m2 /\ others a m m2 /\
      requeued a (list_at (PSender KAck i) m) (list_at (PSender KAck i) m2)) m1).
  { intros m1 t f Hm1 Hv1 Ht H1 H2.
    destruct (moves_flag timer_lanes KAck None a m m1 s) as (t' & Ht' & Ef & En); try done.
    { unfold timer_lanes. set_solver. }
    assert (t' = t) as -> by congruence. eapply wpe_mono; [apply (leave_ack_list_ok i a m m1 t f); try done|].
    - cbn in Ef, Hf. congruence.
    - by rewrite En, (others_sender _ _ _ _ (mv_others _ _ _ _ Hv1)).
    - intros u m2 (? & ? & ->). split_and!; try done. right; by left. }
  destruct (to_ack s).
  2:{ by apply (Hk m s). }
  rewrite wpe_bind.
  eapply wpe_mono; [apply (touches_ack_burst timer_lanes); [repeat constructor..|exact Hm]|].
  intros u m1 [Hm1 Hv1]. rewrite wpe_bind. eapply stream_at_live; [done|]. intros s1 Hs1. rewrite wpe_bind.
  eapply wpe_mono.
  { match goal with |- wpe _ ?f _ _ => assert (Hw : touches timer_lanes None a f) by (unfold timer_lanes; stab) end.
    exact (Hw m1 Hm1). }
  intros w m2 [Hm2 Hv2]. assert (Hv : moves timer_lanes a m m2) by by etransitivity.
  rewrite wpe_bind. eapply stream_at_live; [done|]. intros s2 Hs2. rewrite wpe_when.
  case (negb _); [by apply (Hk m2 s2)|]. split; [done|]. split; [apply Hv|]. left.
  apply (mv_list _ _ _ _ Hv). unfold timer_lanes. set_solver.
Qed.

Lemma ack_visit_ok i ts a m : stack_inv None m -> a ∈ list_at (PSender KAck i) m ->
  wpe benign (ack_visit i ts a) (visited KAck i a m) m.
Proof using.
  intros Hi Ha. destruct (listed _ _ _ _ Hi Ha) as (x & s & Hx & Hs & Hm & Hf & _).
  unfold ack_visit. rewrite wpe_bind. eapply stream_at_live; [done|]. intros t Ht.
  assert (t = s) as -> by congruence. cbn in Hf. rewrite Hf, wpe_bind.
  eapply wpe_mono; [by apply send_acks_ok|]. intros u m1 Hv. exact Hv.
Qed.

(** ** The loops *)

Lemma lst_nodup k i m : stack_inv None m -> NoDup (list_at (PSender k i) m).
Proof using.
  intros Hi. unfold list_at. destruct (sender_lookup m i) as [x|] eqn:Hx; [|constructor].
  apply (si_senders _ _ Hi k i x Hx).
Qed.

Lemma sender_loop_ok k i visit thresh last :
  (forall a m, stack_inv None m -> a ∈ list_at (PSender k i) m -> wpe benign (visit a) (visited k i a m) m) ->
  forall fuel cur cnt m, stack_inv None m -> span (list_at (PSender k i) m) cur last fuel ->
  wpe benign (sender_loop (lst k) visit fuel i thresh last cur cnt) (fun _ m' => stack_inv None m') m.
Proof using.
  intros Hvisit. induction fuel as [|fuel IH]; intros [a|] n m Hi Hsp; try done;
    destruct (span_step _ _ _ _ (lst_nodup k i m Hi) Hsp) as (n' & E & Hnext); [done|].
  injection E as <-. cbn [sender_loop]. destruct (thresh <? n + 1); [done|].
  pose proof (span_elem _ _ _ _ Hsp) as Ha. destruct (listed _ _ _ _ Hi Ha) as (x & s & Hx & _).
  rewrite wpe_bind. eapply sender_at_some; [done|]. rewrite wpe_bind.
  eapply wpe_mono; [by apply Hvisit|]. intros stop m1 (Hi1 & _ & Hq).
  destruct stop; [done|]. cbn [orb]. case_bool_decide as El; [done|]. apply IH; [done|].
  assert (Ex : list_at (PSender k i) m = lst k x) by (unfold list_at; by rewrite Hx).
  rewrite Ex in Hnext, Hq. destruct (Hnext El) as (S1 & S2 & S3).
  destruct (Hq eq_refl) as [-> | [-> | ->]]; done.
Qed.

Lemma WriteTCPControlList_inv i ts thresh m : stack_inv None m ->
  wpe benign (WriteTCPControlList i ts thresh) (fun _ m' => stack_inv None m') m.
Proof using.
  intros Hi. unfold WriteTCPControlList, sender_at. rewrite !wpe_bind, wpe_get, wpe_unwrap.
  destruct (sender_lookup m i) as [x|] eqn:Hx; [|split_and!; discriminate].
  apply (sender_loop_ok KControl); [intros; by apply control_visit_ok|done|].
  unfold list_at. rewrite Hx. apply span_start.
Qed.

Lemma WriteTCPDataList_inv i ts thresh m : stack_inv None m ->
  wpe benign (WriteTCPDataList i ts thresh) (fun _ m' => stack_inv None m') m.
Proof using.
  intros Hi. unfold WriteTCPDataList, sender_at. rewrite !wpe_bind, wpe_get, wpe_unwrap.
  destruct (sender_lookup m i) as [x|] eqn:Hx; [|split_and!; discriminate].
  apply (sender_loop_ok KSend); [intros; by apply data_visit_ok|done|].
  unfold list_at. rewrite Hx. apply span_start.
Qed.

Lemma WriteTCPACKList_inv i ts thresh m : stack_inv None m ->
  wpe benign (WriteTCPACKList i ts thresh) (fun _ m' => stack_inv None m') m.
Proof using.
  intros Hi. unfold WriteTCPACKList, sender_at. rewrite !wpe_bind, wpe_get, wpe_unwrap.
  destruct (sender_lookup m i) as [x|] eqn:Hx; [|split_and!; discriminate].
  apply (sender_loop_ok KAck); [intros; by apply ack_visit_ok|done|].
  unfold list_at. rewrite Hx. apply span_start.
Qed.

End OutSafe.

#[export] Hint Resolve touches_SendTCPPacket touches_FlushTCPSendingBuffer touches_send_data
  touches_ack_burst : stab.
