(* ===== verification/TimerSafe.v ===== *)
(** * The timers keep the invariant

    A retransmission timeout, a time-wait expiry or a connection timeout takes the stream
    off its list and may destroy it; the walks over the lists and the clock of the timer
    wheel end. *)

From S2P Require Import Prelude SeqArith Mtcp Events Lists TcpStream TcpOut Timer StackInv ListOps Benign StreamLife OutSafe.

Section TimerSafe.
Context `{Platform}.

Definition resend_lanes : list lane := [LSender KControl; LSender KSend].

Lemma touches_close_with L st why a : touches L None a (close_with st why a).
Proof using. unfold close_with. stab. Qed.

Lemma touches_retransmit a : touches resend_lanes None a (retransmit a).
Proof using. unfold retransmit, resend_lanes. stab. Qed.

Hint Resolve touches_close_with touches_retransmit : stab.

Lemma ends_abandon L a : ends L a (abandon a).
Proof using. unfold abandon. ends. Qed.

Hint Resolve ends_abandon : ends.

Lemma touches_collapse L h a : touches L h a (stream_mod a (fun s => s <| sndvar ::= collapse_window |>)).
Proof using. apply touches_stream_mod. intros s. done. Qed.

Lemma touches_backoff L h a :
  touches L h a (stream_mod a (fun s => s <| sndvar ::= rto ↦ backoff_rto s |>)).
Proof using. apply touches_stream_mod. intros s. done. Qed.

Hint Resolve touches_collapse touches_backoff : stab.

Lemma ends_HandleRTO ts a : ends resend_lanes a (HandleRTO ts a).
Proof using. unfold HandleRTO. ends. Qed.

(** ** The slots of the timer wheel *)

Lemma slot_member m idx a : stack_inv None m -> a ∈ list_at (PRto idx) m ->
  exists s, streams m !! a = Some s /\ live None a m /\ 0 <= on_rto_idx s /\ on_rto_idx s = idx /\
    TAILQ_REMOVE (bin (rto_list (rto_store m)) idx) a = Some (strip a (list_at (PRto idx) m)).
Proof using.
  intros Hi Ha. pose proof (list_at_nodup (PRto idx) m Hi) as Hn.
  destruct (proj1 (tr_elem _ _ _ (ti_rto _ (si_timers _ _ Hi) idx) a) Ha) as (s & Hs & Hr & Hidx).
  exists s. split; [done|]. split; [split; [done|by exists s]|]. split; [unfold on_rto in Hr; lia|]. split; [done|].
  destruct (TAILQ_REMOVE_elem _ _ Ha) as [l Hl]. by rewrite <- (TAILQ_REMOVE_strip _ _ _ Hn Hl).
Qed.

Lemma not_in_slot m idx a s : stack_inv None m -> streams m !! a = Some s -> on_rto s = false ->
  a ∉ list_at (PRto idx) m.
Proof using.
  intros Hi Hs Hr Ha. destruct (slot_member m idx a Hi Ha) as (t & Ht & _ & Hidx & _).
  assert (t = s) as -> by congruence. unfold on_rto in Hr. lia.
Qed.

Lemma rto_slot_loop_ok ts thresh idx fuel : forall walk n m,
  stack_inv None m -> tail_from (list_at (PRto idx) m) walk fuel ->
  wpe benign (rto_slot_loop fuel ts thresh idx walk n)
    (fun _ m' => stack_inv None m' /\ clock m' = clock m) m.
Proof using.
  induction fuel as [|fuel IH]; intros [a|] n m Hi Ht; try done;
    destruct (tail_step _ _ _ (list_at_nodup _ _ Hi) Ht) as (n' & E & _ & Hnext); [done|].
  injection E as <-. cbn [rto_slot_loop]. destruct (thresh <? n + 1); [done|].
  destruct (slot_member m idx a Hi (tail_elem _ _ _ Ht)) as (s & Hs & Hm & Hpos & Hidx & Hrm). subst idx.
  rewrite wpe_bind, wpe_get, wpe_bind. eapply stream_at_live; [done|]. intros t Ht1.
  assert (t = s) as -> by congruence. rewrite wpe_bind, wpe_when, (proj2 (Z.leb_le _ _) Hpos).
  rewrite wpe_bind, wpe_unwrap, Hrm. unfold set_rto_list. rewrite wpe_bind, wpe_modify, wpe_bind, wpe_modify, wpe_bind.
  unfold stream_mod, stream_at, stream_set. rewrite !wpe_bind, wpe_get, wpe_unwrap. cbv beta.
  match goal with |- context [streams ?x !! a] => change (streams x) with (streams m) end.
  rewrite Hs, wpe_modify.
  pose proof (rto_leave_live a m s _ Hm Hs Hpos Hrm) as Hlv.
  set (m1 := upd rto_list_cnt _ _) in Hlv.
  match goal with |- wpe _ _ _ ?x => change x with m1 end.
  destruct Hlv as (Hm1 & [Ho1 Hc1] & s0 & s1 & _ & Hs1 & _ & Hr1).
  pose proof (not_in_slot m1 (on_rto_idx s) a s1 (proj1 Hm1) Hs1 Hr1) as Hni.
  rewrite wpe_bind. eapply wpe_mono; [by apply ends_HandleRTO|]. intros r m2 Hf. rewrite wpe_ret.
  eapply wpe_mono; [apply IH; [exact (fate_inv _ _ _ _ Hf)|]|].
  - rewrite (fate_list _ (PRto (on_rto_idx s)) _ _ _ Hf), (others_strip (PRto (on_rto_idx s)) a m m1); [done|done|done| |done].
    cbn. unfold resend_lanes. set_solver.
  - intros r' m3 [Hi3 Hc3]. split; [done|]. rewrite Hc3, (fate_clock _ _ _ _ Hf), Hc1; [done|].
    unfold resend_lanes. set_solver.
Qed.

(** Moving a stream from the list of the far future to its slot. *)
Lemma rearrange_live a m m' s l offset :
  live None a m -> streams m !! a = Some s -> on_rto_idx s = RTO_HASH -> 0 <= offset < RTO_HASH ->
  TAILQ_REMOVE (bin (rto_list (rto_store m)) RTO_HASH) a = Some l ->
  streams m' = <[a := s <| on_rto_idx := offset |>]> (streams m) ->
  rto_list (rto_store m') = <[offset := TAILQ_INSERT_TAIL (bin (rto_list (rto_store m)) offset) a]>
    (<[RTO_HASH := l]> (rto_list (rto_store m))) ->
  still_core m' = still_core m -> clock m' = clock m -> rto_list_cnt m' = rto_list_cnt m ->
  timewait_list m' = timewait_list m -> timewait_list_cnt m' = timewait_list_cnt m ->
  stack_inv None m' /\ drops a m m'.
Proof using.
  intros Hm Hs Hidx Hoff Hrm Hst Hl Hcore Hclk Hc1 Hc2 Hc3. pose proof (si_timers _ _ (proj1 Hm)) as Hti.
  pose proof (TAILQ_REMOVE_perm _ _ _ Hrm) as Hp.
  assert (Hb : forall idx, bin (rto_list (rto_store m')) idx =
    if decide (idx = offset) then TAILQ_INSERT_TAIL (bin (rto_list (rto_store m)) offset) a
    else if decide (idx = RTO_HASH) then l else bin (rto_list (rto_store m)) idx).
  { intros idx. by rewrite Hl, !bin_insert. }
  assert (Hex : on_timewait_list s = false).
  { destruct (on_timewait_list s) eqn:E; [|done]. pose proof (ti_excl _ Hti a s Hs E).
    unfold on_rto, RTO_HASH in *. lia. }
  split.
  - apply (live_timers None m m' a s (s <| on_rto_idx := offset |>)); try done.
    apply (timers_move_rto m m' a s _ Hti Hs Hst offset); try done.
    + lia.
    + congruence.
    + intros idx _ -> _. rewrite Hb, decide_True by done. apply insert_tail_perm.
    + intros idx _ Hne ->. by rewrite Hb, decide_False, decide_True, Hidx.
    + intros idx Hd. rewrite Hb, !decide_False; [done|unfold RTO_HASH in *; lia..].
    + rewrite Hc1. unfold on_rto. rewrite (proj2 (Z.leb_le 0 offset)), (proj2 (Z.leb_le 0 (on_rto_idx s))); unfold RTO_HASH in *; lia.
  - split; [|done]. apply (mv_others [LRto]). unfold still_core, senders_core, timeout_core in Hcore.
    eapply moves_intro; [done|done|done|off_lane| |congruence|clock_side].
    intros [k i|idx| |]; cbn; [left|right|left; done|left; congruence].
    + assert (sender_lookup m' i = sender_lookup m i) as -> by (destruct i; cbn; congruence). done.
    + split; [by constructor|]. rewrite Hb. case_decide; [subst; apply strip_insert_tail|].
      case_decide; [|done]. subst. by apply strip_remove.
Qed.

Lemma RearrangeRTOStore_loop_ok walk : forall m, stack_inv None m -> NoDup walk ->
  (forall a, a ∈ walk -> a ∈ list_at (PRto RTO_HASH) m) ->
  wpe benign (RearrangeRTOStore_loop walk) (fun _ m' => stack_inv None m' /\ clock m' = clock m) m.
Proof using.
  induction walk as [|a walk IH]; intros m Hi Hnd Hin; [done|]. cbn [RearrangeRTOStore_loop].
  apply list.NoDup_cons in Hnd as [Hna Hnd].
  destruct (slot_member m RTO_HASH a Hi (Hin a ltac:(set_solver))) as (s & Hs & Hm & _ & Hidx & Hrm).
  rewrite wpe_bind. eapply stream_at_live; [done|]. intros t Ht. assert (t = s) as -> by congruence. clear Ht.
  rewrite wpe_bind, wpe_get. cbv zeta. rewrite wpe_bind, wpe_when.
  destruct (_ <? RTO_HASH); [|by apply IH; [| |set_solver]].
  rewrite wpe_bind, wpe_unwrap, Hrm. unfold set_rto_list. rewrite wpe_bind, wpe_modify, wpe_bind.
  unfold stream_mod, stream_at, stream_set. rewrite !wpe_bind, wpe_get, wpe_unwrap. cbv beta.
  match goal with |- context [streams ?x !! a] => change (streams x) with (streams m) end.
  rewrite Hs, wpe_modify, wpe_bind, wpe_get, wpe_modify.
  match goal with |- context [u32 ?x mod RTO_HASH] => set (offset := u32 x mod RTO_HASH) end.
  assert (Hoff : 0 <= offset < RTO_HASH) by (apply Z.mod_pos_bound; unfold RTO_HASH; lia).
  match goal with |- wpe _ _ _ ?x => set (m1 := x) end.
  destruct (rearrange_live a m m1 s _ offset Hm Hs Hidx Hoff Hrm) as [Hi1 [Ho1 Hc1]]; try done.
  { change (rto_list (rto_store m1)) with (<[offset := TAILQ_INSERT_TAIL (bin (<[RTO_HASH := strip a (list_at (PRto RTO_HASH) m)]>
      (rto_list (rto_store m))) offset) a]> (<[RTO_HASH := strip a (list_at (PRto RTO_HASH) m)]> (rto_list (rto_store m)))).
    by rewrite bin_insert, decide_False by lia. }
  eapply wpe_mono; [apply IH; [done|done|]|].
  - intros b Hb. assert (Hne : b <> a) by (intros ->; done).
    assert (Hb1 : b ∈ strip a (list_at (PRto RTO_HASH) m1)).
    { rewrite (ot_list _ _ _ Ho1). unfold strip. rewrite list_elem_of_filter. set_solver. }
    unfold strip in Hb1. rewrite list_elem_of_filter in Hb1. naive_solver.
  - intros r m2 [Hi2 Hc2]. split; [done|congruence].
Qed.

Lemma RearrangeRTOStore_ok m : stack_inv None m ->
  wpe benign RearrangeRTOStore (fun _ m' => stack_inv None m' /\ clock m' = clock m) m.
Proof using.
  intros Hi. unfold RearrangeRTOStore. rewrite wpe_bind, wpe_get.
  apply RearrangeRTOStore_loop_ok; [done|apply (list_at_nodup (PRto RTO_HASH) m Hi)|done].
Qed.

(** ** The clock *)

Lemma i32_tick now ts : 0 <= i32 (u32 (now - ts)) ->
  i32 (u32 (now - u32 (ts + 1))) = i32 (u32 (now - ts)) - 1.
Proof using.
  rewrite u32_sub_r, !i32_u32. unfold i32. intros Hp. Z.div_mod_to_equations. lia.
Qed.

Definition ticks_left (cur_ts : Z) (m : mtcp_manager) : Z := i32 (u32 (cur_ts - rto_now_ts (rto_store m))).

Lemma rto_clock_loop_ok ts thresh fuel : forall n m,
  stack_inv None m -> ticks_left ts m + 1 <= Z.of_nat fuel ->
  wpe benign (rto_clock_loop fuel ts thresh n) (fun _ m' => stack_inv None m') m.
Proof using.
  induction fuel as [|fuel IH]; intros n m Hi Hf; cbn [rto_clock_loop]; rewrite wpe_bind, wpe_get; cbv zeta;
    fold (ticks_left ts m); destruct (Z.ltb_spec (ticks_left ts m) 0) as [Hlt|Hge]; try done; [lia|].
  rewrite wpe_bind. eapply wpe_mono; [apply rto_slot_loop_ok; [done|apply tail_start]|].
  intros r m1 [Hi1 Hc1]. destruct (thresh <? r); [done|]. rewrite wpe_bind, wpe_modify.
  match goal with |- wpe _ _ _ ?x => set (m2 := x) end.
  assert (Hi2 : stack_inv None m2) by by apply stack_inv_clock.
  assert (Ht : ticks_left ts m2 = ticks_left ts m - 1).
  { unfold ticks_left in *. change (rto_now_ts (rto_store m2)) with (u32 (rto_now_ts (rto_store m1) + 1)).
    unfold clock in Hc1. injection Hc1 as _ ->. by apply i32_tick. }
  rewrite wpe_bind, wpe_get, wpe_bind.
  apply (wpe_mono _ _ (fun _ m3 => stack_inv None m3 /\ clock m3 = clock m2)).
  { rewrite wpe_when. case (_ =? 0); [|done]. by apply RearrangeRTOStore_ok. }
  intros _ m3 [Hi3 Hc3]. apply IH; [done|]. unfold clock in Hc3. injection Hc3 as _ Hts.
  assert (ticks_left ts m3 = ticks_left ts m2) by (unfold ticks_left; by rewrite Hts). lia.
Qed.

Lemma CheckRtmTimeout_inv ts thresh m : stack_inv None m ->
  wpe benign (CheckRtmTimeout ts thresh) (fun _ m' => stack_inv None m') m.
Proof using.
  intros Hi. unfold CheckRtmTimeout. rewrite wpe_bind, wpe_get. case (_ =? 0); [done|].
  apply rto_clock_loop_ok; [done|]. unfold ticks_left. lia.
Qed.

(** ** Time wait *)

Lemma timewait_loop_ok ts thresh fuel : forall walk n m,
  stack_inv None m -> tail_from (list_at PTimewait m) walk fuel ->
  wpe benign (timewait_loop fuel ts thresh walk n) (fun _ m' => stack_inv None m') m.
Proof using.
  induction fuel as [|fuel IH]; intros [a|] n m Hi Ht; try done;
    pose proof (list_at_nodup PTimewait m Hi) as Hn;
    destruct (tail_step _ _ _ Hn Ht) as (n' & E & Hstay & Hnext); [done|].
  injection E as <-. cbn [timewait_loop]. destruct (thresh <? n + 1); [done|].
  pose proof (tail_elem _ _ _ Ht) as Ha.
  destruct (proj1 (tr_elem _ _ _ (ti_tw _ (si_timers _ _ Hi)) a) Ha) as (s & Hs & Htw).
  assert (Hm : live None a m) by (split; [done|by exists s]).
  rewrite wpe_bind, wpe_get, wpe_bind. eapply stream_at_live; [done|]. intros t Ht1.
  assert (t = s) as -> by congruence. rewrite Htw. destruct (_ <? 0); [done|].
  rewrite wpe_bind, wpe_when. destruct (negb _); [|by apply IH].
  destruct (TAILQ_REMOVE_elem _ _ Ha) as [l Hl]. pose proof Hl as Hrm. cbn in Hl. rewrite wpe_bind, wpe_unwrap, Hl.
  rewrite wpe_bind, wpe_modify, wpe_bind. unfold stream_mod, stream_at, stream_set.
  rewrite !wpe_bind, wpe_get, wpe_unwrap. cbv beta.
  match goal with |- context [streams ?x !! a] => change (streams x) with (streams m) end.
  rewrite Hs, wpe_modify. pose proof (tw_leave_live a m s l Hm Hs Htw Hl) as Hlv.
  set (m1 := upd timewait_list_cnt _ _) in Hlv.
  match goal with |- wpe _ _ _ ?x => change x with m1 end.
  destruct Hlv as (Hm1 & [Ho1 _] & s0 & s1 & _ & Hs1 & _ & Hoff).
  eapply wpe_mono; [apply (ltac:(ends) : ends [] a (close_with TCP_ST_CLOSED TCP_ACTIVE_CLOSE a;; DestroyTCPStream a)); exact Hm1|].
  intros r m2 Hf. apply IH; [exact (fate_inv _ _ _ _ Hf)|].
  assert (Hni : a ∉ list_at PTimewait m1).
  { intros Hin. apply (ti_tw _ (si_timers _ _ (proj1 Hm1))) in Hin as (u & Hu & Etw). congruence. }
  rewrite (fate_list _ PTimewait _ _ _ Hf), (others_strip PTimewait a m m1); [done|done|done|set_solver|done].
Qed.

Lemma CheckTimewaitExpire_inv ts thresh m : stack_inv None m ->
  wpe benign (CheckTimewaitExpire ts thresh) (fun _ m' => stack_inv None m') m.
Proof using.
  intros Hi. unfold CheckTimewaitExpire. rewrite wpe_bind, wpe_get.
  apply timewait_loop_ok; [done|apply tail_start].
Qed.

(** ** Connection timeout *)

Lemma timeout_loop_ok ts thresh fuel : forall walk n m,
  stack_inv None m -> tail_from (list_at PTimeout m) walk fuel ->
  wpe benign (timeout_loop fuel ts thresh walk n) (fun _ m' => stack_inv None m') m.
Proof using.
  induction fuel as [|fuel IH]; intros [a|] n m Hi Ht; try done;
    pose proof (list_at_nodup PTimeout m Hi) as Hn;
    destruct (tail_step _ _ _ Hn Ht) as (n' & E & _ & Hnext); [done|].
  injection E as <-. cbn [timeout_loop]. destruct (thresh <? n + 1); [done|].
  pose proof (tail_elem _ _ _ Ht) as Ha.
  destruct (proj1 (tr_elem _ _ _ (to_list _ (si_timeout _ _ Hi)) a) Ha) as (s & Hs & Hto).
  assert (Hm : live None a m) by (split; [done|by exists s]).
  rewrite wpe_bind, wpe_get, wpe_bind. eapply stream_at_live; [done|]. intros t Ht1.
  assert (t = s) as -> by congruence. destruct (_ <=? _); [|done].
  rewrite wpe_bind. eapply stream_mod_live; [done|]. intros t Ht2. assert (t = s) as -> by congruence.
  destruct (TAILQ_REMOVE_elem _ _ Ha) as [l Hl]. pose proof Hl as Hrm. cbn in Hl. rewrite wpe_bind, wpe_unwrap, Hl.
  rewrite wpe_bind, wpe_modify. pose proof (timeout_leave_live a m s l Hm Hs Hto Hl) as Hlv.
  set (m1 := upd timeout_list_cnt _ _) in Hlv.
  match goal with |- wpe _ _ _ ?x => change x with m1 end.
  destruct Hlv as (Hm1 & [Ho1 _] & s0 & s1 & _ & Hs1 & _ & Hoff).
  rewrite wpe_bind. eapply wpe_mono; [by apply (touches_close_with [])|]. intros u m2 [Hm2 Hv2].
  rewrite wpe_bind. eapply wpe_mono; [by apply (ends_abandon [])|].
  intros r m3 Hf. apply IH; [exact (fate_inv _ _ _ _ Hf)|].
  assert (Hni : a ∉ list_at PTimeout m1).
  { intros Hin. apply (to_list _ (si_timeout _ _ (proj1 Hm1))) in Hin as (w & Hw & Etw). congruence. }
  rewrite (fate_list _ PTimeout _ _ _ (moves_fate _ _ _ _ _ Hv2 Hf)), (others_strip PTimeout a m m1); [done|done|done|set_solver|done].
Qed.

Lemma CheckConnectionTimeout_inv ts thresh m : stack_inv None m ->
  wpe benign (CheckConnectionTimeout ts thresh) (fun _ m' => stack_inv None m') m.
Proof using.
  intros Hi. unfold CheckConnectionTimeout. rewrite wpe_bind, wpe_get.
  apply timeout_loop_ok; [done|apply tail_start].
Qed.

End TimerSafe.

#[export] Hint Resolve touches_close_with : stab.
#[export] Hint Resolve ends_abandon : ends.
