(* ===== verification/StateMachine.v ===== *)
(** * The states a connection goes through

    What one segment does to the state of a stream, as a table, and that the handlers of
    [tcp_in.c] stay within it. *)

From S2P Require Import Prelude SeqArith Bytes Queues MemPool SendBuffer RingBuffer AddrPool Mtcp TcpUtil Output Events Fhash Lists TcpStream TcpOut TcpIn Frame.

(** ** Code that changes states to some only *)

(** Every stream is in the state it was in, or in one of [S]. *)
Definition walks (S : list tcp_state) (m m' : mtcp_manager) : Prop :=
  forall a s', streams m' !! a = Some s' ->
    (exists s, streams m !! a = Some s /\ state s' = state s) \/ state s' ∈ S.

#[export] Instance walks_preorder S : PreOrder (walks S).
Proof.
  split.
  - intros m a s Hs. left. by exists s.
  - intros m1 m2 m3 H1 H2 a s3 Hs3. destruct (H2 a s3 Hs3) as [(s2 & Hs2 & E2)|]; [|by right].
    rewrite E2. by apply H1.
Qed.

Notation strides S f := (stable (fun _ => True) (fun _ => True) (walks S) f).

Lemma walks_same S m m' : streams m' = streams m -> walks S m m'.
Proof. intros E a s Hs. left. exists s. by rewrite <- E. Qed.

Lemma strides_modify S g : (forall m, streams (g m) = streams m) -> strides S (modify g).
Proof. intros Hg. apply stable_modify. intros m _. split; [done|by apply walks_same]. Qed.

Lemma strides_zoom {T A} S (proj : mtcp_manager -> T) `{!Setter proj} (op : M T A) :
  (forall m t, streams (upd proj (fun _ => t) m) = streams m) -> strides S (zoom proj op).
Proof.
  intros Hp m _. unfold wpe, zoom. destruct (op (proj m)); [|done]. split; [done|by apply walks_same].
Qed.

(** Writing a stream that was just read. *)
Lemma walks_set S m a s s' : streams m !! a = Some s -> state s' = state s \/ state s' ∈ S ->
  walks S m (m <| streams ::= insert a s' |>).
Proof.
  intros Hs Hd b t Hb. change (<[a := s']> (streams m) !! b = Some t) in Hb.
  destruct (decide (a = b)) as [<-|Hn].
  - rewrite lookup_insert_eq in Hb. injection Hb as <-. destruct Hd; [left; eauto|by right].
  - rewrite lookup_insert_ne in Hb by done. left. eauto.
Qed.

Lemma strides_stream_mod S a g : (forall s, state (g s) = state s \/ state (g s) ∈ S) ->
  strides S (stream_mod a g).
Proof.
  intros Hg m _. unfold stream_mod, stream_at, stream_set. rewrite !wpe_bind, wpe_get, wpe_unwrap.
  destruct (streams m !! a) as [s|] eqn:E; [|done]. rewrite wpe_modify. split; [done|]. by eapply walks_set.
Qed.

Lemma strides_stream_run {A} S a (op : M tcp_stream A) :
  stable (fun _ => True) (fun _ => True) (fun s s' => state s' = state s) op -> strides S (stream_run a op).
Proof.
  intros Hop m _. unfold stream_run, stream_at, stream_set. rewrite !wpe_bind, wpe_get, wpe_unwrap.
  destruct (streams m !! a) as [s|] eqn:E; [|done]. specialize (Hop s I). unfold wpe in Hop.
  destruct (op s) as [r s'|e]; [|done]. rewrite wpe_bind, wpe_modify, wpe_ret. split; [done|].
  eapply walks_set; [done|]. left. apply Hop.
Qed.

Lemma strides_delete S a : strides S (modify (fun m => m <| streams ::= delete a |>)).
Proof.
  apply stable_modify. intros m _. split; [done|]. intros b t Hb.
  change (delete a (streams m) !! b = Some t) in Hb. apply lookup_delete_Some in Hb as [_ Hb]. left. eauto.
Qed.

Create HintDb strides.
#[export] Hint Resolve strides_delete : strides.

(** The states of a concrete list. *)
Ltac listed := repeat first [assumption | apply list_elem_of_here | apply list_elem_of_further].

#[export] Hint Extern 1 (_ ∈ _) => solve [listed] : strides.

(** The hints of [endings] come before the structure of the code. *)
Create HintDb endings.

Ltac strides_ending :=
  match goal with
  | |- stable _ _ _ (mbind _ (stream_mod _ _)) => solve [eauto 2 with endings nocore]
  end.

Ltac strides_leaf :=
  match goal with
  | |- stable _ _ _ (stream_mod _ _) =>
      apply strides_stream_mod; intros ?; first [left; reflexivity | right; cbn; solve [listed]]
  | |- stable _ _ _ (modify _) => first [apply strides_delete | apply strides_modify; intros ?;
      first [reflexivity | unfold sender_update; case_match; reflexivity]]
  | |- stable _ _ _ (zoom _ _) => apply strides_zoom; intros ? ?; reflexivity
  | |- _ => solve [eauto 3 with strides nocore]
  end.

Ltac strides := repeat descend ltac:(idtac; strides_ending) ltac:(idtac; strides_leaf) ltac:(exact I).

Section StateMachine.
Context `{Platform}.

Lemma state_ParseTCPOptions mem len ts :
  stable (fun _ => True) (fun _ => True) (fun s s' : tcp_stream => state s' = state s) (ParseTCPOptions mem len ts).
Proof using.
  assert (PreOrder (fun s s' : tcp_stream => state s' = state s)) by (split; [done|intros x y z; congruence]).
  unfold ParseTCPOptions. generalize 0 as i. generalize (Z.to_nat len) as n.
  induction n as [|n IH]; intros i; cbn [ParseTCPOptions_loop]; unfold ParseTCPOptions_opt, opt_u32, opt_byte;
    stab; auto; try (apply stable_modify; intros s _; by split).
Qed.

Lemma strides_ParseTCPOptions S a mem len ts : strides S (stream_run a (ParseTCPOptions mem len ts)).
Proof using. apply strides_stream_run, state_ParseTCPOptions. Qed.

Lemma strides_ParseTCPTimestamp S mem len : strides S (ParseTCPTimestamp mem len).
Proof using.
  unfold ParseTCPTimestamp. generalize 0 as i. generalize (Z.to_nat len) as n.
  induction n as [|n IH]; intros i; cbn [ParseTCPTimestamp_loop]; strides.
Qed.

Lemma strides_EnqueueACK S a o : strides S (EnqueueACK a o).
Proof using. strides. Qed.

Lemma strides_AddtoControlList S a : strides S (AddtoControlList a).
Proof using. strides. Qed.

Lemma strides_UpdateRetransmissionTimer S a ts : strides S (UpdateRetransmissionTimer a ts).
Proof using. strides. Qed.

Lemma strides_DestroyTCPStream S a : strides S (DestroyTCPStream a).
Proof using. strides. Qed.

Hint Resolve strides_ParseTCPOptions strides_ParseTCPTimestamp strides_EnqueueACK strides_AddtoControlList
  strides_UpdateRetransmissionTimer strides_DestroyTCPStream : strides.

(** ** The end of a stream *)

Lemma wpe_then {A B} (f : MT A) (k : A -> MT B) Q m :
  (forall r m', wpe (fun _ => True) (k r) Q m') -> wpe (fun _ => True) (mbind k f) Q m.
Proof using. intros Hk. rewrite wpe_bind. unfold wpe at 1. by destruct (f m). Qed.

Lemma DestroyTCPStream_absent a m : wpe (fun _ => True) (DestroyTCPStream a) (fun _ m' => streams m' !! a = None) m.
Proof using.
  unfold DestroyTCPStream, unlink_stream. apply wpe_then. intros s m1. do 6 (apply wpe_then; intros _ ?).
  rewrite wpe_bind. unfold free_stream. apply wpe_then. intros _ m2. rewrite wpe_modify.
  assert (Hn : streams (m2 <| streams ::= delete a |>) !! a = None) by apply lookup_delete_eq.
  revert Hn. generalize (m2 <| streams ::= delete a |>) as m3. intros m3 Hn.
  assert (Hf : frames streams (whenM (is_bound_addr s) (free_bound_addr (SockaddrIn (saddr s) (sport s))))) by frames.
  eapply wpe_mono; [by apply Hf|]. cbn beta. intros _ m4 [_ ->]. done.
Qed.

(** The state a stream is destroyed in does not show. *)
Lemma DestroyTCPStream_strides S a g m : wpe (fun _ => True) (stream_mod a g;; DestroyTCPStream a)
  (fun _ m' => True /\ walks S m m') m.
Proof using.
  rewrite wpe_bind. unfold stream_mod, stream_at, stream_set. rewrite !wpe_bind, wpe_get, wpe_unwrap.
  destruct (streams m !! a) as [s|] eqn:E; [|done]. rewrite wpe_modify.
  set (m1 := upd streams _ m). pose proof (DestroyTCPStream_absent a m1) as Hg.
  pose proof (strides_DestroyTCPStream S a m1 I) as Hw. unfold wpe in *.
  destruct (DestroyTCPStream a m1) as [u m2|]; [|done]. split; [done|]. destruct Hw as [_ Hw].
  intros b t Hb. destruct (Hw b t Hb) as [(t1 & Ht1 & Es)|]; [|by right]. left. exists t1. split; [|done].
  change (<[a := g s]> (streams m) !! b = Some t1) in Ht1. rewrite lookup_insert_ne in Ht1; [done|].
  intros ->. congruence.
Qed.

Lemma strides_end S a g : strides S (stream_mod a g;; DestroyTCPStream a).
Proof using. intros m _. apply DestroyTCPStream_strides. Qed.

Lemma strides_end_ret {A} S a g (r : A) : strides S (stream_mod a g;; DestroyTCPStream a;; mret r).
Proof using.
  intros m _. pose proof (DestroyTCPStream_strides S a g m) as Hd. rewrite wpe_bind in *.
  eapply wpe_mono; [exact Hd|]. intros u m1 H1. rewrite wpe_bind. eapply wpe_mono; [exact H1|]. done.
Qed.

Hint Resolve strides_end strides_end_ret : endings.

(** ** The handlers *)

Lemma strides_HandleActiveOpen S a ts p : strides S (HandleActiveOpen a ts p).
Proof using. strides. Qed.

Lemma strides_EstimateRTT S a r : strides S (stream_mod a (EstimateRTT r)).
Proof using.
  apply strides_stream_mod. intros s. left. unfold EstimateRTT. cbv zeta. by destruct (negb _).
Qed.

Hint Resolve strides_EstimateRTT : strides.

Lemma strides_ProcessACK S a ts p : strides S (ProcessACK a ts p).
Proof using. strides. Qed.

Hint Resolve strides_HandleActiveOpen strides_ProcessACK : strides.

(** Without memory for its buffer the stream is closed. *)
Lemma strides_take_payload S a ts p : TCP_ST_CLOSED ∈ S -> strides S (take_payload a ts p).
Proof using. intros HS. strides. Qed.

Lemma strides_take_ack S a ts p : strides S (take_ack a ts p).
Proof using. strides. Qed.

Hint Resolve strides_take_payload strides_take_ack : strides.

Lemma strides_Handle_TCP_ST_ESTABLISHED S a ts p : TCP_ST_CLOSED ∈ S -> TCP_ST_CLOSE_WAIT ∈ S ->
  strides S (Handle_TCP_ST_ESTABLISHED a ts p).
Proof using. intros H1 H2. strides. Qed.

Hint Resolve strides_Handle_TCP_ST_ESTABLISHED : strides.

(** Where one segment may take a connection. *)
Definition segment_next (st : tcp_state) : list tcp_state :=
  match st with
  | TCP_ST_CLOSED => []
  | TCP_ST_LISTEN => [TCP_ST_SYN_RCVD]
  | TCP_ST_SYN_SENT => [TCP_ST_ESTABLISHED; TCP_ST_SYN_RCVD; TCP_ST_CLOSE_WAIT]
  | TCP_ST_SYN_RCVD => [TCP_ST_SYN_RCVD; TCP_ST_ESTABLISHED; TCP_ST_CLOSE_WAIT; TCP_ST_CLOSED]
  | TCP_ST_ESTABLISHED => [TCP_ST_CLOSE_WAIT; TCP_ST_CLOSED]
  | TCP_ST_FIN_WAIT_1 => [TCP_ST_FIN_WAIT_2; TCP_ST_CLOSING; TCP_ST_TIME_WAIT; TCP_ST_CLOSED]
  | TCP_ST_FIN_WAIT_2 => [TCP_ST_TIME_WAIT; TCP_ST_CLOSED]
  | TCP_ST_CLOSE_WAIT => [TCP_ST_CLOSE_WAIT]
  | TCP_ST_CLOSING => [TCP_ST_TIME_WAIT]
  | TCP_ST_LAST_ACK => []
  | TCP_ST_TIME_WAIT => []
  end.

Lemma strides_listener_walk S port l : strides S (listener_walk l port).
Proof using. induction l as [|x l IH]; cbn [listener_walk]; strides. Qed.

Hint Resolve strides_listener_walk : strides.

Lemma strides_ValidateSequence S a ts p : strides S (ValidateSequence a ts p).
Proof using. strides. Qed.

Hint Resolve strides_ValidateSequence : strides.

Lemma strides_run {A} S (f : MT A) m :
  strides S f -> wpe (fun _ => True) f (fun _ m' => walks S m m') m.
Proof using. intros Hf. eapply wpe_mono; [by apply Hf|]. by intros ? ? [_ Hw]. Qed.

Definition in_state (a : Z) (st : tcp_state) (m : mtcp_manager) : Prop :=
  forall s, streams m !! a = Some s -> state s = st.

(** Resets: a stream that is being closed is destroyed, another one is closed by its peer. *)
Lemma ProcessRST_walks a p m st : in_state a st m ->
  wpe (fun _ => True) (ProcessRST a p) (fun _ m' => walks (segment_next st) m m') m.
Proof using.
  intros Hst. unfold ProcessRST, stream_at. rewrite !wpe_bind, wpe_get, wpe_unwrap.
  destruct (streams m !! a) as [s|] eqn:Hs; [|done]. rewrite (Hst s Hs). clear Hst Hs.
  destruct st; cbn [st_num segment_next]; apply strides_run; repeat case_match; strides;
    vm_compute in *; try discriminate.
Qed.

Lemma dispatch_walks a ts p m st : in_state a st m ->
  wpe (fun _ => True) (dispatch a ts p) (fun _ m' => walks (segment_next st) m m') m.
Proof using.
  intros Hst. unfold dispatch, stream_at. rewrite !wpe_bind, wpe_get, wpe_unwrap.
  destruct (streams m !! a) as [s|] eqn:Hs; [|done]. rewrite (Hst s Hs). clear Hst Hs.
  destruct st; cbn [segment_next]; apply strides_run; strides.
Qed.

Lemma ProcessRST_answer a p m :
  wpe (fun _ => True) (ProcessRST a p) (fun stop m' => stop = true \/ m' = m) m.
Proof using.
  unfold ProcessRST, stream_at. rewrite !wpe_bind, wpe_get, wpe_unwrap.
  destruct (streams m !! a) as [s|]; [|done].
  destruct (st_num _ <=? _); [by right|]. destruct (st_in _ _); [apply wpe_then; by left|].
  destruct (st_in _ _); [do 2 (apply wpe_then; intros _ ?); by left|]. apply wpe_then. by left.
Qed.

(** ** Segments *)

Lemma walks_nil S m m' : walks [] m m' -> walks S m m'.
Proof using. intros Hw a s' Hs. destruct (Hw a s' Hs) as [?|[]%not_elem_of_nil]. by left. Qed.

Lemma walks_in_state m m' a st : walks [] m m' -> in_state a st m -> in_state a st m'.
Proof using.
  intros Hw Hst s' Hs'. destruct (Hw a s' Hs') as [(t & Ht & E)|[]%not_elem_of_nil]. rewrite E. auto.
Qed.

(** Code before the state changes. *)
Lemma wpe_prelude {A B} (f : MT A) (k : A -> MT B) Q m0 m : walks [] m0 m -> strides [] f ->
  (forall r m', walks [] m0 m' -> wpe (fun _ => True) (k r) Q m') -> wpe (fun _ => True) (mbind k f) Q m.
Proof using.
  intros H0 Hf Hk. rewrite wpe_bind. eapply wpe_mono; [by apply Hf|]. intros r m' [_ Hw]. apply Hk.
  by etransitivity.
Qed.

Lemma wpe_both {A} E (f : MT A) (P Q : A -> mtcp_manager -> Prop) m :
  wpe E f P m -> wpe (fun _ => True) f Q m -> wpe E f (fun r m' => P r m' /\ Q r m') m.
Proof using. unfold wpe. destruct (f m); auto. Qed.

Lemma process_stream_walks a ts p m st : in_state a st m ->
  wpe (fun _ => True) (process_stream a ts p) (fun _ m' => walks (segment_next st) m m') m.
Proof using.
  intros Hst. unfold process_stream.
  apply (wpe_prelude _ _ _ m); [reflexivity|strides|]. intros s m1 H1.
  apply (wpe_prelude _ _ _ m); [done|strides|]. intros ok m2 H2.
  rewrite wpe_when. destruct ok; [|by apply walks_nil].
  do 4 (apply (wpe_prelude _ _ _ m); [done|strides|]; clear H2 m2; intros ? m2 H2).
  rewrite wpe_bind. eapply (wpe_mono _ _ (fun stop m' => (stop = true /\ walks (segment_next st) m m') \/ walks [] m m')).
  - destruct (th_rst _); [|by right]. do 2 (apply (wpe_prelude _ _ _ m); [done|strides|]; clear H2 m2; intros ? m2 H2).
    destruct (_ <? _); [|by right].
    eapply wpe_mono; [apply wpe_both; [by eapply ProcessRST_walks, walks_in_state|apply ProcessRST_answer]|].
    intros stop m3 [Hw [->| ->]]; [left|by right]. split; [done|]. etransitivity; [by apply walks_nil|done].
  - intros stop m3 [[-> Hw]|Hw]; [done|]. rewrite wpe_when. destruct (negb stop); [|by apply walks_nil].
    eapply wpe_mono; [by eapply dispatch_walks, walks_in_state|]. intros u m4 H4.
    etransitivity; [by apply walks_nil|done].
Qed.

End StateMachine.
