(* ===== verification/InSafe.v ===== *)
(** * Receiving a segment keeps the invariant

    Every handler of [tcp_in.c] works on one live stream, which it may destroy as its last
    action; a segment that belongs to no stream creates at most one, under its own key. *)

From S2P Require Import Prelude SeqArith Bytes Queues MemPool SendBuffer RingBuffer AddrPool Mtcp TcpUtil Output Events Fhash Lists TcpStream TcpOut TcpIn StackInv ListOps Benign StreamLife OutSafe StateMachine.

(** The key under which the segment is looked up. *)
Notation packet_key p :=
  (FlowKey (iph_daddr (p_iph p)) (iph_saddr (p_iph p)) (dest (p_tcph p)) (source (p_tcph p))).

Section InSafe.
Context `{Platform}.

(** ** Handlers that leave the stream alive *)

Hint Resolve quiet_sndbuf_run touches_rcvbuf_run benign_SBRemove benign_RBPut benign_RBRemove : stab.
Hint Extern 1 (stable _ _ still (zoom _ _)) => (apply quiet_zoom; [solve [auto with stab]|done]) : stab.
Hint Resolve benign_RBInit : stab.

Lemma keeps_paws a ts p : keeps None a (paws a ts p).
Proof using. unfold paws. stab. Qed.

Hint Resolve keeps_paws : stab.

Lemma keeps_ValidateSequence a ts p : keeps None a (ValidateSequence a ts p).
Proof using. unfold ValidateSequence. stab. Qed.

Lemma keeps_update_window a seq ack w : keeps None a (update_window a seq ack w).
Proof using. unfold update_window. stab. Qed.

Lemma keeps_count_dup a ack n e : keeps None a (count_dup a ack n e).
Proof using. unfold count_dup. stab. Qed.

Lemma keeps_fast_retransmit a ack d : keeps None a (fast_retransmit a ack d).
Proof using. unfold fast_retransmit. stab. Qed.

Lemma EstimateRTT_marks r s : marks_of (EstimateRTT r s) = marks_of s.
Proof using. unfold EstimateRTT. cbv zeta. by destruct (negb (srtt (rcvvar s) =? 0)). Qed.

Lemma keeps_EstimateRTT L h a r : touches L h a (stream_mod a (EstimateRTT r)).
Proof using. apply touches_stream_mod. intros s. apply EstimateRTT_marks. Qed.

Lemma quiet_grow_cwnd n v : quiet (grow_cwnd n v).
Proof using. unfold grow_cwnd. stab. Qed.

Hint Resolve keeps_ValidateSequence keeps_update_window keeps_count_dup keeps_fast_retransmit
  keeps_EstimateRTT quiet_grow_cwnd : stab.

Lemma keeps_accept_ack a ts ack n : keeps None a (accept_ack a ts ack n).
Proof using. unfold accept_ack. stab. Qed.

Hint Resolve keeps_accept_ack : stab.

Lemma keeps_ProcessACK a ts p : keeps None a (ProcessACK a ts p).
Proof using. unfold ProcessACK. stab. Qed.

Lemma keeps_rcvbuf_of a : keeps None a (rcvbuf_of a).
Proof using. unfold rcvbuf_of. stab. Qed.

Lemma keeps_ensure_rcvbuf a : keeps None a (ensure_rcvbuf a).
Proof using. unfold ensure_rcvbuf. stab. Qed.

Hint Resolve keeps_ProcessACK keeps_rcvbuf_of keeps_ensure_rcvbuf : stab.

Lemma keeps_ProcessTCPPayload a ts p : keeps None a (ProcessTCPPayload a ts p).
Proof using. unfold ProcessTCPPayload. stab. Qed.

Hint Resolve keeps_ProcessTCPPayload : stab.

Lemma keeps_take_payload a ts p : keeps None a (take_payload a ts p).
Proof using. unfold take_payload. stab. Qed.

Lemma keeps_take_ack a ts p : keeps None a (take_ack a ts p).
Proof using. unfold take_ack. stab. Qed.

Lemma quiet_answer p seq ack fl ts : quiet (answer p seq ack fl ts).
Proof using. unfold answer. stab. Qed.

Lemma quiet_FilterSYNPacket ip port : quiet (FilterSYNPacket ip port).
Proof using. unfold FilterSYNPacket. stab. Qed.

Hint Resolve keeps_take_payload keeps_take_ack quiet_answer quiet_FilterSYNPacket : stab.

Lemma keeps_HandleActiveOpen a ts p : keeps None a (HandleActiveOpen a ts p).
Proof using. unfold HandleActiveOpen. stab. Qed.

Lemma keeps_accept_queue a p : keeps None a (accept_queue a p).
Proof using. unfold accept_queue. stab. eapply only_fault; [|done]. unfold Click.StreamEnqueue. stab. Qed.

Hint Resolve keeps_HandleActiveOpen keeps_accept_queue : stab.

Lemma keeps_LISTEN a p : keeps None a (Handle_TCP_ST_LISTEN a p).
Proof using. unfold Handle_TCP_ST_LISTEN. stab. Qed.

Lemma keeps_SYN_RCVD a p : keeps None a (Handle_TCP_ST_SYN_RCVD a p).
Proof using. unfold Handle_TCP_ST_SYN_RCVD. stab. Qed.

Lemma keeps_ESTABLISHED a ts p : keeps None a (Handle_TCP_ST_ESTABLISHED a ts p).
Proof using. unfold Handle_TCP_ST_ESTABLISHED. stab. Qed.

Lemma keeps_CLOSE_WAIT a ts p : keeps None a (Handle_TCP_ST_CLOSE_WAIT a ts p).
Proof using. unfold Handle_TCP_ST_CLOSE_WAIT. stab. Qed.

Lemma keeps_FIN_WAIT_1 a ts p : keeps None a (Handle_TCP_ST_FIN_WAIT_1 a ts p).
Proof using. unfold Handle_TCP_ST_FIN_WAIT_1. stab. Qed.

Lemma keeps_FIN_WAIT_2 a ts p : keeps None a (Handle_TCP_ST_FIN_WAIT_2 a ts p).
Proof using. unfold Handle_TCP_ST_FIN_WAIT_2. stab. Qed.

Lemma keeps_CLOSING a ts p : keeps None a (Handle_TCP_ST_CLOSING a ts p).
Proof using. unfold Handle_TCP_ST_CLOSING. stab. Qed.

Lemma keeps_TIME_WAIT a ts : keeps None a (Handle_TCP_ST_TIME_WAIT a ts).
Proof using. unfold Handle_TCP_ST_TIME_WAIT. stab. Qed.

Hint Resolve keeps_LISTEN keeps_SYN_RCVD keeps_ESTABLISHED keeps_CLOSE_WAIT keeps_FIN_WAIT_1
  keeps_FIN_WAIT_2 keeps_CLOSING keeps_TIME_WAIT : stab.

(** ** Handlers that may destroy it *)

Lemma ends_SYN_SENT a ts p : ends all_lanes a (Handle_TCP_ST_SYN_SENT a ts p).
Proof using. unfold Handle_TCP_ST_SYN_SENT. ends. Qed.

Lemma ends_LAST_ACK a ts p : ends all_lanes a (Handle_TCP_ST_LAST_ACK a ts p).
Proof using. unfold Handle_TCP_ST_LAST_ACK. ends. Qed.

Hint Resolve ends_SYN_SENT ends_LAST_ACK : ends.

Lemma ends_dispatch a ts p : ends all_lanes a (dispatch a ts p).
Proof using. unfold dispatch. ends. Qed.

(** A segment that is not done with leaves the stream alive. *)
Lemma ProcessRST_ok a p m : live None a m ->
  wpe benign (ProcessRST a p) (fun r m' => if r then fate all_lanes a m m'
    else live None a m' /\ moves all_lanes a m m') m.
Proof using.
  intros Hm. unfold ProcessRST. rewrite wpe_bind. eapply stream_at_live; [done|]. intros s Hs.
  assert (Hk : forall f : MT unit, ends all_lanes a f ->
    wpe benign (f;; mret true) (fun (r : bool) m' => if r then fate all_lanes a m m'
      else live None a m' /\ moves all_lanes a m m') m).
  { intros f Hf. rewrite wpe_bind. eapply wpe_mono; [by apply Hf|]. done. }
  destruct (_ <=? _); [done|]. destruct (st_in (state s) [TCP_ST_SYN_RCVD]); [apply Hk; ends|].
  destruct (st_in _ _); [|apply Hk; ends].
  rewrite wpe_bind. eapply wpe_mono; [apply (touches_stream_mod all_lanes None a); [done|exact Hm]|].
  intros u m1 [Hm1 Hv1]. rewrite wpe_bind. eapply wpe_mono; [by apply (ends_Destroy all_lanes)|].
  intros w m2 Hf. rewrite wpe_ret. by eapply moves_fate.
Qed.

Lemma ends_process_stream a ts p : ends all_lanes a (process_stream a ts p).
Proof using.
  unfold process_stream. apply ends_bind; [solve [stab]|intros s]. apply ends_bind; [solve [stab]|intros ok].
  apply ends_when. apply ends_bind; [solve [stab]|intros s1]. apply ends_bind; [solve [stab]|intros w].
  apply ends_bind; [solve [stab]|intros _]. apply ends_bind; [solve [stab]|intros _].
  intros m Hm. rewrite wpe_bind.
  eapply (wpe_mono _ _ (fun (r : bool) m' => if r then fate all_lanes a m m'
    else live None a m' /\ moves all_lanes a m m')).
  - destruct (th_rst (p_tcph p)); [|by split].
    rewrite wpe_bind. eapply wpe_mono; [apply (touches_stream_mod all_lanes None a); [done|exact Hm]|].
    intros u m1 [Hm1 Hv1]. rewrite wpe_bind. eapply stream_at_live; [done|]. intros s2 Hs2.
    destruct (_ <? _); [|by split]. eapply wpe_mono; [by apply ProcessRST_ok|].
    intros [] m2; [apply moves_fate; exact Hv1|]. intros [Hm2 Hv2]. split; [done|by etransitivity].
  - intros [] m1 Hr; rewrite wpe_when; [exact Hr|]. destruct Hr as [Hm1 Hv1].
    eapply wpe_mono; [by apply ends_dispatch|]. intros u m2. apply moves_fate, Hv1.
Qed.

(** ** The flow table *)

Lemma EqualFlow_spec k1 k2 : EqualFlow k1 k2 = true <-> k1 = k2.
Proof using.
  unfold EqualFlow. destruct k1, k2; cbn. rewrite !andb_true_iff, !Z.eqb_eq. split; [|by intros [= -> -> -> ->]].
  intros [[[-> ->] ->] ->]. done.
Qed.

(** What the lookup of key [k] returns: the stream under this key. *)
Definition found (k : flow_key) (m : mtcp_manager) (o : option Z) : Prop :=
  match o with
  | Some a => exists s, streams m !! a = Some s /\ key_of s = k
  | None => forall b t, streams m !! b = Some t -> key_of t <> k
  end.

Lemma flow_walk_ok k l m : (forall a, a ∈ l -> alive a m) ->
  wpe benign (flow_walk l k) (fun o m' => m' = m /\ match o with
    | Some a => exists s, streams m !! a = Some s /\ key_of s = k
    | None => forall a s, a ∈ l -> streams m !! a = Some s -> key_of s <> k
    end) m.
Proof using.
  induction l as [|a l IH]; intros Hl; cbn [flow_walk].
  - split; [done|]. intros a s Ha. by apply not_elem_of_nil in Ha.
  - destruct (Hl a) as [s Hs]; [by constructor|]. rewrite wpe_bind. unfold stream_at.
    rewrite wpe_bind, wpe_get, wpe_unwrap, Hs. destruct (EqualFlow (key_of s) k) eqn:E.
    + split; [done|]. exists s. split; [done|]. by apply EqualFlow_spec.
    + eapply wpe_mono; [apply IH; intros b Hb; apply Hl; by constructor|].
      intros o m' [-> Ho]. split; [done|]. destruct o as [b|]; [done|]. intros b t Hb Ht Hk.
      apply elem_of_cons in Hb as [->|Hb]; [|by apply (Ho b t)].
      assert (t = s) as -> by congruence. apply EqualFlow_spec in Hk. congruence.
Qed.

Lemma StreamHTSearch_found k m : stack_inv None m ->
  wpe benign (StreamHTSearch k) (fun o m' => m' = m /\ found k m o) m.
Proof using.
  intros Hi. pose proof (tb_flow _ (si_table _ _ Hi) (HashFlow k)) as [_ He]. unfold StreamHTSearch.
  rewrite wpe_bind, wpe_get. eapply wpe_mono; [apply flow_walk_ok|].
  - intros a Ha. apply He in Ha as (s & Hs & _). by exists s.
  - intros o m' [-> Ho]. split; [done|]. destruct o as [a|]; [done|]. intros b t Hb Hk.
    apply (Ho b t); [|done|done]. apply He. exists t. split; [done|]. by f_equal.
Qed.

(** ** New streams *)

(** Stream [a] is new, under key [k], and waits for its first segment. *)
Definition opened (k : flow_key) (m : mtcp_manager) (a : Z) (m' : mtcp_manager) : Prop :=
  live None a m' /\ (forall b, b <> a -> streams m' !! b = streams m !! b) /\ streams m !! a = None /\
  exists s, streams m' !! a = Some s /\ key_of s = k /\ state s = TCP_ST_LISTEN.

Lemma moves_key L a m m' s : moves L a m m' -> streams m !! a = Some s ->
  exists s', streams m' !! a = Some s' /\ key_of s' = key_of s.
Proof using.
  intros Hv Hs. pose proof (mv_table _ _ _ _ Hv) as E. unfold same_at in E. rewrite Hs in E.
  destruct (streams m' !! a) as [s'|]; [|discriminate]. exists s'. split; [done|].
  injection E. unfold key_of. congruence.
Qed.

(** Code on the new stream that keeps its state. *)
Lemma opened_touches {A} k m a m1 (f : MT A) : opened k m a m1 -> touches all_lanes None a f -> strides [] f ->
  wpe benign f (fun _ m' => opened k m a m') m1.
Proof using.
  intros (Hl & Ho & Hn & s & Hs & Hk & Hst) Ht Hf. eapply wpe_mono.
  { apply wpe_both; [by apply Ht|by apply (strides_run [])]. }
  intros r m2 [[Hl2 Hv2] Hw]. destruct (moves_key _ _ _ _ _ Hv2 Hs) as (s2 & Hs2 & Hk2).
  split; [done|]. split.
  { intros b Hb. rewrite (ot_stream _ _ _ (mv_others _ _ _ _ Hv2)) by done. auto. }
  split; [done|]. exists s2. split; [done|]. split; [congruence|].
  apply (walks_in_state _ _ a TCP_ST_LISTEN Hw); [|done]. intros t Ht'. congruence.
Qed.

Lemma HandlePassiveOpen_ok ts p m : stack_inv None m ->
  (forall b t, streams m !! b = Some t -> key_of t <> packet_key p) ->
  wpe benign (HandlePassiveOpen ts p)
    (fun a m' => if a =? 0 then refused m m' else opened (packet_key p) m a m') m.
Proof using.
  intros Hi Hnew. unfold HandlePassiveOpen. rewrite wpe_bind.
  eapply wpe_mono; [by apply CreateTCPStream_created|]. intros a m1 Hc. cbv beta in Hc.
  destruct (a =? 0) eqn:E; [by rewrite wpe_ret|]. destruct Hc as (Hl & Ho & Hn & s & Hs & Hk & Hst & _).
  rewrite wpe_bind. eapply wpe_mono.
  { apply (opened_touches (packet_key p) m a); [|by apply touches_stream_mod|apply strides_stream_mod; by left].
    split; [done|]. split; [apply Ho|]. eauto 6. }
  intros u m2 Hm2. rewrite wpe_bind. eapply wpe_mono.
  { apply (opened_touches (packet_key p) m a); [done|apply touches_ParseTCPOptions|apply strides_ParseTCPOptions]. }
  intros w m3 Hm3. by rewrite wpe_ret, E.
Qed.

Lemma quiet_inv {A} (f : MT A) m : quiet f -> stack_inv None m ->
  wpe benign f (fun _ m' => stack_inv None m' /\ streams m' = streams m) m.
Proof using.
  intros Hf Hi. eapply wpe_mono; [by apply Hf|]. intros r m' [_ Hs]. split; [by eapply still_inv|apply Hs].
Qed.

Lemma CreateNewFlowHTEntry_ok ts p m : stack_inv None m ->
  (forall b t, streams m !! b = Some t -> key_of t <> packet_key p) ->
  wpe benign (CreateNewFlowHTEntry ts p)
    (fun o m' => match o with Some a => opened (packet_key p) m a m' | None => refused m m' end) m.
Proof using.
  intros Hi Hnew. unfold CreateNewFlowHTEntry. cbv zeta.
  assert (Hq : forall (f : MT unit) m1, quiet f -> refused m m1 -> wpe benign (f;; mret None)
    (fun (o : option Z) m' => match o with Some a => opened (packet_key p) m a m' | None => refused m m' end) m1).
  { intros f m1 Hf [Hi1 E1]. rewrite wpe_bind. eapply wpe_mono; [by apply quiet_inv|].
    intros u m2 [? E2]. rewrite wpe_ret. split; [done|congruence]. }
  destruct (_ && _).
  - rewrite wpe_bind. eapply wpe_mono; [apply quiet_inv; [apply quiet_FilterSYNPacket|done]|].
    intros ok m1 [Hi1 E1]. destruct (negb ok); [by apply Hq; [stab|]|]. rewrite wpe_bind.
    eapply wpe_mono; [apply HandlePassiveOpen_ok; [done|by rewrite E1]|]. intros a m2 Ho. cbv beta in Ho.
    unfold refused, opened in Ho. rewrite E1 in Ho. destruct (a =? 0); [by apply Hq; [stab|]|done].
  - destruct (th_rst _); [done|]. apply Hq; [|done]. destruct (th_ack _); stab.
Qed.

Lemma quiet_checksum_ok i p : quiet (checksum_ok i p).
Proof using. unfold checksum_ok, ioctl. stab. Qed.

(** What a segment of connection [k] does to the streams: only the stream under [k] changes,
    and along the table of its states; a new stream has got at most one segment. *)
Definition transitions (k : flow_key) (m m' : mtcp_manager) : Prop :=
  forall b, match streams m !! b, streams m' !! b with
  | Some s, Some s' =>
      if decide (key_of s = k)
      then key_of s' = k /\ (state s' = state s \/ state s' ∈ segment_next (state s)) else s' = s
  | Some s, None => key_of s = k
  | None, Some s' => key_of s' = k /\ state s' ∈ TCP_ST_LISTEN :: segment_next TCP_ST_LISTEN
  | None, None => True
  end.

Lemma transitions_same k m m' : streams m' = streams m -> transitions k m m'.
Proof using.
  intros E b. rewrite E. destruct (streams m !! b) as [s|]; [|done]. destruct (decide _); auto.
Qed.

Lemma fate_transitions k a s m m' : streams m !! a = Some s -> key_of s = k ->
  fate all_lanes a m m' -> walks (segment_next (state s)) m m' -> transitions k m m'.
Proof using.
  intros Hs Hk Hf Hw b. destruct (decide (b = a)) as [->|Hb].
  - rewrite Hs. destruct (streams m' !! a) as [s'|] eqn:Hs'; [|done]. rewrite decide_True by done.
    destruct Hf as [[_ Hv]|[(_ & _ & Hn) _]]; [|congruence].
    destruct (moves_key _ _ _ _ _ Hv Hs) as (t & Ht & Ek). split; [congruence|].
    destruct (Hw a s' Hs') as [(t' & Ht' & E)|]; [left|by right]. congruence.
  - rewrite (ot_stream _ _ _ (fate_others _ _ _ _ Hf)) by done. destruct (streams m !! b) as [t|]; [|done].
    destruct (decide _); auto.
Qed.

Lemma opened_transitions k a m m1 m2 : opened k m a m1 -> transitions k m1 m2 -> transitions k m m2.
Proof using.
  intros (_ & Ho & Hn & s & Hs & Hk & Hst) Ht b. specialize (Ht b). destruct (decide (b = a)) as [->|Hb].
  - rewrite Hn. rewrite Hs in Ht. destruct (streams m2 !! a) as [s2|]; [|done].
    rewrite decide_True, Hst in Ht by done. destruct Ht as [Hk2 Ht]. split; [done|]. apply elem_of_cons. exact Ht.
  - by rewrite <- (Ho b Hb).
Qed.

Lemma process_stream_ok a s ts p m : stack_inv None m -> streams m !! a = Some s -> key_of s = packet_key p ->
  wpe benign (process_stream a ts p) (fun _ m' => stack_inv None m' /\ transitions (packet_key p) m m') m.
Proof using.
  intros Hi Hs Hk. eapply wpe_mono.
  { apply wpe_both; [apply ends_process_stream; split; [done|by exists s]|].
    apply (process_stream_walks a ts p m (state s)). intros t Ht. congruence. }
  intros u m' [Hf Hw]. split; [exact (fate_inv _ _ _ _ Hf)|]. by eapply fate_transitions.
Qed.

Lemma ProcessTCPPacket_ok ts i p m : stack_inv None m ->
  wpe benign (ProcessTCPPacket ts i p) (fun _ m' => stack_inv None m' /\ transitions (packet_key p) m m') m.
Proof using.
  intros Hi. assert (Hsame : forall m1, streams m1 = streams m -> transitions (packet_key p) m m1)
    by (intros; by apply transitions_same).
  unfold ProcessTCPPacket. destruct (_ <? _); [by rewrite wpe_ret; auto|]. rewrite wpe_bind.
  eapply wpe_mono; [apply quiet_inv; [apply quiet_checksum_ok|done]|]. intros ok m1 [Hi1 E1].
  destruct (negb ok); [by rewrite wpe_ret; auto|]. rewrite wpe_bind.
  eapply wpe_mono; [by apply StreamHTSearch_found|]. intros o m2 [-> Ho]. rewrite wpe_bind.
  destruct o as [a|].
  - rewrite wpe_ret, wpe_bind. destruct Ho as (s & Hs & Hk).
    eapply wpe_mono; [by apply (process_stream_ok a s)|]. intros u m2 [Hi2 Ht]. rewrite wpe_ret.
    split; [done|]. intros b. specialize (Ht b). by rewrite E1 in Ht.
  - eapply wpe_mono; [by apply CreateNewFlowHTEntry_ok|]. intros [a|] m2 Hm2; rewrite wpe_bind.
    + unfold opened in Hm2. rewrite E1 in Hm2. pose proof Hm2 as (Hl & _ & _ & s & Hs & Hk & _).
      eapply wpe_mono; [by apply (process_stream_ok a s); [apply Hl|..]|]. intros u m3 [Hi3 Ht].
      rewrite wpe_ret. split; [done|]. by eapply opened_transitions.
    + destruct Hm2 as [Hi2 E2]. rewrite !wpe_ret. split; [done|]. apply Hsame. congruence.
Qed.

Lemma ProcessTCPPacket_inv ts i p m : stack_inv None m ->
  wpe benign (ProcessTCPPacket ts i p) (fun _ m' => stack_inv None m') m.
Proof using. intros Hi. eapply wpe_mono; [by apply ProcessTCPPacket_ok|]. by intros ? ? []. Qed.

End InSafe.
