(* ===== verification/NetSafe.v ===== *)
(** * Safety of network input

    [ProcessPacket] and what it calls, on any frame, keep the invariant of [StackInv.v] and
    neither corrupt a list nor follow a pointer to a freed stream. *)

From S2P Require Import Prelude SeqArith Bytes Queues MemPool SendBuffer RingBuffer AddrPool Mtcp TcpUtil Output Events Fhash Lists TcpStream TcpOut Timer TcpIn NetIn StackInv ListOps Benign StreamLife OutSafe TimerSafe InSafe.

Section NetSafe.
Context `{Platform}.

(** ** Network input *)

Lemma quiet_rd8 mem i : quiet (rd8 mem i).
Proof using. unfold rd8. stab. Qed.

Hint Resolve quiet_rd8 : stab.

Lemma quiet_rd16 mem i : quiet (rd16 mem i).
Proof using. unfold rd16. stab. Qed.

Lemma quiet_rd32 mem i : quiet (rd32 mem i).
Proof using. unfold rd32. stab. Qed.

Lemma quiet_rd_bytes mem i n : quiet (rd_bytes mem i n).
Proof using. unfold rd_bytes. stab. Qed.

Hint Resolve quiet_rd16 quiet_rd32 quiet_rd_bytes : stab.

Lemma quiet_rd_words mem n : forall o, quiet (rd_words mem o n).
Proof using. induction n as [|n IH]; intros o; cbn [rd_words]; stab. Qed.

Lemma quiet_read_iphdr mem o : quiet (read_iphdr mem o).
Proof using. unfold read_iphdr. stab. Qed.

Lemma quiet_read_tcphdr mem o : quiet (read_tcphdr mem o).
Proof using. unfold read_tcphdr. stab. Qed.

Lemma quiet_read_arphdr mem o : quiet (read_arphdr mem o).
Proof using. unfold read_arphdr. stab. Qed.

Lemma quiet_ICMPChecksum mem o n : quiet (ICMPChecksum mem o n).
Proof using. unfold ICMPChecksum. stab. Qed.

Hint Resolve quiet_ICMPChecksum quiet_IPOutputStandalone : stab.

Lemma quiet_frame_icmp f l : quiet (frame_icmp f l).
Proof using. unfold frame_icmp. stab. Qed.

Hint Resolve quiet_frame_icmp : stab.

Lemma quiet_ICMPOutput sa da t c id seq mem o n : quiet (ICMPOutput sa da t c id seq mem o n).
Proof using. unfold ICMPOutput. stab. Qed.

Hint Resolve quiet_ICMPOutput : stab.

Lemma quiet_ProcessICMPPacket mem h o n : quiet (ProcessICMPPacket mem h o n).
Proof using. unfold ProcessICMPPacket, ProcessICMPECHORequest. stab. Qed.

Hint Resolve quiet_rd_words : stab.

Lemma quiet_iph_checksum_ok i mem o h : quiet (iph_checksum_ok i mem o h).
Proof using. unfold iph_checksum_ok, ioctl. stab. Qed.

Lemma inv_quiet {A} (f : MT A) m : quiet f -> stack_inv None m ->
  wpe benign f (fun _ m' => stack_inv None m') m.
Proof using. intros Hf Hi. eapply wpe_mono; [by apply quiet_inv|]. by intros r m' [? _]. Qed.

Lemma ProcessIPv4Packet_inv ts i mem m : stack_inv None m ->
  wpe benign (ProcessIPv4Packet ts i mem) (fun _ m' => stack_inv None m') m.
Proof using.
  intros Hi. unfold ProcessIPv4Packet. cbv zeta. rewrite wpe_bind.
  eapply wpe_mono; [by apply inv_quiet; [apply quiet_read_iphdr|]|]. intros h m1 Hi1.
  destruct (_ <? _); [done|]. rewrite wpe_bind.
  eapply wpe_mono; [by apply inv_quiet; [apply quiet_iph_checksum_ok|]|]. intros ok m2 Hi2.
  destruct (negb ok); [done|]. destruct (negb _); [done|]. destruct (_ =? _).
  - rewrite wpe_bind. eapply wpe_mono; [by apply inv_quiet; [apply quiet_read_tcphdr|]|].
    intros th m3 Hi3. by apply ProcessTCPPacket_inv.
  - destruct (_ =? _); [|done]. apply inv_quiet; [apply quiet_ProcessICMPPacket|done].
Qed.

Lemma ProcessPacket_inv i ts mem m : stack_inv None m ->
  wpe benign (ProcessPacket i ts mem) (fun _ m' => stack_inv None m') m.
Proof using.
  intros Hi. unfold ProcessPacket. rewrite wpe_bind.
  eapply wpe_mono; [by apply inv_quiet; [apply quiet_rd16|]|]. intros p m1 Hi1.
  destruct (_ =? _); [by apply ProcessIPv4Packet_inv|]. destruct (_ =? _); [|done].
  apply inv_quiet; [|done]. apply stable_bind; [typeclasses eauto|apply quiet_read_arphdr|intros h].
  apply stable_bind; [typeclasses eauto|apply quiet_ProcessARPPacket|intros b]. stab.
Qed.

End NetSafe.
