(* ===== verification/CoreSafe.v ===== *)
(** * Safety of the main loop

    The queues of the application hold streams that are alive, and no stream is handed
    over twice to be ended: under this condition [HandleApplicationCalls] keeps the
    invariant of [StackInv.v], empties the queues and neither corrupts a list nor follows
    a pointer to a freed stream.  The initial state satisfies both invariants. *)

From S2P Require Import Prelude SeqArith Queues MemPool SendBuffer RingBuffer Reassembly AddrPool Mtcp TcpUtil Output Events Fhash Lists TcpStream TcpOut Timer TcpIn NetIn Core Frame StackInv ListOps Benign StreamLife OutSafe TimerSafe InSafe NetSafe.

(** ** The streams that are handed over *)

(** The queues of the application. *)
Inductive app_queue := QConnect | QSend | QAck | QClose | QReset | QDestroy.

#[export] Instance app_queue_eq_dec : EqDecision app_queue.
Proof. solve_decision. Defined.

Definition ext (x : app_queue) : mtcp_manager -> Click.click_queue :=
  match x with
  | QConnect => connectq | QSend => sendq | QAck => ackq
  | QClose => closeq | QReset => resetq | QDestroy => destroyq
  end.

(** Streams that are handed over to be ended, and those that are handed over at all. *)
Definition enders (m : mtcp_manager) : list Z :=
  fifo_view (closeq m) ++ fifo_view (closeq_int m) ++ fifo_view (resetq m)
  ++ fifo_view (resetq_int m) ++ fifo_view (destroyq m).

Definition users (m : mtcp_manager) : list Z :=
  fifo_view (connectq m) ++ fifo_view (sendq m) ++ fifo_view (ackq m).

Definition handed (m : mtcp_manager) : list Z := users m ++ enders m.

(** The queues are well formed and no stream is to be ended twice. *)
Record queues_wf (m : mtcp_manager) : Prop := {
  qw_ext : forall x, fifo_inv (ext x m);
  qw_close_int : fifo_inv (closeq_int m);
  qw_reset_int : fifo_inv (resetq_int m);
  qw_once : NoDup (enders m)
}.

Definition app_inv (m : mtcp_manager) : Prop :=
  queues_wf m /\ forall a, a ∈ handed m -> alive a m.

(** *** The invariants depend on the queues and on the streams *)

Lemma app_queues_ext m m' x : app_queues m' = app_queues m -> ext x m' = ext x m.
Proof. unfold app_queues. intros [= ]. by destruct x. Qed.

Lemma app_queues_handed m m' : app_queues m' = app_queues m ->
  enders m' = enders m /\ users m' = users m /\ handed m' = handed m.
Proof. unfold app_queues, handed, enders, users. intros [= -> -> -> -> -> -> -> ->]. done. Qed.

Lemma queues_wf_same m m' : app_queues m' = app_queues m -> queues_wf m -> queues_wf m'.
Proof.
  intros Hq [H1 H2 H3 H4]. destruct (app_queues_handed _ _ Hq) as (E & _ & _). split.
  - intros x. by rewrite (app_queues_ext _ _ x Hq).
  - unfold app_queues in Hq. injection Hq as _ _ _ _ _ _ -> _. done.
  - unfold app_queues in Hq. injection Hq as _ _ _ _ _ _ _ ->. done.
  - by rewrite E.
Qed.

(** The streams other than [a] stay alive. *)
Lemma others_alive a b m m' : others a m m' -> b <> a -> alive b m -> alive b m'.
Proof. intros Ho Hb [s Hs]. exists s. by rewrite (ot_stream _ _ _ Ho). Qed.

Lemma app_inv_others a m m' : app_queues m' = app_queues m -> others a m m' ->
  alive a m' \/ a ∉ handed m -> app_inv m -> app_inv m'.
Proof.
  intros Hq Ho Ha [Hw Hl]. split; [by apply (queues_wf_same m)|]. intros b Hb.
  destruct (app_queues_handed _ _ Hq) as (_ & _ & E). rewrite E in Hb.
  destruct (decide (b = a)) as [->|Hne]; [by destruct Ha|]. eapply others_alive; eauto.
Qed.

(** Two views of one run. *)
Lemma wpe_frames {A T} (p : mtcp_manager -> T) (f : MT A) (Q : A -> mtcp_manager -> Prop) m :
  frames p f -> wpe benign f Q m -> wpe benign f (fun r m' => Q r m' /\ p m' = p m) m.
Proof.
  intros Hf. specialize (Hf m I). unfold wpe in *. destruct (f m); [|done]. by intros ?; split; [|apply Hf].
Qed.

(** ** What a body does to the stream it is given *)

Definition handling (m : mtcp_manager) : Prop := stack_inv None m /\ app_inv m.

(** Code on a live stream that keeps it alive. *)
Lemma touches_handling {A} a (f : MT A) m : touches all_lanes None a f -> kept f ->
  handling m -> alive a m ->
  wpe benign f (fun _ m' => (handling m' /\ alive a m') /\ app_queues m' = app_queues m) m.
Proof.
  intros Hf Hk [Hi Ha] Hl. eapply wpe_mono; [eapply wpe_frames; [exact Hk|apply Hf; by split]|].
  intros r m' [[[Hi' Hl'] Hv] Hq]. split; [|done]. split; [|done]. split; [done|].
  eapply app_inv_others; [done|by apply Hv|by left|done].
Qed.

(** Code that may end its stream, which is nowhere else handed over. *)
Lemma ends_handling {A} a (f : MT A) m : ends all_lanes a f -> kept f ->
  handling m -> alive a m -> a ∉ handed m ->
  wpe benign f (fun _ m' => handling m' /\ app_queues m' = app_queues m) m.
Proof.
  intros Hf Hk [Hi Ha] Hl Hn. eapply wpe_mono; [eapply wpe_frames; [exact Hk|apply Hf; by split]|].
  intros r m' [Hv Hq]. split; [|done]. split; [by eapply fate_inv|].
  eapply app_inv_others; [done|by eapply fate_others|by right|done].
Qed.

(** ** The loops over the queues *)

(** The queues of the users are empty when the streams are ended. *)
Definition ending (x : app_queue) : bool :=
  match x with QConnect | QSend | QAck => false | _ => true end.

Definition settled (m : mtcp_manager) : Prop := users m = [].

Definition phase (b : bool) (m : mtcp_manager) : Prop := handling m /\ (b = true -> settled m).

(** What a dequeued stream satisfies. *)
Definition held (b : bool) (a : Z) (m : mtcp_manager) : Prop :=
  alive a m /\ a <> 0 /\ (b = true -> a ∉ handed m).

(** The queues of the application other than [x] are unchanged. *)
Definition ext_same (x : option app_queue) (m m' : mtcp_manager) : Prop :=
  forall y, x <> Some y -> ext y m' = ext y m.

#[export] Instance ext_same_preorder x : PreOrder (ext_same x).
Proof.
  split; [done|]. intros m1 m2 m3 H12 H23 y Hy. by rewrite H23, H12.
Qed.

Lemma ext_same_queues x m m' : app_queues m' = app_queues m -> ext_same x m m'.
Proof. intros Hq y _. by apply app_queues_ext. Qed.

(** The contents of the queues other than [x]. *)
Lemma still_handling m m' : still m m' -> app_queues m' = app_queues m -> handling m -> handling m'.
Proof.
  intros Hs Hq [Hi Ha]. split; [by apply (still_inv None m)|].
  eapply (app_inv_others 0); [done|by apply still_others| |done].
  destruct (decide (0 ∈ handed m)) as [H0|H0]; [left|by right].
  unfold alive. rewrite (proj2 Hs). by apply Ha.
Qed.

Lemma settled_ext x m m' : ext_same x m m' -> (forall y, x = Some y -> ending y = true) ->
  settled m -> settled m'.
Proof.
  intros He Hx. unfold settled, users. change connectq with (ext QConnect).
  change sendq with (ext QSend). change ackq with (ext QAck).
  assert (Hy : forall y, ending y = false -> ext y m' = ext y m).
  { intros y Hy. apply He. intros E. rewrite (Hx y E) in Hy. done. }
  by rewrite !Hy.
Qed.

(** Taking the first stream out of a queue. *)
Lemma dequeued_handed x m m' a :
  fifo_view (ext x m) = a :: fifo_view (ext x m') -> ext_same (Some x) m m' ->
  closeq_int m' = closeq_int m -> resetq_int m' = resetq_int m ->
  if ending x then enders m ≡ₚ a :: enders m' /\ users m' = users m
  else enders m' = enders m /\ users m ≡ₚ a :: users m'.
Proof.
  intros Ha He H1 H2.
  assert (Hy : forall y, x <> y -> ext y m' = ext y m) by (intros y Hy; apply He; congruence).
  unfold enders, users. rewrite H1, H2. change connectq with (ext QConnect).
  change sendq with (ext QSend). change ackq with (ext QAck). change closeq with (ext QClose).
  change resetq with (ext QReset). change destroyq with (ext QDestroy).
  destruct x; cbn [ending]; rewrite Ha; rewrite ?(Hy QConnect), ?(Hy QSend), ?(Hy QAck),
    ?(Hy QClose), ?(Hy QReset), ?(Hy QDestroy) by done; (split; try done).
  all: cbn [app]; repeat rewrite <- Permutation_middle; done.
Qed.

(** Putting a stream at the end of a queue. *)
Lemma enqueued_handed x m m' a :
  fifo_view (ext x m') = fifo_view (ext x m) ++ [a] -> ext_same (Some x) m m' ->
  closeq_int m' = closeq_int m -> resetq_int m' = resetq_int m ->
  if ending x then enders m' ≡ₚ a :: enders m /\ users m' = users m
  else enders m' = enders m /\ users m' ≡ₚ a :: users m.
Proof.
  intros Ha He H1 H2.
  assert (Hy : forall y, x <> y -> ext y m' = ext y m) by (intros y Hy; apply He; congruence).
  unfold enders, users. rewrite H1, H2. change connectq with (ext QConnect).
  change sendq with (ext QSend). change ackq with (ext QAck). change closeq with (ext QClose).
  change resetq with (ext QReset). change destroyq with (ext QDestroy).
  destruct x; cbn [ending]; rewrite Ha; rewrite ?(Hy QConnect), ?(Hy QSend), ?(Hy QAck),
    ?(Hy QClose), ?(Hy QReset), ?(Hy QDestroy) by done; (split; try done).
  all: rewrite <- ?(assoc_L (++)); cbn [app]; repeat rewrite <- Permutation_middle; by rewrite ?app_nil_r.
Qed.

(** A state that differs in a queue only, from which [a] was taken. *)
Lemma dequeued_phase x b m m' a : ending x = b -> phase b m -> a <> 0 -> still m m' ->
  fifo_inv (ext x m') -> fifo_view (ext x m) = a :: fifo_view (ext x m') ->
  ext_same (Some x) m m' -> closeq_int m' = closeq_int m -> resetq_int m' = resetq_int m ->
  phase b m' /\ held b a m'.
Proof.
  intros <- [[Hi [[Hw1 Hw2 Hw3 Hw4] Hl]] Hs] Ha0 Hst Hf Ha He H1 H2.
  pose proof (dequeued_handed _ _ _ _ Ha He H1 H2) as Hp.
  assert (Hal : forall c, alive c m -> alive c m') by (unfold alive; by rewrite (proj2 Hst)).
  assert (Hh : handed m ≡ₚ a :: handed m').
  { unfold handed. destruct (ending x), Hp as [E1 E2]; rewrite ?E1, ?E2; [|done].
    by rewrite <- Permutation_middle. }
  assert (Hset : ending x = true -> settled m').
  { intros Hx. eapply settled_ext; [exact He| |by apply Hs]. by intros y [= <-]. }
  split; [split; [split|done]|split; [|split; [done|]]].
  - by apply (still_inv None m).
  - split; [split; rewrite ?H1, ?H2; try done|].
    + intros y. destruct (decide (y = x)) as [->|Hy]; [done|]. rewrite He by congruence. apply Hw1.
    + destruct (ending x), Hp as [E1 E2]; rewrite E1 in *; [|done]. by apply list.NoDup_cons in Hw4 as [_ ?].
    + intros c Hc. apply Hal, Hl. rewrite Hh. by right.
  - apply Hal, Hl. rewrite Hh. by left.
  - intros Hx. unfold handed. rewrite (Hset Hx). rewrite Hx in Hp. destruct Hp as [E1 _].
    rewrite E1 in Hw4. by apply list.NoDup_cons in Hw4 as [? _].
Qed.

Lemma ext_same_all m m' : ext_same None m m' ->
  closeq_int m' = closeq_int m /\ resetq_int m' = resetq_int m -> app_queues m' = app_queues m.
Proof.
  intros He [E1 E2]. unfold app_queues. rewrite E1, E2.
  change connectq with (ext QConnect). change sendq with (ext QSend). change ackq with (ext QAck).
  change closeq with (ext QClose). change resetq with (ext QReset). change destroyq with (ext QDestroy).
  by rewrite !He.
Qed.

Section Drain.
Context (x : app_queue) (q : mtcp_manager -> Click.click_queue) `{!Setter q}.
Hypothesis Hq : forall m, q m = ext x m.
Hypothesis Hset : forall m v, ext x (upd q (fun _ => v) m) = v.
Hypothesis Hother : forall m v, ext_same (Some x) m (upd q (fun _ => v) m).
Hypothesis Hint : forall m v, closeq_int (upd q (fun _ => v) m) = closeq_int m /\
  resetq_int (upd q (fun _ => v) m) = resetq_int m.
Hypothesis Hstill : forall m v, still m (upd q (fun _ => v) m).

(** The application hands a stream over, or finds the queue full. *)
Lemma hand_over m a : handling m -> alive a m -> a <> 0 -> (ending x = true -> a ∉ enders m) ->
  wpe benign (zoom q (Click.StreamEnqueue a)) (fun _ m' => handling m' /\ still m m') m.
Proof using All.
  intros Hm Ha H0 Hn. pose proof Hm as [Hi [[Hw1 Hw2 Hw3 Hw4] Hl]]. pose proof (Hw1 x) as Hf.
  unfold wpe, zoom. rewrite Hq. unfold Click.StreamEnqueue.
  destruct (Z_lt_le_dec (zlen (fifo_view (ext x m))) (fifo_cap (ext x m))) as [Hr|Hr].
  - destruct (fifo_enq_room _ _ Hf H0 Hr) as (q' & He & Hf' & Hv' & _). cbn in He. rewrite He.
    set (m' := upd q _ m). split; [|apply Hstill].
    assert (Hp : if ending x then enders m' ≡ₚ a :: enders m /\ users m' = users m
      else enders m' = enders m /\ users m' ≡ₚ a :: users m).
    { apply enqueued_handed; [unfold m'; by rewrite Hset|apply Hother|apply Hint|apply Hint]. }
    assert (Hh : handed m' ≡ₚ a :: handed m).
    { unfold handed. destruct (ending x), Hp as [E1 E2]; rewrite ?E1, ?E2; [|done].
      by rewrite <- Permutation_middle. }
    split; [by apply (still_inv None m), Hi; apply Hstill|]. split; [split|].
    + intros y. destruct (decide (y = x)) as [->|Hy]; [unfold m'; by rewrite Hset|].
      unfold m'. rewrite Hother by congruence. apply Hw1.
    + unfold m'. by rewrite (proj1 (Hint m q')).
    + unfold m'. by rewrite (proj2 (Hint m q')).
    + destruct (ending x), Hp as [E1 E2]; rewrite E1; [|done]. apply list.NoDup_cons. auto.
    + intros c. rewrite Hh. unfold alive, m'. rewrite (proj2 (Hstill m q')).
      intros [->|Hc]%elem_of_cons; [done|by apply Hl].
  - pose proof (fifo_enq_full _ a Hf Hr) as He. cbn in He. rewrite He. split; [|apply Hstill].
    apply (still_handling m); [apply Hstill| |exact Hm].
    apply ext_same_all; [|apply Hint]. intros y _.
    destruct (decide (y = x)) as [->|Hy]; [apply Hset|apply Hother; congruence].
Qed.

Variable body : Z -> MT unit.
Hypothesis Hbody : forall a m, phase (ending x) m -> held (ending x) a m ->
  wpe benign (body a) (fun _ m' => phase (ending x) m' /\ ext_same None m m') m.

Lemma drain_ok fuel m : length (fifo_view (ext x m)) = fuel -> phase (ending x) m ->
  wpe benign (drain (zoom q Click.StreamDequeue) body fuel)
    (fun _ m' => phase (ending x) m' /\ fifo_view (ext x m') = [] /\ ext_same (Some x) m m') m.
Proof using All.
  revert m. induction fuel as [|n IH]; intros m Hlen Hp.
  - apply nil_length_inv in Hlen. assert (Hf := qw_ext _ (proj1 (proj2 (proj1 Hp))) x).
    pose proof (fifo_deq_none _ Hf Hlen) as Hd. cbn in Hd. cbn [drain]. rewrite wpe_bind.
    unfold wpe at 1, zoom. rewrite Hq. unfold Click.StreamDequeue. rewrite Hd. cbn.
    set (m' := upd q _ m). assert (He : ext_same None m m').
    { intros y _. destruct (decide (y = x)) as [->|Hy]; [apply Hset|apply Hother; congruence]. }
    split; [|split].
    + split; [|intros Hx; eapply settled_ext; [exact He|done|by apply Hp]].
      eapply still_handling; [apply Hstill|by apply ext_same_all, Hint|apply Hp].
    + by rewrite He.
    + intros y _. by apply He.
  - destruct (fifo_view (ext x m)) as [|a l] eqn:Hv; [done|].
    assert (Hf := qw_ext _ (proj1 (proj2 (proj1 Hp))) x).
    destruct (fifo_deq_some _ _ _ Hf Hv) as (q' & Hd & Hf' & Hv' & _). cbn in Hd. cbn [drain]. rewrite wpe_bind.
    unfold wpe at 1, zoom. rewrite Hq. unfold Click.StreamDequeue. rewrite Hd.
    assert (Ha : a <> 0) by (apply (fifo_inv_nonnull _ a Hf); rewrite Hv; by left).
    rewrite (proj2 (Z.eqb_neq _ _) Ha). set (m1 := upd q _ m).
    destruct (dequeued_phase x _ m m1 a eq_refl Hp Ha) as [Hp1 Hh].
    + apply Hstill.
    + unfold m1. by rewrite Hset.
    + unfold m1. by rewrite Hset, Hv'.
    + apply Hother.
    + apply Hint.
    + apply Hint.
    + rewrite wpe_bind. eapply wpe_mono; [by apply Hbody|]. intros u m2 [Hp2 He2].
      eapply wpe_mono; [apply IH; [|done]|].
      * rewrite He2 by done. unfold m1. rewrite Hset, Hv'. cbn in Hlen. lia.
      * intros u' m3 (Hp3 & Hv3 & He3). split; [done|]. split; [done|].
        etransitivity; [apply Hother|]. etransitivity; [|exact He3]. intros y _. by apply He2.
Qed.

Lemma drain_queue_ok m : phase (ending x) m ->
  wpe benign (drain_queue q body)
    (fun _ m' => phase (ending x) m' /\ fifo_view (ext x m') = [] /\ ext_same (Some x) m m') m.
Proof using All.
  intros Hp. unfold drain_queue. rewrite wpe_bind, wpe_get. apply drain_ok; [|done]. rewrite Hq.
  assert (Hf := qw_ext _ (proj1 (proj2 (proj1 Hp))) x).
  rewrite <- Click.contents_zlen by apply Hf. unfold zlen. by rewrite Nat2Z.id.
Qed.

End Drain.

(** The queues that are private to the stack. *)
Section Walk.
Context (q : mtcp_manager -> Internal.stream_queue_int) `{!Setter q}.
Context (pre post : mtcp_manager -> list Z).
Hypothesis Henders : forall m, enders m = pre m ++ fifo_view (q m) ++ post m.
Hypothesis Hpre : forall m v, pre (upd q (fun _ => v) m) = pre m /\ post (upd q (fun _ => v) m) = post m.
Hypothesis Hset : forall m v, q (upd q (fun _ => v) m) = v.
Hypothesis Hext : forall m v, ext_same None m (upd q (fun _ => v) m).
Hypothesis Hstill : forall m v, still m (upd q (fun _ => v) m).
Hypothesis Hget : forall m, queues_wf m -> fifo_inv (q m).
Hypothesis Hwf : forall m v, queues_wf m -> fifo_inv v -> NoDup (enders (upd q (fun _ => v) m)) ->
  queues_wf (upd q (fun _ => v) m).

Lemma int_phase m v : phase true m -> fifo_inv v ->
  let m' := upd q (fun _ => v) m in
  NoDup (enders m') -> (forall a, a ∈ enders m' -> alive a m) -> phase true m'.
Proof using Hext Hstill Hwf.
  intros [[Hi [Hw Hl]] Hs] Hv m' Hn Ha.
  assert (Hs' : settled m') by (eapply settled_ext; [apply Hext|done|by apply Hs]).
  split; [split|done]; [by apply (still_inv None m), Hi; apply Hstill|]. split; [by apply Hwf|].
  intros a. unfold handed. rewrite Hs'. intros Hin%Ha. unfold alive, m'. by rewrite (proj2 (Hstill m v)).
Qed.

Lemma int_dequeue m a l : phase true m -> fifo_view (q m) = a :: l ->
  wpe benign (zoom q Internal.StreamInternalDequeue)
    (fun r m' => r = a /\ phase true m' /\ held true a m' /\ fifo_view (q m') = l /\ ext_same None m m') m.
Proof using All.
  intros Hp Hv. pose proof (Hget m (proj1 (proj2 (proj1 Hp)))) as Hf.
  destruct (fifo_deq_some _ _ _ Hf Hv) as (q' & Hd & Hf' & Hv' & _). cbn in Hd.
  unfold wpe, zoom. rewrite Hd. set (m' := upd q _ m).
  assert (Hen : enders m ≡ₚ a :: enders m').
  { rewrite !Henders. unfold m'. rewrite (proj1 (Hpre m q')), (proj2 (Hpre m q')), Hset, Hv, Hv'.
    cbn [app]. by rewrite <- Permutation_middle. }
  pose proof (qw_once _ (proj1 (proj2 (proj1 Hp)))) as Hn. rewrite Hen in Hn.
  apply list.NoDup_cons in Hn as [Hna Hn].
  assert (Hal : forall c, c ∈ a :: enders m' -> alive c m).
  { intros c Hc. apply (proj2 (proj2 (proj1 Hp))). unfold handed. rewrite Hen.
    apply elem_of_app. by right. }
  assert (Hp' : phase true m') by (apply int_phase; [done|done|done|intros c Hc; apply Hal; by right]).
  split_and!; [done|done| |unfold m'; by rewrite Hset|apply Hext].
  split_and!.
  - unfold alive, m'. rewrite (proj2 (Hstill m q')). apply Hal. by left.
  - apply (fifo_inv_nonnull _ a Hf). rewrite Hv. by left.
  - intros _. unfold handed. by rewrite (proj2 Hp' eq_refl).
Qed.

Lemma int_enqueue m a : phase true m -> held true a m ->
  wpe benign (zoom q (Internal.StreamInternalEnqueue a))
    (fun _ m' => phase true m' /\ ext_same None m m' /\
       (length (fifo_view (q m)) <= length (fifo_view (q m')))%nat) m.
Proof using All.
  intros Hp (Hl & Ha & Hn). pose proof (Hget m (proj1 (proj2 (proj1 Hp)))) as Hf.
  assert (Hnd := qw_once _ (proj1 (proj2 (proj1 Hp)))).
  assert (Hal : forall c, c ∈ enders m -> alive c m).
  { intros c Hc. apply (proj2 (proj2 (proj1 Hp))), elem_of_app. by right. }
  unfold wpe, zoom. destruct (Z_lt_le_dec (zlen (fifo_view (q m))) (fifo_cap (q m))) as [Hr|Hr].
  - destruct (fifo_enq_room _ _ Hf Ha Hr) as (q' & He & Hf' & Hv' & _). cbn in He. rewrite He.
    assert (Hen : enders (upd q (fun _ => q') m) ≡ₚ a :: enders m).
    { rewrite !Henders, (proj1 (Hpre m q')), (proj2 (Hpre m q')), Hset, Hv'.
      rewrite <- (assoc_L (++)). cbn [app]. by rewrite <- !Permutation_middle. }
    split_and!; [|apply Hext|rewrite Hset, Hv', length_app; lia]. apply int_phase; [done|done|..].
    + rewrite Hen. apply list.NoDup_cons. split; [|done]. specialize (Hn eq_refl).
      intros Hin. apply Hn, elem_of_app. by right.
    + intros c. rewrite Hen. intros [->|Hc]%elem_of_cons; auto.
  - pose proof (fifo_enq_full _ a Hf Hr) as He. cbn in He. rewrite He.
    assert (Hen : enders (upd q (fun _ => q m) m) = enders m).
    { by rewrite !Henders, (proj1 (Hpre m _)), (proj2 (Hpre m _)), Hset. }
    split_and!; [|apply Hext|by rewrite Hset]. apply int_phase; [done|done|by rewrite Hen|].
    intros c. rewrite Hen. apply Hal.
Qed.

Variable body : Z -> MT unit.
Hypothesis Hbody : forall a m, phase true m -> held true a m ->
  wpe benign (body a) (fun _ m' => phase true m' /\ ext_same None m m' /\
    (length (fifo_view (q m)) <= length (fifo_view (q m')))%nat) m.

Lemma repeat_int_ok n m : (n <= length (fifo_view (q m)))%nat -> phase true m ->
  wpe benign (repeat_int (zoom q Internal.StreamInternalDequeue) body n)
    (fun _ m' => phase true m' /\ ext_same None m m') m.
Proof using All.
  revert m. induction n as [|n IH]; intros m Hlen Hp; [by split|]. cbn [repeat_int].
  destruct (fifo_view (q m)) as [|a l] eqn:Hv; [cbn in Hlen; lia|]. rewrite wpe_bind.
  eapply wpe_mono; [by apply int_dequeue|]. intros r m1 (-> & Hp1 & Hh & Hv1 & He1).
  rewrite wpe_bind. eapply wpe_mono; [by apply Hbody|]. intros u m2 (Hp2 & He2 & Hl2).
  eapply wpe_mono; [apply IH; [|done]|].
  - rewrite Hv1 in Hl2. cbn in Hlen. lia.
  - intros u' m3 [Hp3 He3]. split; [done|]. by etransitivity; [|etransitivity].
Qed.

Lemma walk_int_ok m : phase true m ->
  wpe benign (walk_int q body) (fun _ m' => phase true m' /\ ext_same None m m') m.
Proof using All.
  intros Hp. unfold walk_int. rewrite wpe_bind, wpe_get. apply repeat_int_ok; [|done].
  rewrite <- Internal.int_contents_zlen by apply (Hget m (proj1 (proj2 (proj1 Hp)))).
  unfold zlen. by rewrite Nat2Z.id.
Qed.

End Walk.

(** ** The bodies of the loops *)

Lemma phase_moved b m m' : phase b m -> handling m' -> app_queues m' = app_queues m -> phase b m'.
Proof.
  intros [_ Hs] Hh Hq. split; [done|]. intros Hb. unfold settled.
  rewrite (proj1 (proj2 (app_queues_handed _ _ Hq))). by apply Hs.
Qed.

Lemma held_moved b a m m' : held b a m -> alive a m' -> app_queues m' = app_queues m -> held b a m'.
Proof.
  intros (_ & H0 & Hn) Ha Hq. split_and!; [done|done|]. by rewrite (proj2 (proj2 (app_queues_handed _ _ Hq))).
Qed.

Section Bodies.
Context `{Platform}.

(** A step on the stream, and what follows it. *)
Lemma phase_bind {A B} b a (f : MT A) (g : A -> MT B) Q m :
  touches all_lanes None a f -> kept f -> phase b m -> held b a m ->
  (forall r m', phase b m' -> held b a m' -> app_queues m' = app_queues m -> wpe benign (g r) Q m') ->
  wpe benign (f ≫= g) Q m.
Proof using.
  intros Hf Hk Hp Hh Hg. rewrite wpe_bind.
  eapply wpe_mono; [apply (touches_handling a _ _ Hf Hk); [apply Hp|apply Hh]|].
  intros r m' [[Hh' Ha] Hq]. apply Hg; [by eapply phase_moved|by eapply held_moved|done].
Qed.

Lemma phase_touches {A} b a (f : MT A) m : touches all_lanes None a f -> kept f ->
  phase b m -> held b a m ->
  wpe benign f (fun _ m' => phase b m' /\ app_queues m' = app_queues m) m.
Proof using.
  intros Hf Hk Hp Hh. eapply wpe_mono; [apply (touches_handling a _ _ Hf Hk); [apply Hp|apply Hh]|].
  intros r m' [[Hh' Ha] Hq]. split; [by eapply phase_moved|done].
Qed.

Lemma phase_ends {A} a (f : MT A) m : ends all_lanes a f -> kept f ->
  phase true m -> held true a m ->
  wpe benign f (fun _ m' => phase true m' /\ app_queues m' = app_queues m) m.
Proof using.
  intros Hf Hk Hp (Ha & _ & Hn).
  eapply wpe_mono; [apply (ends_handling a _ _ Hf Hk); [apply Hp|done|by apply Hn]|].
  intros r m' [Hh' Hq]. split; [by eapply phase_moved|done].
Qed.

Lemma touches_unwatch_timeout a : touches all_lanes None a (unwatch_timeout a).
Proof using.
  unfold unwatch_timeout. stab. eapply leaves_keeps, RemoveFromTimeoutList_live.
Qed.

Lemma kept_unwatch_timeout a : kept (unwatch_timeout a).
Proof using. frames. Qed.

Lemma kept_AddtoControlList a : kept (AddtoControlList a).
Proof using. frames. Qed.

Hint Resolve touches_unwatch_timeout : stab.
Hint Resolve kept_unwatch_timeout kept_AddtoControlList : frames.

Lemma ends_destroy_reset a : ends all_lanes a (destroy_reset a).
Proof using. unfold destroy_reset. ends. Qed.

Lemma touches_send_visit a : touches all_lanes None a (send_visit a).
Proof using. unfold send_visit. stab. Qed.

Lemma touches_ack_request_visit a : touches all_lanes None a (ack_request_visit a).
Proof using. unfold ack_request_visit. stab. Qed.

Lemma touches_abort_stream a : touches all_lanes None a (abort_stream a).
Proof using. unfold abort_stream. stab. Qed.

Hint Resolve touches_abort_stream : stab.

(** What the loops need of the body of a visit. *)
Definition grown (m m' : mtcp_manager) : Prop :=
  ext_same None m m' /\
  (length (fifo_view (closeq_int m)) <= length (fifo_view (closeq_int m')))%nat /\
  (length (fifo_view (resetq_int m)) <= length (fifo_view (resetq_int m')))%nat.

Lemma grown_same m m' : app_queues m' = app_queues m -> grown m m'.
Proof using.
  intros Hq. split; [by apply ext_same_queues|]. unfold app_queues in Hq.
  injection Hq as _ _ _ _ _ _ -> ->. done.
Qed.

Lemma grown_after m m1 m' : app_queues m1 = app_queues m -> grown m1 m' -> grown m m'.
Proof using.
  intros Hq (He & H1 & H2). split; [etransitivity; [by apply ext_same_queues|done]|].
  unfold app_queues in Hq. injection Hq as _ _ _ _ _ _ <- <-. done.
Qed.

Definition after_close_int (m : mtcp_manager) : list Z :=
  fifo_view (resetq m) ++ fifo_view (resetq_int m) ++ fifo_view (destroyq m).
Definition before_reset_int (m : mtcp_manager) : list Z :=
  fifo_view (closeq m) ++ fifo_view (closeq_int m) ++ fifo_view (resetq m).

Lemma ext_int m v w y :
  ext y (m <| closeq_int := v |>) = ext y m /\ ext y (m <| resetq_int := w |>) = ext y m.
Proof using. by destruct y. Qed.

Lemma close_int_wf m v : queues_wf m -> fifo_inv v -> NoDup (enders (m <| closeq_int := v |>)) ->
  queues_wf (m <| closeq_int := v |>).
Proof using.
  intros [H1 H2 H3 H4] Hv Hn. split; try done. intros y.
  rewrite (proj1 (ext_int m v (resetq_int m) y)). apply H1.
Qed.

Lemma reset_int_wf m v : queues_wf m -> fifo_inv v -> NoDup (enders (m <| resetq_int := v |>)) ->
  queues_wf (m <| resetq_int := v |>).
Proof using.
  intros [H1 H2 H3 H4] Hv Hn. split; try done. intros y.
  rewrite (proj2 (ext_int m (closeq_int m) v y)). apply H1.
Qed.

Lemma reset_int_enders m : enders m =
  before_reset_int m ++ fifo_view (resetq_int m) ++ fifo_view (destroyq m).
Proof using. unfold enders, before_reset_int. by rewrite !(assoc_L (++)). Qed.

Ltac int_side :=
  try done;
  first [ by apply reset_int_enders | by intros ?m ?v ?y _; apply ext_int | by intros ?m []
        | by apply close_int_wf | by apply reset_int_wf | idtac ].

Lemma enqueue_close_int a m : phase true m -> held true a m ->
  wpe benign (zoom closeq_int (Internal.StreamInternalEnqueue a);; mret tt)
    (fun _ m' => phase true m' /\ grown m m') m.
Proof using.
  intros Hp Hh. rewrite wpe_bind.
  eapply wpe_mono; [apply (wpe_frames resetq_int); [by apply frames_zoom|]|].
  - apply (int_enqueue closeq_int (fun m => fifo_view (closeq m)) after_close_int); int_side.
  - intros r m' [(Hp' & He & Hl) Hr]. rewrite wpe_ret. split; [done|]. by split_and!; [|done|rewrite Hr].
Qed.

Lemma enqueue_reset_int a m : phase true m -> held true a m ->
  wpe benign (zoom resetq_int (Internal.StreamInternalEnqueue a);; mret tt)
    (fun _ m' => phase true m' /\ grown m m') m.
Proof using.
  intros Hp Hh. rewrite wpe_bind.
  eapply wpe_mono; [apply (wpe_frames closeq_int); [by apply frames_zoom|]|].
  - apply (int_enqueue resetq_int before_reset_int (fun m => fifo_view (destroyq m))); int_side.
  - intros r m' [(Hp' & He & Hl) Hr]. rewrite wpe_ret. split; [done|]. by split_and!; [|rewrite Hr|done].
Qed.

(** A visit that hands the stream on or works on it. *)
Definition visits (a : Z) (f : MT unit) : Prop :=
  forall m, phase true m -> held true a m -> wpe benign f (fun _ m' => phase true m' /\ grown m m') m.

Lemma visits_touches a f : touches all_lanes None a f -> kept f -> visits a f.
Proof using.
  intros Hf Hk m Hp Hh. eapply wpe_mono; [by apply (phase_touches true a)|]. intros r m' [Hp' Hq].
  split; [done|by apply grown_same].
Qed.

Lemma visits_ends a f : ends all_lanes a f -> kept f -> visits a f.
Proof using.
  intros Hf Hk m Hp Hh. eapply wpe_mono; [by apply (phase_ends a)|]. intros r m' [Hp' Hq].
  split; [done|by apply grown_same].
Qed.

Lemma visits_bind {A} a (f : MT A) g : touches all_lanes None a f -> kept f ->
  (forall r, visits a (g r)) -> visits a (f ≫= g).
Proof using.
  intros Hf Hk Hg m Hp Hh. eapply (phase_bind true a); [done..|]. intros r m1 Hp1 Hh1 Hq.
  eapply wpe_mono; [by apply Hg|]. intros u m2 [Hp2 Hg2]. split; [done|by eapply grown_after].
Qed.

Ltac visits :=
  repeat first
    [ match goal with |- visits _ (if ?b then _ else _) => destruct b end
    | by intros m Hp Hh; apply enqueue_close_int
    | by intros m Hp Hh; apply enqueue_reset_int
    | apply visits_ends; [apply ends_destroy_reset|solve [frames]]
    | apply visits_touches; [solve [stab]|solve [frames]]
    | apply visits_bind; [solve [stab]|solve [frames]|intros ?] ].

Lemma close_visit_ok a : visits a (close_visit a).
Proof using. unfold close_visit. visits. Qed.

Lemma close_int_visit_ok a : visits a (close_int_visit a).
Proof using. unfold close_int_visit. visits. Qed.

Lemma reset_visit_ok a : visits a (reset_visit a).
Proof using. unfold reset_visit. visits. Qed.

Lemma reset_int_visit_ok a : visits a (reset_int_visit a).
Proof using. unfold reset_int_visit. visits. Qed.

Lemma destroy_visit_ok a : visits a (DestroyTCPStream a).
Proof using. apply visits_ends; [apply ends_Destroy|frames]. Qed.

(** *** The application's calls *)

Ltac drain_side :=
  try done;
  first [ by intros ?m ?v ?y ?Hy; destruct y | by intros ?m ?v; split | idtac ].

Lemma users_drain x q `{!Setter q} body m : ending x = false ->
  (forall m, q m = ext x m) -> (forall m v, ext x (upd q (fun _ => v) m) = v) ->
  (forall m v, ext_same (Some x) m (upd q (fun _ => v) m)) ->
  (forall m v, closeq_int (upd q (fun _ => v) m) = closeq_int m /\
    resetq_int (upd q (fun _ => v) m) = resetq_int m) ->
  (forall m v, still m (upd q (fun _ => v) m)) ->
  (forall a, touches all_lanes None a (body a)) -> (forall a, kept (body a)) -> handling m ->
  wpe benign (drain_queue q body)
    (fun _ m' => handling m' /\ fifo_view (ext x m') = [] /\ ext_same (Some x) m m') m.
Proof using.
  intros Hx H1 H2 H3 H4 H5 Ht Hk Hh. eapply wpe_mono; [apply (drain_queue_ok x q); try done|].
  - intros a m1 Hp Hd. rewrite Hx in *. eapply wpe_mono; [by apply (phase_touches false a)|].
    intros r m2 [Hp2 Hq]. split; [done|by apply ext_same_queues].
  - rewrite Hx. by split.
  - intros u m1 ([Hh1 _] & Hv & He). done.
Qed.

Lemma enders_drain x q `{!Setter q} body m : ending x = true ->
  (forall m, q m = ext x m) -> (forall m v, ext x (upd q (fun _ => v) m) = v) ->
  (forall m v, ext_same (Some x) m (upd q (fun _ => v) m)) ->
  (forall m v, closeq_int (upd q (fun _ => v) m) = closeq_int m /\
    resetq_int (upd q (fun _ => v) m) = resetq_int m) ->
  (forall m v, still m (upd q (fun _ => v) m)) ->
  (forall a, visits a (body a)) -> phase true m ->
  wpe benign (drain_queue q body)
    (fun _ m' => phase true m' /\ fifo_view (ext x m') = [] /\ ext_same (Some x) m m') m.
Proof using.
  intros Hx H1 H2 H3 H4 H5 Hb Hp. rewrite <- Hx. apply (drain_queue_ok x q); try done; [|by rewrite Hx].
  intros a m1 Hp1 Hd. rewrite Hx in *. eapply wpe_mono; [by apply Hb|].
  intros r m2 [Hp2 Hg]. split; [done|apply Hg].
Qed.

Lemma walk_close_int m : phase true m ->
  wpe benign (walk_int closeq_int close_int_visit) (fun _ m' => phase true m' /\ ext_same None m m') m.
Proof using.
  intros Hp. apply (walk_int_ok closeq_int (fun m => fifo_view (closeq m)) after_close_int); int_side.
  intros a m1 Hp1 Hd. eapply wpe_mono; [by apply close_int_visit_ok|].
  intros r m2 [Hp2 (He & Hl & _)]. done.
Qed.

Lemma walk_reset_int m : phase true m ->
  wpe benign (walk_int resetq_int reset_int_visit) (fun _ m' => phase true m' /\ ext_same None m m') m.
Proof using.
  intros Hp. apply (walk_int_ok resetq_int before_reset_int (fun m => fifo_view (destroyq m))); int_side.
  intros a m1 Hp1 Hd. eapply wpe_mono; [by apply reset_int_visit_ok|].
  intros r m2 [Hp2 (He & _ & Hl)]. done.
Qed.

(** The queues of [l] are empty. *)
Definition emptied (l : list app_queue) (m : mtcp_manager) : Prop :=
  forall x, x ∈ l -> fifo_view (ext x m) = [].

Lemma emptied_next l x m m' : emptied l m -> fifo_view (ext x m') = [] -> ext_same (Some x) m m' ->
  emptied (x :: l) m'.
Proof using.
  intros Hl Hx He y [->|Hy]%elem_of_cons; [done|].
  destruct (decide (y = x)) as [->|Hne]; [done|]. rewrite He by congruence. by apply Hl.
Qed.

Lemma emptied_same l m m' : emptied l m -> ext_same None m m' -> emptied l m'.
Proof using. intros Hl He y Hy. rewrite He by done. by apply Hl. Qed.

Lemma emptied_settled l m : [QConnect; QSend; QAck] ⊆ l -> emptied l m -> settled m.
Proof using.
  intros Hs Hl. unfold settled, users. change connectq with (ext QConnect).
  change sendq with (ext QSend). change ackq with (ext QAck).
  by rewrite !Hl by (apply Hs; repeat constructor).
Qed.

Definition all_queues : list app_queue := [QDestroy; QReset; QClose; QAck; QSend; QConnect].

Lemma HandleApplicationCalls_ok m : handling m ->
  wpe benign HandleApplicationCalls (fun _ m' => handling m' /\ emptied all_queues m') m.
Proof using.
  intros Hh. unfold HandleApplicationCalls. rewrite wpe_bind.
  eapply wpe_mono; [apply (users_drain QConnect); try done; drain_side|].
  { intros a. stab. }
  { intros a. frames. }
  intros u1 m1 (Hh1 & Hv1 & He1).
  assert (E1 : emptied [QConnect] m1) by (apply (emptied_next [] _ m); [by intros y ?%not_elem_of_nil|done..]).
  rewrite wpe_bind. eapply wpe_mono; [apply (users_drain QSend); try done; drain_side|].
  { apply touches_send_visit. }
  { intros a. frames. }
  intros u2 m2 (Hh2 & Hv2 & He2). pose proof (emptied_next _ _ _ _ E1 Hv2 He2) as E2.
  rewrite wpe_bind. eapply wpe_mono; [apply (users_drain QAck); try done; drain_side|].
  { apply touches_ack_request_visit. }
  { intros a. frames. }
  intros u3 m3 (Hh3 & Hv3 & He3). pose proof (emptied_next _ _ _ _ E2 Hv3 He3) as E3.
  assert (Hp3 : phase true m3) by (split; [done|intros _; eapply emptied_settled; [|exact E3]; set_solver]).
  rewrite wpe_bind. eapply wpe_mono; [apply (enders_drain QClose); try done; [drain_side..|apply close_visit_ok]|].
  intros u4 m4 (Hp4 & Hv4 & He4). pose proof (emptied_next _ _ _ _ E3 Hv4 He4) as E4.
  rewrite wpe_bind. eapply wpe_mono; [by apply walk_close_int|]. intros u5 m5 [Hp5 He5].
  pose proof (emptied_same _ _ _ E4 He5) as E5.
  rewrite wpe_bind. eapply wpe_mono; [apply (enders_drain QReset); try done; [drain_side..|apply reset_visit_ok]|].
  intros u6 m6 (Hp6 & Hv6 & He6). pose proof (emptied_next _ _ _ _ E5 Hv6 He6) as E6.
  rewrite wpe_bind. eapply wpe_mono; [by apply walk_reset_int|]. intros u7 m7 [Hp7 He7].
  pose proof (emptied_same _ _ _ E6 He7) as E7.
  rewrite wpe_bind. eapply wpe_mono; [apply (enders_drain QDestroy); try done; [drain_side..|apply destroy_visit_ok]|].
  intros u8 m8 (Hp8 & Hv8 & He8). pose proof (emptied_next _ _ _ _ E7 Hv8 He8) as E8.
  rewrite wpe_modify. split; [|eapply emptied_same; [exact E8|by intros []]]. apply (still_handling m8); [done|done|apply Hp8].
Qed.

(** ** The rest of a round *)

Lemma for_each_ok {A} (I : mtcp_manager -> Prop) (body : A -> MT unit) l m :
  (forall x m, I m -> wpe benign (body x) (fun _ m' => I m') m) -> I m ->
  wpe benign (for_each body l) (fun _ m' => I m') m.
Proof using.
  intros Hb. revert m. induction l as [|x l IH]; intros m Hm; [done|]. cbn [for_each].
  rewrite wpe_bind. eapply wpe_mono; [by apply Hb|]. intros u m1. apply IH.
Qed.

Lemma kept_for_each {A} (body : A -> MT unit) l : (forall x, kept (body x)) -> kept (for_each body l).
Proof using. intros Hb. induction l as [|x l IH]; cbn [for_each]; frames. Qed.

Lemma kept_for_range (body : Z -> MT unit) n : (forall x, kept (body x)) -> forall i, kept (for_range body i n).
Proof using. intros Hb. induction n as [|n IH]; intros i; cbn [for_range]; frames. Qed.

Definition safely {A} (f : MT A) : Prop :=
  forall m, stack_inv None m -> wpe benign f (fun _ m' => stack_inv None m') m.

Lemma safely_bind {A B} (f : MT A) (g : A -> MT B) : safely f -> (forall r, safely (g r)) -> safely (f ≫= g).
Proof using. intros Hf Hg m Hm. rewrite wpe_bind. eapply wpe_mono; [by apply Hf|]. intros r m1. apply Hg. Qed.

Lemma safely_quiet {A} (f : MT A) : quiet f -> safely f.
Proof using. intros Hf m Hm. by apply inv_quiet. Qed.

Lemma safely_when b (f : MT unit) : safely f -> safely (whenM b f).
Proof using. destruct b; [done|]. intros _ m Hm. done. Qed.

Lemma safely_for_each {A} (body : A -> MT unit) l : (forall x, safely (body x)) -> safely (for_each body l).
Proof using. intros Hb m Hm. by apply for_each_ok. Qed.

Lemma safely_for_range (body : Z -> MT unit) n : (forall x, safely (body x)) ->
  forall i, safely (for_range body i n).
Proof using.
  intros Hb. induction n as [|n IH]; intros i; [by intros m|]. cbn [for_range].
  apply safely_bind; [apply Hb|intros u; apply IH].
Qed.

Create HintDb safely.
Hint Resolve WriteTCPControlList_inv WriteTCPDataList_inv WriteTCPACKList_inv CheckRtmTimeout_inv
  CheckTimewaitExpire_inv CheckConnectionTimeout_inv ProcessPacket_inv : safely.
Hint Extern 1 (safely _) => (intros ? ?; solve [eauto with safely]) : safely.

Ltac safely :=
  repeat match goal with
  | |- safely (mbind _ _) => apply safely_bind; [|intros ?]
  | |- safely (whenM _ _) => apply safely_when
  | |- safely (for_each _ _) => apply safely_for_each; intros ?
  | |- safely (for_range _ _ _) => apply safely_for_range; intros ?
  | |- safely (let _ := _ in _) => cbv zeta
  | |- safely (match ?x with _ => _ end) => destruct x
  | |- safely _ => first [solve [eauto 3 with safely] | apply safely_quiet; solve [stab]]
  end.

Lemma quiet_sender_at i : quiet (sender_at i).
Proof using. unfold sender_at. stab. Qed.

Hint Resolve quiet_sender_at quiet_ARPTimer : stab.

Lemma safely_write_sender ts t i : safely (write_sender ts t i).
Proof using. unfold write_sender. safely. Qed.

Hint Resolve safely_write_sender : safely.

Lemma safely_WritePacketsToChunks ts : safely (WritePacketsToChunks ts).
Proof using. unfold WritePacketsToChunks. safely. Qed.

Lemma safely_receive ts t i : safely (receive ts t i).
Proof using. unfold receive. safely. Qed.

Lemma safely_check_timers ts tp : safely (check_timers ts tp).
Proof using. unfold check_timers. safely. Qed.

Lemma quiet_FlushEpollEvents : quiet FlushEpollEvents.
Proof using. unfold FlushEpollEvents, epoll_set. stab. Qed.

Lemma safely_InterruptApplication : safely InterruptApplication.
Proof using. unfold InterruptApplication, interrupt_port. safely. Qed.

Lemma kept_write_sender ts t i : kept (write_sender ts t i).
Proof using. frames. Qed.

Lemma kept_receive ts t i : kept (receive ts t i).
Proof using. unfold receive. apply kept_for_each. intros []; frames. Qed.

Lemma kept_interrupt_port i : kept (interrupt_port i).
Proof using. frames. Qed.

Hint Resolve kept_for_each kept_for_range kept_write_sender kept_receive kept_interrupt_port : frames.

Lemma kept_take_input t tp : kept (take_input t tp).
Proof using. frames. Qed.

Hint Resolve safely_receive safely_check_timers safely_InterruptApplication : safely.
Hint Resolve quiet_FlushEpollEvents : stab.

Lemma safely_take_input t tp : safely (take_input t tp).
Proof using. unfold take_input. safely. Qed.

(** What follows the calls of the application. *)
Definition give_output (master : bool) (t : tick) (ts_prev : Z) : MT unit :=
  WritePacketsToChunks (t_ts t);;
  whenM (negb (t_ts t =? ts_prev) && master) (ARPTimer (t_ts t));;
  whenM (t_interrupt t) InterruptApplication.

Hint Resolve safely_WritePacketsToChunks : safely.

Lemma safely_give_output master t tp : safely (give_output master t tp).
Proof using. unfold give_output. safely. Qed.

Lemma kept_give_output master t tp : kept (give_output master t tp).
Proof using. frames. Qed.

(** A round, when the streams that were handed over are alive when they are looked at. *)
Lemma round_ok master t tp m : stack_inv None m -> queues_wf m ->
  (forall m', take_input t tp m = Ok tt m' -> forall a, a ∈ handed m -> alive a m') ->
  wpe benign (round master t tp) (fun _ m' => stack_inv None m' /\ queues_wf m') m.
Proof using.
  intros Hi Hw Ha. unfold round. fold (give_output master t tp). cbv zeta. rewrite wpe_bind.
  assert (Ht : wpe benign (take_input t tp) (fun u m1 => stack_inv None m1 /\ app_inv m1) m).
  { pose proof (wpe_frames app_queues _ _ _ (kept_take_input t tp) (safely_take_input t tp m Hi)) as Ht.
    unfold wpe in *. destruct (take_input t tp m) as [[] m1|e]; [|done]. destruct Ht as [Hi1 Hq].
    split; [done|]. split; [by apply (queues_wf_same m)|]. intros a.
    rewrite (proj2 (proj2 (app_queues_handed _ _ Hq))). by apply Ha. }
  eapply wpe_mono; [exact Ht|]. intros u m1 Hh. rewrite wpe_bind, wpe_get, wpe_bind, wpe_when.
  assert (Hout : forall m2, handling m2 ->
    wpe benign (give_output master t tp) (fun _ m' => stack_inv None m' /\ queues_wf m') m2).
  { intros m2 [Hi2 [Hw2 _]].
    eapply wpe_mono; [eapply wpe_frames; [apply kept_give_output|by apply safely_give_output]|].
    intros u2 m3 [Hi3 Hq]. split; [done|by apply (queues_wf_same m2)]. }
  destruct (0 <? flow_cnt m1); [|by apply Hout].
  eapply wpe_mono; [by apply HandleApplicationCalls_ok|]. intros u2 m2 [Hh2 _]. by apply Hout.
Qed.

End Bodies.
