(* ===== verification/ApiSafe.v ===== *)
(** * Safety of the socket calls

    The calls of the application keep the invariant of the stack and the invariant of the
    queues, provided that the stream behind the socket is alive and, for the calls that end
    it, has not been handed over to be ended before. *)

From S2P Require Import Prelude SeqArith Rss Queues MemPool SendBuffer RingBuffer AddrPool Mtcp TcpUtil Output Events Fhash Lists TcpStream TcpOut Timer TcpIn NetIn Sockets Core Api Frame StackInv ListOps Benign StreamLife OutSafe TimerSafe InSafe NetSafe CoreSafe.

Section ApiSafe.
Context `{Platform}.

(** ** Code that does not touch the streams *)

Lemma calm_handling {A} (f : MT A) m : quiet f -> kept f -> handling m ->
  wpe benign f (fun _ m' => handling m' /\ streams m' = streams m /\ app_queues m' = app_queues m) m.
Proof using.
  intros Hf Hk Hm. eapply wpe_mono; [eapply wpe_frames; [exact Hk|by apply Hf]|].
  intros r m' [[_ Hs] Hq]. split_and!; [by apply (still_handling m)|apply Hs|done].
Qed.

(** ** Code on the stream of a socket *)

(** [f] may hand [a] over to be ended, as its last action. *)
Definition serves {A} (a : Z) (f : MT A) : Prop :=
  forall m, handling m -> alive a m -> a <> 0 -> a ∉ enders m -> wpe benign f (fun _ m' => handling m') m.

Lemma serves_bind {A B} a (f : MT A) (g : A -> MT B) : touches all_lanes None a f -> kept f ->
  (forall r, serves a (g r)) -> serves a (f ≫= g).
Proof using.
  intros Hf Hk Hg m Hm Ha H0 Hn. rewrite wpe_bind.
  eapply wpe_mono; [by apply (touches_handling a f m Hf Hk)|]. intros r m' [[Hm' Ha'] Hq].
  apply Hg; [done..|]. by rewrite (proj1 (app_queues_handed _ _ Hq)).
Qed.

Lemma serves_touches {A} a (f : MT A) : touches all_lanes None a f -> kept f -> serves a f.
Proof using.
  intros Hf Hk m Hm Ha H0 Hn. eapply wpe_mono; [by apply (touches_handling a f m Hf Hk)|].
  by intros r m' [[Hm' _] _].
Qed.

Lemma serves_when a b (f : MT unit) : serves a f -> serves a (whenM b f).
Proof using. destruct b; [done|]. intros _ m Hm _ _ _. done. Qed.

Lemma serves_quiet {A} a (f : MT A) : quiet f -> kept f -> serves a f.
Proof using. intros Hf Hk. apply serves_touches; [by apply quiet_touches|done]. Qed.

(** [a] stays alive and is not handed over to be ended. *)
Definition lends {A} (a : Z) (f : MT A) : Prop :=
  forall m, handling m -> alive a m -> a <> 0 ->
    wpe benign f (fun _ m' => handling m' /\ alive a m' /\ enders m' = enders m) m.

Lemma lends_serves {A} a (f : MT A) : lends a f -> serves a f.
Proof using. intros Hf m Hm Ha H0 Hn. eapply wpe_mono; [by apply Hf|]. by intros r m' [? _]. Qed.

Lemma lends_touches {A} a (f : MT A) : touches all_lanes None a f -> kept f -> lends a f.
Proof using.
  intros Hf Hk m Hm Ha H0. eapply wpe_mono; [by apply (touches_handling a f m Hf Hk)|].
  intros r m' [[Hm' Ha'] Hq]. split_and!; [done..|apply (app_queues_handed _ _ Hq)].
Qed.

Lemma lends_bind {A B} a (f : MT A) (g : A -> MT B) : lends a f -> (forall r, lends a (g r)) -> lends a (f ≫= g).
Proof using.
  intros Hf Hg m Hm Ha H0. rewrite wpe_bind. eapply wpe_mono; [by apply Hf|].
  intros r m1 (Hm1 & Ha1 & E1). eapply wpe_mono; [by apply Hg|]. intros r' m2 (Hm2 & Ha2 & E2).
  split_and!; [done..|congruence].
Qed.

Lemma lends_when a b (f : MT unit) : lends a f -> lends a (whenM b f).
Proof using. destruct b; [done|]. intros _ m Hm Ha _. done. Qed.

Lemma lends_ret {A} a (r : A) : lends a (mret r).
Proof using. intros m Hm Ha _. done. Qed.

(** Handing [a] over to be used. *)
Lemma lends_hand_over x q `{!Setter q} a : ending x = false ->
  (forall m, q m = ext x m) -> (forall m v, ext x (upd q (fun _ => v) m) = v) ->
  (forall m v, ext_same (Some x) m (upd q (fun _ => v) m)) ->
  (forall m v, closeq_int (upd q (fun _ => v) m) = closeq_int m /\
    resetq_int (upd q (fun _ => v) m) = resetq_int m) ->
  (forall m v, still m (upd q (fun _ => v) m)) ->
  lends a (zoom q (Click.StreamEnqueue a)).
Proof using.
  intros Hx H1 H2 H3 H4 H5 m Hm Ha H0.
  assert (Hen : frames enders (zoom q (Click.StreamEnqueue a))).
  { apply frames_zoom. intros m1 v. unfold enders. destruct (H4 m1 v) as [-> ->].
    change closeq with (ext QClose). change resetq with (ext QReset). change destroyq with (ext QDestroy).
    rewrite !H3; [done|..]; intros [= ->]; done. }
  eapply wpe_mono; [eapply wpe_frames; [exact Hen|]; apply (hand_over x q); try done|].
  - intros Hx'. by rewrite Hx in Hx'.
  - intros r m' [[Hm' Hs] E]. split_and!; [done| |done]. unfold alive. by rewrite (proj2 Hs).
Qed.

Ltac over_side := try done; first [ by intros ?m ?v ?y ?Hy; destruct y | by intros ?m ?v; split ].

Lemma lends_sendq a : lends a (zoom sendq (Click.StreamEnqueue a)).
Proof using. apply (lends_hand_over QSend); over_side. Qed.

Lemma lends_ackq a : lends a (zoom ackq (Click.StreamEnqueue a)).
Proof using. apply (lends_hand_over QAck); over_side. Qed.

Lemma lends_connectq a : lends a (zoom connectq (Click.StreamEnqueue a)).
Proof using. apply (lends_hand_over QConnect); over_side. Qed.

(** Handing [a] over to be ended. *)
Lemma serves_discard {B} a (r : B) : serves a (discard a;; mret r).
Proof using.
  intros m Hm Ha H0 Hn. unfold discard, wake_stack. rewrite !wpe_bind.
  eapply wpe_mono; [apply (hand_over QDestroy destroyq); over_side|].
  intros u m' [Hm' _]. rewrite wpe_modify, wpe_ret. by apply (still_handling m').
Qed.

Lemma serves_ender x q `{!Setter q} a : ending x = true ->
  (forall m, q m = ext x m) -> (forall m v, ext x (upd q (fun _ => v) m) = v) ->
  (forall m v, ext_same (Some x) m (upd q (fun _ => v) m)) ->
  (forall m v, closeq_int (upd q (fun _ => v) m) = closeq_int m /\
    resetq_int (upd q (fun _ => v) m) = resetq_int m) ->
  (forall m v, still m (upd q (fun _ => v) m)) ->
  forall {B} (r : Z -> B), serves a (ret ← zoom q (Click.StreamEnqueue a); wake_stack;; mret (r ret)).
Proof using.
  intros Hx H1 H2 H3 H4 H5 B r m Hm Ha H0 Hn. unfold wake_stack. rewrite !wpe_bind.
  eapply wpe_mono; [apply (hand_over x q); try done|].
  intros u m' [Hm' _]. rewrite wpe_bind, wpe_modify, wpe_ret. by apply (still_handling m').
Qed.

Lemma serves_closeq a {B} (r : Z -> B) : serves a (ret ← zoom closeq (Click.StreamEnqueue a); wake_stack;; mret (r ret)).
Proof using. apply (serves_ender QClose); over_side. Qed.

Lemma serves_resetq a {B} (r : Z -> B) : serves a (ret ← zoom resetq (Click.StreamEnqueue a); wake_stack;; mret (r ret)).
Proof using. apply (serves_ender QReset); over_side. Qed.

Ltac lends :=
  repeat first
    [ match goal with
      | |- lends _ (if ?b then _ else _) => destruct b
      | |- lends _ (let _ := _ in _) => cbv zeta
      | |- lends _ (match ?x with _ => _ end) => destruct x
      end
    | apply lends_ret | apply lends_sendq | apply lends_ackq | apply lends_connectq
    | solve [eauto 2 with lends nocore]
    | apply lends_touches; [solve [stab]|solve [frames]]
    | apply lends_when
    | apply lends_bind; [|intros ?] ].

Ltac serves :=
  repeat first
    [ match goal with
      | |- serves _ (if ?b then _ else _) => destruct b
      | |- serves _ (let _ := _ in _) => cbv zeta
      | |- serves _ (match ?x with _ => _ end) => destruct x
      end
    | apply serves_discard | apply serves_closeq | apply serves_resetq
    | apply serves_touches; [solve [stab]|solve [frames]]
    | apply serves_bind; [solve [stab]|solve [frames]|intros ?] ].

Create HintDb lends.

(** *** Reading and writing *)

Lemma benign_SBPut buf n : only benign (Buffer.SBPut buf n).
Proof using. unfold Buffer.SBPut, Buffer.memcpy_data. stab. Qed.

Lemma benign_SBInit b g n : only benign (Manager.SBInit (P := mem_pool) (Q := Click.click_queue) b g n).
Proof using. unfold Manager.SBInit. stab. Qed.

Hint Resolve quiet_sndbuf_run touches_rcvbuf_run benign_SBPut benign_SBInit benign_RBRemove : stab.
Hint Resolve keeps_rcvbuf_of : stab.
Hint Extern 1 (stable _ _ still (zoom _ _)) => (apply quiet_zoom; [solve [auto with stab]|done]) : stab.

Lemma lends_advertise_window a : lends a (advertise_window a).
Proof using. unfold advertise_window, wake_stack. lends. Qed.

Hint Resolve lends_advertise_window : lends.

Lemma lends_CopyToUser a len : lends a (CopyToUser a len).
Proof using. unfold CopyToUser. lends. Qed.

Lemma lends_request_send a : lends a (request_send a).
Proof using. unfold request_send, wake_stack. lends. Qed.

Lemma lends_CopyFromUser a buf len : lends a (CopyFromUser a buf len).
Proof using. unfold CopyFromUser, ensure_sndbuf. lends. Qed.

Hint Resolve lends_CopyToUser lends_request_send lends_CopyFromUser : lends.

Lemma lends_readv_loop a lens acc : lends a (readv_loop a lens acc).
Proof using. revert acc. induction lens; intros acc; cbn [readv_loop]; lends. Qed.

Lemma lends_writev_loop a iov acc : lends a (writev_loop a iov acc).
Proof using. revert acc. induction iov; intros acc; cbn [writev_loop]; lends. Qed.

Hint Resolve lends_readv_loop lends_writev_loop : lends.

(** ** The calls *)

(** The stream behind the socket [i] is alive; it has not been handed over to be ended. *)
Definition live_object (i : Z) (m : mtcp_manager) : Prop :=
  forall s, smap m !! i = Some s -> socktype s = MTCP_SOCK_STREAM -> sock_obj s <> 0 -> alive (sock_obj s) m.

Definition own_object (i : Z) (m : mtcp_manager) : Prop :=
  forall s, smap m !! i = Some s -> socktype s = MTCP_SOCK_STREAM -> sock_obj s <> 0 ->
    alive (sock_obj s) m /\ sock_obj s ∉ enders m.

Definition not_listening (i : Z) (m : mtcp_manager) : Prop :=
  forall s, smap m !! i = Some s -> socktype s <> MTCP_SOCK_LISTENER.

Lemma enter {A} c i (k : socket_map -> MT (api_result A)) m : handling m ->
  (forall s, smap m !! i = Some s -> wpe benign (k s) (fun _ m' => handling m') m) ->
  wpe benign (with_manager c (with_socket i k)) (fun _ m' => handling m') m.
Proof using.
  intros Hm Hk. unfold with_manager, with_socket. destruct (GetMTCPManager c); [by apply wpe_ret|].
  rewrite wpe_bind, wpe_get. destruct (in_range i m); [|by apply wpe_ret].
  unfold socket_at. rewrite !wpe_bind, wpe_get, wpe_unwrap.
  destruct (smap m !! i) as [s|] eqn:E; [by apply Hk|split_and!; discriminate].
Qed.

Lemma calm {A} (f : MT A) m : quiet f -> kept f -> handling m -> wpe benign f (fun _ m' => handling m') m.
Proof using. intros Hf Hk Hm. eapply wpe_mono; [by apply calm_handling|]. by intros r m' [? _]. Qed.

Lemma quiet_pipe_at p : quiet (pipe_at p).
Proof using. unfold pipe_at. stab. Qed.

Hint Resolve quiet_pipe_at : stab.

Lemma quiet_RaiseEventToPair i ev : quiet (RaiseEventToPair i ev).
Proof using. unfold RaiseEventToPair. stab. Qed.

Hint Resolve quiet_RaiseEventToPair : stab.

Lemma quiet_PipeRead c i len : quiet (PipeRead c i len).
Proof using.
  unfold PipeRead, with_pipe, with_manager, with_socket, pipe_read_wait, pipe_read_now, pipe_set. stab.
Qed.

Lemma quiet_PipeWrite c i src len : quiet (PipeWrite c i src len).
Proof using.
  unfold PipeWrite, with_pipe, with_manager, with_socket, pipe_write_wait, pipe_write_now, pipe_set. stab.
Qed.

Lemma quiet_PipeClose i : quiet (PipeClose i).
Proof using. unfold PipeClose, pipe_set. stab. Qed.

Lemma quiet_CloseEpollSocket i : quiet (CloseEpollSocket i).
Proof using. unfold CloseEpollSocket. stab. Qed.

Lemma quiet_CloseListeningSocket i : quiet (CloseListeningSocket i).
Proof using. unfold CloseListeningSocket. stab. Qed.

Lemma quiet_FreeSocket i : quiet (FreeSocket i).
Proof using. unfold FreeSocket. stab. Qed.

(** Code on the stream behind a socket. *)
Lemma lend_live {A} i s m (f : MT A) : handling m -> live_object i m -> smap m !! i = Some s ->
  socktype s = MTCP_SOCK_STREAM -> sock_obj s <> 0 -> lends (sock_obj s) f ->
  wpe benign f (fun _ m' => handling m') m.
Proof using.
  intros Hm Hl Hs Ht H0 Hf. eapply wpe_mono; [by apply Hf; [|eapply Hl|]|]. by intros r m' [? _].
Qed.

Lemma with_reader_ok {A} i s m (e : A) k : handling m -> live_object i m -> smap m !! i = Some s ->
  socktype s = MTCP_SOCK_STREAM -> (sock_obj s <> 0 -> lends (sock_obj s) (k (sock_obj s))) ->
  wpe benign (with_reader s e k) (fun _ m' => handling m') m.
Proof using.
  intros Hm Hl Hs Ht Hk. unfold with_reader. cbv zeta. destruct (sock_obj s =? 0) eqn:E; [by apply wpe_ret|].
  apply Z.eqb_neq in E. specialize (Hk E). apply (lend_live i s); try done. lends.
Qed.

Lemma with_writer_ok {A} i s m (k : Z -> MT (api_result A)) : handling m -> live_object i m ->
  smap m !! i = Some s -> socktype s = MTCP_SOCK_STREAM ->
  (sock_obj s <> 0 -> lends (sock_obj s) (k (sock_obj s))) ->
  wpe benign (with_writer s k) (fun _ m' => handling m') m.
Proof using.
  intros Hm Hl Hs Ht Hk. unfold with_writer. cbv zeta. destruct (sock_obj s =? 0) eqn:E; [by apply wpe_ret|].
  apply Z.eqb_neq in E. specialize (Hk E). apply (lend_live i s); try done. lends.
Qed.

(** The guards on the type of the socket. *)
Ltac guards :=
  repeat match goal with
  | |- wpe _ (if ?b then mret _ else _) _ _ => destruct b eqn:?; [by apply wpe_ret|]
  end;
  repeat match goal with
  | H : negb _ = false |- _ => apply negb_false_iff, Z.eqb_eq in H
  end.

Lemma mtcp_recv_ok c i len flags m : handling m -> live_object i m ->
  wpe benign (mtcp_recv c i len flags) (fun _ m' => handling m') m.
Proof using.
  intros Hm Hl. apply enter; [done|]. intros s Hs. guards.
  destruct (socktype s =? MTCP_SOCK_PIPE); [apply calm; [apply quiet_PipeRead|frames|done]|]. guards.
  apply (with_reader_ok i); [done..|]. intros _. unfold event_remaining, PeekForUser. lends.
Qed.

Lemma mtcp_readv_ok c i iov m : handling m -> live_object i m ->
  wpe benign (mtcp_readv c i iov) (fun _ m' => handling m') m.
Proof using.
  intros Hm Hl. apply enter; [done|]. intros s Hs. guards.
  apply (with_reader_ok i); [done..|]. intros _. unfold event_remaining. lends.
Qed.

Lemma lends_raise_writable a s i : lends a (raise_writable s i a).
Proof using. unfold raise_writable. lends. Qed.

Hint Resolve lends_raise_writable : lends.

Lemma mtcp_write_ok c i buf len m : handling m -> live_object i m ->
  wpe benign (mtcp_write c i buf len) (fun _ m' => handling m') m.
Proof using.
  intros Hm Hl. apply enter; [done|]. intros s Hs. guards.
  destruct (socktype s =? MTCP_SOCK_PIPE); [apply calm; [apply quiet_PipeWrite|frames|done]|]. guards.
  apply (with_writer_ok i); [done..|]. intros _. lends.
Qed.

(** *** Ending *)

Lemma serve_own {A} i s m (f : MT A) : handling m -> own_object i m -> smap m !! i = Some s ->
  socktype s = MTCP_SOCK_STREAM -> sock_obj s <> 0 -> serves (sock_obj s) f ->
  wpe benign f (fun _ m' => handling m') m.
Proof using. intros Hm Hl Hs Ht H0 Hf. destruct (Hl s Hs Ht H0). by apply Hf. Qed.

Lemma mtcp_abort_ok c i m : handling m -> own_object i m ->
  wpe benign (mtcp_abort c i) (fun _ m' => handling m') m.
Proof using.
  intros Hm Hl. apply enter; [done|]. intros s Hs. guards. apply (serve_own i s); [done..|by apply Z.eqb_neq|].
  pose proof quiet_FreeSocket. serves.
Qed.

Lemma CloseStreamSocket_ok i s m : handling m -> own_object i m -> smap m !! i = Some s ->
  socktype s = MTCP_SOCK_STREAM -> wpe benign (CloseStreamSocket i) (fun _ m' => handling m') m.
Proof using.
  intros Hm Hl Hs Ht. unfold CloseStreamSocket, socket_at. rewrite !wpe_bind, wpe_get, wpe_unwrap, Hs. cbv zeta.
  guards. apply (serve_own i s); [done..|by apply Z.eqb_neq|]. serves.
Qed.

Lemma mtcp_close_ok c i m : handling m -> own_object i m ->
  wpe benign (mtcp_close c i) (fun _ m' => handling m') m.
Proof using.
  intros Hm Hl. apply enter; [done|]. intros s Hs. guards. rewrite wpe_bind.
  eapply wpe_mono; [|intros r m' Hm'; rewrite wpe_bind; eapply wpe_mono;
    [apply calm; [apply quiet_FreeSocket|frames|exact Hm']|by intros ? ? ?; apply wpe_ret]].
  destruct (socktype s =? MTCP_SOCK_STREAM) eqn:Et; [by apply (CloseStreamSocket_ok i s); try apply Z.eqb_eq|].
  destruct (socktype s =? MTCP_SOCK_LISTENER); [apply calm; [apply quiet_CloseListeningSocket|frames|done]|].
  destruct (socktype s =? MTCP_SOCK_EPOLL); [apply calm; [apply quiet_CloseEpollSocket|frames|done]|].
  destruct (socktype s =? MTCP_SOCK_PIPE); [apply calm; [apply quiet_PipeClose|frames|done]|by apply wpe_ret].
Qed.

(** *** Connecting *)

Lemma app_inv_streams m m' : app_queues m' = app_queues m -> streams m' = streams m -> app_inv m -> app_inv m'.
Proof using.
  intros Hq Hs [Hw Hl]. split; [by apply (queues_wf_same m)|].
  intros a. rewrite (proj2 (proj2 (app_queues_handed _ _ Hq))). unfold alive. rewrite Hs. apply Hl.
Qed.

Lemma fetched_leased p r sa ok p' : ap_wf p -> fetched p r sa ok p' -> r.1 = 0 ->
  leased p' = leased p ++ [r.2] /\ r.2 ∉ leased p.
Proof using.
  intros Hp (Hp' & Hpool & _ & [(_ & w & _ & Hw & _ & Hu)|[-> _]]) H0; [|done].
  assert (E : forall l : list Z, omap (entry p') l = omap (entry p) l).
  { intros l. induction l as [|x l IH]; [done|]. cbn. rewrite IH. unfold entry. by rewrite Hpool. }
  assert (El : leased p' = leased p ++ [r.2]).
  { unfold leased. rewrite E, Hu, omap_app. cbn. by rewrite Hw. }
  split; [done|]. destruct (leased_NoDup _ Hp') as [Hn _]. rewrite El in Hn.
  apply list.NoDup_app in Hn as (_ & Hn & _). intros Hin. by apply (Hn _ Hin), list_elem_of_singleton.
Qed.

(** The pool may lease more. *)
Lemma stack_inv_ap m p p' : stack_inv None m -> ap m = Some p -> ap_wf p' ->
  (forall x, x ∈ leased p -> x ∈ leased p') -> stack_inv None (m <| ap := Some p' |>).
Proof using.
  intros [H1 H2 H3 [Tf Tt Tk Tn Tr Tp Tb Ti]] Hp Hwf Hl. split.
  - by apply (senders_inv_same None m).
  - by apply (timers_inv_same m).
  - by apply (timeout_inv_same m).
  - split; try done. intros a s Ha Hb. destruct (Tb a s Ha Hb) as (q & Hq & _ & Hin).
    exists p'. split_and!; [done..|]. apply Hl. by replace p with q by congruence.
Qed.

(** A stream whose address was leased for it. *)
Lemma stack_inv_bind m a s p : stack_inv None m -> streams m !! a = Some s -> ap m = Some p -> ap_wf p ->
  addr_of s ∈ leased p ->
  (forall b t, b <> a -> streams m !! b = Some t -> is_bound_addr t = true -> addr_of t <> addr_of s) ->
  stack_inv None (m <| streams ::= insert a (s <| is_bound_addr := true |>) |>).
Proof using.
  intros [H1 H2 H3 [Tf Tt Tk Tn Tr Tp Tb Ti]] Ha Hp Hwf Hl Hne.
  set (s' := s <| is_bound_addr := true |>). set (m' := upd streams _ m).
  assert (Hlook : forall b t, streams m' !! b = Some t ->
    (b = a /\ t = s') \/ (b <> a /\ streams m !! b = Some t)).
  { intros b t Hb. change (streams m') with (<[a := s']> (streams m)) in Hb.
    apply lookup_insert_Some in Hb. destruct Hb as [[<- <-]|[? ?]]; [by left|by right]. }
  assert (Hold : forall b t, streams m' !! b = Some t -> exists t0, streams m !! b = Some t0 /\
    on_hash_table t = on_hash_table t0 /\ key_of t = key_of t0 /\ nif_out (sndvar t) = nif_out (sndvar t0)).
  { intros b t Hb. destruct (Hlook b t Hb) as [[-> ->]|[_ Hb']]; eauto. }
  split.
  - apply (senders_inv_same None m); [done|done|]. by eapply same_by_insert.
  - apply (timers_inv_same m); [done|done|]. by eapply same_by_insert.
  - apply (timeout_inv_same m); [done|done|]. by eapply same_by_insert.
  - split; try done.
    + intros idx. eapply (tracks_same key_of); [|intros x y E; by rewrite E|apply Tf]. by eapply same_by_insert.
    + intros b t Hb. destruct (Hold b t Hb) as (t0 & Ht0 & -> & _). eauto.
    + intros b c t u Hb Hc E. destruct (Hold b t Hb) as (t0 & Ht0 & _ & E1 & _).
      destruct (Hold c u Hc) as (u0 & Hu0 & _ & E2 & _). eapply Tk; [done|done|congruence].
    + intros b t Hb. destruct (Hold b t Hb) as (t0 & Ht0 & _ & _ & ->). eauto.
    + destruct Tp as (F & HF & Hd). exists F. split; [done|].
      change (streams m') with (<[a := s']> (streams m)). rewrite dom_insert_lookup_L; [done|by eexists].
    + intros b t Hb Hbt. destruct (Hlook b t Hb) as [[-> ->]|[_ Hb']]; [by exists p|by apply (Tb b)].
    + intros b c t u Hb Hc Ht Hu E.
      destruct (Hlook b t Hb) as [[-> ->]|[Hnb Hb']], (Hlook c u Hc) as [[-> ->]|[Hnc Hc']]; [done| | |eauto].
      * by destruct (Hne c u Hnc Hc' Hu).
      * by destruct (Hne b t Hnb Hb' Ht).
Qed.

(** The local address of a socket, with [dyn] one that is leased and that no other stream uses. *)
Definition local_of (s : socket_map) : sockaddr_in := SockaddrIn (sock_addr s) (sock_port s).

Definition local_found (i : Z) (m : mtcp_manager) (dyn : bool) (m' : mtcp_manager) : Prop :=
  handling m' /\ streams m' = streams m /\ app_queues m' = app_queues m /\
  exists s, smap m' !! i = Some s /\
    if dyn then exists p, ap m' = Some p /\ ap_wf p /\ local_of s ∈ leased p /\
      forall b t, streams m !! b = Some t -> is_bound_addr t = true -> addr_of t <> local_of s
    else m' = m.

Lemma socket_at_ok i m Q : (forall s, smap m !! i = Some s -> Q s m) -> wpe benign (socket_at i) Q m.
Proof using.
  intros HQ. unfold socket_at. rewrite wpe_bind, wpe_get, wpe_unwrap.
  destruct (smap m !! i) as [s|] eqn:E; [by apply HQ|split_and!; discriminate].
Qed.

Lemma fetch_local_ok c i da dp m p : handling m -> ap m = Some p -> ap_wf p ->
  wpe benign (fetch_local c i da dp)
    (fun r m' => match r with inl dyn => local_found i m dyn m' | inr _ => handling m' end) m.
Proof using.
  intros Hm Hp Hwf. unfold fetch_local. rewrite wpe_bind. apply socket_at_ok. intros s Hs.
  destruct (_ && _ && _).
  { rewrite wpe_bind, wpe_unwrap. destruct (GetRSSCPUCore _ _ _ _ _ _); [|split_and!; discriminate].
    rewrite wpe_ret. destruct (_ =? ac_cpu c); [|done]. split_and!; [done..|by exists s]. }
  rewrite wpe_bind, wpe_get. cbv zeta. rewrite wpe_bind, Hp.
  destruct (wp_elim _ _ _ (FetchAddressPerCore_ok p (SockaddrIn (sock_addr s) (sock_port s)) Hwf))
    as (r & p' & -> & Hf). rewrite wpe_bind, wpe_modify, wpe_ret. set (m1 := upd ap _ m).
  assert (Hm1 : (forall x, x ∈ leased p -> x ∈ leased p') -> handling m1).
  { intros Hl. destruct Hm as [Hi Ha]. split; [|by apply (app_inv_streams m)].
    eapply stack_inv_ap; [done|done|apply Hf|done]. }
  destruct (r.1 <? 0) eqn:Er.
  { rewrite wpe_ret. apply Hm1. destruct Hf as (_ & _ & _ & [[E _]|(_ & -> & _)]); [lia|done]. }
  destruct (fetched_leased p r _ _ p' Hwf Hf) as [El Hn].
  { destruct Hf as (_ & _ & _ & [[E _]|(E & _)]); [done|]. rewrite E in Er. done. }
  assert (Hh : handling m1) by (apply Hm1; intros x Hx; rewrite El; apply elem_of_app; by left).
  unfold socket_mod. rewrite !wpe_bind. apply socket_at_ok. intros s1 Hs1. rewrite wpe_modify, wpe_ret.
  split_and!; [by apply (still_handling m1)|done|done|]. eexists. split; [apply lookup_insert_eq|].
  exists p'. split_and!; [done|apply Hf| |].
  - rewrite El. apply elem_of_app. right. apply list_elem_of_singleton. by destruct r.2.
  - intros b t Hb Hbt E. apply Hn. destruct (tb_bound _ (si_table _ _ (proj1 Hm)) b t Hb Hbt) as (q & Hq & _ & Hin).
    replace q with p in Hin by congruence. rewrite E in Hin. by destruct r.2.
Qed.

(** The streams to the destination have leased addresses, and none has that of the socket. *)
Definition connectable (i : Z) (dst : sockaddr) (m : mtcp_manager) : Prop :=
  (exists p, ap m = Some p /\ ap_wf p) /\
  forall b t s, streams m !! b = Some t -> smap m !! i = Some s ->
    daddr t = sa_addr dst -> dport t = sa_port dst -> is_bound_addr t = true /\ addr_of t <> local_of s.

Lemma serves_connect_request i a : serves a (connect_request i a).
Proof using.
  intros m Hm Ha H0 Hn. unfold connect_request. rewrite wpe_bind.
  eapply wpe_mono; [by apply lends_connectq|]. intros r m1 (Hm1 & Ha1 & E1).
  rewrite wpe_bind, wpe_modify. set (m2 := upd wakeup_flag _ m1).
  assert (Hm2 : handling m2) by by apply (still_handling m1).
  destruct (r <? 0); rewrite wpe_bind; [|by apply socket_at_ok].
  eapply wpe_mono; [apply (hand_over QDestroy destroyq); try solve [over_side]|by intros u m3 [Hm3 _]].
  intros _. change (enders m2) with (enders m1). by rewrite E1.
Qed.

(** The lease of the address becomes the stream's. *)
Lemma bind_stream_ok a m : handling m ->
  (exists s p, streams m !! a = Some s /\ ap m = Some p /\ ap_wf p /\ addr_of s ∈ leased p /\
    forall b t, b <> a -> streams m !! b = Some t -> is_bound_addr t = true -> addr_of t <> addr_of s) ->
  wpe benign (stream_mod a (fun s => s <| is_bound_addr := true |>))
    (fun _ m' => handling m' /\ alive a m' /\ enders m' = enders m) m.
Proof using.
  intros [Hi [Hw Hh]] (s & p & Hs & Hp & Hwf & Hl & Hne). eapply stream_mod_live; [split; [exact Hi|by exists s]|].
  intros s' Hs'. replace s' with s by congruence. set (m' := upd streams _ m).
  assert (Hal : forall c, alive c m -> alive c m').
  { intros c [t Ht]. unfold alive. change (streams m') with (<[a := s <| is_bound_addr := true |>]> (streams m)).
    rewrite lookup_insert_is_Some. destruct (decide (a = c)); [by left|right; by split; [|exists t]]. }
  split_and!; [|apply Hal; by exists s|done]. split; [by eapply stack_inv_bind|].
  split; [by apply (queues_wf_same m)|]. intros c Hc. by apply Hal, Hh.
Qed.

(** A stream that was just created for the socket. *)
Lemma connect_stream_ok i a (dyn : bool) m : handling m -> alive a m -> a <> 0 -> a ∉ enders m ->
  (dyn = true -> exists s p, streams m !! a = Some s /\ ap m = Some p /\ ap_wf p /\ addr_of s ∈ leased p /\
    forall b t, b <> a -> streams m !! b = Some t -> is_bound_addr t = true -> addr_of t <> addr_of s) ->
  wpe benign (connect_stream i a dyn) (fun _ m' => handling m') m.
Proof using.
  intros Hm Ha H0 Hn Hd. unfold connect_stream. rewrite wpe_bind.
  eapply (wpe_mono _ _ (fun _ m1 => handling m1 /\ alive a m1 /\ enders m1 = enders m)).
  - rewrite wpe_when. destruct dyn; [by apply bind_stream_ok, Hd|done].
  - intros u m1 (Hm1 & Ha1 & E1). rewrite <- E1 in Hn. revert m1 Hm1 Ha1 H0 Hn E1.
    assert (Hs : serves a (stream_mod a (fun s => s <| sndvar ::= fun v => v <| cwnd := 1 |>
      <| ssthresh := mss v * 10 |> |> <| state := TCP_ST_SYN_SENT |>);; connect_request i a)).
    { apply serves_bind; [stab|frames|]. intros _. apply serves_connect_request. }
    intros m1 Hm1 Ha1 H0 Hn _. by apply Hs.
Qed.

Lemma frames_ap_CreateTCPStream sock ty sa sp da dp : frames ap (CreateTCPStream sock ty sa sp da dp).
Proof using. frames. Qed.

Lemma mtcp_connect_ok c i dst m : handling m -> live_object i m -> (forall d, dst = Some d -> connectable i d m) ->
  wpe benign (mtcp_connect c i dst) (fun _ m' => handling m') m.
Proof using.
  intros Hm Hl Hc. apply enter; [done|]. intros s Hs. guards. destruct dst as [d|]; [|by apply wpe_ret].
  destruct (Hc d eq_refl) as [(p & Hp & Hwf) Hfree]. destruct (negb (valid_inet d)); [by apply wpe_ret|].
  destruct (sock_obj s =? 0) eqn:E0; cbn [negb].
  2: { apply (lend_live i s); [done..|by apply Z.eqb_neq|]. lends. }
  rewrite wpe_bind. eapply wpe_mono; [by eapply fetch_local_ok|]. intros [dyn|e] m1 H1; [|by apply wpe_ret].
  destruct H1 as (Hm1 & Es & Eq & s1 & Hs1 & Hdyn). rewrite wpe_bind. apply socket_at_ok. intros s1' Hs1'.
  replace s1' with s1 in * by congruence. rewrite wpe_bind.
  eapply wpe_mono; [apply (wpe_frames ap); [apply frames_ap_CreateTCPStream|];
    apply (wpe_frames app_queues); [frames|]; apply CreateTCPStream_created; [apply Hm1|]|].
  - intros b t Hb E. rewrite Es in Hb. unfold key_of in E. injection E as E1 E2 E3 E4.
    destruct (Hfree b t s Hb Hs) as [Hbt Hne]; [done..|]. destruct dyn.
    + destruct Hdyn as (p' & _ & _ & _ & Hu). apply (Hu b t Hb Hbt). unfold addr_of, local_of. congruence.
    + apply Hne. unfold addr_of, local_of. congruence.
  - intros a m2 [[Ha Hq2] Hap2]. cbv beta in Ha. destruct (a =? 0) eqn:Ea0.
    { rewrite wpe_ret. destruct Ha as [Hi Hst]. split; [done|]. apply (app_inv_streams m1); [done..|apply Hm1]. }
    apply Z.eqb_neq in Ea0. destruct Ha as ([Hi2 Hal] & Ho & Hnew & s2 & Hs2 & Hk & _).
    apply connect_stream_ok; [|done|done| |].
    + split; [done|]. eapply app_inv_others; [done|done|by left|apply Hm1].
    + rewrite (proj1 (app_queues_handed _ _ Hq2)). intros Hin. destruct Hm1 as [_ [_ Hh]].
      destruct (Hh a) as [x Hx]; [unfold handed; apply elem_of_app; auto|congruence].
    + intros ->. destruct Hdyn as (p' & Hp' & Hwf' & Hin & Hu). exists s2, p'.
      unfold key_of in Hk. injection Hk as K1 K2 K3 K4.
      assert (Ea : addr_of s2 = local_of s1) by (unfold addr_of, local_of; congruence). rewrite Ea.
      split_and!; [done|congruence|done..|]. intros b t Hb Ht Hbt. apply (Hu b t); [|done].
      rewrite <- Es. by rewrite <- (ot_stream _ _ _ Ho b Hb).
Qed.

Lemma stack_inv_repool m o : stack_inv None m -> (forall a s, streams m !! a = Some s -> is_bound_addr s = false) ->
  stack_inv None (m <| ap := o |>).
Proof using.
  intros [H1 H2 H3 [Tf Tt Tk Tn Tr Tp Tb Ti]] Hb. split.
  - by apply (senders_inv_same None m).
  - by apply (timers_inv_same m).
  - by apply (timeout_inv_same m).
  - split; try done. intros a s Ha E. pose proof (Hb a s Ha) as Hf. rewrite E in Hf. done.
Qed.

(** No stream has a leased address, and the pool has as many addresses as fit. *)
Definition poolable (c : app_ctx) (n : Z) (m : mtcp_manager) : Prop :=
  (forall a s, streams m !! a = Some s -> is_bound_addr s = false) /\
  0 <= n /\ n * (MAX_PORT - MIN_PORT) < 2147483648 /\ 0 < num_cpus c < 4294967296.

Lemma quiet_output_addr d : quiet (output_addr d).
Proof using. pose proof quiet_GetOutputInterface. pose proof quiet_eidx_of. pose proof quiet_eth_at. unfold output_addr. stab. Qed.

Lemma mtcp_init_rss_ok c sb n da dp m : handling m -> poolable c n m ->
  wpe benign (mtcp_init_rss c sb n da dp) (fun _ m' => handling m') m.
Proof using.
  intros Hm (Hb & Hn & Hmax & Hq). unfold mtcp_init_rss. destruct (GetMTCPManager c); [by apply wpe_ret|].
  rewrite wpe_bind, wpe_modify. set (m1 := upd ap _ m).
  assert (Hpool : forall m2 o, still m1 m2 -> app_queues m2 = app_queues m1 -> handling (m2 <| ap := o |>)).
  { intros m2 o Hs2 Hq2. destruct (still_handling m1 m2 Hs2 Hq2) as [Hi2 Ha2].
    { destruct Hm as [Hi Ha]. split; [by apply stack_inv_repool|by apply (app_inv_streams m)]. }
    split; [|by apply (app_inv_streams m2)]. apply stack_inv_repool; [done|]. by rewrite (proj2 Hs2). }
  rewrite wpe_bind. eapply (wpe_mono _ _ (fun _ m2 => still m1 m2 /\ app_queues m2 = app_queues m1)).
  - destruct (sb =? INADDR_ANY); [|by apply wpe_ret].
    eapply wpe_mono; [apply (wpe_frames app_queues); [frames|by apply quiet_output_addr]|]. by intros r m2 [[_ ?] ?].
  - intros [base|] m2 [Hs2 Hq2].
    2: { rewrite wpe_ret. apply (still_handling m1); [done..|]. by apply (Hpool m1 None). }
    rewrite wpe_bind. eapply (wpe_mono _ _ (fun _ m3 => still m1 m3 /\ app_queues m3 = app_queues m1));
      [by unfold allocate, env_tick; rewrite !wpe_bind, wpe_get, wpe_bind, wpe_modify, wpe_ret, wpe_ret|].
    intros x m3 [Hs3 Hq3]. assert (Hm3 : handling m3).
    { apply (still_handling m1); [done..|]. by apply (Hpool m1 None). }
    destruct (negb (x =? 0)).
    + destruct (CreateAddressPoolPerCore_ok (ac_cpu c) (num_cpus c) base n da dp (endian_check c) Hn Hmax Hq)
        as (p & -> & _). rewrite wpe_bind, wpe_modify, wpe_ret. by apply Hpool.
    + unfold CreateAddressPoolPerCore. rewrite (proj2 (Z.eqb_neq _ _)) by lia. cbn [negb]. by apply wpe_ret.
Qed.

(** *** Sockets *)

(** There is no free socket, or one of them has no event that waits. *)
Definition allocatable (m : mtcp_manager) : Prop :=
  free_smap m = [] \/ exists i s, i ∈ free_smap m /\ smap m !! i = Some s /\ events s = 0.

(** The state but for the list of free sockets. *)
Definition but_free (m m' : mtcp_manager) : Prop :=
  smap m' = smap m /\ still m m' /\ app_queues m' = app_queues m.

Lemma free_socket_ok n m : free_smap m = [] \/
    (exists l1 i l2 s, free_smap m = l1 ++ i :: l2 /\ (length l1 <= n)%nat /\ smap m !! i = Some s /\ events s = 0) ->
  wpe benign (free_socket n) (fun _ m' => but_free m m') m.
Proof using.
  revert m. induction n as [|n IH]; intros m Hfree; cbn [free_socket]; rewrite wpe_bind, wpe_get.
  all: destruct (free_smap m) as [|x l] eqn:El; [by apply wpe_ret|].
  all: rewrite !wpe_bind, wpe_modify, wpe_bind; apply socket_at_ok; intros s Hs.
  all: destruct Hfree as [|(l1 & i & l2 & t & E & Hn & Ht & He)]; [done|].
  all: destruct l1 as [|y l1]; cbn in E; injection E as -> ->.
  1,3: change (smap m !! i = Some s) in Hs; replace s with t by congruence; by rewrite He.
  - cbn in Hn. lia.
  - destruct (negb (events s =? 0)); [|done]. rewrite wpe_bind, wpe_modify.
    eapply wpe_mono; [apply IH|by intros r m' H']. right. exists l1, i, (l2 ++ [y]), t.
    split_and!; [cbn; unfold TAILQ_INSERT_TAIL; by rewrite <- app_assoc|cbn in Hn; lia|done..].
Qed.

Lemma AllocateSocket_ok ty m : allocatable m ->
  wpe benign (AllocateSocket ty) (fun _ m' => still m m' /\ app_queues m' = app_queues m) m.
Proof using.
  intros Ha. unfold AllocateSocket. rewrite wpe_bind, wpe_get, wpe_bind.
  eapply wpe_mono; [apply free_socket_ok|].
  - destruct Ha as [|(i & s & Hi & Hs & He)]; [by left|right].
    apply list_elem_of_split in Hi as (l1 & l2 & E). exists l1, i, l2, s.
    split_and!; [done| |done..]. rewrite E, length_app. lia.
  - intros [i|] m1 (_ & Hs1 & Hq1); [|by apply wpe_ret]. unfold socket_mod. rewrite !wpe_bind.
    apply socket_at_ok. intros s Hs. by rewrite wpe_modify, wpe_ret.
Qed.

Lemma mtcp_socket_ok c dom ty m : handling m -> allocatable m ->
  wpe benign (mtcp_socket c dom ty) (fun _ m' => handling m') m.
Proof using.
  intros Hm Ha. unfold mtcp_socket, with_manager. destruct (GetMTCPManager c); [by apply wpe_ret|]. guards.
  rewrite wpe_bind. eapply wpe_mono; [by apply AllocateSocket_ok|].
  intros [i|] m1 [Hs Hq]; [|apply wpe_ret; by apply (still_handling m)].
  rewrite wpe_bind. apply socket_at_ok. intros s _. apply wpe_ret. by apply (still_handling m).
Qed.

(** *** Accepting *)

(** What is known of the next stream of the listener behind [i]. *)
Definition acceptable (i : Z) (m : mtcp_manager) : Prop :=
  forall s x, smap m !! i = Some s -> listener_heap m !! sock_obj s = Some x -> fifo_inv (acceptq x) /\
    forall a, a ∈ fifo_view (acceptq x) -> alive a m.

Lemma quiet_listener_behind p : quiet (listener_behind p).
Proof using. unfold listener_behind. stab. Qed.

Hint Resolve quiet_listener_behind : stab.

Lemma accept_stream_ok l a m : handling m -> alive a m -> allocatable m ->
  wpe benign (accept_stream l a) (fun _ m' => handling m') m.
Proof using.
  intros Hm Ha Hal. unfold accept_stream. rewrite wpe_bind.
  eapply stream_at_live; [split; [apply Hm|done]|]. intros s Hs. rewrite wpe_bind.
  eapply (wpe_mono _ _ (fun _ m1 => handling m1)).
  - destruct (socket s) as [k|]; [by apply wpe_ret|]. rewrite wpe_bind.
    eapply wpe_mono; [by apply AllocateSocket_ok|]. intros [i|] m1 [Hs1 Hq1];
      [|apply wpe_ret; by apply (still_handling m)].
    eapply wpe_mono; [apply (touches_handling a); [stab|frames|by apply (still_handling m)|]|by intros r m2 [[? _] _]].
    unfold alive. by rewrite (proj2 Hs1).
  - intros [i|] m1 Hm1; [|by apply wpe_ret]. apply calm; [stab|frames|done].
Qed.

Lemma accept_from_ok l m : handling m -> allocatable m ->
  (forall x, listener_heap m !! l = Some x -> fifo_inv (acceptq x) /\
     forall a, a ∈ fifo_view (acceptq x) -> alive a m) ->
  wpe benign (accept_from l) (fun _ m' => handling m') m.
Proof using.
  intros Hm Hal Hx. unfold accept_from, accept_dequeue, listener_behind, listener_at. rewrite !wpe_bind.
  destruct (l =? 0); [split_and!; discriminate|]. rewrite wpe_bind, wpe_get, wpe_unwrap.
  destruct (listener_heap m !! l) as [x|] eqn:El; [|split_and!; discriminate].
  destruct (Hx x eq_refl) as [Hf Ha]. destruct (fifo_view (acceptq x)) as [|a q] eqn:Hv.
  - pose proof (fifo_deq_none _ Hf Hv) as Hd. cbn in Hd. unfold Click.StreamDequeue. rewrite Hd.
    rewrite wpe_bind, wpe_modify, wpe_ret. cbn [negb Z.eqb]. apply calm; [stab|frames|by apply (still_handling m)].
  - destruct (fifo_deq_some _ _ _ Hf Hv) as (q' & Hd & _). cbn in Hd. unfold Click.StreamDequeue. rewrite Hd.
    assert (H0 : a <> 0) by (apply (fifo_inv_nonnull _ a Hf); rewrite Hv; by left).
    rewrite wpe_bind, wpe_modify, wpe_ret, (proj2 (Z.eqb_neq _ _) H0).
    apply accept_stream_ok; [by apply (still_handling m)|by apply Ha; left|done].
Qed.

Lemma mtcp_accept_ok c i m : handling m -> allocatable m -> acceptable i m ->
  wpe benign (mtcp_accept c i) (fun _ m' => handling m') m.
Proof using.
  intros Hm Hal Ha. apply enter; [done|]. intros s Hs. guards. apply accept_from_ok; [done..|].
  intros x Hx. by apply (Ha s x).
Qed.

(** *** Names, options, events *)

Lemma quiet_mtcp_bind c i d : quiet (mtcp_bind c i d).
Proof using. unfold mtcp_bind, with_endpoint, with_manager, with_socket. stab. Qed.

Lemma quiet_mtcp_setsock_nonblock c i : quiet (mtcp_setsock_nonblock c i).
Proof using. unfold mtcp_setsock_nonblock, with_manager, with_socket. stab. Qed.

Hint Resolve quiet_mtcp_setsock_nonblock : stab.

Lemma quiet_mtcp_listen c ok i n : quiet (mtcp_listen c ok i n).
Proof using. unfold mtcp_listen, with_manager, with_socket, allocate, ListenerHTInsert. stab. Qed.

Lemma endpoint_stream s i m : smap m !! i = Some s -> endpoint s = true -> not_listening i m ->
  socktype s = MTCP_SOCK_STREAM.
Proof using.
  unfold endpoint. intros Hs He Hn. specialize (Hn s Hs). apply orb_true_iff in He as [He|He]; lia.
Qed.

Lemma mtcp_getpeername_ok c i n m : handling m -> live_object i m -> not_listening i m ->
  wpe benign (mtcp_getpeername c i n) (fun _ m' => handling m') m.
Proof using.
  intros Hm Hl Hn. apply enter; [done|]. intros s Hs. guards. apply negb_false_iff in Heqb1.
  unfold mtcp_is_connected. destruct (sock_obj s =? 0) eqn:E0; [by rewrite wpe_bind, wpe_ret|].
  apply (lend_live i s); [done|done|done|by eapply endpoint_stream|by apply Z.eqb_neq|]. lends.
Qed.

Lemma mtcp_getsockopt_ok c i so last m : handling m -> live_object i m ->
  wpe benign (mtcp_getsockopt c i so last) (fun _ m' => handling m') m.
Proof using.
  intros Hm Hl. apply enter; [done|]. intros s Hs. guards.
  destruct (so && _) eqn:Eso; [|by apply wpe_ret]. apply andb_true_iff in Eso as [_ Et]. unfold GetSocketError.
  guards. apply (lend_live i s); [done|done|done|by apply Z.eqb_eq|by apply Z.eqb_neq|]. lends.
Qed.

Lemma mtcp_socket_ioctl_ok c i r null m : handling m -> live_object i m -> not_listening i m ->
  wpe benign (mtcp_socket_ioctl c i r null) (fun _ m' => handling m') m.
Proof using.
  intros Hm Hl Hn. apply enter; [done|]. intros s Hs. guards. apply negb_false_iff in Heqb.
  destruct r as [|arg|]; [guards|apply calm; [stab|frames|done]|by apply wpe_ret].
  apply (lend_live i s); [done|done|done|by eapply endpoint_stream|by apply Z.eqb_neq|]. lends.
Qed.

Lemma quiet_RaisePendingPipeEvents p i : quiet (RaisePendingPipeEvents p i).
Proof using. unfold RaisePendingPipeEvents. stab. Qed.

Lemma RaisePendingStreamEvents_ok p i s m : handling m -> live_object i m -> smap m !! i = Some s ->
  socktype s = MTCP_SOCK_STREAM -> wpe benign (RaisePendingStreamEvents p i) (fun _ m' => handling m') m.
Proof using.
  intros Hm Hl Hs Ht. unfold RaisePendingStreamEvents. rewrite wpe_bind. apply socket_at_ok.
  intros s' Hs'. replace s' with s by congruence. cbv zeta. guards.
  apply (lend_live i s); [done..|by apply Z.eqb_neq|]. lends.
Qed.

Lemma register_events_ok p i ev d m : handling m -> live_object i m ->
  wpe benign (register_events p i ev d) (fun _ m' => handling m') m.
Proof using.
  intros Hm Hl. unfold register_events, socket_mod. rewrite !wpe_bind. apply socket_at_ok. intros s Hs.
  rewrite wpe_modify, wpe_bind. set (m1 := upd smap _ m). assert (Hm1 : handling m1) by by apply (still_handling m).
  assert (Hl1 : live_object i m1).
  { intros t Ht Hty H0. change (smap m1) with (<[i := s <| ep_data := d |>
      <| epoll := Z.lor ev (Z.lor MTCP_EPOLLERR MTCP_EPOLLHUP) |>]> (smap m)) in Ht.
    rewrite lookup_insert_eq in Ht. injection Ht as <-. by apply (Hl s). }
  apply socket_at_ok. intros t Ht. destruct (socktype t =? MTCP_SOCK_STREAM) eqn:Et.
  - rewrite wpe_bind. eapply wpe_mono; [eapply (RaisePendingStreamEvents_ok p i t); [done..|by apply Z.eqb_eq]|].
    by intros r m2 Hm2; apply wpe_ret.
  - pose proof quiet_RaisePendingPipeEvents. apply calm; [stab|frames|done].
Qed.

Lemma mtcp_epoll_ctl_ok c e op i ev m : handling m -> live_object i m ->
  wpe benign (mtcp_epoll_ctl c e op i ev) (fun _ m' => handling m') m.
Proof using.
  intros Hm Hl. unfold mtcp_epoll_ctl, with_manager at 1. destruct (GetMTCPManager c); [by apply wpe_ret|].
  rewrite wpe_bind, wpe_get. guards. apply enter; [done|]. intros s Hs. guards.
  rewrite wpe_bind. apply socket_at_ok. intros t Ht.
  assert (Hreg : forall o, wpe benign ('(v, d) ← unwrap NullPointer o; register_events (sock_obj s) i v d;; mret (Ret 0))
    (fun _ m' => handling m') m).
  { intros o. rewrite wpe_bind, wpe_unwrap. destruct o as [[v d]|]; [|split_and!; discriminate].
    rewrite wpe_bind. eapply wpe_mono; [by apply register_events_ok|]. by intros r m2 Hm2; apply wpe_ret. }
  destruct (op =? MTCP_EPOLL_CTL_ADD); [guards; apply Hreg|].
  destruct (op =? MTCP_EPOLL_CTL_MOD); [guards; apply Hreg|]. apply calm; [stab|frames|done].
Qed.

(** *** Sending at once *)

(** The state in which a round leaves the stack. *)
Definition sound (m : mtcp_manager) : Prop := stack_inv None m /\ queues_wf m.

Lemma handling_sound m : handling m -> sound m.
Proof using. by intros [Hi [Hw _]]. Qed.

Hint Resolve kept_for_each kept_for_range kept_write_sender : frames.

Lemma kept_WritePacketsToChunks ts : kept (WritePacketsToChunks ts).
Proof using. frames. Qed.

Lemma flush_calls_ok ts m : handling m -> wpe benign (flush_calls ts) (fun _ m' => sound m') m.
Proof using.
  intros Hm. unfold flush_calls. rewrite wpe_bind, wpe_get, wpe_bind.
  eapply (wpe_mono _ _ (fun _ m1 => handling m1)).
  - apply calm; [pose proof quiet_FlushEpollEvents; stab|frames|done].
  - intros _ m1 Hm1. rewrite wpe_bind. eapply wpe_mono; [by apply HandleApplicationCalls_ok|].
    intros u m2 [[Hi2 [Hw2 _]] _]. eapply wpe_mono;
      [eapply wpe_frames; [apply kept_WritePacketsToChunks|by apply safely_WritePacketsToChunks]|].
    intros r m3 [Hi3 Hq3]. split; [done|by apply (queues_wf_same m2)].
Qed.

(** What [mtcp_writev] does before it sends. *)
Lemma lends_writev_prepare a s i iov : lends a (
  to_write ← writev_loop a iov 0; whenM (0 <? to_write) (request_send a);;
  raise_writable s i a;; mret to_write).
Proof using. lends. Qed.

Lemma mtcp_writev_ok c ts i iov m : handling m -> live_object i m ->
  wpe benign (mtcp_writev c ts i iov) (fun _ m' => sound m') m.
Proof using.
  intros Hm Hl. unfold mtcp_writev, with_manager, with_socket.
  destruct (GetMTCPManager c); [by apply wpe_ret, handling_sound|]. rewrite wpe_bind, wpe_get.
  destruct (in_range i m); [|by apply wpe_ret, handling_sound]. rewrite wpe_bind. apply socket_at_ok. intros s Hs.
  destruct (socktype s =? MTCP_SOCK_UNUSED); [by apply wpe_ret, handling_sound|].
  destruct (negb (socktype s =? MTCP_SOCK_STREAM)) eqn:Et; [by apply wpe_ret, handling_sound|].
  unfold with_writer. cbv zeta. destruct (sock_obj s =? 0) eqn:E0; [by apply wpe_ret, handling_sound|].
  apply negb_false_iff, Z.eqb_eq in Et. apply Z.eqb_neq in E0. pose proof (Hl s Hs Et E0) as Ha.
  rewrite wpe_bind. eapply stream_at_live; [split; [apply Hm|done]|]. intros t _.
  destruct (negb _); [by apply wpe_ret, handling_sound|].
  pose proof (lends_writev_prepare (sock_obj s) s i iov m Hm Ha E0) as Hp. rewrite wpe_bind in Hp. rewrite wpe_bind.
  eapply wpe_mono; [exact Hp|]. intros n m1 H1. cbv beta in H1. rewrite wpe_bind in H1. rewrite wpe_bind.
  eapply wpe_mono; [exact H1|]. intros u m2 H2. cbv beta in H2. rewrite wpe_bind in H2. rewrite wpe_bind.
  eapply wpe_mono; [exact H2|]. intros u2 m3 H3. cbv beta in H3. rewrite wpe_ret in H3. destruct H3 as [Hm3 _].
  rewrite wpe_bind, wpe_when. destruct (0 <? n); [|by apply wpe_ret, handling_sound].
  eapply wpe_mono; [by apply flush_calls_ok|]. by intros u3 m4 Hm4; apply wpe_ret.
Qed.

(** ** All calls *)

Inductive call :=
| CSocket (domain type : Z)
| CBind (i : Z) (addr : option sockaddr)
| CListen (locks : bool) (i backlog : Z)
| CAccept (i : Z)
| CInitRss (saddr_base num_addr daddr dport : Z)
| CConnect (i : Z) (addr : option sockaddr)
| CClose (i : Z)
| CAbort (i : Z)
| CRecv (i len flags : Z)
| CReadv (i : Z) (iov : list Z)
| CWrite (i : Z) (buf : list Z) (len : Z)
| CWritev (ts i : Z) (iov : list (list Z))
| CNonblock (i : Z)
| CIoctl (i : Z) (request : ioctl_request) (null : bool)
| CGetpeername (i addrlen : Z)
| CGetsockopt (i : Z) (so_error : bool) (last : errno)
| CEpollCtl (epid op i : Z) (event : option (Z * Z)).

Definition perform (c : app_ctx) (x : call) : MT unit :=
  match x with
  | CSocket d t => mtcp_socket c d t;; mret tt
  | CBind i a => mtcp_bind c i a;; mret tt
  | CListen l i n => mtcp_listen c l i n;; mret tt
  | CAccept i => mtcp_accept c i;; mret tt
  | CInitRss b n d p => mtcp_init_rss c b n d p;; mret tt
  | CConnect i a => mtcp_connect c i a;; mret tt
  | CClose i => mtcp_close c i;; mret tt
  | CAbort i => mtcp_abort c i;; mret tt
  | CRecv i n f => mtcp_recv c i n f;; mret tt
  | CReadv i v => mtcp_readv c i v;; mret tt
  | CWrite i b n => mtcp_write c i b n;; mret tt
  | CWritev t i v => mtcp_writev c t i v;; mret tt
  | CNonblock i => mtcp_setsock_nonblock c i;; mret tt
  | CIoctl i r n => mtcp_socket_ioctl c i r n;; mret tt
  | CGetpeername i n => mtcp_getpeername c i n;; mret tt
  | CGetsockopt i so e => mtcp_getsockopt c i so e;; mret tt
  | CEpollCtl e op i ev => mtcp_epoll_ctl c e op i ev;; mret tt
  end.

(** What the caller has to know of the socket. *)
Definition permitted (c : app_ctx) (x : call) (m : mtcp_manager) : Prop :=
  match x with
  | CBind _ _ | CListen _ _ _ | CNonblock _ => True
  | CSocket _ _ => allocatable m
  | CAccept i => allocatable m /\ acceptable i m
  | CInitRss _ n _ _ => poolable c n m
  | CConnect i a => live_object i m /\ forall d, a = Some d -> connectable i d m
  | CClose i | CAbort i => own_object i m
  | CIoctl i _ _ | CGetpeername i _ => live_object i m /\ not_listening i m
  | CRecv i _ _ | CReadv i _ | CWrite i _ _ | CWritev _ i _ | CGetsockopt i _ _ | CEpollCtl _ _ i _ => live_object i m
  end.

Lemma discard_result {A} (P : mtcp_manager -> Prop) (f : MT A) m :
  wpe benign f (fun _ m' => P m') m -> wpe benign (f;; mret tt) (fun _ m' => P m') m.
Proof using. intros Hf. rewrite wpe_bind. eapply wpe_mono; [exact Hf|]. by intros r m'; rewrite wpe_ret. Qed.

Lemma perform_ok c x m : handling m -> permitted c x m -> wpe benign (perform c x) (fun _ m' => sound m') m.
Proof using.
  intros Hm Hp. destruct x; cbn [perform permitted] in *; apply discard_result;
    try (apply mtcp_writev_ok; done); (eapply (wpe_mono _ _ (fun _ m' => handling m')); [|intros r m'; apply handling_sound]).
  - by apply mtcp_socket_ok.
  - apply calm; [apply quiet_mtcp_bind|frames|done].
  - apply calm; [apply quiet_mtcp_listen|frames|done].
  - destruct Hp. by apply mtcp_accept_ok.
  - by apply mtcp_init_rss_ok.
  - destruct Hp. by apply mtcp_connect_ok.
  - by apply mtcp_close_ok.
  - by apply mtcp_abort_ok.
  - by apply mtcp_recv_ok.
  - by apply mtcp_readv_ok.
  - by apply mtcp_write_ok.
  - apply calm; [apply quiet_mtcp_setsock_nonblock|frames|done].
  - destruct Hp. by apply mtcp_socket_ioctl_ok.
  - destruct Hp. by apply mtcp_getpeername_ok.
  - by apply mtcp_getsockopt_ok.
  - by apply mtcp_epoll_ctl_ok.
Qed.

End ApiSafe.
