(* ===== verification/Stack.v ===== *)
(** * The stack as a whole

    A manager that was just created satisfies the invariant of [StackInv.v]; every call
    the main loop makes keeps it, and so does a round of the main loop. *)

From S2P Require Import Prelude SeqArith Bytes Queues MemPool SendBuffer RingBuffer Reassembly AddrPool Mtcp TcpUtil Output Events Fhash Lists TcpStream TcpOut Timer TcpIn NetIn Core Frame StackInv ListOps Benign StreamLife OutSafe TimerSafe InSafe NetSafe CoreSafe.

(** ** The initial state *)

(** Every allocation succeeds; the arguments are the addresses of the six memory blocks and
    the sizes of the three structures. *)
Record blocks := Blocks { b_flow : Z; b_rv : Z; b_sv : Z; b_snd : Z; b_rcv : Z; b_frag : Z }.
Record sizes := Sizes { z_stream : Z; z_rv : Z; z_sv : Z }.

Definition good_allocs (b : blocks) (z : sizes) : init_allocs :=
  InitAllocs true (true, true) (true, true) (true, Some (b_flow b)) (true, Some (b_rv b))
    (true, Some (b_sv b)) (true, (true, Some (b_snd b)), (true, true))
    (all_allocs (b_rcv b) (b_frag b)) true true (true, true) (true, true) (true, true)
    (true, true) (true, true) (true, true) (true, true) (true, true) true (fun _ => true) true
    (z_stream z) (z_rv z) (z_sv z).

Definition chunk_size_ok (n : Z) : Prop := sizeof_mem_chunk <= n < 2147483647 /\ Z.rem n 4 = 0.

(** What a usable configuration satisfies. *)
Record config_ok (c : mtcp_config) : Prop := {
  co_concurrency : 0 < max_concurrency c < 2147483648;
  co_buffers : 0 < max_num_buffers c < 2147483648;
  co_snd : chunk_size_ok (sndbuf_size c);
  co_rcv : chunk_size_ok (rcvbuf_size c);
  co_routes : routes_ok c
}.

Record blocks_ok (b : blocks) : Prop := {
  bo_pools : 0 < b_flow b /\ 0 < b_rv b /\ 0 < b_sv b;
  bo_bufs : 0 < b_snd b /\ 0 < b_rcv b /\ 0 < b_frag b
}.

Record sizes_ok (z : sizes) : Prop := {
  zo_stream : chunk_size_ok (z_stream z);
  zo_rv : chunk_size_ok (z_rv z);
  zo_sv : chunk_size_ok (z_sv z)
}.

Lemma pool_for start size n : 0 < start -> chunk_size_ok size -> 0 < n < 2147483648 ->
  exists mp F, MPCreate true (Some start) size (u64 (size * n)) = Ok (Some mp) tt /\
    cp_inv mp F /\ cp_chunks mp = F.
Proof.
  intros Hs [Hz H4] Hn. destruct (create_pool start size n) as (mp & F & H1 & H2 & H3 & _); try done; [lia|].
  by exists mp, F.
Qed.

Lemma create_senders_ok n : forall i, exists ns, create_senders (fun _ => true) i n = Some ns /\
  forall k x, ns !! k = Some x -> exists j, x = MtcpSender j [] [] [] 0 0 0.
Proof.
  induction n as [|n IH]; intros i; cbn; [exists ∅; split; [done|]; intros k x; by rewrite lookup_empty|].
  destruct (IH (i + 1)) as (ns & -> & Hns). cbn. eexists. split; [done|]. intros k x.
  rewrite lookup_insert_Some. intros [[_ <-]|[_ Hk]]; eauto.
Qed.

(** A state without streams. *)
Record pristine (m : mtcp_manager) : Prop := {
  pr_streams : streams m = ∅;
  pr_senders : forall i x, sender_lookup m i = Some x -> exists j, x = MtcpSender j [] [] [] 0 0 0;
  pr_flows : tcp_flow_table m = ∅;
  pr_rto : rto_list (rto_store m) = ∅ /\ rto_list_cnt m = 0;
  pr_timewait : timewait_list m = [] /\ timewait_list_cnt m = 0;
  pr_timeout : timeout_list m = [] /\ timeout_list_cnt m = 0;
  pr_pool : exists F, cp_inv (flow_pool m) F;
  pr_routes : routes_ok (CONFIG m)
}.

Lemma tracks_empty P : tracks [] ∅ P.
Proof. split; [constructor|]. intros a. split; [by intros ?%not_elem_of_nil|]. by intros (s & Hs & _). Qed.

Lemma pristine_inv m : pristine m -> stack_inv None m.
Proof.
  intros [Hs Hx Hf [Hr Hrc] [Ht Htc] [Ho Hoc] [F Hp] Hc].
  assert (He : forall idx, bin ∅ idx = []) by (intros idx; unfold bin; by rewrite lookup_empty).
  split.
  - intros k i x Hi. destruct (Hx _ _ Hi) as [j ->]. rewrite Hs. destruct k; cbn; (split; [apply tracks_empty|done]).
  - split; rewrite ?Hs, ?Hr, ?Ht; try done; [intros idx; rewrite He|]; apply tracks_empty.
  - split; rewrite ?Hs, ?Ho; try done. apply tracks_empty.
  - split; rewrite ?Hs, ?Hf; try done; [intros idx; rewrite He; apply tracks_empty|].
    exists F. split; [done|]. set_solver.
Qed.

Lemma checked_eq {A B} (o : outcome unit (option A)) x (k : A -> outcome unit (option B)) r :
  o = Ok (Some x) tt -> k x = r -> checked o k = r.
Proof. by intros -> <-. Qed.

Lemma InitializeMTCPManager_ok b z c pools id arpm :
  blocks_ok b -> sizes_ok z -> config_ok c ->
  exists m, InitializeMTCPManager (good_allocs b z) c pools id arpm = Ok (Some m) tt /\
    pristine m /\ queues_wf m /\ handed m = [] /\ CONFIG m = c.
Proof.
  intros [(H1 & H2 & H3) (H4 & H5 & H6)] [Z1 Z2 Z3] [C1 C2 C3 C4 C5].
  destruct (pool_for _ _ _ H1 Z1 C1) as (fp & F & E1 & Hp1 & _).
  destruct (pool_for _ _ _ H2 Z2 C1) as (rvp & ? & E2 & _ & _).
  destruct (pool_for _ _ _ H3 Z3 C1) as (svp & ? & E3 & _ & _).
  destruct (pool_for _ _ _ H4 C3 C2) as (snd & ? & E4 & _ & _).
  destruct (pool_for _ _ _ H5 C4 C2) as (rcv & ? & E5 & _ & _).
  destruct (pool_for (b_frag b) sizeof_fragment_ctx (max_num_buffers c)) as (fmp & ? & E6 & _ & _); [done|by split|done|].
  destruct (create_senders_ok (length (eths c)) 0) as (ns & E7 & Hns).
  destruct (Click.CreateQueue_wf BACKLOG_SIZE _ ltac:(done) eq_refl) as (Wb & Vb & _).
  destruct (Click.CreateQueue_wf (max_concurrency c) _ ltac:(lia) eq_refl) as (Wq & Vq & _).
  destruct (Internal.CreateInternalStreamQueue_wf (max_concurrency c) _ ltac:(lia) eq_refl) as (Wi & Vi & _).
  eexists. split.
  { unfold InitializeMTCPManager; cbv zeta.
    do 3 (eapply checked_eq; [reflexivity|]).
    eapply checked_eq; [exact E1|]. eapply checked_eq; [exact E2|]. eapply checked_eq; [exact E3|].
    eapply checked_eq; [cbn -[u64]; unfold Manager.SBManagerCreate; cbn -[u64]; rewrite E4; reflexivity|].
    eapply checked_eq; [cbn -[u64]; unfold RBManagerCreate; cbn -[u64]; rewrite E5, E6; reflexivity|].
    do 11 (eapply checked_eq; [reflexivity|]). eapply checked_eq; [exact (f_equal given E7)|].
    reflexivity. }
  split; [|split; [|split]]; [split|split|..]; try done.
  - intros [|k] w Hx; [injection Hx as <-; eauto|by eapply Hns].
  - by exists F.
  - intros []; done.
  - unfold enders. cbn [closeq closeq_int resetq resetq_int destroyq fifo_view Click.click_fifo Internal.internal_fifo].
    rewrite !Vq, !Vi. constructor.
Qed.

(** ** A concrete stack *)

(** The state after running [f], for code that returns. *)
Definition after {A} (f : MT A) (m : mtcp_manager) : mtcp_manager :=
  match f m with Ok _ m' => m' | Fault _ => m end.

Lemma after_keeps {A} (P : mtcp_manager -> Prop) (f : MT A) m :
  wpe benign f (fun _ m' => P m') m -> P m -> P (after f m).
Proof. unfold wpe, after. by destruct (f m). Qed.

Lemma alive_check a m : bool_decide (is_Some (streams m !! a)) = true -> alive a m.
Proof. apply bool_decide_eq_true_1. Qed.

(** One interface at 10.0.0.1, a route to 10.0.0.0/8, small pools, a device without offloading. *)
#[export] Instance demo_platform : Platform := {|
  get_wptr := fun _ _ _ => true;
  dev_ioctl := None;
  calloc := fun n => 1000000 + 64 * Z.of_nat n;
  garbage := fun _ => replicate 64 0;
  rand_r := fun n => 1000 * Z.of_nat n
|}.

Definition demo_config : mtcp_config :=
  MtcpConfig [EthTable 0 [2; 0; 0; 0; 0; 1] 16777215 16777226] [0] [RouteTable 10 255 10 8 0] None
    [ArpEntry 33554442 32 4294967295 33554442 [2; 0; 0; 0; 0; 2]] None 4 4 64 64 30 60000.

Definition demo_blocks : blocks := Blocks 4096 8192 12288 16384 20480 24576.
Definition demo_sizes : sizes := Sizes 256 128 192.

Definition demo_init : outcome unit (option mtcp_manager) :=
  InitializeMTCPManager (good_allocs demo_blocks demo_sizes) demo_config ∅ 0 [].

(** The manager that was created. *)
Definition demo_manager : mtcp_manager :=
  match demo_init as o return match o with Ok (Some _) _ => mtcp_manager | _ => unit end with
  | Ok (Some m) _ => m
  | _ => tt
  end.

Lemma demo_config_ok : config_ok demo_config.
Proof.
  split; cbn; try lia; try (split; [unfold sizeof_mem_chunk; lia|done]).
  split; [by repeat constructor|]. by intros g [= ].
Qed.

Lemma demo_blocks_ok : blocks_ok demo_blocks.
Proof. by split; cbn; lia. Qed.

Lemma demo_sizes_ok : sizes_ok demo_sizes.
Proof. split; split; cbn; try done; unfold sizeof_mem_chunk; lia. Qed.

Lemma demo_manager_ok : stack_inv None demo_manager /\ queues_wf demo_manager /\ handed demo_manager = [].
Proof.
  destruct (InitializeMTCPManager_ok _ _ _ ∅ 0 [] demo_blocks_ok demo_sizes_ok demo_config_ok)
    as (m & E & Hp & Hq & Hh & _).
  assert (Hm : demo_init = Ok (Some demo_manager) tt) by (vm_compute; reflexivity).
  change (demo_init = Ok (Some m) tt) in E. rewrite Hm in E. injection E as <-.
  exact (conj (pristine_inv _ Hp) (conj Hq Hh)).
Qed.

(** A stream from 10.0.0.1:80 to 10.0.0.2:4000 at the first chunk of the pool. *)
Definition demo_stream : Z := 4096.

Definition demo_opened : mtcp_manager :=
  after (CreateTCPStream None MTCP_SOCK_STREAM 16777226 20480 33554442 40975) demo_manager.

Lemma demo_opened_inv : stack_inv None demo_opened.
Proof.
  apply (after_keeps (stack_inv None)); [|apply demo_manager_ok].
  eapply wpe_mono; [apply CreateTCPStream_created; [apply demo_manager_ok|]|].
  - intros b t. replace (streams demo_manager) with (∅ : gmap Z tcp_stream) by (vm_compute; reflexivity).
    by rewrite lookup_empty.
  - cbv beta. intros a m' Ha. destruct (a =? 0); apply Ha.
Qed.

(** The stream has seen a SYN and waits on the control, ACK, retransmission and timeout
    lists. *)
Definition demo_work (a : Z) : MT unit :=
  stream_mod a (fun s => s <| state := TCP_ST_SYN_RCVD |>);;
  AddtoControlList a;;
  EnqueueACK a ACK_OPT_NOW;;
  AddtoRTOList a;;
  watch_timeout a.

Definition demo_busy : mtcp_manager := after (demo_work demo_stream) demo_opened.

Lemma demo_busy_live : live None demo_stream demo_busy.
Proof.
  assert (Hl : live None demo_stream demo_opened).
  { split; [apply demo_opened_inv|]. apply alive_check. vm_compute. reflexivity. }
  apply (after_keeps (live None demo_stream)); [|exact Hl].
  assert (Hk : touches all_lanes None demo_stream (demo_work demo_stream)) by (unfold demo_work; stab).
  eapply wpe_mono; [exact (Hk _ Hl)|]. intros u m' Hr. apply Hr.
Qed.

(** ** Properties *)

Section Properties.
Context `{Platform}.

(** C1: memory safety of network input.  Whatever the bytes of a frame, [ProcessPacket]
    (Ethernet, ARP, ICMP, IPv4 and the whole TCP input path, with the creation and
    destruction of streams) keeps every stream on exactly the lists its flags say; it never
    unlinks a stream from a list it is not on, never follows a pointer to a freed stream
    and never walks a list of streams for ever. *)
Theorem ProcessPacket_safe (ifidx ts : Z) (frame : list Z) (m : mtcp_manager) :
  stack_inv None m ->
  wpe benign (ProcessPacket ifidx ts frame) (fun _ m' => stack_inv None m') m.
Proof using. apply ProcessPacket_inv. Qed.

(** C9: memory safety of the timers.  The retransmission, time-wait and connection timers
    keep the lists in order although they destroy streams on the way; a walk over a list
    makes at most as many visits as the list had elements when it started, and the wheel
    turns at most to the present. *)
Theorem timers_safe (ts thresh : Z) (m : mtcp_manager) :
  stack_inv None m ->
  wpe benign (CheckRtmTimeout ts thresh) (fun _ m' => stack_inv None m') m /\
  wpe benign (CheckTimewaitExpire ts thresh) (fun _ m' => stack_inv None m') m /\
  wpe benign (CheckConnectionTimeout ts thresh) (fun _ m' => stack_inv None m') m.
Proof using.
  intros Hi. split_and!; [by apply CheckRtmTimeout_inv|by apply CheckTimewaitExpire_inv|
    by apply CheckConnectionTimeout_inv].
Qed.

(** C10: memory safety of output.  Writing the control, ACK and data segments of a sender
    keeps the lists in order, although streams leave the lists, come back to either end of
    them and are destroyed on the way; a walk over a list makes at most as many visits as
    the list had elements when it started.  What happens inside the flush of one send
    buffer is the subject of [Flush.v]. *)
Theorem output_safe (i : sender_id) (ts thresh : Z) (m : mtcp_manager) :
  stack_inv None m ->
  wpe benign (WriteTCPControlList i ts thresh) (fun _ m' => stack_inv None m') m /\
  wpe benign (WriteTCPACKList i ts thresh) (fun _ m' => stack_inv None m') m /\
  wpe benign (WriteTCPDataList i ts thresh) (fun _ m' => stack_inv None m') m.
Proof using.
  intros Hi. split_and!; [by apply WriteTCPControlList_inv|by apply WriteTCPACKList_inv|
    by apply WriteTCPDataList_inv].
Qed.

(** C8: the calls of the application.  When the queues hold live streams and no stream is
    handed over twice to be ended, [HandleApplicationCalls] empties the six queues, keeps
    the lists in order, and leaves in its internal queues live streams only; it never
    follows a pointer to a freed stream and ends. *)
Theorem HandleApplicationCalls_safe (m : mtcp_manager) :
  stack_inv None m -> app_inv m ->
  wpe benign HandleApplicationCalls
    (fun _ m' => stack_inv None m' /\ app_inv m' /\ forall x, fifo_view (ext x m') = []) m.
Proof using.
  intros Hi Ha. eapply wpe_mono; [by apply HandleApplicationCalls_ok|].
  intros u m' [[Hi' Ha'] He]. split_and!; [done|done|]. intros x. apply He. destruct x; repeat constructor.
Qed.

(** C7: a round of the main loop.  From a good state, whatever the frames, the time and the
    flags, a round (input, timers, events, calls of the application, output, ARP) returns
    to a good state or faults without having touched a freed stream or a corrupted list,
    provided that the streams the application handed over are still alive after the timers
    have run. *)
Theorem round_safe (master : bool) (t : tick) (ts_prev : Z) (m : mtcp_manager) :
  stack_inv None m -> queues_wf m ->
  (forall m', take_input t ts_prev m = Ok tt m' -> forall a, a ∈ handed m -> alive a m') ->
  wpe benign (round master t ts_prev) (fun _ m' => stack_inv None m' /\ queues_wf m') m.
Proof using. apply round_ok. Qed.

End Properties.

(** creation.  With memory and a usable configuration [InitializeMTCPManager] returns a
    manager, without streams, that satisfies the invariant the other theorems start from. *)
Theorem InitializeMTCPManager_safe (b : blocks) (z : sizes) (c : mtcp_config)
    (pools : gmap Z addr_pool) (id : Z) (arpm : list arp_queue_entry) :
  blocks_ok b -> sizes_ok z -> config_ok c ->
  exists m, InitializeMTCPManager (good_allocs b z) c pools id arpm = Ok (Some m) tt /\
    stack_inv None m /\ app_inv m /\ streams m = ∅.
Proof.
  intros Hb Hz Hc. destruct (InitializeMTCPManager_ok b z c pools id arpm Hb Hz Hc) as (m & E & Hp & Hq & Hh & _).
  exists m. split_and!; [done|by apply pristine_inv| |apply Hp]. split; [done|].
  intros a. rewrite Hh. by intros ?%not_elem_of_nil.
Qed.

(** *** Witnesses *)

Definition returns {S A} (o : outcome S A) : bool := match o with Ok _ _ => true | Fault _ => false end.

(** An empty segment from 10.0.0.2:4000 to 10.0.0.1:80 that acknowledges. *)
Definition demo_frame : list Z :=
  [2; 0; 0; 0; 0; 1; 2; 0; 0; 0; 0; 2; 8; 0;
   69; 0; 0; 40; 0; 1; 0; 0; 64; 6; 102; 205; 10; 0; 0; 2; 10; 0; 0; 1;
   15; 160; 0; 80; 0; 0; 0; 0; 0; 0; 0; 0; 80; 16; 3; 232; 135; 250; 0; 0].

Lemma ProcessPacket_safe_witness :
  wpe benign (ProcessPacket 0 7 demo_frame) (fun _ m' => stack_inv None m') demo_busy /\
  returns (ProcessPacket 0 7 demo_frame demo_busy) = true.
Proof.
  split; [exact (ProcessPacket_safe 0 7 demo_frame demo_busy (proj1 demo_busy_live))|].
  vm_compute. reflexivity.
Defined.

Lemma timers_safe_witness :
  (wpe benign (CheckRtmTimeout 9 4) (fun _ m' => stack_inv None m') demo_busy /\
   wpe benign (CheckTimewaitExpire 9 4) (fun _ m' => stack_inv None m') demo_busy /\
   wpe benign (CheckConnectionTimeout 9 4) (fun _ m' => stack_inv None m') demo_busy) /\
  returns (CheckRtmTimeout 9 4 demo_busy) = true.
Proof.
  split; [exact (timers_safe 9 4 demo_busy (proj1 demo_busy_live))|].
  vm_compute. reflexivity.
Defined.

Lemma output_safe_witness :
  (wpe benign (WriteTCPControlList (NSender 0) 9 4) (fun _ m' => stack_inv None m') demo_busy /\
   wpe benign (WriteTCPACKList (NSender 0) 9 4) (fun _ m' => stack_inv None m') demo_busy /\
   wpe benign (WriteTCPDataList (NSender 0) 9 4) (fun _ m' => stack_inv None m') demo_busy) /\
  returns (WriteTCPControlList (NSender 0) 9 4 demo_busy) = true.
Proof.
  split; [exact (output_safe (NSender 0) 9 4 demo_busy (proj1 demo_busy_live))|].
  vm_compute. reflexivity.
Defined.

Lemma InitializeMTCPManager_safe_witness :
  exists m, InitializeMTCPManager (good_allocs demo_blocks demo_sizes) demo_config ∅ 0 [] = Ok (Some m) tt /\
    stack_inv None m /\ app_inv m /\ streams m = ∅.
Proof. exact (InitializeMTCPManager_safe _ _ _ _ _ _ demo_blocks_ok demo_sizes_ok demo_config_ok). Defined.

(** The application closes the stream. *)
Definition demo_closing : mtcp_manager :=
  after (zoom closeq (Click.StreamEnqueue demo_stream)) demo_busy.

Lemma after_kept {A} (f : MT A) m : kept f -> app_queues (after f m) = app_queues m.
Proof. intros Hf. specialize (Hf m I). unfold wpe, after in *. destruct (f m); [apply Hf|done]. Qed.

Lemma demo_busy_queues : app_queues demo_busy = app_queues demo_manager.
Proof.
  unfold demo_busy, demo_opened. rewrite after_kept; [apply after_kept; frames|frames].
Qed.

(** A state whose queues are those of [demo_manager]. *)
Lemma demo_handling m : stack_inv None m -> app_queues m = app_queues demo_manager -> handling m.
Proof.
  intros Hi Hq. destruct demo_manager_ok as (_ & Hw & Hh). split; [exact Hi|].
  split; [exact (queues_wf_same _ _ Hq Hw)|]. intros a.
  rewrite (proj2 (proj2 (app_queues_handed _ _ Hq))), Hh. intros Ha. by apply not_elem_of_nil in Ha.
Qed.

Lemma demo_enders m : app_queues m = app_queues demo_manager -> enders m = [].
Proof.
  intros Hq. destruct demo_manager_ok as (_ & _ & Hh).
  rewrite <- (proj2 (proj2 (app_queues_handed _ _ Hq))) in Hh. unfold handed in Hh.
  by apply app_eq_nil in Hh as [_ ?].
Qed.

Lemma closing_handling m a : handling m -> alive a m -> a <> 0 -> a ∉ enders m ->
  handling (after (zoom closeq (Click.StreamEnqueue a)) m).
Proof.
  intros Hm Ha H0 Hn. apply (after_keeps handling); [|exact Hm].
  eapply wpe_mono; [apply (hand_over QClose closeq); try done|].
  - intros m1 v y Hy. by destruct y.
  - by intros r m1 [? _].
Qed.

Lemma demo_closing_ok : handling demo_closing.
Proof.
  apply closing_handling; [|apply demo_busy_live|unfold demo_stream; lia|].
  - apply demo_handling; [apply demo_busy_live|apply demo_busy_queues].
  - rewrite (demo_enders _ demo_busy_queues). apply not_elem_of_nil.
Qed.

Lemma HandleApplicationCalls_safe_witness :
  wpe benign HandleApplicationCalls
    (fun _ m' => stack_inv None m' /\ app_inv m' /\ forall x, fifo_view (ext x m') = []) demo_closing /\
  fifo_view (closeq demo_closing) = [demo_stream].
Proof.
  split; [exact (HandleApplicationCalls_safe demo_closing (proj1 demo_closing_ok) (proj2 demo_closing_ok))|].
  vm_compute. reflexivity.
Defined.

Definition demo_tick : tick := Tick false false false 9 (fun _ => [None; Some demo_frame]).

Lemma round_safe_witness :
  wpe benign (round true demo_tick 0) (fun _ m' => stack_inv None m' /\ queues_wf m') demo_closing /\
  returns (round true demo_tick 0 demo_closing) = true.
Proof.
  split.
  - apply (round_safe true demo_tick 0 demo_closing (proj1 demo_closing_ok) (proj1 (proj2 demo_closing_ok))).
    intros m' E a Ha.
    assert (Ea : handed demo_closing = [demo_stream]) by (vm_compute; reflexivity).
    rewrite Ea in Ha. apply list_elem_of_singleton in Ha. rewrite Ha.
    assert (Em : after (take_input demo_tick 0) demo_closing = m') by (unfold after; by rewrite E).
    rewrite <- Em. apply alive_check. vm_compute. reflexivity.
  - vm_compute. reflexivity.
Defined.

(** ** A stream destroyed while the application closes it *)

(** Two streams; the first was closed by the application, so it has no socket, and its last
    retransmission times out before the stack looks at its queues. *)
Definition demo_two : mtcp_manager :=
  after (CreateTCPStream None MTCP_SOCK_STREAM 16777226 20480 33554442 40976) demo_opened.

Definition lost_work (a : Z) : MT unit :=
  stream_mod a (fun s => s <| state := TCP_ST_ESTABLISHED |>
    <| sndvar ::= fun v => v <| nrtx := TCP_MAX_RTX |> <| ts_rto := 100 |> |>);;
  AddtoRTOList a.

Definition demo_lost : mtcp_manager :=
  after (zoom closeq (Click.StreamEnqueue demo_stream)) (after (lost_work demo_stream) demo_two).

Definition late_tick : tick := Tick false false false 200 (fun _ => []).

Lemma demo_two_inv : stack_inv None demo_two.
Proof.
  apply (after_keeps (stack_inv None)); [|apply demo_opened_inv].
  eapply wpe_mono; [apply CreateTCPStream_created; [apply demo_opened_inv|]|].
  - assert (E : bool_decide (map_Forall (fun _ t => key_of t <> FlowKey 16777226 33554442 20480 40976)
      (streams demo_opened)) = true) by (vm_compute; reflexivity).
    exact (bool_decide_eq_true_1 _ E).
  - cbv beta. intros a m' Ha. destruct (a =? 0); apply Ha.
Qed.

Lemma lost_work_live : live None demo_stream (after (lost_work demo_stream) demo_two).
Proof.
  assert (Hl : live None demo_stream demo_two).
  { split; [apply demo_two_inv|]. apply alive_check. vm_compute. reflexivity. }
  apply (after_keeps (live None demo_stream)); [|exact Hl].
  assert (Hk : touches all_lanes None demo_stream (lost_work demo_stream)) by (unfold lost_work; stab).
  eapply wpe_mono; [exact (Hk _ Hl)|]. intros u m' Hr. apply Hr.
Qed.

Lemma lost_work_queues : app_queues (after (lost_work demo_stream) demo_two) = app_queues demo_manager.
Proof.
  unfold demo_two, demo_opened. rewrite after_kept by frames. rewrite after_kept by frames.
  apply after_kept. frames.
Qed.

