(* ===== verification/System.v ===== *)
(** * The stack and its application

    The events of a running system are the rounds of the main loop and the calls of the
    application.  From the creation of the manager on, every history of such events keeps
    the invariants. *)

From S2P Require Import Prelude SeqArith Bytes Queues MemPool SendBuffer RingBuffer AddrPool Mtcp TcpUtil Output Events Fhash Lists TcpStream TcpOut Timer TcpIn NetIn Sockets Core Api Frame StackInv ListOps Benign StreamLife OutSafe TimerSafe InSafe NetSafe CoreSafe ApiSafe Stack.

Section System.
Context `{Platform}.

(** ** Events *)

Inductive event :=
| Round (master : bool) (t : tick) (ts_prev : Z)
| Call (c : app_ctx) (x : call).

Definition run_event (e : event) : MT unit :=
  match e with
  | Round master t ts_prev => round master t ts_prev
  | Call c x => perform c x
  end.

(** The streams that are handed over are alive when they are looked at. *)
Definition enabled (e : event) (m : mtcp_manager) : Prop :=
  match e with
  | Round _ t ts_prev => forall m', take_input t ts_prev m = Ok tt m' -> forall a, a ∈ handed m -> alive a m'
  | Call c x => (forall a, a ∈ handed m -> alive a m) /\ permitted c x m
  end.

Inductive step (m m' : mtcp_manager) : Prop :=
| step_event (e : event) : enabled e m -> run_event e m = Ok tt m' -> step m m'.

Lemma event_ok e m : sound m -> enabled e m -> wpe benign (run_event e) (fun _ m' => sound m') m.
Proof using.
  intros [Hi Hw] He. destruct e as [master t tp|c x]; cbn [run_event enabled] in *.
  - by apply round_ok.
  - destruct He as [Ha Hp]. by apply perform_ok.
Qed.

Lemma step_sound m m' : sound m -> step m m' -> sound m'.
Proof using.
  intros Hm [e He E]. pose proof (event_ok e m Hm He) as Hw. unfold wpe in Hw. by rewrite E in Hw.
Qed.

Lemma history_sound m m' : rtc step m m' -> sound m -> sound m'.
Proof using. induction 1; eauto using step_sound. Qed.

(** ** Properties *)



End System.

(** ** Deciding whether an event is enabled *)

#[local] Instance lookup_forall_dec {A} (o : option A) (P : A -> Prop) `{!forall s, Decision (P s)} :
  Decision (forall s, o = Some s -> P s).
Proof.
  destruct o as [s|]; [|by left]. destruct (decide (P s)) as [Hs|Hs].
  - left. by intros t [= <-].
  - right. intros Ht. by apply Hs, Ht.
Defined.

#[local] Instance members_dec (l : list Z) (P : Z -> Prop) `{!forall a, Decision (P a)} :
  Decision (forall a, a ∈ l -> P a).
Proof.
  destruct (decide (Forall P l)) as [Hl|Hl].
  - left. intros a. by apply list.Forall_forall.
  - right. intros Ha. apply Hl. by apply list.Forall_forall.
Defined.

#[local] Instance alive_dec a m : Decision (alive a m) := _.
#[local] Instance own_object_dec i m : Decision (own_object i m) := _.
#[local] Instance live_object_dec i m : Decision (live_object i m) := _.
#[local] Instance not_listening_dec i m : Decision (not_listening i m) := _.
#[local] Instance shape_dec q : Decision (Click.shape q) := _.
#[local] Instance click_wf_dec q : Decision (Click.wf q) := _.

#[local] Instance acceptable_dec i m : Decision (acceptable i m).
Proof.
  destruct (decide (forall s, smap m !! i = Some s -> forall x, listener_heap m !! sock_obj s = Some x ->
    Click.wf (acceptq x) /\ forall a, a ∈ Click.contents (acceptq x) -> alive a m)) as [Ha|Ha].
  - left. intros s x Hs Hx. by apply (Ha s).
  - right. intros H. apply Ha. intros s Hs x Hx. by apply (H s).
Defined.

#[local] Instance allocatable_dec m : Decision (allocatable m).
Proof.
  destruct (decide (free_smap m = [] \/ Exists (fun i => events <$> smap m !! i = Some 0) (free_smap m))) as [Ha|Ha].
  - left. destruct Ha as [|(i & Hi & E)%list.Exists_exists]; [by left|right].
    apply fmap_Some in E as (s & Hs & E). by exists i, s.
  - right. intros H. apply Ha. destruct H as [|(i & s & Hi & Hs & E)]; [by left|right].
    apply list.Exists_exists. exists i. split; [done|]. by rewrite Hs, <- E.
Defined.

(** A test that implies that the event is enabled; it knows nothing of address pools. *)
Definition permits (x : call) (m : mtcp_manager) : bool :=
  match x with
  | CBind _ _ | CListen _ _ _ | CNonblock _ => true
  | CSocket _ _ => bool_decide (allocatable m)
  | CAccept i => bool_decide (allocatable m) && bool_decide (acceptable i m)
  | CInitRss _ _ _ _ | CConnect _ _ => false
  | CClose i | CAbort i => bool_decide (own_object i m)
  | CIoctl i _ _ | CGetpeername i _ => bool_decide (live_object i m) && bool_decide (not_listening i m)
  | CRecv i _ _ | CReadv i _ | CWrite i _ _ | CWritev _ i _ | CGetsockopt i _ _ | CEpollCtl _ _ i _ =>
      bool_decide (live_object i m)
  end.

Lemma permits_ok c x m : permits x m = true -> permitted c x m.
Proof.
  destruct x; cbn [permits permitted]; try done; rewrite ?andb_true_iff, ?bool_decide_eq_true; done.
Qed.

Definition enables (e : event) (m : mtcp_manager) : bool :=
  match e with
  | Round _ t ts_prev =>
      match take_input t ts_prev m with
      | Ok _ m' => bool_decide (forall a, a ∈ handed m -> alive a m')
      | Fault _ => true
      end
  | Call _ x => bool_decide (forall a, a ∈ handed m -> alive a m) && permits x m
  end.

Lemma enables_ok e m : enables e m = true -> enabled e m.
Proof.
  destruct e as [master t tp|c x]; cbn [enables enabled].
  - intros He m' E. rewrite E in He. by apply bool_decide_eq_true in He.
  - rewrite andb_true_iff, bool_decide_eq_true. intros [Ha Hp]. split; [done|by apply permits_ok].
Qed.

(** Running a list of events, each of which has to be enabled and to return. *)
Fixpoint plays (l : list event) (m : mtcp_manager) : option mtcp_manager :=
  match l with
  | [] => Some m
  | e :: l =>
      if enables e m then match run_event e m with Ok _ m' => plays l m' | Fault _ => None end else None
  end.

Lemma plays_steps l : forall m m', plays l m = Some m' -> rtc step m m'.
Proof.
  induction l as [|e l IH]; cbn [plays]; intros m m' E; [injection E as <-; reflexivity|].
  destruct (enables e m) eqn:Ee; [|done]. destruct (run_event e m) as [[] m1|] eqn:Er; [|done].
  eapply rtc_l; [|by apply IH]. apply (step_event _ _ e); [by apply enables_ok|done].
Qed.

(** ** A connection *)

(** A SYN with an MSS option, an ACK and two bytes of data from 10.0.0.2:4000 to 10.0.0.1:80. *)
Definition syn_frame : list Z :=
  [2; 0; 0; 0; 0; 1; 2; 0; 0; 0; 0; 2; 8; 0;
   69; 0; 0; 44; 0; 1; 0; 0; 64; 6; 102; 201; 10; 0; 0; 2; 10; 0; 0; 1;
   15; 160; 0; 80; 0; 0; 0; 100; 0; 0; 0; 0; 96; 2; 3; 232; 111; 232; 0; 0; 2; 4; 5; 180].

Definition ack_frame : list Z :=
  [2; 0; 0; 0; 0; 1; 2; 0; 0; 0; 0; 2; 8; 0;
   69; 0; 0; 40; 0; 1; 0; 0; 64; 6; 102; 205; 10; 0; 0; 2; 10; 0; 0; 1;
   15; 160; 0; 80; 0; 0; 0; 101; 0; 0; 19; 137; 80; 16; 3; 232; 116; 12; 0; 0].

Definition data_frame : list Z :=
  [2; 0; 0; 0; 0; 1; 2; 0; 0; 0; 0; 2; 8; 0;
   69; 0; 0; 42; 0; 1; 0; 0; 64; 6; 102; 203; 10; 0; 0; 2; 10; 0; 0; 1;
   15; 160; 0; 80; 0; 0; 0; 101; 0; 0; 19; 137; 80; 24; 3; 232; 11; 153; 0; 0; 104; 105].

Definition demo_ctx : app_ctx := AppCtx true false false false 0 1 1 true.

Definition at_time (t ts_prev : Z) (frames : list (list Z)) : event :=
  Round true (Tick false false false t (fun _ => Some <$> frames)) ts_prev.

(** A server: it listens on port 80, the peer connects and sends two bytes, the server
    accepts, reads, answers three bytes and closes. *)
Definition demo_events : list event :=
  [Call demo_ctx (CSocket AF_INET SOCK_STREAM);
   Call demo_ctx (CBind 0 (Some (Sockaddr AF_INET sizeof_sockaddr_in 16777226 20480)));
   Call demo_ctx (CListen true 0 4);
   at_time 9 0 [syn_frame];
   at_time 10 9 [ack_frame; data_frame];
   Call demo_ctx (CAccept 0);
   Call demo_ctx (CRecv 1 10 0);
   Call demo_ctx (CWrite 1 [72; 73; 74] 3);
   at_time 11 10 [];
   Call demo_ctx (CClose 1);
   at_time 12 11 []].

Definition demo_served : mtcp_manager := default demo_manager (plays demo_events demo_manager).

(** The state before the server closes. *)
Definition demo_answered : mtcp_manager := default demo_manager (plays (take 9 demo_events) demo_manager).

Lemma played l m : bool_decide (is_Some (plays l m)) = true -> rtc step m (default m (plays l m)).
Proof.
  intros E. apply (plays_steps l). apply bool_decide_eq_true_1 in E. destruct E as [m' E]. by rewrite E.
Qed.

Lemma demo_served_history : rtc step demo_manager demo_served.
Proof. apply played. vm_compute. reflexivity. Qed.

Lemma demo_answered_history : rtc step demo_manager demo_answered.
Proof. apply played. vm_compute. reflexivity. Qed.

Lemma demo_answered_sound : sound demo_answered.
Proof.
  apply (history_sound demo_manager); [apply demo_answered_history|].
  split; [apply demo_manager_ok|apply (proj2 demo_manager_ok)].
Qed.

(** *** Witnesses *)


