(* ===== verification/Ring.v ===== *)
(** * Circular arrays

    The contents of a circular array, and what reading and writing at its ends do to them:
    the event queues of [eventpoll.c] and the buffers of [pipe.c] are such arrays. *)

From S2P Require Import Prelude.

Section Ring.
Context {A : Type}.
Implicit Types (b d : list A) (off len : Z).

(** The [len] elements from [off] on, around the end. *)
Definition window b off len : list A :=
  take (Z.to_nat len) (drop (Z.to_nat off) b ++ take (Z.to_nat off) b).

(** A place in the array and a number of elements. *)
Definition spans b off len : Prop := 0 <= off < zlen b /\ 0 <= len <= zlen b.

Lemma window_length b off len : spans b off len -> length (window b off len) = Z.to_nat len.
Proof.
  intros [Ho Hl]. unfold window, zlen in *. rewrite length_take, length_app, length_drop, length_take. lia.
Qed.

Lemma window_zlen b off len : spans b off len -> zlen (window b off len) = len.
Proof. intros Hs. unfold zlen. rewrite window_length by done. destruct Hs. lia. Qed.

Lemma window_lookup b off len (k : nat) : spans b off len -> Z.of_nat k < len ->
  window b off len !! k = b !! Z.to_nat ((off + Z.of_nat k) mod zlen b).
Proof.
  intros [Ho Hl] Hk. unfold window. rewrite lookup_take_lt by lia.
  destruct (Z_lt_le_dec (off + Z.of_nat k) (zlen b)) as [H|H].
  - rewrite lookup_app_l by (rewrite length_drop; unfold zlen in *; lia).
    rewrite lookup_drop, Z.mod_small by lia. f_equal. lia.
  - replace ((off + Z.of_nat k) mod zlen b) with (off + Z.of_nat k - zlen b).
    2: { apply (Z.mod_unique_pos _ _ 1); unfold zlen in *; lia. }
    rewrite lookup_app_r by (rewrite length_drop; unfold zlen in *; lia).
    rewrite length_drop, lookup_take_lt by (unfold zlen in *; lia). f_equal. unfold zlen in *. lia.
Qed.

(** Two lists that agree where they are defined. *)
Lemma eq_by_lookup (l k : list A) : length l = length k ->
  (forall i, (i < length l)%nat -> l !! i = k !! i) -> l = k.
Proof.
  intros Hlen Hl. apply list_eq. intros i. destruct (decide (i < length l)%nat); [by apply Hl|].
  rewrite !lookup_ge_None_2; [done|lia..].
Qed.

(** Elements that have been read leave the window. *)
Lemma window_drop b off len n : spans b off len -> 0 <= n <= len ->
  window b ((off + n) mod zlen b) (len - n) = drop (Z.to_nat n) (window b off len).
Proof.
  intros Hs Hn. assert (Hz : 0 < zlen b) by (destruct Hs; lia).
  assert (Hs' : spans b ((off + n) mod zlen b) (len - n)).
  { split; [by apply Z.mod_pos_bound|destruct Hs; lia]. }
  apply eq_by_lookup.
  - rewrite length_drop, !window_length by done. lia.
  - intros i Hi. rewrite window_length in Hi by done. rewrite lookup_drop, !window_lookup by (done || lia).
    rewrite Zplus_mod_idemp_l. do 2 f_equal. f_equal. lia.
Qed.

Lemma window_take b off len n : spans b off len -> 0 <= n <= len ->
  window b off n = take (Z.to_nat n) (window b off len).
Proof. intros _ Hn. unfold window. rewrite take_take. f_equal. lia. Qed.

(** Reading up to the end of the array. *)
Lemma window_read b off n : 0 <= off < zlen b -> 0 <= n -> off + n <= zlen b ->
  mem_read b off n = Some (window b off n).
Proof.
  intros Ho Hn Hle. rewrite mem_read_ok by lia. f_equal. unfold window. symmetry. apply take_app_le.
  rewrite length_drop. unfold zlen in *. lia.
Qed.

(** Reading around the end. *)
Lemma window_split b off n : spans b off n -> zlen b <= off + n ->
  window b off n = window b off (zlen b - off) ++ window b 0 (n - (zlen b - off)).
Proof.
  intros [Ho Hn] Hle.
  assert (Hm : (off + (zlen b - off)) mod zlen b = 0) by (replace (off + _) with (zlen b) by lia; apply Z_mod_same_full).
  rewrite <- Hm, window_drop by (split; lia).
  rewrite (window_take b off n (zlen b - off)) by (split; lia). by rewrite take_drop.
Qed.

(** Elements that are written behind the window join it. *)
Lemma window_write b off len d b' : spans b off len -> len + zlen d <= zlen b ->
  mem_write b ((off + len) mod zlen b) d = Some b' ->
  window b' off (len + zlen d) = window b off len ++ d.
Proof.
  intros Hs Hle Hw. pose proof (mem_write_length _ _ _ _ Hw) as Hlen. pose proof (mem_write_bounds _ _ _ _ Hw) as Hb.
  assert (Hz : zlen b' = zlen b) by (unfold zlen; lia). pose proof Hs as [Ho Hl].
  assert (Hs' : spans b' off (len + zlen d)) by (split; unfold zlen in *; lia).
  apply eq_by_lookup.
  - rewrite length_app, !window_length by done. unfold zlen in *. lia.
  - intros i Hi. rewrite window_length in Hi by done. rewrite window_lookup by (done || lia).
    rewrite Hz, (mem_write_lookup _ _ _ _ _ Hw). set (t := (off + len) mod zlen b) in *.
    pose proof (Z.mod_pos_bound (off + Z.of_nat i) (zlen b) ltac:(lia)) as Hm.
    assert (Ht : t = off + len \/ t = off + len - zlen b).
    { destruct (Z_lt_le_dec (off + len) (zlen b)); [left; apply Z.mod_small; lia|].
      right. symmetry. apply (Z.mod_unique_pos _ _ 1); lia. }
    assert (Hi' : (off + Z.of_nat i) mod zlen b = off + Z.of_nat i \/
      (off + Z.of_nat i) mod zlen b = off + Z.of_nat i - zlen b).
    { destruct (Z_lt_le_dec (off + Z.of_nat i) (zlen b)); [left; apply Z.mod_small; lia|].
      right. symmetry. apply (Z.mod_unique_pos _ _ 1); lia. }
    destruct (Z_lt_le_dec (Z.of_nat i) len) as [Hil|Hil].
    + rewrite bool_decide_eq_false_2 by lia.
      by rewrite lookup_app_l, window_lookup by (rewrite ?window_length by done; done || lia).
    + rewrite bool_decide_eq_true_2 by lia. rewrite lookup_app_r by (rewrite window_length by done; lia).
      rewrite window_length by done. f_equal. lia.
Qed.

(** An element at the front. *)
Lemma window_cons b off len : spans b off len -> 0 < len ->
  exists v, b !! Z.to_nat off = Some v /\ window b off len = v :: window b ((off + 1) mod zlen b) (len - 1).
Proof.
  intros Hs Hl. pose proof Hs as [Ho Hle].
  destruct (lookup_lt_is_Some_2 b (Z.to_nat off)) as [v Hv]; [unfold zlen in *; lia|]. exists v. split; [done|].
  rewrite window_drop by (done || lia). destruct (window b off len) as [|w l] eqn:E.
  - apply (f_equal length) in E. rewrite window_length in E by done. cbn in E. lia.
  - assert (Hw : window b off len !! 0%nat = Some w) by by rewrite E.
    rewrite window_lookup, Z.add_0_r, Z.mod_small, Hv in Hw by (done || lia). injection Hw as ->.
    change (Z.to_nat 1) with 1%nat. cbn. by rewrite drop_0.
Qed.

End Ring.
