(* ===== verification/Epoll.v ===== *)
(** * Events between the stack and the application

    The event queues are rings; here they are lists of events.  An event is queued once for
    a socket until it is fetched; the stack moves its events behind those of the application
    in order; [mtcp_epoll_wait] fetches what can be delivered, in order, and waits only when
    both queues of the application are empty. *)

From S2P Require Import Prelude SeqArith Mtcp Events Sockets Core Api Stack System Ring.

(** ** One queue *)

Definition eq_view (q : event_queue) : list mtcp_epoll_event_int :=
  window (eq_events q) (eq_start q) (num_events q).

Record eq_wf (q : event_queue) : Prop := {
  ew_size : zlen (eq_events q) = eq_size q;
  ew_span : spans (eq_events q) (eq_start q) (num_events q);
  ew_end : eq_end q = (eq_start q + num_events q) mod eq_size q
}.

Lemma eq_view_zlen q : eq_wf q -> zlen (eq_view q) = num_events q.
Proof. intros [_ Hs _]. by apply window_zlen. Qed.

Lemma wrap_index n i : 0 <= i < n -> (if n <=? i + 1 then 0 else i + 1) = (i + 1) mod n.
Proof.
  intros Hi. destruct (Z.leb_spec n (i + 1)).
  - replace (i + 1) with n by lia. by rewrite Z_mod_same_full.
  - by rewrite Z.mod_small by lia.
Qed.

Lemma eq_push_ok q v : eq_wf q -> num_events q < eq_size q ->
  exists q', eq_push q v = Some q' /\ eq_wf q' /\ eq_size q' = eq_size q /\ eq_view q' = eq_view q ++ [v].
Proof.
  intros [Hz Hs He] Hn. pose proof Hs as [Ho Hl]. unfold eq_push.
  pose proof (Z.mod_pos_bound (eq_start q + num_events q) (eq_size q) ltac:(lia)) as Hm.
  assert (Hz1 : zlen [v] = 1) by done.
  destruct (mem_write (eq_events q) (eq_end q) [v]) as [b|] eqn:Hw.
  2: { rewrite mem_write_ok in Hw by lia. done. }
  cbn [mbind option_bind]. eexists. split; [done|].
  assert (Hb : zlen b = zlen (eq_events q)) by (unfold zlen; by rewrite (mem_write_length _ _ _ _ Hw)).
  split_and!; [split; cbn| |]; [lia|split; lia| |done|].
  - rewrite wrap_index, He by lia. rewrite Zplus_mod_idemp_l. f_equal. lia.
  - rewrite He, <- Hz in Hw. change 1 with (zlen [v]). by apply (window_write _ _ _ _ _ Hs); [rewrite Hz1; lia|].
Qed.

Lemma eq_pop_ok q v l : eq_wf q -> eq_view q = v :: l ->
  exists q', eq_pop q = Some (v, q') /\ eq_wf q' /\ eq_size q' = eq_size q /\ eq_view q' = l.
Proof.
  intros Hq Hv. pose proof (eq_view_zlen q Hq) as Hn. rewrite Hv, zlen_cons in Hn. pose proof (zlen_nonneg l).
  destruct Hq as [Hz Hs He]. pose proof Hs as [Ho Hl].
  destruct (window_cons _ _ _ Hs ltac:(lia)) as (w & Hw & E). unfold eq_view in Hv. rewrite Hv in E.
  injection E as <- El. unfold eq_pop. rewrite mem_read_ok by lia. cbn [mbind option_bind].
  change (Z.to_nat 1) with 1%nat. rewrite (drop_S _ _ _ Hw). cbn [take]. eexists. split; [done|].
  assert (Hi : (if eq_size q <=? eq_start q + 1 then 0 else eq_start q + 1) = (eq_start q + 1) mod zlen (eq_events q)).
  { rewrite wrap_index by lia. by rewrite Hz. }
  pose proof (Z.mod_pos_bound (eq_start q + 1) (zlen (eq_events q)) ltac:(lia)).
  split_and!; [split; cbn| |]; [done|rewrite Hi; split; lia| |done|unfold eq_view; cbn; by rewrite Hi].
  rewrite Hi, He, Hz, Zplus_mod_idemp_l. f_equal. lia.
Qed.

Lemma CreateEventQueue_wf n q : 0 < n -> CreateEventQueue true n = Some q -> eq_wf q /\ eq_view q = [] /\ eq_size q = n.
Proof.
  intros Hn [= <-]. assert (Hz : zlen (replicate (Z.to_nat n) (EpollEventInt 0 0 0)) = n).
  { unfold zlen. rewrite length_replicate. lia. }
  split_and!; [|done|done]. split; cbn; [done|split; lia|]. by rewrite Z.mod_small by lia.
Qed.

(** The stack moves its events, oldest first, while there is room. *)
Lemma flush_events_ok n : forall uq mq, eq_wf uq -> eq_wf mq -> (length (eq_view mq) <= n)%nat ->
  exists uq' mq' k, flush_events n uq mq = Some (uq', mq') /\ eq_wf uq' /\ eq_wf mq' /\ eq_size uq' = eq_size uq /\
    eq_size mq' = eq_size mq /\
    eq_view uq' = eq_view uq ++ take k (eq_view mq) /\ eq_view mq' = drop k (eq_view mq) /\
    (eq_view mq' = [] \/ num_events uq' = eq_size uq').
Proof.
  induction n as [|n IH]; intros uq mq Hu Hm Hn; cbn [flush_events].
  { exists uq, mq, 0%nat. rewrite take_0, drop_0, app_nil_r. split_and!; try done.
    left. by apply nil_length_inv; lia. }
  pose proof (eq_view_zlen mq Hm) as Hz. destruct (eq_view mq) as [|v l] eqn:Ev.
  { rewrite <- Hz. exists uq, mq, 0%nat. cbn. rewrite app_nil_r. split_and!; try done. by left. }
  pose proof (zlen_nonneg l). rewrite zlen_cons in Hz. rewrite (proj2 (Z.ltb_lt 0 (num_events mq))) by lia. cbn [andb].
  destruct (Z.ltb_spec (num_events uq) (eq_size uq)) as [Hr|Hr].
  - destruct (eq_pop_ok mq v l Hm Ev) as (mq1 & -> & Hm1 & Sm1 & E1).
    destruct (eq_push_ok uq v Hu Hr) as (uq1 & Hp & Hu1 & Su1 & E2). cbn [mbind option_bind]. rewrite Hp.
    cbn [mbind option_bind]. cbn in Hn.
    destruct (IH uq1 mq1 Hu1 Hm1) as (uq2 & mq2 & k & -> & ? & ? & ? & ? & V1 & V2 & ?); [rewrite E1; lia|].
    exists uq2, mq2, (S k). rewrite E1 in *. split_and!; try done; try congruence. cbn. by rewrite V1, E2, <- app_assoc.
  - exists uq, mq, 0%nat. cbn. rewrite app_nil_r. split_and!; try done.
    right. destruct Hu as [Hz' [_ Hs] _]. lia.
Qed.

(** ** The events of an epoll object *)

Definition queued (p : Z) (qt : event_queue_type) (m : mtcp_manager) : list mtcp_epoll_event_int :=
  match epolls m !! p with Some e => eq_view (queue_of qt e) | None => [] end.

Record events_inv (p : Z) (m : mtcp_manager) : Prop := {
  ei_wf : exists e, epolls m !! p = Some e /\ forall qt, eq_wf (queue_of qt e);
  ei_socket : forall qt v, v ∈ queued p qt m -> is_Some (smap m !! ev_sockid v);
  ei_id : forall i s, smap m !! i = Some s -> sock_id s = i /\ 0 <= i
}.

#[export] Instance event_queue_type_eq_dec : EqDecision event_queue_type.
Proof. solve_decision. Defined.

Lemma queue_set_queue k qt q e : queue_of k (set_queue qt q e) = if decide (k = qt) then q else queue_of k e.
Proof. by destruct k, qt. Qed.

(** Exchanging one queue, and marking one socket. *)
Definition exchanged (p : Z) (qt : event_queue_type) (q : event_queue) (i : Z) (s : socket_map)
    (m m' : mtcp_manager) : Prop :=
  smap m' = <[i := s]> (smap m) /\
  exists e e', epolls m !! p = Some e /\ epolls m' = <[p := e']> (epolls m) /\
    queue_of qt e' = q /\ forall k, k <> qt -> queue_of k e' = queue_of k e.

Lemma exchanged_inv p qt q i s s0 m m' : events_inv p m -> exchanged p qt q i s m m' ->
  smap m !! i = Some s0 -> sock_id s = sock_id s0 -> eq_wf q ->
  (forall v, v ∈ eq_view q -> v ∈ queued p qt m \/ ev_sockid v = i) ->
  events_inv p m' /\ queued p qt m' = eq_view q /\ forall k, k <> qt -> queued p k m' = queued p k m.
Proof.
  intros [(e & He & Hwf) Hsock Hid] (Hsm & e0 & e' & He0 & Hep & Hq & Hk) Hs Eid Hqwf Hview.
  assert (e0 = e) as -> by congruence.
  assert (He' : epolls m' !! p = Some e') by (rewrite Hep; apply lookup_insert_eq).
  assert (Q1 : queued p qt m' = eq_view q) by (unfold queued; by rewrite He', Hq).
  assert (Q2 : forall k, k <> qt -> queued p k m' = queued p k m).
  { intros k Hne. unfold queued. by rewrite He', He, Hk. }
  split_and!; [|done|done]. split.
  - exists e'. split; [done|]. intros k. destruct (decide (k = qt)) as [->|Hne]; [by rewrite Hq|by rewrite Hk].
  - intros k v Hv. rewrite Hsm, lookup_insert_is_Some'. destruct (decide (k = qt)) as [->|Hne].
    + rewrite Q1 in Hv. destruct (Hview v Hv) as [H| ->]; [right; by eapply Hsock|by left].
    + rewrite Q2 in Hv by done. right. by eapply Hsock.
  - intros j t. rewrite Hsm, lookup_insert_Some. intros [[<- <-]|[_ Ht]]; [|by apply Hid]. rewrite Eid. by apply Hid.
Qed.

(** Changing the counters of the epoll object. *)
Lemma counted_inv p e e' m m' : events_inv p m -> epolls m !! p = Some e ->
  epolls m' = <[p := e']> (epolls m) -> smap m' = smap m -> (forall k, queue_of k e' = queue_of k e) ->
  events_inv p m' /\ forall k, queued p k m' = queued p k m.
Proof.
  intros [(e0 & He0 & Hwf) Hsock Hid] He Hep Hsm Hk. assert (e0 = e) as -> by congruence.
  assert (He' : epolls m' !! p = Some e') by (rewrite Hep; apply lookup_insert_eq).
  assert (Q : forall k, queued p k m' = queued p k m) by (intros k; unfold queued; by rewrite He', He, Hk).
  split; [|done]. split.
  - exists e'. split; [done|]. intros k. by rewrite Hk.
  - intros k v. rewrite Q, Hsm. apply Hsock.
  - intros i s. rewrite Hsm. apply Hid.
Qed.

(** *** Raising an event *)

(** What [AddEpollEvent] does: nothing when the event is marked, an error when the queue is
    full, otherwise the event is queued last and the socket is marked. *)
Definition raised (p : Z) (qt : event_queue_type) (i ev : Z) (s : socket_map) (m : mtcp_manager)
    (r : Z) (m' : mtcp_manager) : Prop :=
  events_inv p m' /\ (forall k, k <> qt -> queued p k m' = queued p k m) /\
  ((r = 0 /\ has (events s) ev = true /\ queued p qt m' = queued p qt m /\ smap m' = smap m) \/
   (r = -1 /\ queued p qt m' = queued p qt m /\ smap m' = smap m /\
      exists e, epolls m !! p = Some e /\ zlen (queued p qt m) = eq_size (queue_of qt e)) \/
   (r = 0 /\ has (events s) ev = false /\
      queued p qt m' = queued p qt m ++ [EpollEventInt ev (ep_data s) i] /\
      smap m' = <[i := s <| events := Z.lor (events s) ev |>]> (smap m))).

Lemma AddEpollEvent_ok p qt i ev s m : events_inv p m -> p <> 0 -> ev <> 0 -> smap m !! i = Some s ->
  wp (AddEpollEvent p qt (Some i) ev) (raised p qt i ev s m) m.
Proof.
  intros Hm Hp Hev Hs. unfold AddEpollEvent.
  rewrite (proj2 (Z.eqb_neq p 0)), (proj2 (Z.eqb_neq ev 0)) by done. cbn [orb].
  pose proof (ei_wf _ _ Hm) as (e & He & Hwf). unfold epoll_at. rewrite !wp_bind, wp_get, wp_unwrap.
  exists e. split; [done|]. cbv zeta. set (e1 := upd issued _ e). unfold epoll_set. rewrite wp_bind, wp_modify.
  set (m1 := upd epolls _ m). unfold socket_at. rewrite !wp_bind, wp_get, wp_unwrap. exists s. split; [done|].
  assert (Hk1 : forall k, queue_of k e1 = queue_of k e) by by intros [].
  destruct (counted_inv p e e1 m m1 Hm He eq_refl eq_refl Hk1) as [Hm1 Q1].
  destruct (has (events s) ev) eqn:Eh.
  { rewrite wp_ret. split_and!; [done|intros; apply Q1|left; split_and!; done || apply Q1]. }
  rewrite Hk1. destruct (Z.leb_spec (eq_size (queue_of qt e)) (num_events (queue_of qt e))) as [Hf|Hf].
  { rewrite wp_ret. split_and!; [done|intros; apply Q1|right; left; split_and!; [done|apply Q1|done|]].
    exists e. split; [done|]. unfold queued. rewrite He, eq_view_zlen by done. destruct (Hwf qt) as [Hz [_ Hsp] _]. lia. }
  unfold socket_mod. rewrite !wp_bind. unfold socket_at. rewrite wp_bind, wp_get, wp_unwrap. exists s. split; [done|].
  rewrite wp_modify. destruct (ei_id _ _ Hm i s Hs) as [Eid _]. rewrite Eid.
  destruct (eq_push_ok (queue_of qt e) (EpollEventInt ev (ep_data s) i) (Hwf qt) Hf) as (q' & Hpush & Hq' & _ & Hv').
  rewrite wp_bind, wp_unwrap. exists q'. split; [done|]. rewrite wp_bind, wp_modify, wp_ret.
  set (m3 := upd epolls _ _). set (s' := s <| events := Z.lor (events s) ev |>).
  assert (Q : forall k, queued p k m1 = queued p k m) by apply Q1.
  destruct (exchanged_inv p qt q' i s' s m m3 Hm) as (Hm3 & Q3 & Q3'); [|done|done|done| |].
  - split; [done|]. exists e, (set_queue qt q' (e1 <| registered := u64 (registered e1 + 1) |>)).
    split_and!; [done| |by destruct qt|by intros [] Hne; destruct qt].
    change (epolls m3) with (<[p := set_queue qt q' (e1 <| registered := u64 (registered e1 + 1) |>)]>
      (<[p := e1]> (epolls m))).
    by rewrite insert_insert_eq.
  - intros v. rewrite Hv', elem_of_app, list_elem_of_singleton. unfold queued. rewrite He.
    intros [Hin| ->]; [by left|by right].
  - split_and!; [done|done|]. right; right. split_and!; [done|done| |done]. rewrite Q3, Hv'. unfold queued. by rewrite He.
Qed.

(** *** Fetching events *)

(** What is delivered of the events [l] while there is [room], the sockets with their marks
    cleared, and the events that remain. *)
Fixpoint deliver (skip : Z -> bool) (S : gmap Z socket_map) (room : Z) (l : list mtcp_epoll_event_int) :
    list mtcp_epoll_event_int * gmap Z socket_map * list mtcp_epoll_event_int :=
  match l with
  | [] => ([], S, [])
  | v :: l' =>
      match S !! ev_sockid v with
      | Some s =>
          if room <=? 0 then ([], S, l)
          else
            let ok := negb (skip (ev_sockid v)) && deliverable s v in
            let S' := <[ev_sockid v := s <| events := Z.ldiff (events s) (ev_events v) |>]> S in
            let '(d, S'', r) := deliver skip S' (if ok then room - 1 else room) l' in
            (if ok then v :: d else d, S'', r)
      | None => ([], S, l)
      end
  end.

Definition pair_of (v : mtcp_epoll_event_int) : Z * Z := (ev_events v, ev_data v).

Lemma deliver_room skip l : forall S room, zlen (deliver skip S room l).1.1 <= Z.max 0 room.
Proof.
  induction l as [|v l IH]; intros S room; cbn [deliver]; [unfold zlen; cbn; lia|].
  destruct (S !! ev_sockid v) as [s|]; [|unfold zlen; cbn; lia].
  destruct (Z.leb_spec room 0); [unfold zlen; cbn; lia|]. set (ok := negb _ && _).
  set (S' := <[_ := _]> S). specialize (IH S' (if ok then room - 1 else room)).
  destruct (deliver skip S' _ l) as [[d S''] r]. cbn in *. destruct ok; [rewrite zlen_cons|]; lia.
Qed.

(** Nothing is delivered only if nothing remains. *)
Lemma deliver_nothing skip l : forall S room, 0 < room -> (forall v, v ∈ l -> is_Some (S !! ev_sockid v)) ->
  (deliver skip S room l).1.1 = [] -> (deliver skip S room l).2 = [].
Proof.
  induction l as [|v l IH]; intros S room Hr Hs; cbn [deliver]; [done|].
  destruct (Hs v) as [s Es]; [by left|]. rewrite Es, (proj2 (Z.leb_gt _ _) Hr).
  destruct (negb _ && _); set (S' := <[_ := _]> S).
  - by destruct (deliver skip S' _ l) as [[d S''] r].
  - specialize (IH S' room Hr). destruct (deliver skip S' _ l) as [[d S''] r]. apply IH.
    intros w Hw. unfold S'. rewrite lookup_insert_is_Some'. right. apply Hs. by right.
Qed.

Lemma deliver_skips skip l : forall S room v, v ∈ (deliver skip S room l).1.1 -> v ∈ l /\ skip (ev_sockid v) = false.
Proof.
  induction l as [|w l IH]; intros S room v; cbn [deliver]; [by intros ?%not_elem_of_nil|].
  destruct (S !! ev_sockid w) as [s|]; [|by intros ?%not_elem_of_nil].
  destruct (room <=? 0); [by intros ?%not_elem_of_nil|]. destruct (negb (skip (ev_sockid w)) && _) eqn:E;
    set (S' := <[_ := _]> S); [specialize (IH S' (room - 1) v)|specialize (IH S' room v)];
    destruct (deliver skip S' _ l) as [[d S''] r]; cbn in *.
  - apply andb_true_iff in E as [E%negb_true_iff _]. intros [->|Hv]%elem_of_cons; [by split; [left|]|].
    destruct (IH Hv). split; [by right|done].
  - intros Hv. destruct (IH Hv). split; [by right|done].
Qed.

(** What fetching from one queue does. *)
Definition fetched_events (p : Z) (qt : event_queue_type) (skip : Z -> bool) (room : Z) (m : mtcp_manager)
    (l : list (Z * Z)) (m' : mtcp_manager) : Prop :=
  let o := deliver skip (smap m) room (queued p qt m) in
  events_inv p m' /\ l = pair_of <$> o.1.1 /\ smap m' = o.1.2 /\ queued p qt m' = o.2 /\
  forall k, k <> qt -> queued p k m' = queued p k m.

Lemma fetch_events_ok p qt skip n : forall room m, events_inv p m -> n = length (queued p qt m) ->
  wp (fetch_events p qt skip n room) (fetched_events p qt skip room m) m.
Proof.
  induction n as [|n IH]; intros room m Hm Hn; cbn [fetch_events]; unfold fetched_events.
  { symmetry in Hn. apply nil_length_inv in Hn. rewrite Hn, wp_ret. done. }
  destruct (queued p qt m) as [|v l] eqn:Eq; [done|]. cbn [deliver].
  destruct (ei_socket _ _ Hm qt v) as [s Hs]; [rewrite Eq; by left|]. rewrite Hs.
  destruct (room <=? 0) eqn:Er; [by rewrite wp_ret|].
  pose proof (ei_wf _ _ Hm) as (e & He & Hwf). unfold queued in Eq. rewrite He in Eq.
  destruct (eq_pop_ok _ v l (Hwf qt) Eq) as (q & Hpop & Hq & _ & Hl).
  unfold epoll_at. rewrite !wp_bind, wp_get, wp_unwrap. exists e. split; [done|].
  rewrite wp_bind, wp_unwrap. exists (v, q). split; [done|].
  unfold socket_at. rewrite !wp_bind, wp_get, wp_unwrap. exists s. split; [done|]. cbv zeta.
  destruct (ei_id _ _ Hm _ _ Hs) as [_ Hid]. rewrite wp_bind, wp_assert.
  set (ok := negb (skip (ev_sockid v)) && deliverable s v).
  split; [rewrite (proj2 (Z.leb_le _ _) Hid); apply orb_true_r|]. unfold epoll_set. rewrite wp_bind, wp_modify.
  unfold socket_mod, socket_at. rewrite !wp_bind, wp_get, wp_unwrap. exists s. split; [done|]. rewrite wp_modify.
  set (m1 := upd smap _ _).
  destruct (exchanged_inv p qt q (ev_sockid v) (s <| events := Z.ldiff (events s) (ev_events v) |>) s m m1 Hm)
    as (Hm1 & Q1 & Q1'); [|done|done|done| |].
  { split; [done|]. eexists e, _. split_and!; [done|reflexivity|by destruct ok, qt|by intros [] Hne; destruct ok, qt]. }
  { intros w. rewrite Hl. unfold queued. rewrite He, Eq. intros Hw. left. by right. }
  rewrite wp_bind. rewrite Hl in Q1. cbn in Hn. eapply wp_mono; [apply IH; [done|rewrite Q1; lia]|].
  intros d m2 Hd. unfold fetched_events in Hd. rewrite Q1 in Hd.
  change (smap m1) with (<[ev_sockid v := s <| events := Z.ldiff (events s) (ev_events v) |>]> (smap m)) in Hd.
  destruct (deliver skip _ (if ok then room - 1 else room) l) as [[d' S'] r].
  destruct Hd as (Hm2 & Ed & Hs2 & Q2 & Q2'). rewrite wp_ret. split_and!; [done| |done|done|].
  - by destruct ok; rewrite Ed.
  - intros k Hk. by rewrite Q2', Q1'.
Qed.

(** Both queues of the application. *)
Definition fetch_usr (skip : Z -> bool) (p room : Z) (m : mtcp_manager) :=
  deliver skip (smap m) room (queued p USR_EVENT_QUEUE m).

Definition fetch_shadow (skip : Z -> bool) (p room : Z) (m : mtcp_manager) :=
  let o := fetch_usr skip p room m in
  deliver skip o.1.2 (room - zlen o.1.1) (queued p USR_SHADOW_EVENT_QUEUE m).

Definition delivered (skip : Z -> bool) (p room : Z) (m : mtcp_manager) : list mtcp_epoll_event_int :=
  (fetch_usr skip p room m).1.1 ++ (fetch_shadow skip p room m).1.1.

Lemma num_queued p qt m e : events_inv p m -> epolls m !! p = Some e ->
  Z.to_nat (num_events (queue_of qt e)) = length (queued p qt m).
Proof.
  intros [(e0 & He0 & Hwf) _ _] He. assert (e0 = e) as -> by congruence. unfold queued. rewrite He.
  rewrite <- eq_view_zlen by done. unfold zlen. lia.
Qed.

Lemma fetch_both_ok p skip room m : events_inv p m ->
  wp (fetch_both p skip room) (fun l m' => events_inv p m' /\ l = pair_of <$> delivered skip p room m /\
    queued p USR_EVENT_QUEUE m' = (fetch_usr skip p room m).2 /\
    queued p USR_SHADOW_EVENT_QUEUE m' = (fetch_shadow skip p room m).2) m.
Proof.
  intros Hm. pose proof (ei_wf _ _ Hm) as (e & He & _). unfold fetch_both, epoll_at.
  rewrite !wp_bind, wp_get, wp_unwrap. exists e. split; [done|]. rewrite wp_bind.
  eapply wp_mono; [apply fetch_events_ok; [done|by apply (num_queued p USR_EVENT_QUEUE)]|].
  intros l1 m1 (Hm1 & -> & Hs1 & Q1 & Q1'). pose proof (ei_wf _ _ Hm1) as (e1 & He1 & _).
  rewrite !wp_bind, wp_get, wp_unwrap. exists e1. split; [done|]. rewrite wp_bind.
  eapply wp_mono; [apply fetch_events_ok; [done|by apply (num_queued p USR_SHADOW_EVENT_QUEUE)]|].
  intros l2 m2 (Hm2 & -> & _ & Q2 & Q2'). rewrite wp_ret. unfold delivered, fetch_shadow, fetch_usr.
  assert (Ez : forall d : list mtcp_epoll_event_int, zlen (pair_of <$> d) = zlen d).
  { intros d. unfold zlen. by rewrite length_fmap. }
  rewrite Q1', Hs1, Ez in Q2 by done. rewrite Q1', Hs1, Ez by done. rewrite fmap_app.
  split_and!; [done|done| |done]. by rewrite Q2', Q1.
Qed.

Lemma delivered_room skip p room m : 0 <= room -> zlen (delivered skip p room m) <= room.
Proof.
  intros Hr. unfold delivered. rewrite zlen_app.
  pose proof (deliver_room skip (queued p USR_EVENT_QUEUE m) (smap m) room) as H1. fold (fetch_usr skip p room m) in H1.
  pose proof (deliver_room skip (queued p USR_SHADOW_EVENT_QUEUE m) (fetch_usr skip p room m).1.2
    (room - zlen (fetch_usr skip p room m).1.1)) as H2. fold (fetch_shadow skip p room m) in H2. lia.
Qed.

Lemma deliver_sockets skip l i : forall S room, is_Some (S !! i) -> is_Some ((deliver skip S room l).1.2 !! i).
Proof.
  induction l as [|v l IH]; intros S room Hi; cbn [deliver]; [done|]. destruct (S !! ev_sockid v) as [s|]; [|done].
  destruct (room <=? 0); [done|]. set (S' := <[_ := _]> S).
  assert (Hi' : is_Some (S' !! i)) by (unfold S'; rewrite lookup_insert_is_Some'; by right).
  destruct (negb _ && _); [specialize (IH S' (room - 1) Hi')|specialize (IH S' room Hi')];
    by destruct (deliver skip S' _ l) as [[d S''] r].
Qed.

(** When nothing is delivered both queues have been emptied. *)
Lemma delivered_nothing skip p room m : events_inv p m -> 0 < room -> delivered skip p room m = [] ->
  (fetch_usr skip p room m).2 = [] /\ (fetch_shadow skip p room m).2 = [].
Proof.
  intros Hm Hr Hd. apply app_eq_nil in Hd as [H1 H2]. split.
  - apply deliver_nothing; [done| |done]. intros v. by apply (ei_socket _ _ Hm).
  - unfold fetch_shadow in *. rewrite H1 in *. apply deliver_nothing; [unfold zlen; cbn; lia| |done].
    intros v Hv. apply deliver_sockets. by eapply (ei_socket _ _ Hm).
Qed.

Definition waits_at (p : Z) (m : mtcp_manager) : Prop :=
  queued p USR_EVENT_QUEUE m = [] /\ queued p USR_SHADOW_EVENT_QUEUE m = [] /\
  waiting <$> epolls m !! p = Some true.

Lemma no_events_queued p m e : events_inv p m -> epolls m !! p = Some e ->
  no_events e = true <-> queued p USR_EVENT_QUEUE m = [] /\ queued p USR_SHADOW_EVENT_QUEUE m = [].
Proof.
  intros Hm He. unfold no_events. rewrite andb_true_iff, !Z.eqb_eq. rewrite <- !length_zero_iff_nil.
  rewrite <- (num_queued p USR_EVENT_QUEUE m e Hm He), <- (num_queued p USR_SHADOW_EVENT_QUEUE m e Hm He). cbn.
  destruct (ei_wf _ _ Hm) as (e0 & He0 & Hwf). assert (e0 = e) as -> by congruence.
  destruct (Hwf USR_EVENT_QUEUE) as [_ [_ H1] _], (Hwf USR_SHADOW_EVENT_QUEUE) as [_ [_ H2] _]. cbn in *. lia.
Qed.

(** An answer of the wait functions. *)
Definition wait_answer (skip : Z -> bool) (p room timeout : Z) (m : mtcp_manager)
    (r : api_result (list (Z * Z))) (m' : mtcp_manager) : Prop :=
  events_inv p m' /\
  match r with
  | Ret l => l = pair_of <$> delivered skip p room m /\ zlen l <= room /\ (l = [] -> timeout = 0)
  | Block => timeout <> 0 /\ delivered skip p room m = [] /\ waits_at p m'
  | Errno _ => False
  end.

(** A wait on empty queues. *)
Lemma epoll_wait_empty fuel p skip room timeout m : events_inv p m -> timeout <> 0 ->
  queued p USR_EVENT_QUEUE m = [] -> queued p USR_SHADOW_EVENT_QUEUE m = [] ->
  wp (epoll_wait_from fuel p skip room timeout) (fun r m' => r = Block /\ events_inv p m' /\ waits_at p m') m.
Proof.
  intros Hm Ht Q1 Q2. pose proof (ei_wf _ _ Hm) as (e & He & _).
  assert (He' : no_events e = true) by by apply (no_events_queued p m).
  assert (Hw : forall e', e' = e <| waits := u64 (waits e + 1) |> <| waiting := true |> ->
    events_inv p (m <| epolls ::= insert p e' |>) /\ waits_at p (m <| epolls ::= insert p e' |>)).
  { intros e' ->. set (m' := upd epolls _ m).
    destruct (counted_inv p e (e <| waits := u64 (waits e + 1) |> <| waiting := true |>) m m' Hm He)
      as [Hm' Q]; [done|done|by intros []|]. split; [done|]. split_and!; [by rewrite Q..|].
    change (epolls m') with (<[p := e <| waits := u64 (waits e + 1) |> <| waiting := true |>]> (epolls m)).
    by rewrite lookup_insert_eq. }
  destruct fuel; cbn [epoll_wait_from]; unfold epoll_at; rewrite !wp_bind, wp_get, wp_unwrap; exists e;
    (split; [done|]); rewrite He', (proj2 (Z.eqb_neq _ _) Ht); cbn [negb andb]; unfold epoll_set;
    rewrite wp_bind, wp_modify, wp_ret; (split; [done|]); by apply Hw.
Qed.

Lemma epoll_wait_from_S n p skip room timeout : epoll_wait_from (S n) p skip room timeout =
  (e ← epoll_at p;
   if no_events e && negb (timeout =? 0) then
     epoll_set p (e <| waits := u64 (waits e + 1) |> <| waiting := true |>);; mret Block
   else
     l ← fetch_both p skip room;
     if (zlen l =? 0) && negb (timeout =? 0) then epoll_wait_from n p skip room timeout else mret (Ret l)).
Proof. done. Qed.

Lemma epoll_wait_from_ok p skip room timeout m : events_inv p m -> 0 < room ->
  wp (epoll_wait_from 1 p skip room timeout) (wait_answer skip p room timeout m) m.
Proof.
  intros Hm Hr. pose proof (ei_wf _ _ Hm) as (e & He & _).
  destruct (no_events e && negb (timeout =? 0)) eqn:En.
  { apply andb_true_iff in En as [En Et%negb_true_iff%Z.eqb_neq].
    apply (no_events_queued p m) in En as [Q1 Q2]; [|done..].
    eapply wp_mono; [by apply epoll_wait_empty|]. intros r m' (-> & Hm' & Hw). split; [done|].
    split_and!; [done| |done]. unfold delivered, fetch_shadow, fetch_usr. by rewrite Q1, Q2. }
  rewrite epoll_wait_from_S. unfold epoll_at. rewrite !wp_bind, wp_get, wp_unwrap. exists e. split; [done|].
  rewrite En, wp_bind. eapply wp_mono; [by apply fetch_both_ok|]. intros l m1 (Hm1 & -> & Q1 & Q2).
  assert (Ez : zlen (pair_of <$> delivered skip p room m) = zlen (delivered skip p room m)).
  { unfold zlen. by rewrite length_fmap. }
  destruct ((zlen (pair_of <$> delivered skip p room m) =? 0) && negb (timeout =? 0)) eqn:E0.
  - apply andb_true_iff in E0 as [E0%Z.eqb_eq Et%negb_true_iff%Z.eqb_neq].
    assert (Hd : delivered skip p room m = []).
    { apply nil_length_inv. rewrite Ez in E0. unfold zlen in E0. lia. }
    destruct (delivered_nothing skip p room m Hm Hr Hd) as [R1 R2].
    eapply wp_mono; [apply (epoll_wait_empty 0); [done|done|congruence..]|].
    by intros r m' (-> & Hm' & Hw).
  - rewrite wp_ret. split; [done|]. split_and!; [done|rewrite Ez; apply delivered_room; lia|].
    intros El. rewrite El in E0. change (zlen []) with 0 in E0. cbn in E0. by apply negb_false_iff, Z.eqb_eq in E0.
Qed.

Lemma wait_with_ok skip c epid s maxevents timeout m : GetMTCPManager c = None -> in_range epid m = true ->
  smap m !! epid = Some s -> socktype s = MTCP_SOCK_EPOLL -> sock_obj s <> 0 -> 0 < maxevents ->
  events_inv (sock_obj s) m ->
  wp (epoll_wait_with skip c epid false maxevents timeout)
    (wait_answer skip (sock_obj s) maxevents timeout m) m.
Proof.
  intros Hc Hr Hs Ht H0 Hmax Hm. unfold epoll_wait_with, with_epoll, with_manager, with_socket. rewrite Hc.
  rewrite wp_bind, wp_get, Hr. unfold socket_at. rewrite !wp_bind, wp_get, wp_unwrap. exists s. split; [done|].
  rewrite Ht. change (wp (if (sock_obj s =? 0) || false || (maxevents <=? 0) then mret (Errno EINVAL)
    else e ← epoll_at (sock_obj s); epoll_set (sock_obj s) (e <| calls := u64 (calls e + 1) |>);;
         epoll_wait_from 1 (sock_obj s) skip maxevents timeout)
    (wait_answer skip (sock_obj s) maxevents timeout m) m).
  rewrite (proj2 (Z.eqb_neq _ _) H0), (proj2 (Z.leb_gt _ _) Hmax). cbn [orb].
  pose proof (ei_wf _ _ Hm) as (e & He & _). unfold epoll_at. rewrite !wp_bind, wp_get, wp_unwrap. exists e.
  split; [done|]. unfold epoll_set. rewrite wp_bind, wp_modify. set (e1 := e <| calls := u64 (calls e + 1) |>).
  set (m1 := upd epolls _ m).
  destruct (counted_inv (sock_obj s) e e1 m m1 Hm He) as [Hm1 Q]; [done|done|by intros []|].
  assert (Ed : delivered skip (sock_obj s) maxevents m1 = delivered skip (sock_obj s) maxevents m).
  { unfold delivered, fetch_shadow, fetch_usr. by rewrite !Q. }
  eapply wp_mono; [by apply epoll_wait_from_ok|]. unfold wait_answer. intros r m' [Hm' Hr']. rewrite Ed in Hr'. done.
Qed.

(** The queues after the stack has moved its events. *)
Lemma flushed_inv p e e' m m' k : events_inv p m -> epolls m !! p = Some e ->
  epolls m' = <[p := e']> (epolls m) -> smap m' = smap m ->
  eq_wf (usr_queue e') -> eq_wf (mtcp_queue e') -> usr_shadow_queue e' = usr_shadow_queue e ->
  eq_view (usr_queue e') = eq_view (usr_queue e) ++ take k (eq_view (mtcp_queue e)) ->
  eq_view (mtcp_queue e') = drop k (eq_view (mtcp_queue e)) -> events_inv p m'.
Proof.
  intros [(e0 & He0 & Hwf) Hsock Hid] He Hep Hsm Hu Hq Es Vu Vm. assert (e0 = e) as -> by congruence.
  assert (He' : epolls m' !! p = Some e') by (rewrite Hep; apply lookup_insert_eq). split.
  - exists e'. split; [done|]. intros []; cbn [queue_of]; [done|rewrite Es; apply (Hwf USR_SHADOW_EVENT_QUEUE)|done].
  - assert (Hin : forall qt v, v ∈ eq_view (queue_of qt e) -> is_Some (smap m' !! ev_sockid v)).
    { intros qt v Hv. rewrite Hsm. apply (Hsock qt). unfold queued. by rewrite He. }
    intros qt v. unfold queued. rewrite He'. destruct qt; cbn [queue_of].
    + rewrite Vu. intros [Hv|Hv]%elem_of_app; [by apply (Hin USR_EVENT_QUEUE)|].
      apply (Hin MTCP_EVENT_QUEUE). cbn. rewrite <- (take_drop k (eq_view (mtcp_queue e))). apply elem_of_app. by left.
    + rewrite Es. apply (Hin USR_SHADOW_EVENT_QUEUE).
    + rewrite Vm. intros Hv. apply (Hin MTCP_EVENT_QUEUE). cbn.
      rewrite <- (take_drop k (eq_view (mtcp_queue e))). apply elem_of_app. by right.
  - intros i s. rewrite Hsm. apply Hid.
Qed.

Lemma pending_events q1 q2 : eq_wf q1 -> eq_wf q2 -> eq_view q1 ++ eq_view q2 <> [] ->
  (0 <? num_events q1) || (0 <? num_events q2) = true.
Proof.
  intros H1 H2 Hne. rewrite orb_true_iff, !Z.ltb_lt, <- (eq_view_zlen q1 H1), <- (eq_view_zlen q2 H2).
  destruct (eq_view q1); [right|left; rewrite zlen_cons; pose proof (zlen_nonneg l); lia].
  destruct (eq_view q2); [done|]. rewrite zlen_cons. pose proof (zlen_nonneg l). lia.
Qed.

(** ** Properties *)

(** raising an event.  [AddEpollEvent] returns; it queues the event behind the others
    and marks the socket, unless the event is already marked (then it is queued once, not
    twice) or the queue is full (then it answers -1); the other queues are unchanged. *)
Theorem AddEpollEvent_queues (p : Z) (qt : event_queue_type) (i ev : Z) (s : socket_map) (m : mtcp_manager) :
  events_inv p m -> p <> 0 -> ev <> 0 -> smap m !! i = Some s ->
  exists r m', AddEpollEvent p qt (Some i) ev m = Ok r m' /\ raised p qt i ev s m r m'.
Proof. intros Hm Hp Hev Hs. apply wp_elim. by apply AddEpollEvent_ok. Qed.

(** handing events to the application.  [FlushEpollEvents] returns; it moves the oldest
    events of the stack behind the events of the application, in order, until the stack has
    none left or the application's queue is full; an application that waits is woken when
    there are events for it. *)
Theorem FlushEpollEvents_moves (m : mtcp_manager) (e : mtcp_epoll) :
  events_inv (ep m) m -> epolls m !! ep m = Some e ->
  exists m' e' k, FlushEpollEvents m = Ok tt m' /\ epolls m' !! ep m = Some e' /\ events_inv (ep m) m' /\
    queued (ep m) USR_EVENT_QUEUE m' =
      queued (ep m) USR_EVENT_QUEUE m ++ take k (queued (ep m) MTCP_EVENT_QUEUE m) /\
    queued (ep m) MTCP_EVENT_QUEUE m' = drop k (queued (ep m) MTCP_EVENT_QUEUE m) /\
    queued (ep m) USR_SHADOW_EVENT_QUEUE m' = queued (ep m) USR_SHADOW_EVENT_QUEUE m /\
    (queued (ep m) MTCP_EVENT_QUEUE m' = [] \/ zlen (queued (ep m) USR_EVENT_QUEUE m') = eq_size (usr_queue e)) /\
    (waiting e = true -> queued (ep m) USR_EVENT_QUEUE m' ++ queued (ep m) USR_SHADOW_EVENT_QUEUE m' <> [] ->
       wakes e' = u64 (wakes e + 1)).
Proof.
  intros Hm He. pose proof (ei_wf _ _ Hm) as (e0 & He0 & Hwf). assert (e0 = e) as -> by congruence.
  destruct (flush_events_ok (Z.to_nat (num_events (mtcp_queue e))) (usr_queue e) (mtcp_queue e)
    (Hwf USR_EVENT_QUEUE) (Hwf MTCP_EVENT_QUEUE)) as (uq & mq & k & Hf & Hu & Hq & Su & _ & Vu & Vm & Hend).
  { pose proof (num_queued (ep m) MTCP_EVENT_QUEUE m e Hm He) as Hn. unfold queued in Hn. rewrite He in Hn. cbn in Hn. lia. }
  set (e1 := e <| usr_queue := uq |> <| mtcp_queue := mq |>).
  set (pending := (0 <? num_events (usr_queue e1)) || (0 <? num_events (usr_shadow_queue e1))).
  set (e2 := if waiting e1 && pending then e1 <| wakes := u64 (wakes e1 + 1) |> else e1).
  set (m' := m <| epolls ::= insert (ep m) e2 |>).
  assert (E2 : usr_queue e2 = uq /\ mtcp_queue e2 = mq /\ usr_shadow_queue e2 = usr_shadow_queue e).
  { unfold e2. by destruct (waiting e1 && pending). }
  destruct E2 as (E2u & E2m & E2s).
  assert (Hl : epolls m' !! ep m = Some e2) by apply lookup_insert_eq.
  exists m', e2, k. split.
  { assert (Hw : wp FlushEpollEvents (fun _ m1 => m1 = m') m).
    { unfold FlushEpollEvents, epoll_at. rewrite !wp_bind, wp_get, wp_bind, wp_bind, wp_get, wp_unwrap. exists e.
      split; [done|]. rewrite wp_bind, wp_unwrap. by exists (uq, mq). }
    by destruct (wp_elim _ _ _ Hw) as ([] & m1 & -> & ->). }
  split; [done|]. unfold queued. rewrite Hl, He. cbn [queue_of]. rewrite E2u, E2m, E2s.
  split_and!; [|done|done|done| |].
  - apply (flushed_inv (ep m) e e2 m m' k); rewrite ?E2u, ?E2m; done.
  - destruct Hend as [Hend|Hend]; [by left|right]. by rewrite eq_view_zlen, Hend.
  - intros Hw Hne. assert (Hp : pending = true).
    { apply (pending_events uq (usr_shadow_queue e)); [done|apply (Hwf USR_SHADOW_EVENT_QUEUE)|done]. }
    unfold e2. rewrite Hp. change (waiting e1) with (waiting e). by rewrite Hw.
Qed.

(** C19: waiting for events.  [mtcp_epoll_wait] on an epoll socket returns the events that
    can be delivered, in the order in which they were queued and at most [maxevents] of
    them; it blocks only when nothing can be delivered, with both queues of the application
    empty and with the mark [waiting] that makes the stack wake it; it never spins. *)
Theorem mtcp_epoll_wait_answers (c : app_ctx) (epid maxevents timeout : Z) (s : socket_map) (m : mtcp_manager) :
  GetMTCPManager c = None -> in_range epid m = true -> smap m !! epid = Some s ->
  socktype s = MTCP_SOCK_EPOLL -> sock_obj s <> 0 -> 0 < maxevents -> events_inv (sock_obj s) m ->
  exists r m', mtcp_epoll_wait c epid false maxevents timeout m = Ok r m' /\
    wait_answer (fun _ => false) (sock_obj s) maxevents timeout m r m'.
Proof. intros. apply wp_elim. by apply wait_with_ok. Qed.

(** [mtcp_epoll_queue_wait] drops what it is asked to wait for.  The test on the
    queues that are waited for is inverted: no event of a queue of [qds] is ever returned,
    although the events are taken out of the queues. *)
Theorem mtcp_epoll_queue_wait_drops (c : app_ctx) (qds : list Z) (epid maxevents timeout : Z) (s : socket_map)
    (m : mtcp_manager) (l : list (Z * Z)) (m' : mtcp_manager) :
  GetMTCPManager c = None -> in_range epid m = true -> smap m !! epid = Some s ->
  socktype s = MTCP_SOCK_EPOLL -> sock_obj s <> 0 -> 0 < maxevents -> events_inv (sock_obj s) m ->
  mtcp_epoll_queue_wait qds c epid false maxevents timeout m = Ok (Ret l) m' ->
  exists d, l = pair_of <$> d /\ forall v, v ∈ d -> ev_sockid v ∉ qds.
Proof.
  intros Hc Hr Hs Ht H0 Hmax Hm E.
  pose proof (wait_with_ok (fun i => qd_valid i qds) c epid s maxevents timeout m Hc Hr Hs Ht H0 Hmax Hm) as Hw.
  unfold wp in Hw. change (epoll_wait_with (fun i => qd_valid i qds)) with (mtcp_epoll_queue_wait qds) in Hw.
  rewrite E in Hw. destruct Hw as (_ & El & _). eexists. split; [exact El|]. intros v Hv Hq.
  assert (Hs' : qd_valid (ev_sockid v) qds = false) by (unfold delivered in Hv; apply elem_of_app in Hv as [Hv|Hv];
    by apply deliver_skips in Hv as [_ ?]).
  unfold qd_valid in Hs'. apply not_true_iff_false in Hs'. apply Hs', existsb_exists. exists (ev_sockid v).
  rewrite Z.eqb_refl. split; [by apply list_elem_of_In|done].
Qed.

(** *** Witnesses *)

#[local] Instance eq_wf_dec q : Decision (eq_wf q).
Proof.
  destruct (decide (zlen (eq_events q) = eq_size q /\ spans (eq_events q) (eq_start q) (num_events q) /\
    eq_end q = (eq_start q + num_events q) mod eq_size q)) as [(?&?&?)|Hn]; [by left|right].
  by intros [? ? ?]; apply Hn.
Defined.

(** A test that implies the invariant. *)
Definition events_ok (p : Z) (m : mtcp_manager) : bool :=
  match epolls m !! p with
  | Some e =>
      forallb (fun qt => bool_decide (eq_wf (queue_of qt e)) &&
        bool_decide (Forall (fun v => is_Some (smap m !! ev_sockid v)) (eq_view (queue_of qt e))))
        [USR_EVENT_QUEUE; USR_SHADOW_EVENT_QUEUE; MTCP_EVENT_QUEUE] &&
      bool_decide (map_Forall (fun i s => sock_id s = i /\ 0 <= i) (smap m))
  | None => false
  end.

Lemma events_ok_inv p m : events_ok p m = true -> events_inv p m.
Proof.
  unfold events_ok. destruct (epolls m !! p) as [e|] eqn:He; [|done].
  rewrite andb_true_iff, bool_decide_eq_true, forallb_forall. intros [Hq Hid].
  assert (Hall : forall qt, eq_wf (queue_of qt e) /\
    Forall (fun v => is_Some (smap m !! ev_sockid v)) (eq_view (queue_of qt e))).
  { intros qt. specialize (Hq qt). rewrite andb_true_iff, !bool_decide_eq_true in Hq. apply Hq. destruct qt; cbn; auto. }
  split; [exists e; split; [done|]; intros qt; apply Hall| |done].
  intros qt v. unfold queued. rewrite He. revert v. apply (proj1 (list.Forall_forall _ _)), Hall.
Qed.

(** An epoll object of four events at socket 0, and a stream socket 1 that is registered for
    input and has such an event in the queue of the application. *)
Definition demo_epoll : mtcp_manager :=
  after (AddEpollEvent 1000000 USR_EVENT_QUEUE (Some 1) MTCP_EPOLLIN)
    (after (mtcp_epoll_ctl demo_ctx 0 MTCP_EPOLL_CTL_ADD 1 (Some (MTCP_EPOLLIN, 77)))
      (after (mtcp_socket demo_ctx AF_INET SOCK_STREAM)
        (after (mtcp_epoll_create true 4) demo_manager))).

(** An error event of the stack waits as well. *)
Definition demo_stack_event : mtcp_manager :=
  after (AddEpollEvent 1000000 MTCP_EVENT_QUEUE (Some 1) MTCP_EPOLLERR) demo_epoll.

Lemma demo_epoll_inv : events_inv 1000000 demo_epoll.
Proof. apply events_ok_inv. vm_compute. reflexivity. Qed.

Lemma demo_stack_event_inv : events_inv (ep demo_stack_event) demo_stack_event.
Proof. apply events_ok_inv. vm_compute. reflexivity. Qed.

Definition demo_sock (i : Z) (m : mtcp_manager) : socket_map :=
  default (SocketMap 0 0 0 0 0 0 0 0 0) (smap m !! i).

Definition demo_object (m : mtcp_manager) : mtcp_epoll :=
  default (MtcpEpoll (EventQueue [] 0 0 0 0) (EventQueue [] 0 0 0 0) (EventQueue [] 0 0 0 0) false 0 0 0 0 0 0 0)
    (epolls m !! ep m).

Lemma AddEpollEvent_queues_witness :
  exists r m', AddEpollEvent 1000000 MTCP_EVENT_QUEUE (Some 1) MTCP_EPOLLERR demo_epoll = Ok r m' /\
    raised 1000000 MTCP_EVENT_QUEUE 1 MTCP_EPOLLERR (demo_sock 1 demo_epoll) demo_epoll r m'.
Proof.
  apply (AddEpollEvent_queues 1000000 MTCP_EVENT_QUEUE 1 MTCP_EPOLLERR (demo_sock 1 demo_epoll) demo_epoll demo_epoll_inv);
    [discriminate|discriminate|vm_compute; reflexivity].
Defined.

Lemma FlushEpollEvents_moves_witness :
  length (queued (ep demo_stack_event) MTCP_EVENT_QUEUE demo_stack_event) = 1%nat /\
  exists m', FlushEpollEvents demo_stack_event = Ok tt m' /\
    length (queued (ep demo_stack_event) USR_EVENT_QUEUE m') = 2%nat.
Proof.
  split; [vm_compute; reflexivity|].
  destruct (FlushEpollEvents_moves demo_stack_event (demo_object demo_stack_event) demo_stack_event_inv)
    as (m' & e' & k & Hf & _); [vm_compute; reflexivity|].
  exists m'. split; [exact Hf|]. assert (E : after FlushEpollEvents demo_stack_event = m') by (unfold after; by rewrite Hf).
  rewrite <- E. vm_compute. reflexivity.
Defined.

Lemma mtcp_epoll_wait_answers_witness :
  exists m', mtcp_epoll_wait demo_ctx 0 false 8 (-1) demo_epoll = Ok (Ret [(MTCP_EPOLLIN, 77)]) m'.
Proof.
  destruct (mtcp_epoll_wait_answers demo_ctx 0 8 (-1) (demo_sock 0 demo_epoll) demo_epoll) as (r & m' & E & Hr);
    [reflexivity|vm_compute; reflexivity|vm_compute; reflexivity|vm_compute; reflexivity|vm_compute; discriminate|lia| |].
  { assert (Ep : sock_obj (demo_sock 0 demo_epoll) = 1000000) by (vm_compute; reflexivity). rewrite Ep. exact demo_epoll_inv. }
  exists m'. rewrite E. f_equal. destruct r as [l|e|].
  - destruct Hr as (_ & -> & _). vm_compute. reflexivity.
  - destruct Hr as [_ []].
  - destruct Hr as (_ & _ & Hd & _). vm_compute in Hd. discriminate.
Defined.

Lemma mtcp_epoll_queue_wait_drops_witness :
  exists m', mtcp_epoll_queue_wait [1] demo_ctx 0 false 8 0 demo_epoll = Ok (Ret []) m' /\
    queued 1000000 USR_EVENT_QUEUE demo_epoll <> [] /\ queued 1000000 USR_EVENT_QUEUE m' = [] /\
    exists d, [] = pair_of <$> d /\ forall v, v ∈ d -> ev_sockid v ∉ [1].
Proof.
  exists (after (mtcp_epoll_queue_wait [1] demo_ctx 0 false 8 0) demo_epoll).
  assert (E : mtcp_epoll_queue_wait [1] demo_ctx 0 false 8 0 demo_epoll =
    Ok (Ret []) (after (mtcp_epoll_queue_wait [1] demo_ctx 0 false 8 0) demo_epoll)) by (vm_compute; reflexivity).
  split; [exact E|]. split; [vm_compute; discriminate|]. split; [vm_compute; reflexivity|].
  apply (mtcp_epoll_queue_wait_drops demo_ctx [1] 0 8 0 (demo_sock 0 demo_epoll) demo_epoll []
    (after (mtcp_epoll_queue_wait [1] demo_ctx 0 false 8 0) demo_epoll));
    [reflexivity|vm_compute; reflexivity|vm_compute; reflexivity|vm_compute; reflexivity|vm_compute; discriminate|lia| |exact E].
  assert (Ep : sock_obj (demo_sock 0 demo_epoll) = 1000000) by (vm_compute; reflexivity). rewrite Ep. exact demo_epoll_inv.
Defined.
