(* ===== verification/Pipes.v ===== *)
(** * Pipes are byte queues

    The buffer of a pipe is a circular array; what is written at one end is read at the
    other, in order, and nothing is lost or read twice ([pipe.c]). *)

From S2P Require Import Prelude SeqArith Mtcp Events Sockets Core Api Frame Stack System Ring Epoll.

(** ** The buffer *)

Definition pipe_view (x : pipe) : list Z := window (pp_buf x) (buf_off x) (buf_len x).

Record pipe_wf (x : pipe) : Prop := {
  pw_size : zlen (pp_buf x) = buf_size x;
  pw_span : spans (pp_buf x) (buf_off x) (buf_len x);
  pw_tail : buf_tail x = (buf_off x + buf_len x) mod buf_size x
}.

(** The fields that the transfer of bytes leaves alone. *)
Definition pipe_ends (x : pipe) := (pp_state x, pp_socket0 x, pp_socket1 x, buf_size x).

Lemma pipe_view_zlen x : pipe_wf x -> zlen (pipe_view x) = buf_len x.
Proof. intros [_ Hs _]. by apply window_zlen. Qed.

(** Moving an index by at most the size of the array. *)
Lemma advance_index n i k : 0 <= i < n -> 0 <= k <= n ->
  (if i + k <? n then i + k else k - (n - i)) = (i + k) mod n.
Proof.
  intros Hi Hk. destruct (Z.ltb_spec (i + k) n); [by rewrite Z.mod_small by lia|].
  apply (Z.mod_unique_pos _ _ 1); lia.
Qed.

Lemma pipe_take_ok n x : pipe_wf x -> 0 <= n <= buf_len x ->
  exists y, pipe_take n x = Some (take (Z.to_nat n) (pipe_view x), y) /\ pipe_wf y /\
    pipe_view y = drop (Z.to_nat n) (pipe_view x) /\ pipe_ends y = pipe_ends x.
Proof.
  intros [Hz Hs Ht] Hn. pose proof Hs as [Ho Hl]. unfold pipe_view.
  rewrite <- (window_take _ _ _ n Hs Hn). pose proof (advance_index (buf_size x) (buf_off x) n ltac:(lia) ltac:(lia)) as Ha.
  assert (Hy : forall y, pp_buf y = pp_buf x -> buf_off y = (buf_off x + n) mod buf_size x ->
    buf_len y = buf_len x - n -> buf_tail y = buf_tail x -> pipe_ends y = pipe_ends x -> pipe_wf y /\
    window (pp_buf y) (buf_off y) (buf_len y) = drop (Z.to_nat n) (window (pp_buf x) (buf_off x) (buf_len x)) /\
    pipe_ends y = pipe_ends x).
  { intros y Eb Eo El Et Ee. injection Ee as E1 E2 E3 E4. pose proof (Z.mod_pos_bound (buf_off x + n) (buf_size x) ltac:(lia)).
    split_and!; [split|rewrite Eb, Eo, El, <- Hz; by apply window_drop|unfold pipe_ends; congruence].
    - congruence.
    - rewrite Eb, Eo, El. split; lia.
    - rewrite Et, Eo, El, E4, Ht, Zplus_mod_idemp_l. f_equal. lia. }
  unfold pipe_take. destruct (Z.ltb_spec (buf_off x + n) (buf_size x)).
  - rewrite window_read by lia. cbn [mbind option_bind]. eexists. split; [done|]. by apply Hy.
  - rewrite window_read by lia. cbn [mbind option_bind]. rewrite window_read by lia. cbn [mbind option_bind].
    rewrite (window_split _ _ n), Hz by (split || idtac; lia). eexists. split; [done|]. by apply Hy.
Qed.

(** A chunk that is written at the end of the contents, up to the end of the array. *)
Lemma chunk_in {A} (b : list A) off len tail d : spans b off len -> tail = (off + len) mod zlen b ->
  len + zlen d <= zlen b -> tail + zlen d <= zlen b ->
  exists b', mem_write b tail d = Some b' /\ window b' off (len + zlen d) = window b off len ++ d /\ zlen b' = zlen b.
Proof.
  intros Hs -> Hle Ht. pose proof Hs as [Ho Hl]. pose proof (Z.mod_pos_bound (off + len) (zlen b) ltac:(lia)).
  destruct (mem_write b _ d) as [b'|] eqn:Hw; [|by rewrite mem_write_ok in Hw by lia].
  exists b'. split_and!; [done|by apply window_write|]. unfold zlen. by rewrite (mem_write_length _ _ _ _ Hw).
Qed.

Lemma pipe_give_ok src n x : pipe_wf x -> 0 <= n <= buf_size x - buf_len x -> n <= zlen src ->
  exists y, pipe_give src n x = Some y /\ pipe_wf y /\
    pipe_view y = pipe_view x ++ take (Z.to_nat n) src /\ pipe_ends y = pipe_ends x.
Proof.
  intros [Hz Hs Ht] Hn Hsrc. pose proof Hs as [Ho Hl]. unfold pipe_view, pipe_give.
  pose proof (Z.mod_pos_bound (buf_off x + buf_len x) (buf_size x) ltac:(lia)) as Hb. rewrite <- Ht in Hb.
  pose proof (advance_index (buf_size x) (buf_tail x) n Hb ltac:(lia)) as Ha.
  assert (Hend : (buf_tail x + n) mod buf_size x = (buf_off x + (buf_len x + n)) mod buf_size x).
  { rewrite Ht, Zplus_mod_idemp_l. f_equal. lia. }
  assert (Ez : forall k, 0 <= k <= n -> zlen (take (Z.to_nat k) src) = k).
  { intros k Hk. unfold zlen in *. rewrite length_take. lia. }
  destruct (Z.ltb_spec (buf_tail x + n) (buf_size x)).
  - rewrite mem_read_ok by lia. cbn [mbind option_bind]. change (Z.to_nat 0) with 0%nat. rewrite drop_0.
    destruct (chunk_in (pp_buf x) (buf_off x) (buf_len x) (buf_tail x) (take (Z.to_nat n) src)) as (b & -> & Hv & Hb');
      [done|by rewrite Hz|rewrite Ez by lia; lia..|]. rewrite Ez in Hv by lia.
    cbn [mbind option_bind]. eexists. split; [done|]. split_and!; [split; cbn|done|done]; [lia|split; lia|lia].
  - set (k := buf_size x - buf_tail x) in *. rewrite !mem_read_ok by lia. cbn [mbind option_bind].
    change (Z.to_nat 0) with 0%nat. rewrite drop_0.
    destruct (chunk_in (pp_buf x) (buf_off x) (buf_len x) (buf_tail x) (take (Z.to_nat k) src)) as (b & -> & Hv & Hb');
      [done|by rewrite Hz|rewrite Ez by lia; lia..|]. rewrite Ez in Hv by lia. cbn [mbind option_bind].
    set (d2 := take (Z.to_nat (n - k)) (drop (Z.to_nat k) src)).
    assert (Ez2 : zlen d2 = n - k).
    { unfold d2, zlen in *. rewrite length_take, length_drop. lia. }
    destruct (chunk_in b (buf_off x) (buf_len x + k) 0 d2) as (b' & -> & Hv' & Hb'').
    + split; lia.
    + rewrite Hb', Hz. replace (buf_off x + (buf_len x + k)) with (buf_off x + buf_len x + k) by lia.
      rewrite <- Zplus_mod_idemp_l, <- Ht. unfold k. replace (_ + _) with (buf_size x) by lia. by rewrite Z_mod_same_full.
    + lia.
    + lia.
    + cbn [mbind option_bind]. eexists. split; [done|]. rewrite Ez2 in Hv'. rewrite Hv in Hv'.
      split_and!; [split; cbn| |done]; [lia|split; lia|lia|]. cbn.
      replace (buf_len x + n) with (buf_len x + k + (n - k)) by lia. rewrite Hv', <- app_assoc. f_equal.
      unfold d2. rewrite take_drop_commute. replace (Z.to_nat k + Z.to_nat (n - k))%nat with (Z.to_nat n) by lia.
      rewrite <- (take_drop (Z.to_nat k) (take (Z.to_nat n) src)) at 2. rewrite take_take. do 2 f_equal. lia.
Qed.

(** ** The calls *)

(** The epoll object in use is in order. *)
Definition healthy (m : mtcp_manager) : Prop := ep m <> 0 -> events_inv (ep m) m.

Lemma healthy_same m m' : epolls m' = epolls m -> smap m' = smap m -> ep m' = ep m -> healthy m -> healthy m'.
Proof.
  intros E1 E2 E3 Hm H0. rewrite E3 in *. destruct (Hm H0) as [Hw Hs Hi]. unfold queued in *.
  split; unfold queued; rewrite ?E1, ?E2; done.
Qed.

(** What raising events leaves: the pipes, and every socket as far as the pipes see it. *)
Definition only_events (m m' : mtcp_manager) : Prop :=
  healthy m' /\ pipes m' = pipes m /\ ep m' = ep m /\ forall j, is_Some (smap m !! j) -> is_Some (smap m' !! j).

Lemma wp_frames {A T} (p : mtcp_manager -> T) (f : MT A) (Q : A -> mtcp_manager -> Prop) m :
  frames p f -> wp f Q m -> wp f (fun r m' => Q r m' /\ p m' = p m) m.
Proof.
  intros Hf Hw. specialize (Hf m I). unfold wp, wpe in *. destruct (f m); [|done]. split; [done|apply Hf].
Qed.

Lemma raise_only qt i ev m : healthy m -> is_Some (smap m !! i) ->
  wp (AddEpollEvent (ep m) qt (Some i) ev) (fun _ m' => only_events m m') m.
Proof.
  intros Hh [s Hs]. destruct (decide (ep m = 0)) as [E|E].
  { unfold AddEpollEvent. rewrite E. cbn [Z.eqb orb]. by rewrite wp_ret. }
  destruct (decide (ev = 0)) as [->|Hev].
  { unfold AddEpollEvent. rewrite orb_true_r. by rewrite wp_ret. }
  eapply wp_mono; [apply (wp_frames ep); [frames|]; apply (wp_frames pipes); [frames|];
    by apply AddEpollEvent_ok; [apply Hh|..]|].
  intros r m' [[(Hm' & _ & Hc) Hp] Hep]. split_and!; [|done|done|].
  - intros _. by rewrite Hep.
  - intros j Hj. destruct Hc as [(_ & _ & _ & ->)|[(_ & _ & -> & _)|(_ & _ & _ & ->)]]; [done|done|].
    rewrite lookup_insert_is_Some'. by right.
Qed.

Lemma raise_when (b : bool) qt i ev m : healthy m -> is_Some (smap m !! i) ->
  wp (whenM b (AddEpollEvent (ep m) qt (Some i) ev;; mret tt)) (fun _ m' => only_events m m') m.
Proof.
  intros Hh Hi. rewrite wp_when. split; [|done]. intros _. rewrite wp_bind.
  eapply wp_mono; [by apply raise_only|]. by intros r m' Hm'; rewrite wp_ret.
Qed.

Lemma RaiseEventToPair_only i ev s x m : healthy m -> smap m !! i = Some s -> pipes m !! sock_obj s = Some x ->
  is_Some (smap m !! pp_socket0 x) -> is_Some (smap m !! pp_socket1 x) ->
  wp (RaiseEventToPair i ev) (fun _ m' => only_events m m') m.
Proof.
  intros Hh Hs Hx H0 H1. unfold RaiseEventToPair, socket_at, pipe_at.
  rewrite !wp_bind, wp_get, wp_unwrap. exists s. split; [done|]. rewrite !wp_bind, wp_get, wp_unwrap. exists x. split; [done|].
  cbv zeta. set (j := if pp_socket0 x =? i then pp_socket1 x else pp_socket0 x).
  assert (Hj : is_Some (smap m !! j)) by (unfold j; by destruct (_ =? i)). destruct Hj as [t Ht].
  rewrite !wp_bind, wp_get, wp_unwrap. exists t. split; [done|]. rewrite wp_bind, wp_get. by apply raise_when.
Qed.

(** An end of a pipe. *)
Record pipe_end (c : app_ctx) (i : Z) (s : socket_map) (x : pipe) (m : mtcp_manager) : Prop := {
  pe_ctx : GetMTCPManager c = None;
  pe_range : in_range i m = true;
  pe_socket : smap m !! i = Some s;
  pe_type : socktype s = MTCP_SOCK_PIPE;
  pe_obj : sock_obj s <> 0;
  pe_pipe : pipes m !! sock_obj s = Some x;
  pe_wf : pipe_wf x;
  pe_pair : is_Some (smap m !! pp_socket0 x) /\ is_Some (smap m !! pp_socket1 x);
  pe_healthy : healthy m
}.

(** The state after a transfer: the pipe holds [l]. *)
Definition pipe_holds (l : list Z) (s : socket_map) (x : pipe) (m m' : mtcp_manager) : Prop :=
  healthy m' /\ exists y, pipes m' = <[sock_obj s := y]> (pipes m) /\ pipe_wf y /\ pipe_view y = l /\
    pipe_ends y = pipe_ends x.

Lemma pipe_holds_events l s x m m1 m' : pipe_holds l s x m m1 -> only_events m1 m' -> pipe_holds l s x m m'.
Proof.
  intros (_ & y & Hp & Hy) (Hh & Hp' & _). split; [done|]. exists y. by rewrite Hp'.
Qed.

Lemma with_pipe_ok {A} c i s x m (k : socket_map -> pipe -> MT (api_result A)) Q :
  pipe_end c i s x m -> pp_state x <> PIPE_CLOSED -> wp (k s x) Q m -> wp (with_pipe c i k) Q m.
Proof.
  intros [Hc Hr Hs Ht H0 Hx _ _ _] Hst Hk. unfold with_pipe, with_manager, with_socket. rewrite Hc, wp_bind, wp_get, Hr.
  unfold socket_at, pipe_at. rewrite !wp_bind, wp_get, wp_unwrap. exists s. split; [done|]. rewrite Ht.
  change (MTCP_SOCK_PIPE =? MTCP_SOCK_PIPE) with true. cbn [negb]. rewrite (proj2 (Z.eqb_neq _ _) H0).
  rewrite !wp_bind, wp_get, wp_unwrap. exists x. split; [done|]. by destruct (pp_state x).
Qed.

(** *** Writing *)

Definition pipe_written (s : socket_map) (src : list Z) (len : Z) (x : pipe) (m : mtcp_manager)
    (r : api_result Z) (m' : mtcp_manager) : Prop :=
  let n := Z.min len (buf_size x - zlen (pipe_view x)) in
  if 0 <? n then r = Ret n /\ pipe_holds (pipe_view x ++ take (Z.to_nat n) src) s x m m'
  else r = (if has (opts s) MTCP_NONBLOCK then Errno EAGAIN else Block) /\ m' = m.

Lemma pipe_write_now_ok i s x src len m c : pipe_end c i s x m -> 0 < len <= zlen src ->
  0 < buf_size x - buf_len x ->
  wp (pipe_write_now (sock_obj s) s i src len) (pipe_written s src len x m) m.
Proof.
  intros [Hc Hr Hs Ht H0 Hx Hwf [P0 P1] Hh] Hlen Hroom. unfold pipe_write_now, pipe_at, pipe_written.
  rewrite pipe_view_zlen by done. rewrite !wp_bind, wp_get, wp_unwrap. exists x. split; [done|]. cbv zeta.
  set (n := Z.min len (buf_size x - buf_len x)). assert (Hn : 0 < n) by lia.
  rewrite (proj2 (Z.leb_gt n 0)), (proj2 (Z.ltb_lt 0 n)) by lia.
  destruct (pipe_give_ok src n x Hwf) as (y & Hy & Hwfy & Hv & He); [lia..|].
  rewrite wp_bind, wp_unwrap. exists y. split; [done|]. unfold pipe_set. rewrite wp_bind, wp_modify, wp_bind.
  set (m1 := upd pipes _ m).
  assert (Hm1 : pipe_holds (pipe_view x ++ take (Z.to_nat n) src) s x m m1)
    by (split; [by apply (healthy_same m)|]; by exists y).
  injection He as _ E0 E1 _.
  eapply (wp_mono _ (fun _ m2 => only_events m1 m2)).
  - rewrite wp_when. split; [|intros _; split_and!; apply Hm1 || done]. intros _.
    apply (RaiseEventToPair_only i _ s y m1); [apply Hm1|done|apply lookup_insert_eq|by rewrite E0|by rewrite E1].
  - intros u2 m2 H2. rewrite wp_bind, wp_get, wp_bind.
    eapply wp_mono; [apply raise_when; [apply H2|apply H2; by exists s]|].
    intros u3 m3 H3. rewrite wp_ret. split; [done|].
    eapply pipe_holds_events; [|exact H3]. by eapply pipe_holds_events.
Qed.

Lemma PipeWrite_ok c i s x src len m : pipe_end c i s x m -> pp_state x = PIPE_ACTIVE -> 0 < len <= zlen src ->
  wp (PipeWrite c i src len) (pipe_written s src len x m) m.
Proof.
  intros He Hst Hlen. pose proof He as [Hc Hr Hs Ht H0 Hx Hwf [P0 P1] Hh]. unfold PipeWrite.
  apply (with_pipe_ok c i s x); [done|congruence|]. rewrite Hst, bool_decide_eq_false_2 by done.
  rewrite (proj2 (Z.leb_gt len 0)) by lia. unfold pipe_write_wait, socket_at, pipe_at.
  rewrite !wp_bind, wp_get, wp_unwrap. exists s. split; [done|]. rewrite !wp_bind, wp_get, wp_unwrap. exists x. split; [done|].
  pose proof (pw_span _ Hwf) as [_ Hl]. rewrite (pw_size _ Hwf) in Hl.
  destruct (decide (buf_len x = buf_size x)) as [Ef|Ef].
  - rewrite Ef, Z.eqb_refl, andb_true_r. unfold pipe_written. rewrite pipe_view_zlen, Ef, Z.sub_diag by done.
    rewrite Z.min_r by lia. change (0 <? 0) with false. destruct (has (opts s) MTCP_NONBLOCK); cbn [negb]; [|by rewrite wp_ret].
    unfold pipe_write_now, pipe_at. rewrite !wp_bind, wp_get, wp_unwrap. exists x. split; [done|]. cbv zeta.
    rewrite Ef, Z.sub_diag, Z.min_r by lia. change (0 <=? 0) with true. by cbv iota; rewrite wp_ret.
  - rewrite (proj2 (Z.eqb_neq _ _) Ef), andb_false_r. eapply pipe_write_now_ok; [done|done|lia].
Qed.

(** *** Reading *)

Definition pipe_was_read (s : socket_map) (len : Z) (x : pipe) (m : mtcp_manager)
    (r : api_result (list Z)) (m' : mtcp_manager) : Prop :=
  let n := Z.min len (zlen (pipe_view x)) in
  if 0 <? n then r = Ret (take (Z.to_nat n) (pipe_view x)) /\ pipe_holds (drop (Z.to_nat n) (pipe_view x)) s x m m'
  else r = (match pp_state x with
            | PIPE_CLOSE_WAIT => Ret []
            | _ => if has (opts s) MTCP_NONBLOCK then Errno EAGAIN else Block
            end) /\ m' = m.

Lemma pipe_read_now_ok i s x len m c : pipe_end c i s x m -> 0 < len -> 0 < buf_len x ->
  wp (pipe_read_now (sock_obj s) s i len) (pipe_was_read s len x m) m.
Proof.
  intros [Hc Hr Hs Ht H0 Hx Hwf [P0 P1] Hh] Hlen Hroom. unfold pipe_read_now, pipe_at, pipe_was_read.
  rewrite pipe_view_zlen by done. rewrite !wp_bind, wp_get, wp_unwrap. exists x. split; [done|]. cbv zeta.
  set (n := Z.min len (buf_len x)). assert (Hn : 0 < n) by lia.
  rewrite (proj2 (Z.leb_gt n 0)), (proj2 (Z.ltb_lt 0 n)) by lia. cbn [andb].
  destruct (pipe_take_ok n x Hwf) as (y & Hy & Hwfy & Hv & He); [lia..|].
  rewrite wp_bind, wp_unwrap. eexists. split; [exact Hy|]. unfold pipe_set. rewrite wp_bind, wp_modify, wp_bind.
  set (m1 := upd pipes _ m).
  assert (Hm1 : pipe_holds (drop (Z.to_nat n) (pipe_view x)) s x m m1)
    by (split; [by apply (healthy_same m)|]; by exists y).
  injection He as _ E0 E1 _.
  eapply (wp_mono _ (fun _ m2 => only_events m1 m2)).
  - rewrite wp_when. split; [|intros _; split_and!; apply Hm1 || done]. intros _.
    apply (RaiseEventToPair_only i _ s y m1); [apply Hm1|done|apply lookup_insert_eq|by rewrite E0|by rewrite E1].
  - intros u2 m2 H2. rewrite wp_bind, wp_get, wp_bind.
    eapply (wp_mono _ (fun _ m3 => only_events m2 m3)).
    { destruct (0 <? buf_len y); (apply raise_when; [apply H2|apply H2; by exists s]). }
    intros u3 m3 H3. rewrite wp_ret. split; [done|].
    eapply pipe_holds_events; [|exact H3]. by eapply pipe_holds_events.
Qed.

Lemma PipeRead_ok c i s x len m : pipe_end c i s x m -> pp_state x <> PIPE_CLOSED -> 0 < len ->
  wp (PipeRead c i len) (pipe_was_read s len x m) m.
Proof.
  intros He Hst Hlen. pose proof He as [Hc Hr Hs Ht H0 Hx Hwf [P0 P1] Hh]. unfold PipeRead.
  apply (with_pipe_ok c i s x); [done..|]. rewrite (proj2 (Z.leb_gt len 0)) by lia.
  pose proof (pw_span _ Hwf) as [_ Hl].
  destruct (decide (buf_len x = 0)) as [Ef|Ef].
  - rewrite Ef. unfold pipe_was_read. rewrite pipe_view_zlen, Ef, Z.min_r by (done || lia). change (0 <? 0) with false.
    cbv iota. destruct (pp_state x) eqn:Es; [done| |rewrite bool_decide_eq_true_2 by done; by change (0 =? 0) with true; cbn [andb]; rewrite wp_ret].
    rewrite bool_decide_eq_false_2 by done. cbn [andb]. unfold pipe_read_wait, socket_at, pipe_at.
    rewrite !wp_bind, wp_get, wp_unwrap. exists s. split; [done|]. rewrite !wp_bind, wp_get, wp_unwrap. exists x. split; [done|].
    rewrite Ef. change (0 =? 0) with true. rewrite andb_true_r.
    destruct (has (opts s) MTCP_NONBLOCK); cbn [negb]; [|by rewrite wp_ret].
    unfold pipe_read_now, pipe_at. rewrite !wp_bind, wp_get, wp_unwrap. exists x. split; [done|]. cbv zeta.
    rewrite Ef, Z.min_r by lia. rewrite bool_decide_eq_true_2 by done. change (0 <=? 0) with true. by cbn [andb]; rewrite wp_ret.
  - rewrite (proj2 (Z.eqb_neq _ _) Ef), andb_false_r. unfold pipe_read_wait, socket_at, pipe_at.
    rewrite !wp_bind, wp_get, wp_unwrap. exists s. split; [done|]. rewrite !wp_bind, wp_get, wp_unwrap. exists x. split; [done|].
    rewrite (proj2 (Z.eqb_neq _ _) Ef), andb_false_r. eapply pipe_read_now_ok; [done|done|lia].
Qed.

(** ** Properties *)

(** C20: a pipe is a bounded queue of bytes.  [PipeWrite] on an active pipe appends as many
    bytes as fit, and answers their number; [PipeRead] takes the oldest bytes; on a full or
    an empty pipe they answer [EAGAIN], or block when the socket blocks; reading an empty
    pipe whose other end is closed answers the end of the data.  Both calls return. *)
Theorem pipe_calls_fifo (c : app_ctx) (i : Z) (s : socket_map) (x : pipe) (m : mtcp_manager) :
  pipe_end c i s x m -> pp_state x <> PIPE_CLOSED ->
  (forall src len, pp_state x = PIPE_ACTIVE -> 0 < len <= zlen src ->
     exists r m', PipeWrite c i src len m = Ok r m' /\ pipe_written s src len x m r m') /\
  (forall len, 0 < len ->
     exists r m', PipeRead c i len m = Ok r m' /\ pipe_was_read s len x m r m').
Proof.
  intros He Hst. split.
  - intros src len Ha Hl. apply wp_elim. by apply PipeWrite_ok.
  - intros len Hl. apply wp_elim. by apply PipeRead_ok.
Qed.

(** *** Witness *)

(** A pipe between the sockets 0 and 1 with three bytes in it. *)
Definition demo_pipe : mtcp_manager :=
  after (PipeWrite demo_ctx 1 [7; 8; 9] 3) (after (mtcp_pipe true) demo_manager).

Definition demo_pipe_object : pipe :=
  default (Pipe PIPE_CLOSED 0 0 [] 0 0 0 0) (pipes demo_pipe !! sock_obj (demo_sock 0 demo_pipe)).

Lemma demo_pipe_end : pipe_end demo_ctx 0 (demo_sock 0 demo_pipe) demo_pipe_object demo_pipe.
Proof.
  split; try (vm_compute; reflexivity).
  - vm_compute. discriminate.
  - split; [vm_compute; reflexivity| |vm_compute; reflexivity].
    assert (E : bool_decide (spans (pp_buf demo_pipe_object) (buf_off demo_pipe_object) (buf_len demo_pipe_object)) = true)
      by (vm_compute; reflexivity).
    exact (bool_decide_eq_true_1 _ E).
  - assert (E : bool_decide (is_Some (smap demo_pipe !! pp_socket0 demo_pipe_object) /\
      is_Some (smap demo_pipe !! pp_socket1 demo_pipe_object)) = true) by (vm_compute; reflexivity).
    exact (bool_decide_eq_true_1 _ E).
  - intros H0. exfalso. apply H0. vm_compute. reflexivity.
Qed.

Lemma pipe_calls_fifo_witness :
  exists m', PipeRead demo_ctx 0 2 demo_pipe = Ok (Ret [7; 8]) m'.
Proof.
  destruct (pipe_calls_fifo demo_ctx 0 (demo_sock 0 demo_pipe) demo_pipe_object demo_pipe demo_pipe_end) as [_ Hr];
    [vm_compute; discriminate|].
  destruct (Hr 2 ltac:(lia)) as (r & m' & E & Hread). exists m'. rewrite E. f_equal. unfold pipe_was_read in Hread.
  assert (Ev : pipe_view demo_pipe_object = [7; 8; 9]) by (vm_compute; reflexivity). rewrite Ev in Hread.
  destruct Hread as [-> _]. reflexivity.
Defined.
