(* ===== verification/Flush.v ===== *)
(** * What a flush puts on the wire

    [FlushTCPSendingBuffer] sends the bytes of the send buffer from [snd_nxt] on, each under
    its sequence number, and stays within the windows ([tcp_out.c]). *)

From S2P Require Import Prelude SeqArith Bytes SendBuffer RingBuffer Mtcp TcpUtil Output Lists TcpStream TcpOut Frame StackInv ListOps Benign StreamLife OutSafe StateMachine ApiSafe Stack System.

(** ** Code that sends nothing *)

(** What sending depends on. *)
Definition send_view (s : tcp_stream) :=
  let v := sndvar s in
  (sport s, dport s, snd_nxt s, snd_una v, (cwnd v, peer_wnd v, mss v, sndbuf v)).

Record unsent (a : Z) (m m' : mtcp_manager) : Prop := {
  us_view : same_at send_view a m m';
  us_bufs : rbm_snd m' = rbm_snd m;
  us_tx : tx m' = tx m
}.

#[export] Instance unsent_preorder a : PreOrder (unsent a).
Proof.
  split; [by intros m; split|]. intros m1 m2 m3 [V1 B1 T1] [V2 B2 T2].
  split; [by etransitivity|congruence..].
Qed.

(** The fuel of the loop is enough. *)
Definition fuelled (e : fault) : Prop := e <> OutOfFuel.

Notation silent a f := (stable fuelled (fun _ => True) (unsent a) f).

Definition heap_view (m : mtcp_manager) := (streams m, rbm_snd m, tx m).

Lemma silent_modify a g : (forall m, heap_view (g m) = heap_view m) -> silent a (modify g).
Proof.
  intros Hg. apply stable_modify. intros m _. specialize (Hg m). injection Hg as E1 E2 E3.
  split; [done|]. split; [unfold same_at; by rewrite E1|done..].
Qed.

Lemma silent_stream_mod a b g : (forall s, send_view (g s) = send_view s) -> silent a (stream_mod b g).
Proof.
  intros Hg m _. unfold stream_mod, stream_at, stream_set. rewrite !wpe_bind, wpe_get, wpe_unwrap.
  destruct (streams m !! b) as [s|] eqn:E; [|done]. rewrite wpe_modify. split; [done|].
  split; [|done..]. unfold same_at. change (streams (m <| streams ::= insert b (g s) |>)) with (<[b := g s]> (streams m)).
  destruct (decide (b = a)) as [->|Hn]; [|by rewrite lookup_insert_ne].
  rewrite lookup_insert_eq, E. cbn. by rewrite Hg.
Qed.

Create HintDb silent.

Ltac silent_leaf :=
  match goal with
  | |- stable _ _ _ (stream_mod _ _) => apply silent_stream_mod; intros ?; reflexivity
  | |- stable _ _ _ (modify _) =>
      apply silent_modify; intros ?; first [reflexivity | unfold sender_update; case_match; reflexivity]
  | |- _ => solve [eauto 2 with silent nocore]
  end.

Ltac silent := repeat descend ltac:(fail) ltac:(idtac; silent_leaf) ltac:(discriminate).

Section Flush.
Context `{Platform}.

Lemma silent_EnqueueACK a o : silent a (EnqueueACK a o).
Proof using. silent. Qed.

Lemma silent_segment_marks a ts flags : silent a (segment_marks a ts flags).
Proof using. silent. Qed.

Lemma silent_AddtoRTOList a : silent a (AddtoRTOList a).
Proof using. silent. Qed.

Lemma silent_tcp_check a nif h rest sa da : silent a (tcp_check nif h rest sa da).
Proof using. silent. Qed.

Hint Resolve silent_EnqueueACK silent_segment_marks silent_AddtoRTOList silent_tcp_check : silent.

(** ** Frames *)

(** The frames of [l] were written, and nothing else changed that matters. *)
Record emits (a : Z) (l : list frame) (m m' : mtcp_manager) : Prop := {
  em_view : same_at send_view a m m';
  em_bufs : rbm_snd m' = rbm_snd m;
  em_tx : tx m' = tx m ++ l
}.

Lemma emits_refl a m : emits a [] m m.
Proof using. split; [done..|]. by rewrite app_nil_r. Qed.

Lemma emits_unsent a l m m1 m2 : emits a l m m1 -> unsent a m1 m2 -> emits a l m m2.
Proof using. intros [V1 B1 T1] [V2 B2 T2]. split; [by etransitivity|congruence..]. Qed.

Lemma wpe_silent {A B} a l m0 m (f : MT A) (k : A -> MT B) Q : silent a f -> emits a l m0 m ->
  (forall r m', emits a l m0 m' -> wpe fuelled (k r) Q m') -> wpe fuelled (mbind k f) Q m.
Proof using.
  intros Hf He Hk. rewrite wpe_bind. eapply wpe_mono; [by apply Hf|]. intros r m' [_ Hu]. apply Hk.
  by eapply emits_unsent.
Qed.

(** Writing the frame that was obtained last. *)
Lemma emits_alter a fr g m0 m : emits a [fr] m0 m ->
  emits a [g fr] m0 (m <| tx ::= alter g (length (tx m0)) |>).
Proof using.
  intros [V B T]. split; [exact V|exact B|].
  change (tx (m <| tx ::= alter g (length (tx m0)) |>)) with (alter g (length (tx m0)) (tx m)).
  rewrite T. by rewrite alter_app_r_alt, Nat.sub_diag by lia.
Qed.

Lemma EthernetOutput_emits a proto nif dst n m0 m : emits a [] m0 m ->
  wpe fuelled (EthernetOutput proto nif dst n) (fun o m' => match o with
    | None => emits a [] m0 m'
    | Some f => f = length (tx m0) /\ exists fr, emits a [fr] m0 m'
    end) m.
Proof using.
  intros He. unfold EthernetOutput. destruct (nif <? 0); [done|].
  eapply wpe_silent; [silent|done|]. intros eidx m1 H1. destruct (eidx <? 0); [done|].
  eapply wpe_silent; [silent|done|]. intros c m2 H2. destruct (negb _); [done|].
  eapply wpe_silent; [silent|done|]. intros e m3 H3. rewrite wpe_bind, wpe_get, wpe_bind, wpe_modify, wpe_ret.
  destruct H3 as [V B T]. rewrite app_nil_r in T. split; [by rewrite T|]. eexists. split; [exact V|exact B|].
  change (tx (m3 <| tx ::= ?g |>)) with (g (tx m3)). by rewrite T.
Qed.

Lemma frame_fill_emits a fr b m0 m : emits a [fr] m0 m ->
  wpe fuelled (frame_fill (length (tx m0)) b) (fun _ m' => emits a [fr <| fr_body := b |>] m0 m') m.
Proof using. intros He. unfold frame_fill. rewrite wpe_modify. by apply emits_alter. Qed.

(** A request for a hardware address, at most. *)
Definition arp_only (l : list frame) : Prop := l = [] \/ exists fr h, l = [fr] /\ fr_body fr = Arp h.

Lemma RequestARP_emits a ip nif ts m0 m : emits a [] m0 m ->
  wpe fuelled (RequestARP ip nif ts) (fun _ m' => exists l, arp_only l /\ emits a l m0 m') m.
Proof using.
  intros He. assert (Hn : arp_only []) by by left. unfold RequestARP. rewrite wpe_bind, wpe_get.
  destruct (existsb _ _); [rewrite wpe_ret; by exists []|].
  do 2 (eapply wpe_silent; [silent|done|]; clear dependent m; intros ? m He).
  rewrite wpe_bind. unfold ARPOutput. rewrite wpe_bind.
  eapply wpe_mono; [by apply EthernetOutput_emits|]. intros [f|] m1.
  - intros (-> & fr & H1). do 2 (eapply wpe_silent; [silent|done|]; clear dependent m1; intros ? m1 H1).
    rewrite wpe_bind. eapply wpe_mono; [by apply frame_fill_emits|]. intros u m2 H2. rewrite !wpe_ret.
    eexists. split; [|exact H2]. right. by do 2 eexists.
  - intros H1. rewrite !wpe_ret. by exists [].
Qed.

(** The frame of an IP packet whose payload is yet to be written, or none. *)
Lemma IPOutput_emits a n m0 : wpe fuelled (IPOutput a n) (fun o m' => match o with
    | None => exists l, arp_only l /\ emits a l m0 m'
    | Some f => f = length (tx m0) /\ exists fr ih b, fr_body fr = Ip ih b /\ emits a [fr] m0 m'
    end) m0.
Proof using.
  unfold IPOutput. pose proof (emits_refl a m0) as He.
  eapply wpe_silent; [silent|done|]. intros s m He1. eapply wpe_silent; [silent|done|]. clear dependent m s.
  intros _ m1 H1. eapply wpe_silent; [silent|done|]. intros s m2 H2. rewrite wpe_bind, wpe_get.
  destruct (GetDestinationHWaddr _ _ _) as [haddr|].
  - rewrite wpe_bind. eapply wpe_mono; [by apply EthernetOutput_emits|]. intros [f|] m3.
    + intros (-> & fr & H3). eapply wpe_silent; [silent|done|]. clear dependent m3. intros _ m3 H3.
      unfold ip_fill. rewrite wpe_bind.
      do 2 (eapply wpe_silent; [silent|done|]; clear dependent m3; intros ? m3 H3).
      eapply wpe_mono; [by apply frame_fill_emits|]. intros u m4 H4. rewrite wpe_ret.
      split; [done|]. eexists _, _, _. split; [|exact H4]. done.
    + intros H3. rewrite wpe_ret. exists []. split; [by left|done].
  - eapply wpe_silent; [silent|done|]. intros ip m3 H3. rewrite wpe_bind.
    eapply wpe_mono; [by apply RequestARP_emits|]. intros u m4 H4. by rewrite wpe_ret.
Qed.

(** ** Data segments *)

(** Frame [fr] carries [chunk] at sequence number [seq] of the connection of [s]. *)
Definition carries (s : tcp_stream) (seq : Z) (chunk : list Z) (fr : frame) : Prop :=
  exists ih h opts, fr_body fr = Ip ih (L4Tcp h (opts ++ chunk)) /\
    source h = sport s /\ dest h = dport s /\ th_seq h = htonl seq /\ th_ack h = true /\
    doff h * 4 = TCP_HEADER_LEN + zlen opts.

Definition advance (n : Z) (s : tcp_stream) : tcp_stream := s <| snd_nxt := u32 (snd_nxt s + n) |>.

(** The stream [a] is [s], as far as sending goes, after frames [l] since [m0]. *)
Record sending (a : Z) (s : tcp_stream) (l : list frame) (m0 m : mtcp_manager) : Prop := {
  sg_view : send_view <$> streams m !! a = Some (send_view s);
  sg_bufs : rbm_snd m = rbm_snd m0;
  sg_tx : tx m = tx m0 ++ l
}.

Lemma sending_trans a s s' l l' m0 m m' :
  sending a s l m0 m -> sending a s' l' m m' -> sending a s' (l ++ l') m0 m'.
Proof using. intros [_ B1 T1] [V2 B2 T2]. split; [done|congruence|]. by rewrite T2, T1, app_assoc. Qed.

Lemma sending_unsent a s l m0 m m' : sending a s l m0 m -> unsent a m m' -> sending a s l m0 m'.
Proof using. intros [V1 B1 T1] [V2 B2 T2]. split; [|congruence..]. unfold same_at in V2. congruence. Qed.

Lemma emits_sending a s l m m' : send_view <$> streams m !! a = Some (send_view s) -> emits a l m m' ->
  sending a s l m m'.
Proof using. intros Hs [V B T]. split; [|done..]. unfold same_at in V. congruence. Qed.

Lemma wpe_sending {A B} a s l m0 m (f : MT A) (k : A -> MT B) Q : silent a f -> sending a s l m0 m ->
  (forall r m', sending a s l m0 m' -> wpe fuelled (k r) Q m') -> wpe fuelled (mbind k f) Q m.
Proof using.
  intros Hf He Hk. rewrite wpe_bind. eapply wpe_mono; [by apply Hf|]. intros r m' [_ Hu]. apply Hk.
  by eapply sending_unsent.
Qed.

Lemma sending_at {B} a s l m0 m (k : tcp_stream -> MT B) Q : sending a s l m0 m ->
  (forall s1, send_view s1 = send_view s -> streams m !! a = Some s1 -> wpe fuelled (k s1) Q m) ->
  wpe fuelled (mbind k (stream_at a)) Q m.
Proof using.
  intros [V _ _] Hk. unfold stream_at. rewrite !wpe_bind, wpe_get, wpe_unwrap.
  destruct (streams m !! a) as [s1|]; [|done]. apply Hk; [|done]. exact (Some_inj _ _ V).
Qed.

(** The sequence number moves past the segment. *)
Lemma segment_sent_data a s l m0 m ts n : sending a s l m0 m -> 0 < n ->
  wpe fuelled (segment_sent a ts n false) (fun r m' => r = n /\ sending a (advance n s) l m0 m') m.
Proof using.
  intros Hs Hn. unfold segment_sent. rewrite wpe_bind. unfold stream_mod at 1.
  eapply sending_at; [done|]. intros s1 Es E1. unfold stream_set. rewrite wpe_modify.
  assert (H1 : sending a (advance n s) l m0 (m <| streams ::= insert a (s1 <| snd_nxt := u32 (snd_nxt s1 + n) |>) |>)).
  { destruct Hs as [V B T]. split; [|done..].
    change (streams (m <| streams ::= ?g |>)) with (g (streams m)). rewrite lookup_insert_eq. cbn. f_equal.
    unfold send_view in Es. injection Es as ? ? E ? ? ? ? ?. unfold advance, send_view. cbn. congruence. }
  rewrite wpe_bind, wpe_when. cbv zeta.
  eapply wpe_sending; [silent|exact H1|]. intros u m2 H2. by rewrite wpe_ret.
Qed.

Lemma SendTCPPacket_data a s ts src n m : send_view <$> streams m !! a = Some (send_view s) ->
  0 < n < 65536 -> n <= zlen src ->
  wpe fuelled (SendTCPPacket a ts TCP_FLAG_ACK src n) (fun r m' =>
    (r < 0 /\ exists l', arp_only l' /\ sending a s l' m m') \/
    (r = n /\ exists fr, carries s (snd_nxt s) (take (Z.to_nat n) src) fr /\ sending a (advance n s) [fr] m m')) m.
Proof using.
  intros Hs Hn Hsrc. unfold SendTCPPacket. cbv zeta.
  pose proof (emits_sending a s [] m m Hs (emits_refl a m)) as H0.
  eapply sending_at; [exact H0|]. intros s0 _ _. destruct (_ <? _).
  { rewrite wpe_ret. left. split; [done|]. exists []. split; [by left|done]. }
  rewrite wpe_bind. eapply wpe_mono; [apply IPOutput_emits|]. intros [f|] m1.
  2: { intros (l & Hl & He). rewrite wpe_ret. left. split; [done|]. exists l. split; [done|]. by apply emits_sending. }
  intros (-> & fr & ih & b & Hb & He). eapply wpe_silent; [apply silent_segment_marks|exact He|].
  clear He m1. intros u m1 He. eapply sending_at; [by apply emits_sending|]. intros s1 Es _.
  rewrite (proj2 (Z.ltb_lt 0 n)), mem_read_ok, drop_0 by lia. rewrite wpe_bind, wpe_unwrap.
  eapply wpe_silent; [apply silent_tcp_check|exact He|]. clear He m1. intros c m1 He.
  rewrite wpe_bind. unfold frame_tcp. rewrite wpe_modify. apply (emits_alter a fr
    (fun fr => match fr_body fr with Ip ih _ => fr <| fr_body := Ip ih (L4Tcp
       ((segment_header s1 TCP_FLAG_ACK (CalculateOptionLength TCP_FLAG_ACK)) <| th_check := c |>)
       (GenerateTCPOptions s1 ts TCP_FLAG_ACK ++ take (Z.to_nat n) src)) |> | _ => fr end)) in He.
  eapply wpe_mono; [eapply (segment_sent_data a s); [by eapply emits_sending|lia]|].
  intros r m2 [-> H2]. right. split; [done|]. eexists. split; [|exact H2]. rewrite Hb.
  exists ih. eexists _, _. split; [done|]. unfold send_view in Es. injection Es as E1 E2 E3 E4 E5 E6 E7 E8.
  cbn. rewrite E1, E2. do 2 (split; [done|]). split; [|split; [done|]].
  - unfold segment_seq. cbn. by rewrite E3.
  - rewrite GenerateTCPOptions_length. done.
Qed.

(** ** The whole flush *)

(** How much of the buffer was sent, and how much of it is not acknowledged. *)
Definition sent (s : tcp_stream) (b : Buffer.tcp_send_buffer) : Z := u32 (snd_nxt s - Buffer.head_seq b).
Definition inflight (s : tcp_stream) : Z := u32 (snd_nxt s - snd_una (sndvar s)).
Definition window (s : tcp_stream) : Z := Z.min (cwnd (sndvar s)) (peer_wnd (sndvar s)).

(** The next byte lies in the buffer and behind what is acknowledged; buffer and window are
    smaller than half the sequence space; a segment has room for data behind its options. *)
Record ready (s : tcp_stream) (b : Buffer.tcp_send_buffer) : Prop := {
  rd_wf : Buffer.wf b;
  rd_len : Buffer.len b < 2147483648;
  rd_nxt : is_u32 (snd_nxt s);
  rd_sent : sent s b <= Buffer.len b;
  rd_inflight : inflight s < 2147483648;
  rd_window : 0 <= window s < 2147483648;
  rd_mss : 12 < mss (sndvar s) < 65536
}.

Lemma ready_advance s b n : ready s b -> 0 <= n -> sent s b + n <= Buffer.len b -> inflight s + n <= window s ->
  ready (advance n s) b /\ sent (advance n s) b = sent s b + n /\ inflight (advance n s) = inflight s + n.
Proof using.
  intros [Hwf Hlen Hnxt Hsent Hinf Hwin Hmss] Hn H1 H2.
  assert (E1 : sent (advance n s) b = sent s b + n).
  { revert H1 Hlen. unfold sent, advance. cbn. generalize (snd_nxt s), (Buffer.head_seq b), (Buffer.len b).
    clear - Hn. intros. mlia. }
  assert (E2 : inflight (advance n s) = inflight s + n).
  { revert H2 Hwin. unfold inflight, advance. cbn. change (window (_ <| snd_nxt := _ |>)) with (window s).
    generalize (snd_nxt s), (snd_una (sndvar s)), (window s). clear - Hn. intros. mlia. }
  split; [|done]. split; try done; [apply u32_range|lia|]. change (window _) with (window s) in *. lia.
Qed.

(** [frs] carry [data] one after the other from [seq] on, in segments of at most [mss]. *)
Fixpoint segments (s : tcp_stream) (frs : list frame) (seq : Z) (data : list Z) : Prop :=
  match frs with
  | [] => data = []
  | fr :: frs' => exists chunk rest, data = chunk ++ rest /\
      0 < zlen chunk /\ zlen chunk + CalculateOptionLength TCP_FLAG_ACK <= mss (sndvar s) /\
      carries s seq chunk fr /\ segments s frs' (u32 (seq + zlen chunk)) rest
  end.

Lemma segments_advance s n frs : forall seq data, segments (advance n s) frs seq data -> segments s frs seq data.
Proof using.
  induction frs as [|fr frs IH]; intros seq data; [done|]. cbn [segments].
  intros (chunk & rest & E & H1 & H2 & H3 & H4). exists chunk, rest. split_and!; try done. by apply IH.
Qed.

Lemma advance_view n k s : send_view (advance k (advance n s)) = send_view (advance (n + k) s).
Proof using. unfold send_view, advance. cbn. by rewrite u32_add_l, Z.add_assoc. Qed.

(** [r] is what a flush that counted [packets] returns when it has put [frs] on the wire. *)
Definition flushed (a : Z) (s : tcp_stream) (b : Buffer.tcp_send_buffer) (packets : Z) (m : mtcp_manager)
    (r : Z) (m' : mtcp_manager) : Prop :=
  exists frs arp n, 0 <= n /\ sent s b + n <= Buffer.len b /\ (0 < n -> inflight s + n <= window s) /\
    segments s frs (snd_nxt s) (take (Z.to_nat n) (drop (Z.to_nat (sent s b)) (Buffer.contents b))) /\
    arp_only arp /\ sending a (advance n s) (frs ++ arp) m m' /\
    (r = -3 \/ (r = packets + zlen frs /\ sent s b + n = Buffer.len b /\ arp = [])).

(** Nothing more is sent. *)
Lemma flushed_stop a s b packets m m' arp r : ready s b -> arp_only arp -> sending a s arp m m' ->
  r = -3 \/ (r = packets /\ sent s b = Buffer.len b /\ arp = []) -> flushed a s b packets m r m'.
Proof using.
  intros Hr Ha Hs Hc. exists [], arp, 0. split; [done|]. rewrite !Z.add_0_r.
  split; [apply (rd_sent _ _ Hr)|]. split; [lia|]. split; [done|]. split; [done|]. split.
  - destruct Hs as [V B T]. split; [|done..]. rewrite V. f_equal. unfold send_view, advance. cbn.
    by rewrite Z.add_0_r, u32_small by apply (rd_nxt _ _ Hr).
  - destruct Hc as [?|(-> & ? & ?)]; [by left|]. right. split; [|done]. unfold zlen. cbn. lia.
Qed.

(** One segment more in front. *)
Lemma flushed_cons a s b packets m m1 r m' fr n : ready s b -> 0 < n -> sent s b + n <= Buffer.len b ->
  inflight s + n <= window s -> n + CalculateOptionLength TCP_FLAG_ACK <= mss (sndvar s) ->
  carries s (snd_nxt s) (take (Z.to_nat n) (drop (Z.to_nat (sent s b)) (Buffer.contents b))) fr ->
  sending a (advance n s) [fr] m m1 -> flushed a (advance n s) b (packets + 1) m1 r m' ->
  flushed a s b packets m r m'.
Proof using.
  intros Hr Hn H1 H2 Hm Hc Hs (frs & arp & k & Hk & K1 & K2 & Hd & Ha & Hs' & Hres).
  destruct (ready_advance s b n Hr) as (_ & E1 & E2); [lia..|]. rewrite E1 in *. rewrite E2 in *.
  pose proof (Buffer.sb_contents_zlen b (rd_wf _ _ Hr)) as Hz.
  assert (H0 : 0 <= sent s b) by apply u32_range.
  exists (fr :: frs), arp, (n + k). split; [lia|]. split; [lia|].
  split; [change (window (advance n s)) with (window s) in K2; lia|]. split.
  { set (d := drop (Z.to_nat (sent s b)) (Buffer.contents b)) in *.
    assert (Hd' : n <= zlen d) by (unfold d, zlen in *; rewrite length_drop; lia).
    assert (El : zlen (take (Z.to_nat n) d) = n) by (unfold zlen in *; rewrite length_take; lia).
    exists (take (Z.to_nat n) d), (take (Z.to_nat k) (drop (Z.to_nat n) d)). rewrite El.
    split_and!; [|done..|].
    - rewrite Z2Nat.inj_add by lia. by rewrite take_take_drop.
    - apply (segments_advance s n). unfold d. rewrite drop_drop, <- Z2Nat.inj_add by lia. exact Hd. }
  split; [done|]. split.
  - pose proof (sending_trans _ _ _ _ _ _ _ _ Hs Hs') as [V B T]. split; [|done..].
    by rewrite V, advance_view.
  - destruct Hres as [?|(-> & ? & ?)]; [by left|]. right. unfold zlen. cbn. split; [lia|]. split; [lia|done].
Qed.

Lemma not_before x y : u32 (x - y) < 2147483648 -> TCP_SEQ_LT x y = false.
Proof using.
  intros Hx. unfold TCP_SEQ_LT. apply Z.ltb_ge. pose proof (u32_range (x - y)). unfold is_u32 in *.
  rewrite i32_small; lia.
Qed.

(** The bytes from the next one on, as the code finds them in memory. *)
Lemma unsent_bytes s b n : ready s b -> 0 <= n -> sent s b + n <= Buffer.len b ->
  let src := drop (Z.to_nat (Buffer.head b + sent s b)) (Buffer.data b) in
  n <= zlen src /\
  take (Z.to_nat n) src = take (Z.to_nat n) (drop (Z.to_nat (sent s b)) (Buffer.contents b)).
Proof using.
  intros Hr Hn Hle src. destruct (rd_wf _ _ Hr) as (Hd & Hz & Hh & H0 & Hl & Ht & Hts & _).
  assert (Hs : 0 <= sent s b) by apply u32_range.
  split; [unfold src, zlen in *; rewrite length_drop; lia|]. unfold src, Buffer.contents.
  rewrite skipn_firstn_comm, drop_drop, take_take, <- Z2Nat.inj_add by lia. f_equal. lia.
Qed.

(** The checks at the head of the loop pass. *)
Lemma enter_loop {B} a s b m (K : tcp_stream -> Buffer.tcp_send_buffer -> MT B) Q : ready s b ->
  send_view <$> streams m !! a = Some (send_view s) ->
  Manager.bufs (rbm_snd m) !! sndbuf (sndvar s) = Some b ->
  (forall s1, send_view s1 = send_view s -> wpe fuelled (K s1 b) Q m) ->
  wpe fuelled (s ← stream_at a; b ← sndbuf_at (sndbuf (sndvar s));
    assertM (negb (TCP_SEQ_LT (snd_nxt s) (Buffer.head_seq b)));;
    assertM (negb (TCP_SEQ_LT (snd_nxt s) (snd_una (sndvar s))));;
    assertM (negb (Buffer.len b <? u32 (snd_nxt s - Buffer.head_seq b)));;
    K s b) Q m.
Proof using.
  intros Hr Hs Hb Hk. eapply sending_at; [exact (emits_sending _ _ _ _ _ Hs (emits_refl _ _))|].
  intros s1 Es _. pose proof Es as E. unfold send_view in E. injection E as E1 E2 Ex Eu Ec Ep Em Eb.
  unfold sndbuf_at. rewrite Ex, Eu, Eb, !wpe_bind, wpe_get, wpe_unwrap, Hb.
  pose proof (rd_sent _ _ Hr) as H1. pose proof (rd_len _ _ Hr) as H2. unfold sent in H1.
  rewrite !not_before by (try apply (rd_inflight _ _ Hr); lia).
  rewrite (proj2 (Z.ltb_ge _ _) H1). by apply Hk.
Qed.

(** The loop counts in machine words, which hold the sizes exactly. *)
Lemma loop_sizes s b : ready s b ->
  u32 (Buffer.len b - sent s b) = Buffer.len b - sent s b /\
  i32 (u32 (window s - inflight s)) = window s - inflight s /\
  u32 (mss (sndvar s) - CalculateOptionLength TCP_FLAG_ACK) = mss (sndvar s) - 12 /\
  0 <= sent s b /\ 0 <= inflight s.
Proof using.
  intros [Hwf Hlen Hnxt Hsent Hinf Hwin Hmss]. change (CalculateOptionLength TCP_FLAG_ACK) with 12.
  assert (H0 : is_u32 (sent s b)) by apply u32_range. assert (H1 : is_u32 (inflight s)) by apply u32_range.
  unfold is_u32 in *. rewrite i32_u32, i32_small, !u32_small by (unfold is_u32; lia). split_and!; lia.
Qed.

(** Sending the next segment, and the rest after it. *)
Lemma flush_next a s b ts m packets n (cont : MT Z) : ready s b ->
  send_view <$> streams m !! a = Some (send_view s) ->
  0 < n -> sent s b + n <= Buffer.len b -> inflight s + n <= window s -> n <= mss (sndvar s) - 12 ->
  (forall fr m1, sending a (advance n s) [fr] m m1 ->
     wpe fuelled cont (flushed a (advance n s) b (packets + 1) m1) m1) ->
  wpe fuelled (sndlen ← SendTCPPacket a ts TCP_FLAG_ACK
      (drop (Z.to_nat (Buffer.head b + sent s b)) (Buffer.data b)) n;
    if sndlen <? 0 then mret (-3) else cont) (flushed a s b packets m) m.
Proof using.
  intros Hr Hs Hn H1 H2 Hm Hc. destruct (unsent_bytes s b n) as [Hz Et]; [done|lia|done|].
  pose proof (rd_mss _ _ Hr). rewrite wpe_bind.
  eapply wpe_mono; [apply (SendTCPPacket_data a s); [done|lia|done]|].
  intros r m1 [(Hneg & l & Hl & Hs1)|(-> & fr & Hfr & Hs1)].
  - rewrite (proj2 (Z.ltb_lt _ _) Hneg), wpe_ret. by eapply flushed_stop; eauto.
  - rewrite (proj2 (Z.ltb_ge _ _)) by lia. eapply wpe_mono; [by eapply Hc|]. intros r m2 Hf.
    rewrite Et in Hfr. eapply flushed_cons; try done. change (CalculateOptionLength TCP_FLAG_ACK) with 12. lia.
Qed.

Lemma flush_loop_flushed a b ts fuel : forall s m packets, ready s b ->
  send_view <$> streams m !! a = Some (send_view s) ->
  Manager.bufs (rbm_snd m) !! sndbuf (sndvar s) = Some b -> Buffer.len b - sent s b <= Z.of_nat fuel ->
  wpe fuelled (flush_loop fuel a ts packets) (flushed a s b packets m) m.
Proof using.
  induction fuel as [|fuel IH]; intros s m packets Hr Hs Hb Hf; cbn [flush_loop]; cbv zeta;
    eapply (enter_loop a s b); [exact Hr|exact Hs|exact Hb| |exact Hr|exact Hs|exact Hb|];
    intros s1 Es; unfold send_view in Es; injection Es as E1 E2 Ex Eu Ec Ep Em Eb;
    rewrite Ex, Eu, Ec, Ep, Em; fold (sent s b) (inflight s) (window s);
    destruct (loop_sizes s b Hr) as (-> & -> & -> & H1 & H2);
    pose proof (emits_sending a s [] m m Hs (emits_refl a m)) as Hs0;
    pose proof (rd_sent _ _ Hr) as H3; destruct (Z.eqb_spec (Buffer.len b - sent s b) 0) as [El|El];
    try (rewrite wpe_ret; apply (flushed_stop a s b packets m m []); [done|by left|done|right; split_and!; lia || done]);
    [lia|].
  destruct (_ || _) eqn:Ew.
  { eapply wpe_sending; [silent|exact Hs0|]. intros u m1 Hs1. rewrite wpe_ret.
    apply (flushed_stop a s b packets m m1 []); [done|by left|done|by left]. }
  apply orb_false_iff in Ew as [Ew%Z.leb_gt _]. pose proof (rd_mss _ _ Hr).
  set (n := Z.min _ _). assert (Hn : u16 n = n /\ 0 < n /\ n <= Buffer.len b - sent s b /\
    n <= window s - inflight s /\ n <= mss (sndvar s) - 12).
  { unfold u16. rewrite Z.mod_small; lia. }
  destruct Hn as (-> & Hn & N1 & N2 & N3). apply flush_next; try done; [lia..|].
  intros fr m1 Hs1. destruct (ready_advance s b n Hr) as (Hr1 & S1 & _); [lia..|].
  apply IH; [done|apply (sg_view _ _ _ _ _ Hs1)| |lia]. by rewrite (sg_bufs _ _ _ _ _ Hs1).
Qed.

Lemma FlushTCPSendingBuffer_flushed a s b ts m : streams m !! a = Some s -> sndbuf (sndvar s) <> 0 ->
  Manager.bufs (rbm_snd m) !! sndbuf (sndvar s) = Some b -> ready s b ->
  wpe fuelled (FlushTCPSendingBuffer a ts) (flushed a s b 0 m) m.
Proof using.
  intros Hs Hn Hb Hr. unfold FlushTCPSendingBuffer, stream_at, sndbuf_at. rewrite !wpe_bind, wpe_get, wpe_unwrap, Hs.
  rewrite wpe_bind, wpe_assert, (proj2 (Z.eqb_neq _ _) Hn). cbn [negb]. rewrite !wpe_bind, wpe_get, wpe_unwrap, Hb.
  assert (Hv : send_view <$> streams m !! a = Some (send_view s)) by by rewrite Hs.
  destruct (loop_sizes s b Hr) as (_ & _ & _ & H0 & _). pose proof (rd_sent _ _ Hr).
  destruct (Z.eqb_spec (Buffer.len b) 0) as [E|E].
  - rewrite wpe_ret. apply (flushed_stop a s b 0 m m []); [done|by left|by apply emits_sending, emits_refl|].
    right. split_and!; [done|lia|done].
  - apply flush_loop_flushed; [done..|lia].
Qed.


End Flush.

(** ** Witness *)

(** The server has accepted the connection and written three bytes. *)
Definition demo_written : mtcp_manager := default demo_manager (plays (take 8 demo_events) demo_manager).

Definition demo_writer : tcp_stream := default zero_stream (streams demo_written !! demo_stream).

Definition demo_sndbuf : option Buffer.tcp_send_buffer :=
  Manager.bufs (rbm_snd demo_written) !! sndbuf (sndvar demo_writer).

Lemma demo_written_sound : sound demo_written.
Proof.
  apply (history_sound demo_manager); [|split; [apply demo_manager_ok|apply (proj2 demo_manager_ok)]].
  apply played. vm_compute. reflexivity.
Qed.

Definition readyb (s : tcp_stream) (b : Buffer.tcp_send_buffer) : bool :=
  (zlen (Buffer.data b) =? Buffer.size b) && (0 <? Buffer.size b) && (Buffer.size b <? 4294967296) &&
  (Buffer.head b =? Buffer.head_off b) && (0 <=? Buffer.head_off b) && (0 <=? Buffer.len b) &&
  (Buffer.head_off b + Buffer.len b =? Buffer.tail_off b) && (Buffer.tail_off b <=? Buffer.size b) &&
  (0 <=? Buffer.init_seq b) && (Buffer.init_seq b <? 4294967296) &&
  (Buffer.head_seq b =? u32 (Buffer.init_seq b + (Buffer.cum_len b - Buffer.len b))) &&
  (Buffer.len b <? 2147483648) && (0 <=? snd_nxt s) && (snd_nxt s <? 4294967296) &&
  (sent s b <=? Buffer.len b) && (inflight s <? 2147483648) && (0 <=? window s) && (window s <? 2147483648) &&
  (12 <? mss (sndvar s)) && (mss (sndvar s) <? 65536).

Lemma readyb_ready s b : readyb s b = true -> ready s b.
Proof.
  unfold readyb. rewrite !andb_true_iff, !Z.eqb_eq, !Z.ltb_lt, !Z.leb_le. intros Hb. destruct_and! Hb.
  split; unfold Buffer.wf, is_u32; lia.
Qed.

