(* ===== verification/Transfer.v ===== *)
(** * From one send buffer to a receive buffer

    The frames of a flush, in whatever order they arrive and however often, let the receive
    buffer of the peer deliver a prefix of the bytes in the send buffer. *)

From S2P Require Import Prelude SeqArith Bytes Queues MemPool SendBuffer Intervals RingBuffer Reassembly Mtcp TcpUtil Output Lists TcpStream TcpOut StackInv Stack System Flush.

(** The sequence number and the data of a TCP frame, as the receiver takes them from the
    headers. *)
Definition frame_data (fr : frame) : option (Z * list Z) :=
  match fr_body fr with
  | Ip _ (L4Tcp h rest) =>
      Some (ntohl (th_seq h), drop (Z.to_nat (doff h * 4 - TCP_HEADER_LEN)) rest)
  | _ => None
  end.

Lemma carries_data s seq chunk fr : is_u32 seq -> carries s seq chunk fr -> frame_data fr = Some (seq, chunk).
Proof.
  intros Hs (ih & h & opts & Hb & _ & _ & Hq & _ & Hd). unfold frame_data. rewrite Hb, Hq.
  change (ntohl (htonl seq)) with (htonl (htonl seq)). rewrite htonl_involutive by done. do 2 f_equal.
  replace (Z.to_nat (doff h * 4 - TCP_HEADER_LEN)) with (length opts) by (unfold zlen in Hd; lia).
  apply drop_app_length.
Qed.

Lemma arp_no_data l fr : arp_only l -> fr ∈ l -> frame_data fr = None.
Proof.
  intros [->|(fr' & h & -> & Hb)] Hin; [by apply not_elem_of_nil in Hin|].
  apply list_elem_of_singleton in Hin as ->. unfold frame_data. by rewrite Hb.
Qed.

(** Every frame of a flush carries the bytes at its place in [data]. *)
Lemma segments_data s base data frs : forall k seq d, segments s frs seq d ->
  0 <= k -> seq = u32 (base + k) -> d `prefix_of` drop (Z.to_nat k) data ->
  forall fr, fr ∈ frs -> exists p bytes, frame_data fr = Some (u32 (base + p), bytes) /\
    k <= p /\ p + zlen bytes <= k + zlen d /\ bytes `prefix_of` drop (Z.to_nat p) data.
Proof.
  induction frs as [|fr frs IH]; intros k seq d Hd Hk Hq Hp x Hx; [by apply not_elem_of_nil in Hx|].
  destruct Hd as (chunk & rest & -> & Hz & _ & Hc & Hr). rewrite zlen_app.
  pose proof (zlen_nonneg rest). apply elem_of_cons in Hx as [->|Hx].
  - exists k, chunk. split_and!; [|lia..|by eapply prefix_app_l].
    rewrite <- Hq. eapply carries_data; [|done]. rewrite Hq. apply u32_range.
  - destruct (IH (k + zlen chunk) _ _ Hr) with (fr := x) as (p & bytes & E & H1 & H2 & H3); [lia| | |done|].
    + rewrite Hq, u32_add_l. f_equal. lia.
    + destruct Hp as [tl Hp]. exists tl. rewrite Z2Nat.inj_add, <- drop_drop, Hp by lia.
      rewrite <- app_assoc. replace (Z.to_nat (zlen chunk)) with (length chunk) by (unfold zlen; lia).
      by rewrite drop_app_length.
    + exists p, bytes. split_and!; [done|lia|lia|done].
Qed.

(** ** The peer *)

(** What the peer does with its receive buffer: it takes in the data of a frame of [frs], at
    the position [p] its sequence number stands for, or its application reads. *)
Definition arrives (base : Z) (frs : list frame) (op : rb_op) : Prop :=
  match op with
  | Recv p seg => 0 <= p < 4294967296 /\ exists fr, fr ∈ frs /\ frame_data fr = Some (u32 (base + p), seg)
  | Read n _ => 0 <= n
  end.

(** The bytes of [data], and [x] after them. *)
Definition padded (data : list Z) (x i : Z) : Z := default x (data !! Z.to_nat i).

Section Transfer.
Context `{Platform}.

Lemma flushed_arrives a s b packets m r m' x op : ready s b -> flushed a s b packets m r m' ->
  arrives (Buffer.head_seq b) (drop (length (tx m)) (tx m')) op -> rb_op_ok (padded (Buffer.contents b) x) op.
Proof using.
  intros Hr (frs & arp & n & Hn & H1 & _ & Hseg & Harp & [_ _ ->] & _) Hop. rewrite drop_app_length in Hop.
  destruct op as [p seg|]; [|done]. destruct Hop as (Hp & fr & Hin & Hd). cbn.
  apply elem_of_app in Hin as [Hin|Hin]; [|rewrite (arp_no_data _ _ Harp Hin) in Hd; discriminate].
  assert (Hx : 0 <= sent s b) by apply u32_range.
  pose proof (Buffer.sb_contents_zlen b (rd_wf _ _ Hr)) as Hz. pose proof (rd_len _ _ Hr).
  destruct (segments_data s (Buffer.head_seq b) (Buffer.contents b) frs (sent s b) _ _ Hseg) with (fr := fr)
    as (q & bytes & E & Q1 & Q2 & tl & Q3); [done| |apply prefix_take|done|].
  { unfold sent. rewrite u32_add_r. replace (_ + _) with (snd_nxt s) by lia. symmetry. apply u32_small, Hr. }
  rewrite Hd in E. injection E as Eq ->.
  assert (Hl : zlen (take (Z.to_nat n) (drop (Z.to_nat (sent s b)) (Buffer.contents b))) <= n).
  { unfold zlen. rewrite length_take. lia. }
  pose proof (zlen_nonneg bytes). assert (p = q) as -> by (apply (u32_offset_inj (Buffer.head_seq b)); [lia|done]).
  intros i Hi. unfold padded. replace (Z.to_nat (q + Z.of_nat i)) with (Z.to_nat q + i)%nat by lia.
  rewrite <- lookup_drop, Q3, lookup_app_l by done. destruct (lookup_lt_is_Some_2 _ _ Hi) as [v Hv]. by rewrite Hv.
Qed.

End Transfer.

Lemma padded_prefix data d : (forall x, d = padded data x <$> seqZ 0 (zlen d)) -> d `prefix_of` data.
Proof.
  intros Hd. assert (Hl : forall i, (i < length d)%nat -> d !! i = data !! i).
  { intros i Hi. assert (Hx : forall x, d !! i = Some (padded data x (Z.of_nat i))).
    { intros x. rewrite (Hd x), list_lookup_fmap, lookup_seqZ_lt; unfold zlen; [done|lia]. }
    unfold padded in Hx. rewrite Nat2Z.id in Hx. destruct (data !! i) as [v|]; [apply (Hx 0)|].
    pose proof (Hx 0) as E. rewrite (Hx 1) in E. discriminate. }
  exists (drop (length d) data). rewrite <- (take_drop (length d) data) at 1. f_equal.
  apply list_eq. intros i. destruct (decide (i < length d)%nat) as [Hi|Hi].
  - by rewrite lookup_take_lt, Hl.
  - rewrite !lookup_ge_None_2; [done|lia|]. rewrite length_take. lia.
Qed.

(** ** Properties *)

Section Properties.
Context `{Platform}.

(** C5: end to end.  A flush puts frames on the wire; a peer whose receive buffer starts at
    the sequence number of the send buffer takes them in, in any order, with any losses and
    repetitions, and reads in between.  What its application reads is a prefix of the bytes
    in the send buffer. *)
Theorem flush_delivers_prefix a s b ts m r m' (w : @rb_world mem_pool Click.click_queue) O F ops :
  streams m !! a = Some s -> sndbuf (sndvar s) <> 0 ->
  Manager.bufs (rbm_snd m) !! sndbuf (sndvar s) = Some b -> ready s b ->
  FlushTCPSendingBuffer a ts m = Ok r m' ->
  rb_inv w [] O F -> head_seq (buff w) = Buffer.head_seq b ->
  Forall (arrives (Buffer.head_seq b) (drop (length (tx m)) (tx m'))) ops ->
  match rb_run (head_seq (buff w)) 0 ops w with
  | Ok d _ => d `prefix_of` Buffer.contents b
  | Fault e => e = ProcessExit
  end.
Proof using.
  intros Hs Hn Hb Hr Hf Hw Hh Hops. pose proof (FlushTCPSendingBuffer_flushed a s b ts m Hs Hn Hb Hr) as Hfl.
  unfold wpe in Hfl. rewrite Hf in Hfl.
  assert (Hd : forall x, Forall (rb_op_ok (padded (Buffer.contents b) x)) ops).
  { intros x. eapply list.Forall_impl; [exact Hops|]. intros op. by eapply flushed_arrives. }
  pose proof (fun x => rb_run_delivers _ w O F ops Hw (Hd x)) as Hrun.
  destruct (rb_run _ 0 ops w); [by apply padded_prefix|by apply (Hrun 0)].
Qed.

End Properties.

(** *** Witness *)

(** The answer of the server of [System] reaches a fresh buffer, twice, and is read. *)
Definition demo_peer : list rb_op :=
  [Recv 0 [72; 73; 74]; Read 2 AT_APP; Recv 0 [72; 73; 74]; Read 9 AT_APP].

Definition demo_flush : outcome mtcp_manager Z := FlushTCPSendingBuffer demo_stream 10 demo_written.

(** The frames of the flush. *)
Definition demo_wire : list frame :=
  match demo_flush with Ok _ m' => drop (length (tx demo_written)) (tx m') | Fault _ => [] end.

Lemma demo_flush_ok : returns demo_flush = true.
Proof. vm_compute. reflexivity. Qed.

Lemma demo_peer_arrives b : demo_sndbuf = Some b -> Forall (arrives (Buffer.head_seq b) demo_wire) demo_peer.
Proof.
  intros E. assert (Hd : exists fr, fr ∈ demo_wire /\ frame_data fr = Some (u32 (Buffer.head_seq b + 0), [72; 73; 74])).
  { assert (Ew : match demo_sndbuf, demo_wire with
      | Some b, [fr] => bool_decide (frame_data fr = Some (u32 (Buffer.head_seq b + 0), [72; 73; 74]))
      | _, _ => false end = true) by (vm_compute; reflexivity).
    rewrite E in Ew. destruct demo_wire as [|fr []]; [done| |done]. exists fr. split; [by apply list_elem_of_singleton|].
    by apply bool_decide_eq_true_1 in Ew. }
  repeat (apply list.Forall_cons; split); [..|by apply list.Forall_nil]; cbn; (lia || (split; [lia|exact Hd])).
Qed.

Lemma flush_delivers_prefix_witness :
  exists b (w : source_world), demo_sndbuf = Some b /\ Buffer.contents b = [72; 73; 74] /\
    match rb_run (head_seq (buff w)) 0 demo_peer w with
    | Ok d _ => d `prefix_of` Buffer.contents b
    | Fault e => e = ProcessExit
    end.
Proof.
  destruct demo_sndbuf as [b|] eqn:E; [|vm_compute in E; discriminate].
  assert (Hc : match demo_sndbuf with
    | Some b => readyb demo_writer b && bool_decide (Buffer.contents b = [72; 73; 74])
    | None => false end = true) by (vm_compute; reflexivity).
  rewrite E in Hc. apply andb_true_iff in Hc as [Hr%readyb_ready Hc%bool_decide_eq_true_1].
  destruct (fresh_world 4096 8192 64 4 (replicate 64 0) (Buffer.head_seq b))
    as (wm & rb & wm' & F & _ & _ & Hinv & _ & Hh & _);
    [unfold sizeof_mem_chunk; (lia || reflexivity)..| |].
  { destruct (rd_wf _ _ Hr) as (_ & _ & _ & _ & _ & _ & _ & _ & ->). apply u32_range. }
  exists b, (RbWorld wm' ∅ rb). split; [done|]. split; [exact Hc|].
  pose proof demo_flush_ok as Hf. pose proof (demo_peer_arrives b E) as Ha. unfold demo_wire in Ha.
  destruct demo_flush as [r m'|] eqn:Ef; [|discriminate].
  apply (flush_delivers_prefix demo_stream demo_writer b 10 demo_written r m' (RbWorld wm' ∅ rb) [] F demo_peer);
    [vm_compute; reflexivity|vm_compute; discriminate|exact E|exact Hr|exact Ef|exact Hinv|exact Hh|exact Ha].
Defined.
