(* ===== verification/Connections.v ===== *)
(** * The life of a connection

    What a segment does to the states of the streams, whatever the segment. *)

From S2P Require Import Prelude SeqArith Bytes Mtcp TcpUtil Output Fhash TcpStream TcpIn NetIn Core StackInv ListOps StreamLife StateMachine InSafe ApiSafe Stack System.

Section Connections.
Context `{Platform}.

(** C4: A segment changes the stream of its own connection only, whose state moves along the
    transition table of the protocol, [segment_next]; a stream that it creates belongs to
    the connection and is at most one segment old; no other stream disappears.  The
    invariant of the stack is kept. *)
Theorem ProcessTCPPacket_transitions ts ifidx p m : stack_inv None m ->
  wpe benign (ProcessTCPPacket ts ifidx p)
    (fun _ m' => stack_inv None m' /\ transitions (packet_key p) m m') m.
Proof using. apply ProcessTCPPacket_ok. Qed.

End Connections.

(** ** Witness *)

(** The server has got the first segment of the connection. *)
Definition demo_greeted : mtcp_manager := default demo_manager (plays (take 4 demo_events) demo_manager).

Lemma demo_greeted_sound : sound demo_greeted.
Proof.
  apply (history_sound demo_manager); [|split; [apply demo_manager_ok|apply (proj2 demo_manager_ok)]].
  apply played. vm_compute. reflexivity.
Qed.

(** The acknowledgement that completes the handshake, as [ProcessIPv4Packet] passes it on. *)
Definition read_segment : MT packet :=
  iph ← read_iphdr ack_frame 14; tcph ← read_tcphdr ack_frame 34;
  mret (Packet iph tcph (drop 54 ack_frame) (ntohs (tot_len iph))).

Definition demo_ack : packet :=
  match read_segment demo_greeted as o return match o with Ok _ _ => packet | _ => unit end with
  | Ok p _ => p
  | _ => tt
  end.

Lemma ProcessTCPPacket_transitions_witness :
  wpe benign (ProcessTCPPacket 10 0 demo_ack)
    (fun _ m' => stack_inv None m' /\ transitions (packet_key demo_ack) demo_greeted m') demo_greeted /\
  state <$> streams demo_greeted !! demo_stream = Some TCP_ST_SYN_RCVD /\
  state <$> streams (after (ProcessTCPPacket 10 0 demo_ack) demo_greeted) !! demo_stream = Some TCP_ST_ESTABLISHED.
Proof.
  split; [exact (ProcessTCPPacket_transitions 10 0 demo_ack demo_greeted (proj1 demo_greeted_sound))|].
  split; vm_compute; reflexivity.
Defined.
