(* ===== verification/Widths.v ===== *)
(** * The widths of the fields

    The integers of the model are unbounded, the fields of the C structures are not.  Every
    number that the stack stores in a stream, a socket, an address pool or the header of a
    frame lies in the range of its C type, after any history of rounds and calls: the
    wrap-around written out in the definitions is all there is. *)

From S2P Require Import Prelude SeqArith Bytes Queues MemPool SendBuffer RingBuffer AddrPool Mtcp TcpUtil Output Events Fhash Lists TcpStream TcpOut Timer TcpIn NetIn Sockets Core Api ApiSafe Stack System.

(** ** Ranges *)

Definition is_i16 (z : Z) : Prop := -32768 <= z < 32768.
Definition is_i8 (z : Z) : Prop := -128 <= z < 128.
(** A bit field of [w] bits. *)
Definition is_bits (w z : Z) : Prop := 0 <= z < 2 ^ w.

(** [struct tcp_recv_vars] *)
Record recv_typed (v : tcp_recv_vars) : Prop := {
  rt_rcv_wnd : is_u32 (rcv_wnd v);
  rt_irs : is_u32 (irs v);
  rt_snd_wl1 : is_u32 (snd_wl1 v);
  rt_snd_wl2 : is_u32 (snd_wl2 v);
  rt_dup_acks : is_u8 (dup_acks v);
  rt_last_ack_seq : is_u32 (last_ack_seq v);
  rt_ts_recent : is_u32 (ts_recent v);
  rt_ts_lastack_rcvd : is_u32 (ts_lastack_rcvd v);
  rt_ts_last_ts_upd : is_u32 (ts_last_ts_upd v);
  rt_ts_tw_expire : is_u32 (ts_tw_expire v);
  rt_srtt : is_u32 (srtt v);
  rt_mdev : is_u32 (mdev v);
  rt_mdev_max : is_u32 (mdev_max v);
  rt_rttvar : is_u32 (rttvar v);
  rt_rtt_seq : is_u32 (rtt_seq v)
}.

(** [struct tcp_send_vars] *)
Record send_typed (v : tcp_send_vars) : Prop := {
  st_ip_id : is_u16 (ip_id v);
  st_mss : is_u16 (mss v);
  st_eff_mss : is_u16 (eff_mss v);
  st_wscale_mine : is_u8 (wscale_mine v);
  st_wscale_peer : is_u8 (wscale_peer v);
  st_nif_out : is_i8 (nif_out v);
  st_snd_una : is_u32 (snd_una v);
  st_snd_wnd : is_u32 (snd_wnd v);
  st_peer_wnd : is_u32 (peer_wnd v);
  st_iss : is_u32 (iss v);
  st_fss : is_u32 (fss v);
  st_nrtx : is_u8 (nrtx v);
  st_max_nrtx : is_u8 (max_nrtx v);
  st_rto : is_u32 (rto v);
  st_ts_rto : is_u32 (ts_rto v);
  st_cwnd : is_u32 (cwnd v);
  st_ssthresh : is_u32 (ssthresh v);
  st_ts_lastack_sent : is_u32 (ts_lastack_sent v);
  st_ack_cnt : is_bits 6 (ack_cnt v)
}.

(** [struct tcp_stream] *)
Record stream_typed (s : tcp_stream) : Prop := {
  sm_id : is_bits 24 (stream_id s);
  sm_type : is_bits 8 (stream_type s);
  sm_saddr : is_u32 (saddr s);
  sm_daddr : is_u32 (daddr s);
  sm_sport : is_u16 (sport s);
  sm_dport : is_u16 (dport s);
  sm_ht_idx : is_u8 (ht_idx s);
  sm_on_rto_idx : is_i16 (on_rto_idx s);
  sm_snd_nxt : is_u32 (snd_nxt s);
  sm_rcv_nxt : is_u32 (rcv_nxt s);
  sm_rcv : recv_typed (rcvvar s);
  sm_snd : send_typed (sndvar s);
  sm_last_active_ts : is_u32 (last_active_ts s)
}.

(** The fields of [struct socket_map] that end up in a stream. *)
Record socket_typed (s : socket_map) : Prop := {
  so_type : is_bits 8 (socktype s);
  so_addr : is_u32 (sock_addr s);
  so_port : is_u16 (sock_port s)
}.

(** [struct sockaddr_in] *)
Definition addr_typed (a : sockaddr_in) : Prop := is_u32 (sin_addr a) /\ is_u16 (sin_port a).
Definition pool_typed (p : addr_pool) : Prop := Forall addr_typed (pool p).

(** [struct iphdr] *)
Record iph_typed (h : iphdr) : Prop := {
  ih_nibbles : is_bits 4 (ihl h) /\ is_bits 4 (version h);
  ih_bytes : is_u8 (tos h) /\ is_u8 (ttl h) /\ is_u8 (protocol h);
  ih_words : is_u16 (tot_len h) /\ is_u16 (iph_id h) /\ is_u16 (frag_off h) /\ is_u16 (iph_check h);
  ih_addrs : is_u32 (iph_saddr h) /\ is_u32 (iph_daddr h)
}.

Definition l4_typed (b : l4_body) : Prop :=
  match b with L4Raw _ => True | L4Tcp h _ => tcph_wf h end.

Definition body_typed (b : frame_body) : Prop :=
  match b with Ip h l => iph_typed h /\ l4_typed l | _ => True end.

Record ranges (m : mtcp_manager) : Prop := {
  ra_streams : map_Forall (fun _ => stream_typed) (streams m);
  ra_sockets : map_Forall (fun _ => socket_typed) (smap m);
  ra_pool : forall p, ap m = Some p -> pool_typed p;
  ra_pools : map_Forall (fun _ => pool_typed) (g_ap m);
  ra_clock : is_u32 (cur_ts m);
  ra_tx : Forall (fun f => body_typed (fr_body f)) (tx m)
}.

(** ** Arithmetic *)

Lemma u8_range z : is_u8 (u8 z).
Proof. mlia. Qed.
Lemma u16_range z : is_u16 (u16 z).
Proof. mlia. Qed.
Lemma u6_range z : is_bits 6 (u6 z).
Proof. unfold is_bits, u6. apply Z.mod_pos_bound. lia. Qed.
Lemma i8_range z : is_i8 (i8 z).
Proof. unfold is_i8, i8. Z.div_mod_to_equations. lia. Qed.
Lemma is_u16_u32 z : is_u16 z -> is_u32 z.
Proof. unfold is_u16, is_u32. lia. Qed.
Lemma bits24_range z : is_bits 24 (z mod 16777216).
Proof. unfold is_bits. apply Z.mod_pos_bound. lia. Qed.
Lemma max_seq_range z : is_u32 (z mod TCP_MAX_SEQ).
Proof. unfold is_u32, TCP_MAX_SEQ. Z.div_mod_to_equations. lia. Qed.
Lemma rto_mod_range z : is_i16 (z mod RTO_HASH).
Proof. unfold is_i16, RTO_HASH. Z.div_mod_to_equations. lia. Qed.

Lemma scaled_range x k : is_u16 x -> 0 <= k < 65536 -> is_u32 (x * k).
Proof. unfold is_u16, is_u32. nia. Qed.
Lemma scaled_range_l x k : is_u16 x -> 0 <= k < 65536 -> is_u32 (k * x).
Proof. rewrite Z.mul_comm. apply scaled_range. Qed.
Lemma half_range x y : is_u32 x -> is_u32 y -> is_u32 (Z.min x y / 2).
Proof. unfold is_u32. intros. Z.div_mod_to_equations. lia. Qed.
Lemma max_range x y : is_u8 x -> is_u8 y -> is_u8 (Z.max x y).
Proof. unfold is_u8. lia. Qed.

Lemma max32_range x y : is_u32 x -> is_u32 y -> is_u32 (Z.max x y).
Proof. unfold is_u32. lia. Qed.

Lemma zero_range : is_u32 0.
Proof. unfold is_u32. lia. Qed.

Create HintDb ranges.
#[export] Hint Extern 1 (_ <= _ < _) => lia : ranges.
#[export] Hint Resolve scaled_range scaled_range_l half_range max_range max32_range zero_range u8_range u16_range u32_range u6_range i8_range htons_range htonl_range is_u16_u32
  bits24_range max_seq_range rto_mod_range : ranges.

(** [ranging] proves that a number has its range. *)
Ltac ranging :=
  match goal with
  | |- True => exact I
  | |- ?p ?c => is_const c; by vm_compute
  | |- _ (if ?b then _ else _) => destruct b; ranging
  | |- _ =>
      first [ assumption | solve [eauto 8 with ranges nocore]
            | solve [unfold is_u8, is_u16, is_u32, is_i8, is_i16, is_bits in *; cbn in *; lia] ]
  end.

(** ** Code that keeps the ranges

    [typed s]: the numbers of a state have their ranges.  [keeps P f]: run in such a state,
    [f] ends in such a state, with a result that satisfies [P]; faults do not matter here. *)

Class Typed (S : Type) := typed : S -> Prop.
#[export] Instance manager_typed : Typed mtcp_manager := ranges.
#[export] Instance tcp_stream_typed : Typed tcp_stream := stream_typed.
#[export] Instance addr_pool_typed : Typed addr_pool := pool_typed.

Definition keeps {S A} `{!Typed S} (P : A -> Prop) (f : M S A) : Prop :=
  forall s, typed s -> wpe (fun _ => True) f (fun r s' => typed s' /\ P r) s.

Abbreviation any := (fun _ => True).

Section Keeps.
Context {S : Type} `{!Typed S}.

Lemma keeps_weaken {A} (P Q : A -> Prop) (f : M S A) : keeps P f -> (forall r, P r -> Q r) -> keeps Q f.
Proof using. intros Hf HQ s Hs. eapply wpe_mono; [by apply Hf|]. intros r s' [H1 H2]. auto. Qed.

Lemma keeps_any {A} (P : A -> Prop) (f : M S A) : keeps P f -> keeps any f.
Proof using. intros Hf. eapply keeps_weaken; [done|]. done. Qed.

Lemma keeps_ret {A} (P : A -> Prop) (r : A) : P r -> keeps P (mret (M := M S) r).
Proof using. intros Hr s Hs. by apply wpe_ret. Qed.

Lemma keeps_get : keeps typed (get (S := S)).
Proof using. intros s Hs. by apply wpe_get. Qed.

Lemma keeps_bind {A B} (P : A -> Prop) (Q : B -> Prop) (f : M S A) (k : A -> M S B) :
  keeps P f -> (forall r, P r -> keeps Q (k r)) -> keeps Q (mbind k f).
Proof using.
  intros Hf Hk s Hs. rewrite wpe_bind. eapply wpe_mono; [by apply Hf|]. intros r s' [H1 H2]. by apply Hk.
Qed.

Lemma keeps_throw {A} (P : A -> Prop) e : keeps P (throw (S := S) e).
Proof using. by intros s Hs. Qed.

Lemma keeps_assert b : keeps (fun _ => b = true) (assertM (S := S) b).
Proof using. intros s Hs. apply wpe_assert. by destruct b. Qed.

Lemma keeps_when b (f : M S unit) : (b = true -> keeps any f) -> keeps any (whenM b f).
Proof using. intros Hf s Hs. apply wpe_when. destruct b; [by apply Hf|done]. Qed.

Lemma keeps_unwrap {A} e (o : option A) : keeps (fun r => o = Some r) (unwrap (S := S) e o).
Proof using. intros s Hs. apply wpe_unwrap. by destruct o. Qed.

Lemma keeps_modify (g : S -> S) : (forall s, typed s -> typed (g s)) -> keeps any (modify g).
Proof using. intros Hg s Hs. apply wpe_modify. split; [by apply Hg|done]. Qed.

End Keeps.

(** Running an operation of a part, in the style of [stream_run]. *)
Lemma keeps_outcome {S A T B} `{!Typed S, !Typed T} (P : A -> Prop) (Q : B -> Prop) (op : M S A) (s : S)
    (k : A -> S -> M T B) (e : fault -> M T B) :
  keeps P op -> typed s -> (forall r s', typed s' -> P r -> keeps Q (k r s')) -> (forall x, keeps Q (e x)) ->
  keeps Q (match op s with Ok r s' => k r s' | Fault x => e x end).
Proof.
  intros Hop Hs Hk He. specialize (Hop s Hs). unfold wpe in Hop. destruct (op s); [|done]. by apply Hk; apply Hop.
Qed.

Section Manager.

Lemma keeps_zoom {T A} (proj : mtcp_manager -> T) `{!Setter proj} (op : M T A) :
  (forall m t, ranges m -> ranges (upd proj (fun _ => t) m)) -> keeps any (zoom proj op).
Proof using.
  intros Hp m Hm. unfold wpe, zoom. destruct (op (proj m)); [|done]. split; [by apply Hp|done].
Qed.

Lemma keeps_stream_at a : keeps stream_typed (stream_at a).
Proof using.
  intros m Hm. unfold stream_at. rewrite wpe_bind, wpe_get, wpe_unwrap.
  destruct (streams m !! a) eqn:E; [|done]. split; [done|]. by apply (ra_streams _ Hm a).
Qed.

Lemma ranges_set_stream m a s : ranges m -> stream_typed s -> ranges (m <| streams ::= insert a s |>).
Proof using. intros [] Hs. constructor; try done. by apply map_Forall_insert_2. Qed.

Lemma keeps_stream_set a s : stream_typed s -> keeps any (stream_set a s).
Proof using. intros Hs. apply keeps_modify. intros m Hm. by apply ranges_set_stream. Qed.

Lemma keeps_stream_mod a g : (forall s, stream_typed s -> stream_typed (g s)) -> keeps any (stream_mod a g).
Proof using.
  intros Hg. unfold stream_mod. eapply keeps_bind; [apply keeps_stream_at|].
  intros s Hs. by apply keeps_stream_set, Hg.
Qed.

Lemma keeps_stream_run {A} a (op : M tcp_stream A) : keeps any op -> keeps any (stream_run a op).
Proof using.
  intros Hop. unfold stream_run. eapply keeps_bind; [apply keeps_stream_at|]. intros s Hs.
  eapply keeps_outcome; [done|done| |intros x; apply keeps_throw]. intros r s' Hs' _.
  eapply keeps_bind; [by apply keeps_stream_set|]. intros _ _. by apply keeps_ret.
Qed.

Lemma keeps_delete a : keeps any (modify (fun m => m <| streams ::= delete a |>)).
Proof using.
  apply keeps_modify. intros m []. constructor; try done. by apply map_Forall_delete.
Qed.

Lemma keeps_socket_at i : keeps socket_typed (socket_at i).
Proof using.
  intros m Hm. unfold socket_at. rewrite wpe_bind, wpe_get, wpe_unwrap.
  destruct (smap m !! i) eqn:E; [|done]. split; [done|]. by apply (ra_sockets _ Hm i).
Qed.

Lemma keeps_socket_mod i g : (forall s, socket_typed s -> socket_typed (g s)) -> keeps any (socket_mod i g).
Proof using.
  intros Hg. unfold socket_mod. eapply keeps_bind; [apply keeps_socket_at|].
  intros s Hs. apply keeps_modify. intros m []. constructor; try done. apply map_Forall_insert_2; auto.
Qed.

Lemma keeps_push f : body_typed (fr_body f) ->
  keeps any (modify (fun m => m <| tx ::= fun l => l ++ [f] |>)).
Proof using.
  intros Hf. apply keeps_modify. intros m []. constructor; try done.
  apply Forall_app. split; [done|]. by constructor.
Qed.

Lemma keeps_fill i g : (forall f, body_typed (fr_body f) -> body_typed (fr_body (g f))) ->
  keeps any (modify (fun m => m <| tx ::= alter g i |>)).
Proof using.
  intros Hg. apply keeps_modify. intros m []. constructor; try done.
  change (Forall (fun f => body_typed (fr_body f)) (alter g i (tx m))).
  apply Forall_alter; [done|]. auto.
Qed.

End Manager.

#[export] Hint Resolve rt_rcv_wnd rt_irs rt_snd_wl1 rt_snd_wl2 rt_dup_acks rt_last_ack_seq rt_ts_recent
  rt_ts_lastack_rcvd rt_ts_last_ts_upd rt_ts_tw_expire rt_srtt rt_mdev rt_mdev_max rt_rttvar rt_rtt_seq
  st_ip_id st_mss st_eff_mss st_wscale_mine st_wscale_peer st_nif_out st_snd_una st_snd_wnd st_peer_wnd
  st_iss st_fss st_nrtx st_max_nrtx st_rto st_ts_rto st_cwnd st_ssthresh st_ts_lastack_sent st_ack_cnt
  sm_id sm_type sm_saddr sm_daddr sm_sport sm_dport sm_ht_idx sm_on_rto_idx sm_snd_nxt sm_rcv_nxt
  sm_rcv sm_snd sm_last_active_ts so_type so_addr so_port ra_clock : ranges.

Create HintDb widths.
#[export] Hint Resolve keeps_get keeps_stream_at keeps_socket_at keeps_assert keeps_delete : widths.

#[export] Hint Extern 1 (is_u32 _) => ranging : widths.
#[export] Hint Extern 1 (is_u16 _) => ranging : widths.
#[export] Hint Extern 1 (is_u8 _) => ranging : widths.

(** The fields of an updated structure, one by one. *)
Ltac fields :=
  lazymatch goal with
  | |- @typed tcp_stream _ _ => unfold typed, tcp_stream_typed in *; fields
  | |- stream_typed _ => first [solve [eauto 3 with ranges nocore] | constructor; cbn; fields]
  | |- recv_typed _ => first [solve [eauto 3 with ranges nocore] | constructor; cbn; fields]
  | |- send_typed _ => first [solve [eauto 3 with ranges nocore] | constructor; cbn; fields]
  | |- socket_typed _ => first [assumption | constructor; cbn; fields]
  | |- _ => try solve [ranging]
  end.

(** Updates of a part of the state that holds none of the numbers. *)
Ltac elsewhere :=
  let H := fresh in intros H; destruct H;
  first [by constructor | unfold sender_update; case_match; by constructor].

Ltac width_leaf :=
  match goal with
  | |- keeps _ (stream_mod _ _) => apply keeps_stream_mod; intros ? ?; fields
  | |- keeps _ (stream_set _ _) => apply keeps_stream_set; fields
  | |- keeps _ (socket_mod _ _) => apply keeps_socket_mod; intros ? ?; fields
  | |- keeps _ (modify _) => apply keeps_modify; intros ?; first [solve [elsewhere] | intros ?; solve [fields]]
  | |- keeps _ (zoom _ _) => apply keeps_zoom; intros ? ?; solve [elsewhere]
  | |- keeps _ _ => solve [eauto 4 with widths nocore]
  | |- keeps any _ => eapply keeps_any; solve [eauto 4 with widths nocore]
  end.

Ltac width_step :=
  match goal with
  | |- keeps _ (mbind _ (unwrap _ _)) => eapply keeps_bind; [apply keeps_unwrap|intros ? ?]
  | |- keeps any (unwrap _ _) => eapply keeps_any, keeps_unwrap
  | |- keeps _ (mbind _ _) =>
      first [ eapply keeps_bind; [solve [eauto 4 with widths nocore]|intros ? ?]
            | apply (keeps_bind any); [|intros ? _] ]
  | |- keeps _ (mret _) => apply keeps_ret; try solve [ranging]
  | |- keeps _ (throw _) => apply keeps_throw
  | |- keeps _ (whenM _ _) => apply keeps_when; intros ?
  | |- keeps _ (let _ := _ in _) => cbv zeta
  | |- keeps _ (if ?b then _ else _) => destruct b eqn:?
  | |- keeps _ (match ?x with _ => _ end) => destruct x eqn:?
  | |- keeps _ _ => width_leaf
  | |- keeps _ ?f => let h := code_head f in progress unfold h
  end.

Ltac widths := repeat width_step.

Section Widths.
Context `{Platform}.

Lemma keeps_env_tick : keeps any env_tick.
Proof using. unfold env_tick. widths. Qed.

Hint Resolve keeps_env_tick : widths.

(** ** Output *)

Lemma csum_fold_range x : is_u16 (csum_fold x).
Proof using. apply u16_range. Qed.

Lemma keeps_EthernetOutput h nif d len : keeps any (EthernetOutput h nif d len).
Proof using. widths. by apply keeps_push. Qed.

Hint Resolve keeps_EthernetOutput : widths.

Lemma keeps_frame_fill i b : body_typed b -> keeps any (frame_fill i b).
Proof using. intros Hb. unfold frame_fill. by apply keeps_fill. Qed.

Lemma keeps_ARPOutput nif op ip d t : keeps any (ARPOutput nif op ip d t).
Proof using. widths. by apply keeps_frame_fill. Qed.

Hint Resolve keeps_ARPOutput : widths.

Lemma keeps_RequestARP ip nif ts : keeps any (RequestARP ip nif ts).
Proof using. widths. Qed.

Lemma keeps_ProcessARPPacket i h : keeps any (ProcessARPPacket i h).
Proof using. widths. Qed.

Lemma ip_fast_csum_range ws c : ip_fast_csum ws = Some c -> is_u16 c.
Proof using.
  unfold ip_fast_csum. do 5 (destruct ws as [|? ws]; [done|]). intros [= <-]. apply u16_range.
Qed.

Lemma keeps_ip_fill f nif h : iph_typed h -> keeps any (ip_fill f nif h).
Proof using.
  intros [H1 H2 H3 H4]. unfold ip_fill. apply (keeps_bind any); [widths|]. intros rc _.
  apply (keeps_bind is_u16).
  - destruct (rc =? -1); [|apply keeps_ret; ranging].
    eapply keeps_weaken; [apply keeps_unwrap|]. intros c. apply ip_fast_csum_range.
  - intros c Hc. apply keeps_frame_fill. cbn. split; [|done]. constructor; cbn; tauto.
Qed.

Lemma ip_header_typed tot id proto sa da : is_u8 proto -> is_u32 sa -> is_u32 da ->
  iph_typed (ip_header tot id proto sa da).
Proof using. intros Hp Hs Hd. constructor; cbn; split_and!; first [ranging|by vm_compute]. Qed.

Hint Resolve keeps_RequestARP keeps_ip_fill ip_header_typed : widths.

Lemma keeps_IPOutputStandalone proto id sa da n : is_u8 proto -> is_u32 sa -> is_u32 da ->
  keeps any (IPOutputStandalone proto id sa da n).
Proof using. intros Hp Hs Hd. widths. Qed.

Lemma keeps_IPOutput a n : keeps any (IPOutput a n).
Proof using. widths. Qed.

Hint Resolve keeps_IPOutputStandalone keeps_IPOutput : widths.

(** ** Segments *)

Lemma keeps_frame_tcp f h l : tcph_wf h -> keeps any (frame_tcp f h l).
Proof using.
  intros Hh. unfold frame_tcp. apply keeps_fill. intros fr Hf. destruct (fr_body fr) eqn:E; try by rewrite E.
  cbn in *. by destruct Hf.
Qed.

Lemma TCPCalcChecksum_range l sa da : is_u16 (TCPCalcChecksum l sa da).
Proof using. apply u16_range. Qed.

Lemma keeps_tcp_check nif h l sa da : keeps is_u16 (tcp_check nif h l sa da).
Proof using.
  unfold tcp_check. apply (keeps_bind any); [widths|]. intros rc _. apply keeps_ret.
  destruct (rc =? -1); [apply u16_range|ranging].
Qed.

Lemma doff_range flags : 0 <= Z.shiftr (TCP_HEADER_LEN + CalculateOptionLength flags) 2 < 16.
Proof using. unfold CalculateOptionLength. by destruct (has flags TCP_FLAG_SYN). Qed.

Lemma keeps_SendTCPPacketStandalone sa sp da dp seq ack w flags l ts echo :
  is_u32 sa -> is_u16 sp -> is_u32 da -> is_u16 dp ->
  keeps any (SendTCPPacketStandalone sa sp da dp seq ack w flags l ts echo).
Proof using.
  intros. pose proof (doff_range flags). unfold SendTCPPacketStandalone. cbv zeta.
  case_match; [apply keeps_throw|]. apply (keeps_bind any); [apply keeps_IPOutputStandalone; ranging|].
  intros [f|] _; [|widths]. apply (keeps_bind any); [widths|]. intros r _.
  eapply keeps_bind; [apply keeps_tcp_check|]. intros c Hc. apply (keeps_bind any); [|intros _ _; widths].
  apply keeps_frame_tcp. constructor; cbn; split_and!; try ranging; try lia.
Qed.

Hint Resolve keeps_SendTCPPacketStandalone : widths.

Lemma segment_header_typed s flags c : stream_typed s -> is_u16 c ->
  tcph_wf ((segment_header s flags (CalculateOptionLength flags)) <| th_check := c |>).
Proof using.
  intros Hs Hc. pose proof (doff_range flags). constructor; cbn; split_and!; try ranging; try lia.
 
Qed.

Lemma keeps_AddtoControlList a : keeps any (AddtoControlList a).
Proof using. widths. Qed.

Lemma rto_slot_i16 r d : is_i16 (rto_slot r d).
Proof using. unfold rto_slot. destruct (_ <? _); ranging. Qed.

Hint Resolve rto_slot_i16 : ranges.

Lemma keeps_AddtoRTOList a : keeps any (AddtoRTOList a).
Proof using. widths. Qed.

Lemma keeps_UpdateTimeoutList a : keeps any (UpdateTimeoutList a).
Proof using. widths. Qed.

Lemma keeps_EnqueueACK a o : keeps any (EnqueueACK a o).
Proof using. widths. Qed.

Lemma typed_UpdateRetransmissionTimer a ts : keeps any (UpdateRetransmissionTimer a ts).
Proof using. widths. Qed.

Hint Resolve keeps_AddtoControlList keeps_AddtoRTOList keeps_UpdateTimeoutList keeps_EnqueueACK
  typed_UpdateRetransmissionTimer : widths.

Lemma keeps_SendTCPPacket a ts flags src n : is_u32 ts -> keeps any (SendTCPPacket a ts flags src n).
Proof using.
  intros Hts. unfold SendTCPPacket. cbv zeta. eapply keeps_bind; [apply keeps_stream_at|]. intros s0 _.
  case_match; [widths|]. apply (keeps_bind any); [widths|]. intros [f|] _; [|widths].
  apply (keeps_bind any); [widths|]. intros _ _. eapply keeps_bind; [apply keeps_stream_at|]. intros s Hs.
  apply (keeps_bind any); [widths|]. intros l _. eapply keeps_bind; [apply keeps_tcp_check|]. intros c Hc.
  apply (keeps_bind any); [by apply keeps_frame_tcp, segment_header_typed|]. intros _ _. widths.
Qed.

Hint Resolve keeps_SendTCPPacket : widths.

(** ** Streams *)

Lemma entry_typed p w a : pool_typed p -> entry p w = Some a -> addr_typed a.
Proof using.
  unfold entry. intros Hp. destruct (w <? 0); [done|]. intros Hw. by eapply Forall_lookup_1 in Hp.
Qed.

Lemma keeps_lease w : keeps (fun r => addr_typed r.2) (lease w).
Proof using.
  unfold lease. apply (keeps_bind typed); [apply keeps_get|]. intros p Hp.
  eapply keeps_bind; [apply keeps_unwrap|]. intros a Ha. cbv beta in Ha.
  apply (keeps_bind any); [eapply keeps_any, keeps_unwrap|]. intros l _.
  apply (keeps_bind any); [by apply keeps_modify|]. intros _ _. apply keeps_ret. by eapply entry_typed.
Qed.

Lemma keeps_FetchAddressPerCore s : addr_typed s -> keeps (fun r => addr_typed r.2) (FetchAddressPerCore s).
Proof using.
  intros Hs. unfold FetchAddressPerCore. eapply keeps_bind; [apply keeps_get|]. intros p Hp.
  destruct (free_list p); [by apply keeps_ret|apply keeps_lease].
Qed.

Lemma keeps_fetch_walk p core n e d s l : keeps any (fetch_walk p core n e d s l).
Proof using. induction l as [|w l IH]; cbn [fetch_walk]; widths. Qed.

Lemma keeps_FetchAddress core n e d s : addr_typed s -> keeps (fun r => addr_typed r.2) (FetchAddress core n e d s).
Proof using.
  intros Hs. unfold FetchAddress. eapply keeps_bind; [apply keeps_get|]. intros p Hp.
  apply (keeps_bind any); [apply keeps_fetch_walk|]. intros [w|] _; [apply keeps_lease|by apply keeps_ret].
Qed.

Lemma keeps_FreeAddress a : keeps any (FreeAddress a).
Proof using. unfold FreeAddress. widths; by apply keeps_modify. Qed.

Lemma keeps_set_ap p : pool_typed p -> keeps any (modify (fun m => m <| ap := Some p |>)).
Proof using.
  intros Hp. apply keeps_modify. intros m []. constructor; try done. by intros q [= <-].
Qed.

Lemma keeps_set_g_ap i p : pool_typed p -> keeps any (modify (fun m => m <| g_ap ::= insert i p |>)).
Proof using.
  intros Hp. apply keeps_modify. intros m []. constructor; try done. by apply map_Forall_insert_2.
Qed.

Lemma keeps_free_bound_addr a : keeps any (free_bound_addr a).
Proof using.
  unfold free_bound_addr. eapply keeps_bind; [apply keeps_get|]. intros m Hm. destruct (ap m) as [p|] eqn:E.
  - eapply keeps_outcome; [apply keeps_FreeAddress|by apply (ra_pool _ Hm)| |intros x; apply keeps_throw].
    intros r p' Hp' _. by apply keeps_set_ap.
  - apply (keeps_bind any); [widths|]. intros r _. apply (keeps_bind any); [widths|]. intros i _.
    destruct (g_ap m !! i) as [p|] eqn:Ep; [|widths].
    eapply keeps_outcome; [apply keeps_FreeAddress|by apply (ra_pools _ Hm i)| |intros x; apply keeps_throw].
    intros r' p' Hp' _. by apply keeps_set_g_ap.
Qed.

Hint Resolve keeps_free_bound_addr : widths.

Lemma keeps_DestroyTCPStream a : keeps any (DestroyTCPStream a).
Proof using. widths. Qed.

Hint Resolve keeps_DestroyTCPStream : widths.

Lemma zero_stream_typed : stream_typed zero_stream.
Proof using. constructor; cbn; try constructor; cbn; ranging. Qed.

Lemma keeps_alloc_stream : keeps any alloc_stream.
Proof using. pose proof zero_stream_typed. widths. Qed.

Hint Resolve keeps_alloc_stream : widths.

Lemma keeps_CreateTCPStream o type sa sp da dp :
  is_bits 8 type -> is_u32 sa -> is_u16 sp -> is_u32 da -> is_u16 dp ->
  keeps any (CreateTCPStream o type sa sp da dp).
Proof using. intros. widths. Qed.

Hint Resolve keeps_CreateTCPStream : widths.

(** ** Segment input *)

Lemma opt_byte_typed {S} `{!Typed S} mem i : Forall is_u8 mem -> keeps is_u8 (opt_byte (S := S) mem i).
Proof using.
  intros Hm. unfold opt_byte. eapply keeps_weaken; [apply keeps_unwrap|]. intros b.
  destruct (i <? 0); [done|]. intros Hi. by eapply Forall_lookup_1 in Hm.
Qed.

Lemma keeps_opt_u32 {S} `{!Typed S} mem i : keeps is_u32 (opt_u32 (S := S) mem i).
Proof using. unfold opt_u32, opt_byte. widths. Qed.

Hint Resolve opt_byte_typed keeps_opt_u32 : widths.

Lemma keeps_ParseTCPOptions mem len ts : Forall is_u8 mem -> is_u32 ts -> keeps any (ParseTCPOptions mem len ts).
Proof using.
  intros Hm Ht. unfold ParseTCPOptions. generalize 0 as i. generalize (Z.to_nat len) as n.
  induction n as [|n IH]; intros i; cbn [ParseTCPOptions_loop]; widths.
Qed.

Definition stamp_typed (o : option tcp_timestamp) : Prop :=
  forall t, o = Some t -> is_u32 (ts_val t) /\ is_u32 (ts_ref t).

Lemma stamp_val_range t : stamp_typed (Some t) -> is_u32 (ts_val t).
Proof using. intros Ho. by apply Ho. Qed.

Lemma stamp_ref_range t : stamp_typed (Some t) -> is_u32 (ts_ref t).
Proof using. intros Ho. by apply Ho. Qed.

Hint Resolve stamp_val_range stamp_ref_range : ranges.

Lemma keeps_ParseTCPTimestamp mem len : keeps stamp_typed (ParseTCPTimestamp (S := mtcp_manager) mem len).
Proof using.
  unfold ParseTCPTimestamp. generalize 0 as i. generalize (Z.to_nat len) as n.
  induction n as [|n IH]; intros i; cbn [ParseTCPTimestamp_loop]; widths; try done. by intros t [= <-].
Qed.

Hint Resolve keeps_ParseTCPTimestamp : widths.

(** A segment whose headers and bytes have their ranges. *)
Record packet_typed (p : packet) : Prop := {
  pt_iph : iph_typed (p_iph p);
  pt_tcph : tcph_wf (p_tcph p);
  pt_rest : Forall is_u8 (p_rest p)
}.

Lemma packet_ports p : packet_typed p -> is_u16 (source (p_tcph p)) /\ is_u16 (dest (p_tcph p)).
Proof using. intros [_ [] _]. done. Qed.

Lemma packet_addrs p : packet_typed p -> is_u32 (iph_saddr (p_iph p)) /\ is_u32 (iph_daddr (p_iph p)).
Proof using. intros [[] _ _]. done. Qed.

Lemma p_seq_range p : is_u32 (p_seq p).
Proof using. apply htonl_range. Qed.

Lemma p_ack_range p : is_u32 (p_ack p).
Proof using. apply htonl_range. Qed.

Lemma p_window_range p : is_u16 (p_window p).
Proof using. apply htons_range. Qed.

Hint Resolve p_seq_range p_ack_range p_window_range : ranges.

Lemma keeps_parse_options a ts p : is_u32 ts -> packet_typed p ->
  keeps any (stream_run a (ParseTCPOptions (p_rest p) (opt_len p) ts)).
Proof using. intros Ht Hp. apply keeps_stream_run, keeps_ParseTCPOptions; [by apply pt_rest|done]. Qed.

Hint Resolve keeps_parse_options : widths.

Lemma keeps_answer p seq ack flags ts : packet_typed p -> keeps any (answer p seq ack flags ts).
Proof using.
  intros Hp. destruct (packet_ports _ Hp), (packet_addrs _ Hp). unfold answer. widths.
Qed.

Hint Resolve keeps_answer : widths.

Lemma typed_HandleActiveOpen a ts p : is_u32 ts -> packet_typed p -> keeps any (HandleActiveOpen a ts p).
Proof using. intros Ht Hp. widths. Qed.

Lemma typed_ValidateSequence a ts p : is_u32 ts -> keeps any (ValidateSequence a ts p).
Proof using. intros Ht. widths. Qed.

Lemma keeps_ProcessRST a p : keeps any (ProcessRST a p).
Proof using. widths. Qed.

(** The local variables of [EstimateRTT], one at a time: a number of any size, or the
    variables of a stream. *)
Ltac local_let :=
  lazymatch goal with
  | |- stream_typed (let m := (?v : Z) in @?b m) => change (stream_typed (b v)); generalize v; intros ?; cbv beta
  | |- stream_typed (let r := (?v : tcp_recv_vars) in @?b r) =>
      let Hv := fresh in
      assert (Hv : recv_typed v);
        [|change (stream_typed (b v)); revert Hv; generalize v; intros ? ?; cbv beta]
  end.

Lemma rttvar_smoothed x y : is_u32 x -> is_u32 y -> (y <? x) = true -> is_u32 (x - Z.shiftr (x - y) 2).
Proof using.
  rewrite Z.ltb_lt. intros Hx Hy Hl. rewrite Z.shiftr_div_pow2 by lia. change (2 ^ 2) with 4.
  unfold is_u32 in *. Z.div_mod_to_equations. lia.
Qed.

Hint Resolve rttvar_smoothed : ranges.

Lemma EstimateRTT_typed r s : stream_typed s -> stream_typed (EstimateRTT r s).
Proof using.
  intros Hs. cbv beta delta [EstimateRTT]. local_let; [by apply sm_rcv|]. local_let.
  assert (Hset : forall v, recv_typed v -> stream_typed (s <| rcvvar := v |>)).
  { intros v Hv'. destruct Hs. by constructor. }
  destruct (negb _); [|local_let; [fields|apply Hset; fields]].
  local_let. local_let; [fields|]. local_let. local_let; [fields|].
  local_let; [cbv zeta; repeat case_match; fields|].
  local_let; [cbv zeta; repeat case_match; fields|]. by apply Hset.
Qed.

Lemma data_ack_range s x : is_u32 x -> is_u32 (data_ack s x).
Proof using. intros Hx. unfold data_ack. ranging. Qed.

Lemma loss_ssthresh_range v : send_typed v -> is_u32 (loss_ssthresh v).
Proof using. intros Hv. unfold loss_ssthresh. ranging. Qed.

Lemma shl32_range x k : keeps is_u32 (shl32 x k).
Proof using. unfold shl32. widths. Qed.

Lemma keeps_scaled_window (b : bool) w k : is_u32 w -> keeps is_u32 (if b then mret w else shl32 w k).
Proof using. intros Hw. destruct b; [by apply keeps_ret|apply shl32_range]. Qed.

Lemma keeps_grow_cwnd n v : send_typed v -> keeps is_u32 (grow_cwnd n v).
Proof using. intros Hv. unfold grow_cwnd. widths. Qed.

Hint Resolve EstimateRTT_typed data_ack_range loss_ssthresh_range : ranges.
Hint Resolve shl32_range keeps_scaled_window keeps_grow_cwnd sm_snd : widths.

Lemma typed_ProcessACK a ts p : is_u32 ts -> keeps any (ProcessACK a ts p).
Proof using. intros Ht. widths. Qed.

Hint Resolve typed_HandleActiveOpen typed_ValidateSequence keeps_ProcessRST typed_ProcessACK : widths.

Lemma typed_take_payload a ts p : is_u32 ts -> keeps any (take_payload a ts p).
Proof using. intros Ht. widths. Qed.

Lemma typed_take_ack a ts p : is_u32 ts -> keeps any (take_ack a ts p).
Proof using. intros Ht. widths. Qed.

Hint Resolve typed_take_payload typed_take_ack : widths.

Lemma keeps_listener_walk l port : keeps any (listener_walk l port).
Proof using. induction l as [|x l IH]; cbn [listener_walk]; widths. Qed.

Hint Resolve keeps_listener_walk : widths.

Lemma keeps_flow_walk l k : keeps any (flow_walk l k).
Proof using. induction l as [|x l IH]; cbn [flow_walk]; widths. Qed.

Hint Resolve keeps_flow_walk : widths.

Lemma keeps_Handle_TCP_ST_ESTABLISHED a ts p : is_u32 ts -> keeps any (Handle_TCP_ST_ESTABLISHED a ts p).
Proof using. intros Ht. widths. Qed.

Hint Resolve keeps_Handle_TCP_ST_ESTABLISHED : widths.

Lemma keeps_dispatch a ts p : is_u32 ts -> packet_typed p -> keeps any (dispatch a ts p).
Proof using. intros Ht Hp. widths. Qed.

Hint Resolve keeps_dispatch : widths.

Lemma keeps_CreateNewFlowHTEntry ts p : is_u32 ts -> packet_typed p -> keeps any (CreateNewFlowHTEntry ts p).
Proof using.
  intros Ht Hp. destruct (packet_ports _ Hp), (packet_addrs _ Hp). widths.
Qed.

Hint Resolve keeps_CreateNewFlowHTEntry : widths.

Lemma keeps_ProcessTCPPacket ts i p : is_u32 ts -> packet_typed p -> keeps any (ProcessTCPPacket ts i p).
Proof using. intros Ht Hp. widths. Qed.

Hint Resolve keeps_ProcessTCPPacket : widths.

(** ** Frames *)

Lemma keeps_rd8 mem i : Forall is_u8 mem -> keeps is_u8 (rd8 mem i).
Proof using. apply (opt_byte_typed mem i). Qed.

Lemma load16_range a b : is_u8 a -> is_u8 b -> is_u16 (load16 a b).
Proof using. unfold is_u8, is_u16, load16. lia. Qed.

Lemma load32_range a b c d : is_u8 a -> is_u8 b -> is_u8 c -> is_u8 d -> is_u32 (load32 a b c d).
Proof using. unfold is_u8, is_u32, load32. lia. Qed.

Hint Resolve load16_range load32_range : ranges.
Hint Resolve keeps_rd8 : widths.

Lemma keeps_rd16 mem i : Forall is_u8 mem -> keeps is_u16 (rd16 mem i).
Proof using. intros Hm. unfold rd16. widths. Qed.

Lemma keeps_rd32 mem i : Forall is_u8 mem -> keeps is_u32 (rd32 mem i).
Proof using. intros Hm. unfold rd32. widths. Qed.

Hint Resolve keeps_rd16 keeps_rd32 : widths.

Lemma low_nibble b : is_bits 4 (b mod 16).
Proof using. unfold is_bits. apply Z.mod_pos_bound. lia. Qed.

Lemma high_nibble b : is_u8 b -> is_bits 4 (b / 16).
Proof using. unfold is_u8, is_bits. change (2 ^ 4) with 16. intros. Z.div_mod_to_equations. lia. Qed.

Lemma keeps_read_iphdr mem o : Forall is_u8 mem -> keeps iph_typed (read_iphdr mem o).
Proof using.
  intros Hm. unfold read_iphdr. widths. constructor; cbn; split_and!; eauto using low_nibble, high_nibble.
Qed.

Lemma keeps_read_tcphdr mem o : Forall is_u8 mem -> keeps tcph_wf (read_tcphdr mem o).
Proof using.
  intros Hm. unfold read_tcphdr. widths.
  constructor; cbn; split_and!; try assumption; unfold is_u8 in *; Z.div_mod_to_equations; lia.
Qed.

Hint Resolve keeps_read_iphdr keeps_read_tcphdr : widths.

Lemma keeps_frame_icmp f l : keeps any (frame_icmp f l).
Proof using.
  unfold frame_icmp. apply keeps_fill. intros fr Hf. destruct (fr_body fr) eqn:E; try by rewrite E.
  cbn in *. by destruct Hf.
Qed.

Hint Resolve keeps_frame_icmp : widths.

Lemma keeps_ProcessICMPPacket mem h o n : iph_typed h -> Forall is_u8 mem -> keeps any (ProcessICMPPacket mem h o n).
Proof using. intros [_ _ _ [? ?]] Hm. widths. Qed.

Lemma keeps_rd_words mem n : forall o, keeps any (rd_words mem o n).
Proof using. induction n as [|n IH]; intros o; cbn [rd_words]; unfold rd32, rd8; widths. Qed.

Hint Resolve keeps_ProcessICMPPacket keeps_rd_words keeps_ProcessARPPacket : widths.

Lemma keeps_ProcessPacket i ts mem : is_u32 ts -> Forall is_u8 mem -> keeps any (ProcessPacket i ts mem).
Proof using.
  intros Ht Hm.
  assert (Hp : forall h th n len, iph_typed h -> tcph_wf th -> packet_typed (Packet h th (drop n mem) len)).
  { intros. constructor; cbn; try done. by apply Forall_drop. }
  unfold ProcessPacket, ProcessIPv4Packet, iph_checksum_ok. widths.
Qed.

Hint Resolve keeps_ProcessPacket : widths.

(** ** Timers *)

Lemma backoff_rto_range s : stream_typed s -> is_u32 (backoff_rto s).
Proof using. intros Hs. unfold backoff_rto. ranging. Qed.

Lemma half_window_range v : send_typed v -> is_u32 (half_window v).
Proof using. intros Hv. unfold half_window. ranging. Qed.

Hint Resolve backoff_rto_range half_window_range : ranges.

Lemma keeps_HandleRTO ts a : keeps any (HandleRTO ts a).
Proof using. widths. Qed.

Hint Resolve keeps_HandleRTO : widths.

Lemma keeps_RearrangeRTOStore_loop l : keeps any (RearrangeRTOStore_loop l).
Proof using. induction l as [|a l IH]; cbn [RearrangeRTOStore_loop]; widths. Qed.

Lemma keeps_rto_slot_loop n ts th i : forall w c, keeps any (rto_slot_loop n ts th i w c).
Proof using. induction n as [|n IH]; intros w c; cbn [rto_slot_loop]; widths. Qed.

Hint Resolve keeps_RearrangeRTOStore_loop keeps_rto_slot_loop : widths.

Lemma keeps_rto_clock_loop n ts th : forall c, keeps any (rto_clock_loop n ts th c).
Proof using. induction n as [|n IH]; intros c; cbn [rto_clock_loop]; widths. Qed.

Lemma keeps_timewait_loop n ts th : forall w c, keeps any (timewait_loop n ts th w c).
Proof using. induction n as [|n IH]; intros w c; cbn [timewait_loop]; widths. Qed.

Lemma keeps_timeout_loop n ts th : forall w c, keeps any (timeout_loop n ts th w c).
Proof using. induction n as [|n IH]; intros w c; cbn [timeout_loop]; widths. Qed.

Hint Resolve keeps_rto_clock_loop keeps_timewait_loop keeps_timeout_loop : widths.

Lemma keeps_check_timers ts tp : keeps any (check_timers ts tp).
Proof using. widths. Qed.

(** ** The lists of a sender *)

Lemma keeps_sender_loop f v n i th last : (forall a, keeps any (v a)) ->
  forall w c, keeps any (sender_loop f v n i th last w c).
Proof using. intros Hv. induction n as [|n IH]; intros w c; cbn [sender_loop]; widths. Qed.

Lemma keeps_control_visit i ts a : is_u32 ts -> keeps any (control_visit i ts a).
Proof using. intros Ht. widths. Qed.

Lemma keeps_flush_loop n a ts : is_u32 ts -> forall c, keeps any (flush_loop n a ts c).
Proof using. intros Ht. induction n as [|n IH]; intros c; cbn [flush_loop]; widths. Qed.

Hint Resolve keeps_flush_loop : widths.

Lemma piggyback_typed n v : 0 <= n -> send_typed v -> send_typed (piggyback n v).
Proof using.
  intros Hn Hv. pose proof (st_ack_cnt _ Hv) as Ha. unfold piggyback. destruct (0 <? ack_cnt v); [|done].
  destruct (Z.ltb_spec n (ack_cnt v)); fields.
Qed.

Lemma keeps_data_served i a n : 0 <= n -> keeps any (data_served i a n).
Proof using.
  intros Hn. assert (Hp : forall v, send_typed v -> send_typed (piggyback n v)) by eauto using piggyback_typed.
  assert (keeps any (stream_mod a (fun s => s <| sndvar ::= piggyback n |>))).
  { apply keeps_stream_mod. intros s []. constructor; try done. by apply Hp. }
  widths.
Qed.

Lemma keeps_send_data a ts : is_u32 ts -> keeps any (send_data a ts).
Proof using. intros Ht. widths. Qed.

Hint Resolve keeps_send_data keeps_data_served : widths.
Hint Extern 1 (0 <= _) => lia : widths.

Lemma keeps_data_visit i ts a : is_u32 ts -> keeps any (data_visit i ts a).
Proof using. intros Ht. widths. Qed.

Lemma keeps_ack_burst n a ts : is_u32 ts -> keeps any (ack_burst n a ts).
Proof using. intros Ht. induction n as [|n IH]; cbn [ack_burst]; widths. Qed.

Hint Resolve keeps_ack_burst : widths.

Lemma keeps_ack_visit i ts a : is_u32 ts -> keeps any (ack_visit i ts a).
Proof using. intros Ht. widths. Qed.

Hint Resolve keeps_sender_loop keeps_control_visit keeps_data_visit keeps_ack_visit : widths.

Lemma keeps_write_sender ts th i : is_u32 ts -> keeps any (write_sender ts th i).
Proof using. intros Ht. unfold write_sender, WriteTCPControlList, WriteTCPDataList, WriteTCPACKList. widths. Qed.

Hint Resolve keeps_write_sender keeps_check_timers : widths.

(** ** Rounds of the main loop *)

Lemma keeps_drain deq body n : keeps any deq -> (forall a, keeps any (body a)) -> keeps any (drain deq body n).
Proof using. intros Hd Hb. induction n as [|n IH]; cbn [drain]; widths. Qed.

Lemma keeps_drain_queue (q : mtcp_manager -> Click.click_queue) `{!Setter q} body :
  (forall m t, ranges m -> ranges (upd q (fun _ => t) m)) -> (forall a, keeps any (body a)) ->
  keeps any (drain_queue q body).
Proof using.
  intros Hq Hb. unfold drain_queue. eapply keeps_bind; [apply keeps_get|]. intros m Hm.
  apply keeps_drain; [by apply keeps_zoom|done].
Qed.

Lemma keeps_repeat_int deq body n : keeps any deq -> (forall a, keeps any (body a)) -> keeps any (repeat_int deq body n).
Proof using. intros Hd Hb. induction n as [|n IH]; cbn [repeat_int]; widths. Qed.

Lemma keeps_walk_int (q : mtcp_manager -> Internal.stream_queue_int) `{!Setter q} body :
  (forall m t, ranges m -> ranges (upd q (fun _ => t) m)) -> (forall a, keeps any (body a)) ->
  keeps any (walk_int q body).
Proof using.
  intros Hq Hb. unfold walk_int. eapply keeps_bind; [apply keeps_get|]. intros m Hm.
  apply keeps_repeat_int; [by apply keeps_zoom|done].
Qed.

Lemma keeps_close_visit a : keeps any (close_visit a).
Proof using.
  unfold close_visit. apply (keeps_bind any); [widths|]. intros _ _.
  eapply keeps_bind; [apply keeps_stream_at|]. intros s Hs. apply (keeps_bind is_u32); [widths|]. intros fin Hf. widths.
Qed.

Hint Resolve keeps_close_visit : widths.

Lemma keeps_HandleApplicationCalls : keeps any HandleApplicationCalls.
Proof using.
  unfold HandleApplicationCalls.
  do 8 (apply (keeps_bind any); [first [apply keeps_drain_queue | apply keeps_walk_int]; [intros ? ?; elsewhere|intros a; widths]|intros _ _]).
  widths.
Qed.

Lemma keeps_for_each {A} (body : A -> MT unit) l : (forall x, x ∈ l -> keeps any (body x)) -> keeps any (for_each body l).
Proof using.
  intros Hb. induction l as [|x l IH]; cbn [for_each]; [by apply keeps_ret|].
  apply (keeps_bind any); [apply Hb; set_solver|]. intros _ _. apply IH. set_solver.
Qed.

Lemma keeps_for_range body n : (forall i, keeps any (body i)) -> forall i, keeps any (for_range body i n).
Proof using. intros Hb. induction n as [|n IH]; intros i; cbn [for_range]; widths. Qed.

(** The time and the frames of a round. *)
Definition tick_typed (t : tick) : Prop :=
  is_u32 (t_ts t) /\ forall i mem, Some mem ∈ t_rx t i -> Forall is_u8 mem.

Lemma keeps_receive t i : tick_typed t -> keeps any (receive (t_ts t) t i).
Proof using.
  intros [Ht Hr]. unfold receive. apply keeps_for_each. intros [mem|] Hx; [|widths].
  pose proof (Hr i mem Hx). widths.
Qed.

Hint Resolve keeps_receive keeps_for_range keeps_HandleApplicationCalls : widths.

Lemma keeps_set_clock ts : is_u32 ts -> keeps any (modify (fun m => m <| cur_ts := ts |>)).
Proof using. intros Ht. apply keeps_modify. intros m []. by constructor. Qed.

Hint Resolve keeps_set_clock : widths.

Lemma keeps_interrupt_port i : keeps any (interrupt_port i).
Proof using. widths. Qed.

Hint Resolve keeps_interrupt_port : widths.

Lemma keeps_WritePacketsToChunks ts : is_u32 ts -> keeps any (WritePacketsToChunks ts).
Proof using. intros Ht. widths. Qed.

Hint Resolve keeps_WritePacketsToChunks : widths.

Lemma keeps_round master t tp : tick_typed t -> keeps any (round master t tp).
Proof using.
  intros Ht. pose proof (proj1 Ht). unfold round, take_input, InterruptApplication. widths.
Qed.

(** ** Calls of the application *)

(** The addresses of the arguments; the time of [mtcp_writev]. *)
Definition call_typed (x : call) : Prop :=
  match x with
  | CBind _ (Some a) | CConnect _ (Some a) => is_u32 (sa_addr a) /\ is_u16 (sa_port a)
  | CWritev ts _ _ => is_u32 ts
  | _ => True
  end.

Lemma keeps_free_socket n : keeps any (free_socket n).
Proof using. induction n as [|n IH]; cbn [free_socket]; widths. Qed.

Hint Resolve keeps_free_socket : widths.

Lemma keeps_AllocateSocket ty : is_bits 8 ty -> keeps any (AllocateSocket ty).
Proof using. intros Hy. widths. Qed.

Lemma keeps_FreeSocket i : keeps any (FreeSocket i).
Proof using. widths. Qed.

Hint Extern 1 (is_bits 8 _) => ranging : widths.
Hint Resolve keeps_AllocateSocket keeps_FreeSocket : widths.

Lemma keeps_mtcp_socket c d y : keeps any (mtcp_socket c d y).
Proof using. widths. Qed.

Lemma keeps_mtcp_bind c i a : call_typed (CBind i a) -> keeps any (mtcp_bind c i a).
Proof using. intros Ha. destruct a as [a|]; [destruct Ha|]; unfold mtcp_bind; widths. Qed.

Lemma keeps_mtcp_listen c l i n : keeps any (mtcp_listen c l i n).
Proof using. widths. Qed.

Lemma keeps_mtcp_accept c i : keeps any (mtcp_accept c i).
Proof using. widths. Qed.

(** *** Address pools *)

Lemma keeps_add_entry i h j cnt : keeps any (add_entry i h j cnt).
Proof using.
  unfold add_entry. eapply keeps_bind; [apply keeps_get|]. intros p Hp.
  eapply keeps_bind; [apply keeps_unwrap|]. intros l Hl. apply keeps_modify. intros q _.
  pose proof (mem_write_bounds _ _ _ _ Hl) as [? Hb]. cbv beta in Hl. rewrite mem_write_ok in Hl by done.
  injection Hl as <-. change (Forall addr_typed (take (Z.to_nat cnt) (pool p) ++
    [SockaddrIn (htonl h) (htons j)] ++ drop (Z.to_nat cnt + length [SockaddrIn (htonl h) (htons j)]) (pool p))).
  rewrite !list.Forall_app. split_and!; [by apply Forall_take| |by apply Forall_drop].
  constructor; [|done]. split; cbn; [apply htonl_range|apply htons_range].
Qed.

Hint Resolve keeps_add_entry : widths.

Lemma keeps_percore_ports core n d dp e en i h l : forall cnt, keeps any (percore_ports core n d dp e en i h l cnt).
Proof using. induction l as [|j l IH]; intros cnt; cbn [percore_ports]; widths. Qed.

Hint Resolve keeps_percore_ports : widths.

Lemma keeps_percore_addrs core n d dp e en l : forall cnt, keeps any (percore_addrs core n d dp e en l cnt).
Proof using. induction l as [|j l IH]; intros cnt; cbn [percore_addrs]; widths. Qed.

Lemma blank_pool_typed b n e : pool_typed (blank_pool b n e).
Proof using.
  unfold pool_typed, blank_pool. cbn. apply Forall_replicate. split; cbn; ranging.
Qed.

Lemma CreateAddressPoolPerCore_typed al e core n b k d dp o p :
  CreateAddressPoolPerCore al e core n b k d dp = Ok o p -> pool_typed p.
Proof using.
  unfold CreateAddressPoolPerCore. cbv zeta. destruct (n =? 0); [done|]. destruct (negb al).
  { intros [= _ <-]. apply blank_pool_typed. }
  set (f := mbind _ _). intros Hf. assert (Hk : keeps any f).
  { apply (keeps_bind any); [apply keeps_percore_addrs|]. intros cnt _.
    apply (keeps_bind any); [by apply keeps_modify|]. intros _ _. by apply keeps_ret. }
  specialize (Hk _ (blank_pool_typed b k (Z.quot (k * (MAX_PORT - MIN_PORT)) n))). unfold wpe in Hk.
  rewrite Hf in Hk. apply Hk.
Qed.

Lemma keeps_create_ports e i h l : forall cnt, keeps any (create_ports e i h l cnt).
Proof using. induction l as [|j l IH]; intros cnt; cbn [create_ports]; widths. Qed.

Hint Resolve keeps_create_ports : widths.

Lemma keeps_create_addrs e l : forall cnt, keeps any (create_addrs e l cnt).
Proof using. induction l as [|j l IH]; intros cnt; cbn [create_addrs]; widths. Qed.

Lemma CreateAddressPool_typed al b n o p : CreateAddressPool al b n = Ok o p -> pool_typed p.
Proof using.
  unfold CreateAddressPool. cbv zeta. destruct (negb al).
  { intros [= _ <-]. apply blank_pool_typed. }
  set (f := mbind _ _). intros Hf. assert (Hk : keeps any f).
  { apply (keeps_bind any); [apply keeps_create_addrs|]. intros cnt _.
    apply (keeps_bind any); [by apply keeps_modify|]. intros _ _. by apply keeps_ret. }
  specialize (Hk _ (blank_pool_typed b n (n * (MAX_PORT - MIN_PORT)))). unfold wpe in Hk.
  rewrite Hf in Hk. apply Hk.
Qed.

Lemma keeps_mtcp_init_rss c b n d p : keeps any (mtcp_init_rss c b n d p).
Proof using.
  unfold mtcp_init_rss. destruct (GetMTCPManager c); [widths|]. apply (keeps_bind any).
  { apply keeps_modify. intros m []. by constructor. }
  intros _ _. apply (keeps_bind any); [widths|]. intros [base|] _; [|widths].
  apply (keeps_bind any); [widths|]. intros k _.
  destruct (CreateAddressPoolPerCore _ _ _ _ _ _ _ _) as [[u|] q|e] eqn:E; [|widths|widths].
  apply CreateAddressPoolPerCore_typed in E. apply (keeps_bind any); [by apply keeps_set_ap|]. intros _ _. widths.
Qed.

(** *** Connecting *)

Lemma keeps_fetch_from_pool c dip dp (s : socket_map) : socket_typed s ->
  forall m, ranges m ->
  keeps (fun r => forall x, r = Some x -> addr_typed x.2)
    (match ap m with
     | Some p =>
         match FetchAddressPerCore (SockaddrIn (sock_addr s) (sock_port s)) p with
         | Ok r p' => modify (fun m => m <| ap := Some p' |>);; mret (Some r)
         | Fault e => throw e
         end
     | None =>
         r ← GetOutputInterface dip;
         if r.1 <? 0 then mret None
         else
           p ← unwrap NullPointer (g_ap m !! r.1);
           match FetchAddress (ac_cpu c) (num_queues c) (endian_check c) (SockaddrIn dip dp)
                   (SockaddrIn (sock_addr s) (sock_port s)) p with
           | Ok x p' => modify (fun m => m <| g_ap ::= insert r.1 p' |>);; mret (Some x)
           | Fault e => throw e
           end
     end).
Proof using.
  intros Hs m Hm. assert (Ha : addr_typed (SockaddrIn (sock_addr s) (sock_port s))) by (split; cbn; ranging).
  destruct (ap m) as [p|] eqn:E.
  - eapply keeps_outcome; [by apply keeps_FetchAddressPerCore|by apply (ra_pool _ Hm)| |intros x; apply keeps_throw].
    intros r p' Hp' Hr. apply (keeps_bind any); [by apply keeps_set_ap|]. intros _ _. apply keeps_ret. by intros x [= <-].
  - apply (keeps_bind any); [widths|]. intros r _. destruct (r.1 <? 0); [by apply keeps_ret|].
    eapply keeps_bind; [apply keeps_unwrap|]. intros p Hp. cbv beta in Hp.
    eapply keeps_outcome; [by apply keeps_FetchAddress|by apply (ra_pools _ Hm r.1)| |intros x; apply keeps_throw].
    intros x p' Hp' Hx. apply (keeps_bind any); [by apply keeps_set_g_ap|]. intros _ _. apply keeps_ret. by intros y [= <-].
Qed.

Lemma keeps_fetch_local c i dip dp : keeps any (fetch_local c i dip dp).
Proof using.
  unfold fetch_local. eapply keeps_bind; [apply keeps_socket_at|]. intros s Hs.
  destruct (_ && _); [widths|]. eapply keeps_bind; [apply keeps_get|]. intros m Hm. cbv zeta.
  eapply keeps_bind; [by apply keeps_fetch_from_pool|]. intros [r|] Hr; [|widths].
  destruct (Hr r eq_refl). widths.
Qed.

Hint Resolve keeps_fetch_local : widths.

Lemma keeps_mtcp_connect c i a : call_typed (CConnect i a) -> keeps any (mtcp_connect c i a).
Proof using. intros Ha. destruct a as [a|]; [destruct Ha|]; unfold mtcp_connect; widths. Qed.

(** *** The other calls *)

Lemma keeps_mtcp_close c i : keeps any (mtcp_close c i).
Proof using. widths. Qed.

Lemma keeps_mtcp_abort c i : keeps any (mtcp_abort c i).
Proof using. widths. Qed.

Lemma keeps_CopyToUser a n : keeps any (CopyToUser a n).
Proof using. widths. Qed.

Hint Resolve keeps_CopyToUser : widths.

Lemma keeps_readv_loop a l : forall acc, keeps any (readv_loop a l acc).
Proof using. induction l as [|n l IH]; intros acc; cbn [readv_loop]; widths. Qed.

Lemma keeps_CopyFromUser a b n : keeps any (CopyFromUser a b n).
Proof using. widths. Qed.

Hint Resolve keeps_readv_loop keeps_CopyFromUser : widths.

Lemma keeps_writev_loop a l : forall acc, keeps any (writev_loop a l acc).
Proof using. induction l as [|n l IH]; intros acc; cbn [writev_loop]; widths. Qed.

Hint Resolve keeps_writev_loop : widths.

Lemma keeps_mtcp_recv c i n f : keeps any (mtcp_recv c i n f).
Proof using. widths. Qed.

Lemma keeps_mtcp_write c i b n : keeps any (mtcp_write c i b n).
Proof using. widths. Qed.

Lemma keeps_mtcp_writev c ts i v : is_u32 ts -> keeps any (mtcp_writev c ts i v).
Proof using. intros Ht. widths. Qed.

Lemma keeps_mtcp_epoll_ctl c e op i v : keeps any (mtcp_epoll_ctl c e op i v).
Proof using. widths. Qed.

Hint Resolve keeps_mtcp_socket keeps_mtcp_bind keeps_mtcp_listen keeps_mtcp_accept keeps_mtcp_init_rss
  keeps_mtcp_connect keeps_mtcp_close keeps_mtcp_abort keeps_mtcp_recv keeps_mtcp_write keeps_mtcp_writev
  keeps_mtcp_epoll_ctl : widths.

Lemma keeps_perform c x : call_typed x -> keeps any (perform c x).
Proof using. intros Hx. destruct x; cbn [perform]; cbn [call_typed] in Hx; widths. Qed.

Hint Resolve keeps_perform keeps_round : widths.

(** ** Histories *)

Definition event_typed (e : event) : Prop :=
  match e with
  | Round _ t _ => tick_typed t
  | Call _ x => call_typed x
  end.

Lemma keeps_run_event e : event_typed e -> keeps any (run_event e).
Proof using. intros He. destruct e; cbn [run_event]; cbn [event_typed] in He; widths. Qed.

(** The state after a list of events, if none of them faults. *)
Fixpoint run_events (l : list event) (m : mtcp_manager) : option mtcp_manager :=
  match l with
  | [] => Some m
  | e :: l => match run_event e m with Ok _ m' => run_events l m' | Fault _ => None end
  end.

Lemma run_events_ranges l : forall m m', Forall event_typed l -> run_events l m = Some m' -> ranges m -> ranges m'.
Proof using.
  induction l as [|e l IH]; cbn [run_events]; intros m m' Hl E Hm; [by injection E as <-|].
  apply Forall_cons_1 in Hl as [He Hl]. pose proof (keeps_run_event e He m Hm) as Hk. unfold wpe in Hk.
  destruct (run_event e m) as [u m1|]; [|done]. destruct Hk. eauto.
Qed.

Lemma checked_some {A B} (o : outcome unit (option A)) (k : A -> outcome unit (option B)) x u :
  checked o k = Ok (Some x) u -> exists y, k y = Ok (Some x) u.
Proof using. destruct o as [[y|] ?|]; cbn; [|done..]. eauto. Qed.

Lemma created_ranges al c pools id arpm m u : map_Forall (fun _ => pool_typed) pools ->
  InitializeMTCPManager al c pools id arpm = Ok (Some m) u -> ranges m.
Proof using.
  intros Hp E. unfold InitializeMTCPManager in E.
  repeat match type of E with checked _ _ = _ => apply checked_some in E as [? E] end.
  destruct (InitRTOHashstore _); [|done]. injection E as <- _. constructor; cbn; try done.
  intros i s Hs. apply elem_of_list_to_map_2 in Hs. apply list_elem_of_fmap in Hs as (j & [= -> ->] & _).
  constructor; cbn; ranging.
Qed.


End Widths.

(** ** A connection *)

Lemma demo_frames_typed : Forall (Forall is_u8) [syn_frame; ack_frame; data_frame].
Proof. repeat constructor; done. Qed.

Lemma demo_tick_typed t tp l : is_u32 t -> Forall (Forall is_u8) l -> event_typed (at_time t tp l).
Proof.
  intros Ht Hl. split; [done|]. intros i mem Hm. apply list_elem_of_fmap in Hm as (x & [= <-] & Hx).
  by apply (proj1 (list.Forall_forall _ _) Hl).
Qed.

Lemma demo_events_typed : Forall event_typed demo_events.
Proof.
  pose proof demo_frames_typed as Hf. rewrite !list.Forall_cons in Hf. destruct Hf as (H1 & H2 & H3 & _).
  unfold demo_events. rewrite !list.Forall_cons. split_and!; try done; try (apply demo_tick_typed; [done|by repeat constructor]).
Qed.

