(* ===== verification/CString.v ===== *)
(** * Character strings and the functions of the C library on them

    What the configuration code ([config.c]) and the helpers of [src/util] use of the C
    library: searching, splitting and comparing strings, numbers in text, [fgets],
    [inet_addr] and [sscanf].  A character is its code, a string the list of its characters
    up to the terminating zero.  The functions are total: what they need of [errno] and of
    end pointers is part of their results. *)

From S2P Require Import Prelude Bytes.
From Stdlib Require Import Ascii String.
Export StringSyntax.

(** The characters of a literal. *)
Fixpoint lit (s : string) : list Z :=
  match s with
  | EmptyString => []
  | String c s' => Z.of_N (N_of_ascii c) :: lit s'
  end.

(** A buffer as a string: what precedes the first zero. *)
Fixpoint c_str (l : list Z) : list Z :=
  match l with
  | [] => []
  | c :: l' => if c =? 0 then [] else c :: c_str l'
  end.

(** ** [ctype.h] *)

Definition isspace (c : Z) : bool := ((9 <=? c) && (c <=? 13)) || (c =? 32).
Definition isdigit (c : Z) : bool := (48 <=? c) && (c <=? 57).
Definition isupper (c : Z) : bool := (65 <=? c) && (c <=? 90).
Definition islower (c : Z) : bool := (97 <=? c) && (c <=? 122).
Definition isalpha (c : Z) : bool := isupper c || islower c.
Definition tolower (c : Z) : Z := if isupper c then c + 32 else c.

(** ** [string.h] *)

(** The longest prefix whose characters satisfy [p], and the rest. *)
Fixpoint span_while (p : Z -> bool) (l : list Z) : list Z * list Z :=
  match l with
  | [] => ([], [])
  | c :: l' => if p c then let '(a, b) := span_while p l' in (c :: a, b) else ([], l)
  end.

Definition skip_while (p : Z -> bool) (l : list Z) : list Z := (span_while p l).2.

(** The character at the start of a string, [0] at its end. *)
Definition first (l : list Z) : Z := hd 0 l.

Fixpoint strcmp (a b : list Z) : Z :=
  match a, b with
  | [], [] => 0
  | [], _ => -1
  | _, [] => 1
  | x :: a', y :: b' => if x =? y then strcmp a' b' else if x <? y then -1 else 1
  end.

Definition streq (a b : list Z) : bool := strcmp a b =? 0.

(** [strncmp(s, key, strlen(key)) == 0] *)
Fixpoint starts_with (key s : list Z) : bool :=
  match key, s with
  | [], _ => true
  | _, [] => false
  | k :: key', c :: s' => (k =? c) && starts_with key' s'
  end.

(** [strncasecmp(s, key, strlen(key)) == 0] *)
Definition starts_with_case (key s : list Z) : bool := starts_with (tolower <$> key) (tolower <$> s).

(** What [strstr] points to. *)
Fixpoint strstr (s key : list Z) : option (list Z) :=
  if starts_with key s then Some s
  else match s with [] => None | _ :: s' => strstr s' key end.

Definition sep (delim : list Z) (c : Z) : bool := bool_decide (c ∈ delim).
Definition nosep (delim : list Z) (c : Z) : bool := negb (sep delim c).

(** [strtok_r]: the token and the string the next call continues with. *)
Definition strtok (s delim : list Z) : option (list Z) * list Z :=
  let s' := skip_while (sep delim) s in
  if bool_decide (s' = []) then (None, [])
  else let '(t, r) := span_while (nosep delim) s' in (Some t, tail r).

(** ** Numbers *)

Definition LONG_MAX : Z := 9223372036854775807.
Definition LONG_MIN : Z := -9223372036854775808.

(** The value of a string of digits. *)
Definition value (base : Z) (digit : Z -> Z) (l : list Z) : Z := fold_left (fun v c => v * base + digit c) l 0.

Definition dec_digit (c : Z) : Z := c - 48.
Definition decimal (l : list Z) : Z := value 10 dec_digit l.

(** An optional sign. *)
Definition sign (s : list Z) : bool * list Z :=
  if first s =? 45 then (true, tail s) else if first s =? 43 then (false, tail s) else (false, s).

(** [strtol] in base 10: the value, whether it was out of range, and where the number ends;
    without a number that is the start of the string. *)
Record parsed := Parsed { r_value : Z; r_range : bool; r_rest : list Z }.

Definition clamp (v : Z) : Z := Z.max LONG_MIN (Z.min LONG_MAX v).

Definition strtol (s : list Z) : parsed :=
  let '(neg, s') := sign (skip_while isspace s) in
  let '(ds, rest) := span_while isdigit s' in
  if bool_decide (ds = []) then Parsed 0 false s
  else
    let v := if neg then - decimal ds else decimal ds in
    Parsed (clamp v) (negb (v =? clamp v)) rest.

(** ** Addresses *)

Definition is_hex (c : Z) : bool := isdigit c || ((97 <=? tolower c) && (tolower c <=? 102)).
Definition hex_digit (c : Z) : Z := if isdigit c then c - 48 else tolower c - 87.
Definition is_oct (c : Z) : bool := (48 <=? c) && (c <=? 55).

(** [strtoul] in base 0 of a string that starts with a digit. *)
Definition strtoul0 (s : list Z) : Z * list Z :=
  let hex := starts_with_case (lit "0x") s && is_hex (first (drop 2 s)) in
  if hex then
    let '(ds, rest) := span_while is_hex (drop 2 s) in (value 16 hex_digit ds, rest)
  else if first s =? 48 then
    let '(ds, rest) := span_while is_oct s in (value 8 dec_digit ds, rest)
  else
    let '(ds, rest) := span_while isdigit s in (decimal ds, rest).

(** One to four numbers separated by dots, all but the last below 256; the last fills what
    is left of the 32 bits.  [parts] are the numbers in front. *)
Fixpoint inet_parts (fuel : nat) (parts : list Z) (s : list Z) : option Z :=
  if negb (isdigit (first s)) then None
  else
    let '(v, rest) := strtoul0 s in
    if 4294967295 <? v then None
    else if first rest =? 46 then
      match fuel with
      | O => None
      | S fuel' => if 255 <? v then None else inet_parts fuel' (parts ++ [v]) (tail rest)
      end
    else if negb (bool_decide (rest = [])) && negb (isspace (first rest)) then None
    else
      let left := 4 - zlen parts in
      if 256 ^ left <=? v then None
      else Some (fold_left (fun a p => a * 256 + p) parts 0 * 256 ^ left + v).

Definition INADDR_NONE : Z := 4294967295.

(** The address in network order. *)
Definition inet_addr (s : list Z) : Z :=
  match inet_parts 3 [] s with Some a => htonl a | None => INADDR_NONE end.

(** [sscanf(s, "%x", &v)] *)
Definition scan_hex (s : list Z) : option Z :=
  let '(neg, s') := sign (skip_while isspace s) in
  let s' := if starts_with_case (lit "0x") s' && is_hex (first (drop 2 s')) then drop 2 s' else s' in
  let '(ds, _) := span_while is_hex s' in
  if bool_decide (ds = []) then None
  else
    let v := Z.min (value 16 hex_digit ds) (2 * LONG_MAX + 1) in
    Some (u32 (if neg then - v else v)).

(** ** [stdio.h] *)

(** [fgets]: at most [n] - 1 characters, up to a newline that is kept; the buffer as a
    string, and the rest of the file. *)
Fixpoint take_line (n : nat) (file : list Z) : list Z * list Z :=
  match n, file with
  | O, _ | _, [] => ([], file)
  | S n', c :: file' =>
      if c =? 10 then ([c], file') else let '(a, b) := take_line n' file' in (c :: a, b)
  end.

Definition fgets (n : Z) (file : list Z) : option (list Z * list Z) :=
  match file with
  | [] => None
  | _ => let '(line, rest) := take_line (Z.to_nat (n - 1)) file in Some (c_str line, rest)
  end.

(** ** Splitting *)

(** A string that does not start with a character of [p]. *)
Definition stops (p : Z -> bool) (l : list Z) : Prop :=
  match l with [] => True | c :: _ => p c = false end.

Lemma span_while_app p l r : Forall (fun c => p c = true) l -> stops p r -> span_while p (l ++ r) = (l, r).
Proof.
  intros Hl Hr. induction l as [|c l IH]; cbn.
  - destruct r as [|c r]; [done|]. cbn in *. by rewrite Hr.
  - apply Forall_cons_1 in Hl as [Hc Hl]. by rewrite Hc, (IH Hl).
Qed.

Lemma span_while_all p l : Forall (fun c => p c = true) l -> span_while p l = (l, []).
Proof. intros Hl. rewrite <- (app_nil_r l) at 1. by apply span_while_app. Qed.

Lemma span_while_split p l : (span_while p l).1 ++ (span_while p l).2 = l.
Proof.
  induction l as [|c l IH]; cbn; [done|]. destruct (p c); [|done]. destruct (span_while p l). cbn in *. by rewrite IH.
Qed.

Lemma span_while_stops p l : stops p (span_while p l).2.
Proof.
  induction l as [|c l IH]; cbn; [done|]. destruct (p c) eqn:E; [|done]. by destruct (span_while p l).
Qed.

Lemma span_while_sat p l : Forall (fun c => p c = true) (span_while p l).1.
Proof.
  induction l as [|c l IH]; cbn; [done|]. destruct (p c) eqn:E; [|done]. destruct (span_while p l). by constructor.
Qed.

Lemma skip_while_stops p l : stops p l -> skip_while p l = l.
Proof. unfold skip_while. destruct l as [|c l]; [done|]. cbn. by intros ->. Qed.

Lemma skip_while_app p l r : Forall (fun c => p c = true) l -> stops p r -> skip_while p (l ++ r) = r.
Proof. intros Hl Hr. unfold skip_while. by rewrite span_while_app. Qed.

Lemma skip_while_length p l : (List.length (skip_while p l) <= List.length l)%nat.
Proof.
  unfold skip_while. rewrite <- (span_while_split p l) at 2. rewrite length_app. lia.
Qed.

(** A token is not empty, and the rest is shorter than the string. *)
Lemma strtok_shrinks s delim t r : strtok s delim = (Some t, r) -> (List.length r < List.length s)%nat.
Proof.
  unfold strtok. cbv zeta. pose proof (skip_while_length (sep delim) s) as Hl.
  pose proof (span_while_stops (sep delim) s : stops _ (skip_while (sep delim) s)) as Hst.
  destruct (skip_while (sep delim) s) as [|c s']; [done|]. cbn [stops] in Hst. cbn [span_while].
  unfold nosep at 1. rewrite Hst. cbn [negb]. pose proof (span_while_split (nosep delim) s') as Hs.
  destruct (span_while (nosep delim) s') as [a b]. intros [= _ <-]. cbn in Hs, Hl.
  assert (List.length b <= List.length s')%nat by (rewrite <- Hs, length_app; lia).
  destruct b; cbn in *; lia.
Qed.

Lemma nosep_all delim t : Forall (fun c => c ∉ delim) t -> Forall (fun c => nosep delim c = true) t.
Proof. intros Hf. eapply list.Forall_impl; [exact Hf|]. intros c Hc. unfold nosep, sep. by rewrite bool_decide_false. Qed.

Lemma sep_stops delim t r : t <> [] -> Forall (fun c => c ∉ delim) t -> stops (sep delim) (t ++ r).
Proof.
  intros Ht Hf. destruct t as [|c t]; [done|]. apply Forall_cons_1 in Hf as [Hc _]. by apply bool_decide_eq_false.
Qed.

(** Splitting off a token that ends with a separator or with the string. *)
Lemma strtok_token delim t d r : t <> [] -> Forall (fun c => c ∉ delim) t -> d ∈ delim ->
  strtok (t ++ d :: r) delim = (Some t, r).
Proof.
  intros Ht Hf Hd. unfold strtok. rewrite skip_while_stops by by apply sep_stops.
  rewrite bool_decide_false by by destruct t. rewrite span_while_app; [done|by apply nosep_all|]. cbn. unfold nosep, sep. by rewrite bool_decide_true.
Qed.

Lemma strtok_last delim t : t <> [] -> Forall (fun c => c ∉ delim) t -> strtok t delim = (Some t, []).
Proof.
  intros Ht Hf. unfold strtok. cbv zeta. pose proof (sep_stops delim t [] Ht Hf) as Hs. rewrite app_nil_r in Hs.
  rewrite (skip_while_stops _ _ Hs), bool_decide_false by done. by rewrite span_while_all by by apply nosep_all.
Qed.

Lemma streq_spec a b : streq a b = true <-> a = b.
Proof.
  unfold streq. rewrite Z.eqb_eq. revert b. induction a as [|x a IH]; intros [|y b]; cbn; try done.
  destruct (Z.eqb_spec x y) as [->|Hn].
  - rewrite IH. split; congruence.
  - split; [destruct (x <? y); lia|congruence].
Qed.

(** A line is not empty, and fuel for its characters is fuel for the lines. *)
Lemma take_line_shrinks n file : (0 < n)%nat -> file <> [] ->
  (List.length (take_line n file).2 < List.length file)%nat.
Proof.
  intros Hn Hf. destruct n as [|n]; [lia|]. destruct file as [|c file]; [done|]. clear. cbn.
  destruct (c =? 10); cbn; [lia|].
  assert (Hl : forall k l, (List.length (take_line k l).2 <= List.length l)%nat).
  { induction k as [|k IH]; intros [|x l]; cbn; try lia. destruct (x =? 10); cbn; [lia|].
    specialize (IH l). destruct (take_line k l). cbn in *. lia. }
  specialize (Hl n file). destruct (take_line n file). cbn in *. lia.
Qed.

Lemma fgets_shrinks n file line rest : 2 <= n -> fgets n file = Some (line, rest) ->
  (List.length rest < List.length file)%nat.
Proof.
  intros Hn. unfold fgets. destruct file as [|c file]; [done|].
  pose proof (take_line_shrinks (Z.to_nat (n - 1)) (c :: file)) as Hl.
  destruct (take_line (Z.to_nat (n - 1)) (c :: file)) as [a b]. intros [= <- <-]. apply Hl; [lia|done].
Qed.

(** ** Printing numbers *)

Fixpoint dec_digits (fuel : nat) (n : Z) : list Z :=
  match fuel with
  | O => [48 + n mod 10]
  | S fuel' => if n <? 10 then [48 + n] else dec_digits fuel' (n / 10) ++ [48 + n mod 10]
  end.

(** [printf("%d")] of a number that is not negative *)
Definition dec (n : Z) : list Z := dec_digits (Z.to_nat (Z.log2 n)) n.

Lemma decimal_snoc l c : decimal (l ++ [c]) = decimal l * 10 + (c - 48).
Proof. unfold decimal, value. by rewrite fold_left_app. Qed.

Lemma decimal_one d : decimal [48 + d] = d.
Proof. unfold decimal, value, dec_digit. cbn [fold_left]. lia. Qed.

Lemma digit_char d : 0 <= d < 10 -> isdigit (48 + d) = true.
Proof. intros Hd. unfold isdigit. rewrite andb_true_iff, !Z.leb_le. lia. Qed.

Lemma dec_digits_spec fuel n : 0 <= n < 10 ^ (Z.of_nat fuel + 1) ->
  decimal (dec_digits fuel n) = n /\ Forall (fun c => isdigit c = true) (dec_digits fuel n) /\ dec_digits fuel n <> [].
Proof.
  revert n. induction fuel as [|fuel IH]; intros n Hn; cbn [dec_digits].
  - rewrite Z.mod_small by (cbn in Hn; lia). split_and!; [apply decimal_one| |done].
    repeat constructor. apply digit_char. cbn in Hn. lia.
  - destruct (Z.ltb_spec n 10) as [Hs|Hs].
    { split_and!; [apply decimal_one| |done]. repeat constructor. apply digit_char. lia. }
    assert (Hm : 0 <= n / 10 < 10 ^ (Z.of_nat fuel + 1)).
    { replace (Z.of_nat (S fuel) + 1) with (1 + (Z.of_nat fuel + 1)) in Hn by lia.
      rewrite Z.pow_add_r, Z.pow_1_r in Hn by lia.
      split; [apply Z.div_pos; lia|]. apply Z.div_lt_upper_bound; lia. }
    destruct (IH _ Hm) as (E & Hf & Hne). split_and!.
    + rewrite decimal_snoc, E. pose proof (Z.div_mod n 10). lia.
    + apply Forall_app. split; [done|]. repeat constructor. apply digit_char, Z.mod_pos_bound. lia.
    + by destruct (dec_digits fuel (n / 10)).
Qed.

Lemma dec_spec n : 0 <= n -> decimal (dec n) = n /\ Forall (fun c => isdigit c = true) (dec n) /\ dec n <> [].
Proof.
  intros Hn. apply dec_digits_spec. split; [done|]. rewrite Z2Nat.id by apply Z.log2_nonneg.
  destruct (decide (n = 0)) as [->|]; [done|]. apply Z.lt_le_trans with (2 ^ (Z.log2 n + 1)).
  - rewrite Z.add_1_r. apply Z.log2_spec. lia.
  - apply Z.pow_le_mono_l. lia.
Qed.

Lemma digit_not_space c : isdigit c = true -> isspace c = false /\ c <> 45 /\ c <> 43.
Proof.
  unfold isdigit, isspace. rewrite andb_true_iff, !Z.leb_le. intros ?.
  rewrite orb_false_iff, andb_false_iff, Z.eqb_neq, !Z.leb_gt. lia.
Qed.

(** Reading the digits of a number, with anything but a digit behind them. *)
Lemma strtol_digits ds r : Forall (fun c => isdigit c = true) ds -> ds <> [] -> stops isdigit r ->
  strtol (ds ++ r) = Parsed (clamp (decimal ds)) (negb (decimal ds =? clamp (decimal ds))) r.
Proof.
  intros Hd Hn Hr. unfold strtol. destruct ds as [|c ds]; [done|].
  pose proof (Forall_inv Hd) as Hc. cbn beta in Hc. destruct (digit_not_space c Hc) as (Hs & H1 & H2).
  rewrite skip_while_stops by done. unfold sign, first. cbn [hd app].
  rewrite (proj2 (Z.eqb_neq c 45) H1), (proj2 (Z.eqb_neq c 43) H2). cbn beta iota.
  change (c :: ds ++ r) with ((c :: ds) ++ r). by rewrite span_while_app.
Qed.

Lemma strtol_dec n r : 0 <= n -> stops isdigit r -> strtol (dec n ++ r) = Parsed (clamp n) (negb (n =? clamp n)) r.
Proof.
  intros Hn Hr. destruct (dec_spec n Hn) as (E & Hf & Hne). by rewrite strtol_digits, E.
Qed.
