(* ===== verification/Config.v ===== *)
(** * Configuration ([config.c], [io_module.c], and [mtcp_init] of [core.c])

    The configuration file, the routes and the static ARP table are texts; reading them fills
    [struct mtcp_config].  The build is the one of the Makefile: the I/O module of DPDK is
    compiled in, the others are not.  What the machine answers (its cores, its interfaces,
    the ports DPDK finds) is an argument.  A call of [exit] is the fault [ProcessExit]. *)

From S2P Require Import Prelude Bytes AddrPool Mtcp CString.

Definition MAX_ROUTE_ENTRY : Z := 64.
Definition MAX_OPTLINE_LEN : Z := 1024.
Definition MAX_DEVICES : Z := 16.
Definition MAX_ARPENTRY : Z := 1024.
Definition MAX_CPUS : Z := 16.
Definition ETH_NUM : Z := 4.
Definition ETH_ALEN : Z := 6.

Definition EINVAL_ : Z := 22.
Definition ERANGE : Z := 34.

(** [current_iomodule_func] *)
Inductive io_module := Psio | Dpdk | Netmap | Onvm.

(** An interface as [getifaddrs] and [ioctl] describe it: its name, whether its address is
    of family [AF_INET] ([None]: it has no address), and the answers to the three queries. *)
Record iface := Iface {
  ifa_name : list Z;
  ifa_inet : option bool;
  if_addr : option Z;
  if_hwaddr : option (list Z);
  if_netmask : option Z
}.

(** What the machine answers. *)
Record host := Host {
  h_root : bool;
  h_cpus : Z;
  h_eal_init : Z;
  h_ports : list (list Z);
  h_ifaddrs : option (list iface);
  h_primary : bool
}.

(** The global state of configuration: [CONFIG] (the part the stack reads, and the rest of
    it), the counters of [config.c], the I/O module, and [errno].  [eth_names] are the fields
    [dev_name] and [stat_print] of the Ethernet table. *)
Record conf := Conf {
  cfg : mtcp_config;
  eth_names : list (list Z * bool);
  num_cores : Z;
  num_mem_ch : Z;
  multi_process : Z;
  multi_process_is_master : Z;
  cpus : Z;
  queues : Z;
  num_devices : Z;
  devices_attached : list Z;
  iomodule : io_module;
  errno : Z
}.

#[export] Instance conf_eta : Settable conf :=
  fun r => Conf (cfg r) (eth_names r) (num_cores r) (num_mem_ch r) (multi_process r)
     (multi_process_is_master r) (cpus r) (queues r) (num_devices r) (devices_attached r)
     (iomodule r) (errno r).

Definition MC (A : Type) : Type := M conf A.

Definition set_cfg (g : mtcp_config -> mtcp_config) : MC unit := modify (fun c => c <| cfg ::= g |>).

(** ** Numbers *)

(** [strtol] leaves [errno] alone unless the value is out of range. *)
Definition strtol_errno (s : list Z) : MC parsed :=
  let r := strtol s in
  whenM (r_range r) (modify (fun c => c <| errno := ERANGE |>));;
  mret r.

Definition mystrtol (nptr : list Z) : MC Z :=
  modify (fun c => c <| errno := 0 |>);;
  r ← strtol_errno nptr;
  c ← get;
  let rval := i32 (r_value r) in
  if ((errno c =? ERANGE) && ((rval =? LONG_MAX) || (rval =? LONG_MIN)))
     || (negb (errno c =? 0) && (rval =? 0)) then throw ProcessExit
  else if bool_decide (r_rest r = nptr) then throw ProcessExit
  else mret rval.

Definition GetIntValue (value : list Z) : MC Z :=
  r ← strtol_errno value;
  c ← get;
  mret (if (errno c =? EINVAL_) || (errno c =? ERANGE) then -1 else i32 (r_value r)).

(** ** Masks and addresses *)

(** [for (j = 0; j < lim && j < 8; j++) byte |= 1 << (7 - j)] *)
Fixpoint mask_byte (fuel : nat) (j lim byte : Z) : Z :=
  match fuel with
  | O => byte
  | S fuel' =>
      if (j <? lim) && (j <? 8)
      then mask_byte fuel' (j + 1) lim (Z.lor byte (Z.shiftl 1 (7 - j)))
      else byte
  end.

(** The bytes of the mask, from the [i]-th on. *)
Fixpoint mask_bytes (fuel : nat) (i prefix : Z) : list Z :=
  match fuel with
  | O => []
  | S fuel' =>
      (if i <=? Z.quot prefix 8 then mask_byte 8 0 (prefix - i * 8) 0 else 0)
        :: mask_bytes fuel' (i + 1) prefix
  end.

(** The mask is written byte by byte, in network order. *)
Definition MaskFromPrefix (prefix : Z) : Z :=
  match mask_bytes 4 0 prefix with
  | [a; b; c; d] => load32 a b c d
  | _ => 0
  end.

(** The return value and the address. *)
Definition ParseIPAddress (ip_str : option (list Z)) : Z * Z :=
  match ip_str with
  | None => (-1, 0)
  | Some s => let a := inet_addr s in if a =? INADDR_NONE then (-1, 0) else (0, a)
  end.

(** The loop over the bytes of a hardware address: a token takes at least a character. *)
Fixpoint mac_loop (fuel : nat) (s : list Z) (haddr : list Z) : MC (list Z) :=
  match strtok s (lit ":"), fuel with
  | (None, _), _ => mret haddr
  | (Some _, _), O => throw OutOfFuel
  | (Some str, s'), S fuel' =>
      if ETH_ALEN <=? zlen haddr then throw ProcessExit
      else
        match scan_hex str with
        | None => throw ProcessExit
        | Some temp => mac_loop fuel' s' (haddr ++ [u8 temp])
        end
  end.

Definition ParseMACAddress (haddr_str : list Z) : MC (list Z) :=
  haddr ← mac_loop (length haddr_str) haddr_str [];
  if zlen haddr <? ETH_ALEN then throw ProcessExit else mret haddr.

(** ** Routes *)

(** The search for a device of the name [dev] among the first [n] entries of the Ethernet
    table, which has [MAX_DEVICES] of them. *)
Fixpoint device_index (fuel : nat) (i n : Z) (c : conf) (dev : list Z) : MC Z :=
  match fuel with
  | O => mret (-1)
  | S fuel' =>
      if n <=? i then mret (-1)
      else if MAX_DEVICES <=? i then throw OutOfBounds
      else
        let name := default [] (fst <$> eth_names c !! Z.to_nat i) in
        if streq name dev then mret (default 0 (ifindex <$> eths (cfg c) !! Z.to_nat i))
        else device_index fuel' (i + 1) n c dev
  end.

Definition route_interface (dev : list Z) : MC Z :=
  c ← get;
  match iomodule c with
  | Dpdk | Onvm => device_index (S (Z.to_nat (num_devices c))) 0 (num_devices c) c dev
  | Psio | Netmap => mret (-1)
  end.

Definition EnrollRouteTableEntry (optstr : list Z) : MC unit :=
  let '(daddr_s, s) := strtok optstr (lit "/") in
  let '(prefix, s) := strtok s (lit " ") in
  let '(dev, _) := strtok s [10] in
  daddr_s ← unwrap AssertFail daddr_s;
  prefix ← unwrap AssertFail prefix;
  dev ← unwrap AssertFail dev;
  ifidx ← route_interface dev;
  c ← get;
  if zlen (rtable (cfg c)) =? MAX_ROUTE_ENTRY then throw ProcessExit
  else
    let daddr := inet_addr daddr_s in
    prefix ← mystrtol prefix;
    if (32 <? prefix) || (prefix <? 0) then throw ProcessExit
    else
      let mask := MaskFromPrefix prefix in
      let r := RouteTable daddr mask (Z.land daddr mask) prefix ifidx in
      set_cfg (fun c => c <| rtable ::= fun l => l ++ [r] |>);;
      whenM (mask =? 0) (set_cfg (fun c => c <| gateway := Some r |>)).

(** The lines of the [num] routes; lines that start with a comment are not counted.  The
    result is the rest of the file. *)
Fixpoint route_lines (fuel : nat) (num : Z) (file : list Z) : MC (list Z) :=
  if num <=? 0 then mret file
  else
    match fgets MAX_OPTLINE_LEN file, fuel with
    | None, _ => mret []
    | Some _, O => throw OutOfFuel
    | Some (optstr, file), S fuel' =>
        if first optstr =? 35 then route_lines fuel' num file
        else
          c ← get;
          match gateway (cfg c) with
          | None => EnrollRouteTableEntry optstr;; route_lines fuel' (num - 1) file
          | Some _ => throw ProcessExit
          end
    end.

(** [optstr + sizeof(KEY)], one character behind the keyword: a read behind the end of the
    string when nothing follows the keyword. *)
Definition behind_key (key optstr : list Z) : MC (list Z) :=
  if zlen optstr <=? zlen key then throw OutOfBounds else mret (drop (S (length key)) optstr).

Fixpoint route_file (fuel : nat) (file : list Z) : MC unit :=
  match fgets MAX_OPTLINE_LEN file, fuel with
  | None, _ => mret tt
  | Some _, O => throw OutOfFuel
  | Some (optstr, file), S fuel' =>
      if first optstr =? 35 then route_file fuel' file
      else
        let optstr := (span_while (fun c => negb (c =? 35)) optstr).1 in
        if starts_with (lit "ROUTES") optstr then
          s ← behind_key (lit "ROUTES") optstr;
          num ← GetIntValue s;
          if num <=? 0 then mret tt
          else
            file ← route_lines (length file) num file;
            route_file fuel' file
        else route_file fuel' file
  end.

(** [None]: the file cannot be opened. *)
Definition SetRoutingTableFromFile (file : option (list Z)) : MC Z :=
  match file with
  | None => mret (-1)
  | Some file => route_file (length file) file;; mret 0
  end.

(** [while ((c = c >> 1)) prefix++] of a 32-bit number *)
Fixpoint shift_count (fuel : nat) (c prefix : Z) : Z :=
  match fuel with
  | O => prefix
  | S fuel' =>
      let c := Z.shiftr c 1 in
      if c =? 0 then prefix else shift_count fuel' c (prefix + 1)
  end.

(** The route to the network of an interface. *)
Definition interface_route (e : eth_table) : route_table :=
  let daddr := Z.land (ip_addr e) (netmask e) in
  RouteTable daddr (netmask e) daddr (shift_count 32 (netmask e) 0 + 1) (ifindex e).

(** [calloc_ok] is the outcome of the allocation. *)
Definition SetRoutingTable (calloc_ok : bool) (file : option (list Z)) : MC Z :=
  set_cfg (fun c => c <| rtable := [] |>);;
  if negb calloc_ok then throw ProcessExit
  else
    c ← get;
    whenM (MAX_ROUTE_ENTRY <? zlen (eths (cfg c))) (throw OutOfBounds);;
    set_cfg (fun c => c <| rtable := interface_route <$> eths c |>);;
    SetRoutingTableFromFile file;;
    mret 0.

(** ** The static ARP table *)

(** [calloc_ok] is the outcome of the allocation of the table. *)
Definition EnrollARPTableEntry (calloc_ok : bool) (optstr : list Z) : MC unit :=
  let '(dip_s, s) := strtok optstr (lit "/") in
  let '(prefix_s, s) := strtok s (lit " ") in
  let '(daddr_s, _) := strtok s [10] in
  dip_s ← unwrap AssertFail dip_s;
  prefix_s ← unwrap AssertFail prefix_s;
  daddr_s ← unwrap AssertFail daddr_s;
  prefix ← mystrtol prefix_s;
  if (32 <? prefix) || (prefix <? 0) then mret tt
  else
    c ← get;
    if negb calloc_ok then throw NullPointer
    else if MAX_ARPENTRY <=? zlen (arp_entries (cfg c)) then throw OutOfBounds
    else
      let ip := (ParseIPAddress (Some dip_s)).2 in
      haddr ← ParseMACAddress daddr_s;
      let dip_mask := MaskFromPrefix prefix in
      let e := ArpEntry ip (i8 prefix) dip_mask (Z.land ip dip_mask) haddr in
      set_cfg (fun c => c <| arp_entries ::= fun l => l ++ [e] |>);;
      c ← get;
      whenM (match gateway (cfg c) with
             | Some g => Z.land (rt_daddr g) (ip_mask e) =? ip_masked e
             | None => false
             end) (set_cfg (fun c => c <| arp_gateway := Some e |>)).

(** A line without its comment and without the spaces in front of it; of the spaces behind
    it one is removed. *)
Definition trim (line : list Z) : list Z :=
  let p := skip_while isspace (span_while (fun c => negb (c =? 35)) line).1 in
  if isspace (List.last p 0) then removelast p else p.

Fixpoint arp_file (calloc_ok : bool) (fuel : nat) (numEntry : Z) (hasNumEntry : bool) (file : list Z) : MC unit :=
  match fgets MAX_OPTLINE_LEN file, fuel with
  | None, _ => mret tt
  | Some _, O => throw OutOfFuel
  | Some (optstr, file), S fuel' =>
      let p := trim optstr in
      if bool_decide (p = []) then arp_file calloc_ok fuel' numEntry hasNumEntry file
      else if negb hasNumEntry && starts_with (lit "ARP_ENTRY") p then
        s ← behind_key (lit "ARP_ENTRY") p;
        numEntry ← GetIntValue s;
        if numEntry <=? 0 then throw ProcessExit
        else arp_file calloc_ok fuel' numEntry true file
      else if numEntry <=? 0 then throw ProcessExit
      else
        EnrollARPTableEntry calloc_ok p;;
        arp_file calloc_ok fuel' (numEntry - 1) hasNumEntry file
  end.

(** The result of [InitARPTable] is not looked at. *)
Definition InitARPTable : MC unit := set_cfg (fun c => c <| arp_entries := [] |>).

Definition LoadARPTable (calloc_ok : bool) (file : option (list Z)) : MC Z :=
  InitARPTable;;
  match file with
  | None => mret (-1)
  | Some file => arp_file calloc_ok (length file) 0 false file;; mret 0
  end.

(** ** Interfaces *)

Definition blank_eth : eth_table := EthTable 0 (repeat 0 6) 0 0.

(** The last port with the hardware address [haddr], [0] if there is none. *)
Fixpoint port_of (ports : list (list Z)) (j : Z) (haddr : list Z) (found : Z) : Z :=
  match ports with
  | [] => found
  | p :: ports' => port_of ports' (j + 1) haddr (if bool_decide (p = haddr) then j else found)
  end.

(** Whether the list of names mentions the interface, not followed by a colon. *)
Definition mentioned (dev_name_list name : list Z) : bool :=
  match strstr dev_name_list name with
  | Some seek => negb (first (drop (length name) seek) =? 58)
  | None => false
  end.

(** A new entry of the Ethernet table, and of the devices that are attached. *)
Definition add_interface (h : host) (i : iface) : MC unit :=
  c ← get;
  if MAX_DEVICES <=? zlen (eths (cfg c)) then throw OutOfBounds
  else
    let haddr := default (repeat 0 6) (if_hwaddr i) in
    let nif := port_of (h_ports h) 0 haddr 0 in
    let e := EthTable nif haddr (default 0 (if_netmask i)) (default 0 (if_addr i)) in
    set_cfg (fun c => c <| eths ::= fun l => l ++ [e] |>);;
    modify (fun c => c <| eth_names ::= fun l => l ++ [(ifa_name i, false)] |>);;
    if MAX_DEVICES <=? zlen (devices_attached c) then throw OutOfBounds
    else modify (fun c => c <| devices_attached ::= fun l => l ++ [nif] |>).

Fixpoint attach_interfaces (h : host) (set_all : bool) (dev_name_list : list Z) (l : list iface) : MC unit :=
  match l with
  | [] => mret tt
  | i :: l' =>
      inet ← unwrap NullPointer (ifa_inet i);
      whenM (inet && negb set_all && mentioned dev_name_list (ifa_name i)) (add_interface h i);;
      attach_interfaces h set_all dev_name_list l'
  end.

(** The buffer of the number of memory channels has five bytes. *)
Definition fits_mem_channels (n : Z) : bool := (-1000 <? n) && (n <? 10000).

(** The branch of the module of DPDK; the interfaces are a list with at least one element. *)
Definition dpdk_interfaces (h : host) (set_all : bool) (dev_name_list : list Z) : MC unit :=
  c ← get;
  if num_mem_ch c =? 0 then throw ProcessExit
  else if negb (fits_mem_channels (num_mem_ch c)) then throw OutOfBounds
  else if h_eal_init h <? 0 then throw ProcessExit
  else if zlen (h_ports h) =? 0 then throw ProcessExit
  else
    modify (fun c => c <| num_devices := zlen (h_ports h) |> <| queues := Z.min (num_cores c) MAX_CPUS |>);;
    match h_ifaddrs h with
    | None => throw ProcessExit
    | Some [] => throw NullPointer
    | Some l => attach_interfaces h set_all dev_name_list l
    end;;
    modify (fun c => c <| multi_process_is_master := if h_primary h then 1 else 0 |>).

(** The table from ports to entries of the Ethernet table. *)
Fixpoint number_ports (l : list eth_table) (i : Z) (tab : list Z) : MC (list Z) :=
  match l with
  | [] => mret tab
  | e :: l' =>
      let j := ifindex e in
      if MAX_DEVICES <=? j then throw ProcessExit
      else if j <? 0 then throw OutOfBounds
      else number_ports l' (i + 1) (<[Z.to_nat j := i]> tab)
  end.

(** The table of interfaces is allocated anew, the number of its entries is kept.  The
    allocations succeed when [calloc_ok] is true. *)
Definition SetInterfaceInfo (h : host) (calloc_ok : bool) (dev_name_list : list Z) : MC Z :=
  let set_all := streq dev_name_list (lit "all") in
  if negb calloc_ok then throw ProcessExit
  else
    set_cfg (fun c => c <| eths ::= fmap (fun _ => blank_eth) |>);;
    modify (fun c => c <| eth_names ::= fmap (fun _ => ([], false)) |>);;
    c ← get;
    match iomodule c with
    | Dpdk => dpdk_interfaces h set_all dev_name_list
    | Psio | Netmap | Onvm => mret tt
    end;;
    c ← get;
    tab ← number_ports (eths (cfg c)) 0 (replicate (Z.to_nat MAX_DEVICES) (-1));
    set_cfg (fun c => c <| nif_to_eidx := tab |>);;
    mret 0.

(** ** The configuration file *)

Definition SetMultiProcessSupport (multiprocess_details : list Z) : MC Z :=
  match (strtok multiprocess_details (lit " =")).1 with
  | None => mret (-1)
  | Some sample =>
      v ← mystrtol sample;
      modify (fun c => c <| multi_process := u8 v |>);;
      mret 0
  end.

(** [SEC_TO_USEC(t) / TIME_TICK] in [int], where the product can overflow. *)
Definition sec_to_tick (t : Z) : Z := Z.quot (i32 (t * 1000000)) TIME_TICK.

(** A number that is stored by [g], and the test that makes the option fail. *)
Definition int_option (q : list Z) (g : Z -> conf -> conf) (bad : Z -> bool) : MC Z :=
  v ← mystrtol q;
  modify (g v);;
  mret (if bad v then -1 else 0).

Definition time_option (q : list Z) (g : Z -> mtcp_config -> mtcp_config) : MC Z :=
  v ← mystrtol q;
  set_cfg (g (if 0 <? v then sec_to_tick v else v));;
  mret 0.

Definition cores_option (q : list Z) : MC Z :=
  v ← mystrtol q;
  modify (fun c => c <| num_cores := v |>);;
  c ← get;
  if v <=? 0 then mret (-1)
  else if cpus c <? v then mret (-1)
  else modify (fun c => c <| cpus := v |>);; mret 0.

Definition AssignIOModule (m : list Z) : MC unit :=
  let assign x := modify (fun c => c <| iomodule := x |>) in
  if streq m (lit "psio") then assign Psio
  else if streq m (lit "dpdk") then assign Dpdk
  else if streq m (lit "netmap") then assign Netmap
  else if streq m (lit "onvm") then assign Onvm
  else throw AssertFail.

Definition stat_option (q : list Z) : MC unit :=
  modify (fun c => c <| eth_names ::= fmap (fun n => (n.1, n.2 || streq n.1 q)) |>).

(** The assignments of [ParseConfiguration], for the option [p] with the value [q]. *)
Definition set_option (h : host) (calloc_ok : bool) (line p q : list Z) : MC Z :=
  let opt := streq p in
  let rest := drop (S (length p)) line in
  if opt (lit "num_cores") then cores_option q
  else if opt (lit "max_concurrency") then
    int_option q (fun v c => c <| cfg ::= max_concurrency ↦ v |>) (fun v => v <? 0)
  else if opt (lit "max_num_buffers") then
    int_option q (fun v c => c <| cfg ::= max_num_buffers ↦ v |>) (fun v => v <? 0)
  else if opt (lit "rcvbuf") then int_option q (fun v c => c <| cfg ::= rcvbuf_size ↦ v |>) (fun v => v <? 64)
  else if opt (lit "sndbuf") then int_option q (fun v c => c <| cfg ::= sndbuf_size ↦ v |>) (fun v => v <? 64)
  else if opt (lit "tcp_timeout") then time_option q (fun t c => c <| tcp_timeout := t |>)
  else if opt (lit "tcp_timewait") then time_option q (fun t c => c <| tcp_timewait := t |>)
  else if opt (lit "stat_print") then stat_option q;; mret 0
  else if opt (lit "port") then
    SetInterfaceInfo h calloc_ok (if streq q (lit "all") then q else rest);; mret 0
  else if opt (lit "io") then AssignIOModule q;; mret 0
  else if opt (lit "num_mem_ch") then int_option q (fun v c => c <| num_mem_ch := v |>) (fun _ => false)
  else if opt (lit "multiprocess") then SetMultiProcessSupport rest;; mret 0
  else mret (-1).

(** The last byte of the copy that [strncpy] makes is not initialised: [junk] is what it
    holds, read when the line fills the rest of the copy. *)
Definition ParseConfiguration (h : host) (calloc_ok : bool) (junk : Z) (line : list Z) : MC Z :=
  if (MAX_OPTLINE_LEN - 1 <=? zlen line) && negb (junk =? 0) then throw OutOfBounds
  else
    let delim := lit " =" ++ [9] in
    let '(p, s) := strtok line delim in
    match p with
    | None => mret (-1)
    | Some p =>
        match (strtok s delim).1 with
        | None => mret (-1)
        | Some q => set_option h calloc_ok line p q
        end
    end.

Fixpoint config_file (h : host) (calloc_ok : bool) (junk : Z) (fuel : nat) (file : list Z) : MC Z :=
  match fgets MAX_OPTLINE_LEN file, fuel with
  | None, _ => mret 0
  | Some _, O => throw OutOfFuel
  | Some (optstr, file), S fuel' =>
      let p := trim optstr in
      if bool_decide (p = []) then config_file h calloc_ok junk fuel' file
      else
        ret ← ParseConfiguration h calloc_ok junk p;
        if ret <? 0 then mret (-1) else config_file h calloc_ok junk fuel' file
  end.

Definition TCP_TIMEOUT : Z := 30000 * 1000 / TIME_TICK.
Definition TCP_TIMEWAIT : Z := 0.

Definition default_config (c : conf) : conf :=
  c <| num_cores := cpus c |> <| num_mem_ch := 0 |>
    <| cfg ::= fun g => g <| max_concurrency := 10000 |> <| max_num_buffers := 10000 |>
         <| rcvbuf_size := -1 |> <| sndbuf_size := -1 |>
         <| tcp_timeout := TCP_TIMEOUT |> <| tcp_timewait := TCP_TIMEWAIT |> |>.

(** The size of a buffer that is not set is the size of the other one. *)
Definition default_sizes (g : mtcp_config) : mtcp_config :=
  let g := if (sndbuf_size g =? -1) && negb (rcvbuf_size g =? -1)
           then g <| sndbuf_size := rcvbuf_size g |> else g in
  let g := if (rcvbuf_size g =? -1) && negb (sndbuf_size g =? -1)
           then g <| rcvbuf_size := sndbuf_size g |> else g in
  if (rcvbuf_size g =? -1) && (sndbuf_size g =? -1)
  then g <| rcvbuf_size := 8192 |> <| sndbuf_size := 8192 |> else g.

Definition LoadConfiguration (h : host) (calloc_ok : bool) (junk : Z) (file : option (list Z)) : MC Z :=
  match file with
  | None => mret (-1)
  | Some file =>
      modify default_config;;
      ret ← config_file h calloc_ok junk (length file) file;
      if ret <? 0 then mret (-1) else set_cfg default_sizes;; mret 0
  end.

(** ** [core.c] *)

(** [struct mtcp_conf] *)
Record mtcp_conf := MtcpConf {
  mc_num_cores : Z;
  mc_max_concurrency : Z;
  mc_max_num_buffers : Z;
  mc_rcvbuf_size : Z;
  mc_sndbuf_size : Z;
  mc_tcp_timewait : Z;
  mc_tcp_timeout : Z
}.

Definition mtcp_getconf (c : conf) : mtcp_conf :=
  let g := cfg c in
  MtcpConf (num_cores c) (max_concurrency g) (max_num_buffers g) (rcvbuf_size g) (sndbuf_size g)
    (tcp_timewait g) (tcp_timeout g).

(** Only positive values are taken over; [None] is a null pointer. *)
Definition mtcp_setconf (o : option mtcp_conf) : MC Z :=
  match o with
  | None => mret (-1)
  | Some f =>
      let put v (g : conf -> conf) := whenM (0 <? v) (modify g) in
      put (mc_num_cores f) (fun c => c <| num_cores := mc_num_cores f |>);;
      put (mc_max_concurrency f) (fun c => c <| cfg ::= max_concurrency ↦ mc_max_concurrency f |>);;
      put (mc_max_num_buffers f) (fun c => c <| cfg ::= max_num_buffers ↦ mc_max_num_buffers f |>);;
      put (mc_rcvbuf_size f) (fun c => c <| cfg ::= rcvbuf_size ↦ mc_rcvbuf_size f |>);;
      put (mc_sndbuf_size f) (fun c => c <| cfg ::= sndbuf_size ↦ mc_sndbuf_size f |>);;
      put (mc_tcp_timewait f) (fun c => c <| cfg ::= tcp_timewait ↦ mc_tcp_timewait f |>);;
      put (mc_tcp_timeout f) (fun c => c <| cfg ::= tcp_timeout ↦ mc_tcp_timeout f |>);;
      mret 0
  end.

(** The files that are read, and the outcomes of the allocations. *)
Record files := Files {
  f_config : option (list Z);
  f_routes : option (list Z);
  f_arp : option (list Z);
  f_junk : Z;
  f_eths_ok : bool;
  f_pools_ok : Z -> bool;
  f_rtable_ok : bool;
  f_arp_ok : bool
}.

(** A pool of addresses per interface; [None]: no memory. *)
Fixpoint create_pools (ok : Z -> bool) (l : list eth_table) (i : Z) (pools : gmap Z addr_pool) :
    MC (option (gmap Z addr_pool)) :=
  match l with
  | [] => mret (Some pools)
  | e :: l' =>
      if ETH_NUM <=? i then throw OutOfBounds
      else
        match CreateAddressPool (ok i) (ip_addr e) 1 with
        | Ok (Some _) p => create_pools ok l' (i + 1) (<[i := p]> pools)
        | Ok None _ => mret None
        | Fault e => throw e
        end
  end.

(** [mtcp_init] up to the installation of the signal handlers; the result is the address
    pools of the process, [None] for [-1]. *)
Definition mtcp_init (h : host) (f : files) : MC (option (gmap Z addr_pool)) :=
  if negb (h_root h) then throw ProcessExit
  else
    modify (fun c => c <| cpus := if num_cores c =? 0 then h_cpus h else num_cores c |>);;
    c ← get;
    assertM (1 <=? cpus c);;
    if MAX_CPUS <? cpus c then throw ProcessExit
    else
      ret ← LoadConfiguration h (f_eths_ok f) (f_junk f) (f_config f);
      if negb (ret =? 0) then mret None
      else
        c ← get;
        pools ← create_pools (f_pools_ok f) (eths (cfg c)) 0 ∅;
        match pools with
        | None => mret None
        | Some pools =>
            SetRoutingTable (f_rtable_ok f) (f_routes f);;
            LoadARPTable (f_arp_ok f) (f_arp f);;
            mret (Some pools)
        end.

(** [CONFIG] before [mtcp_init]. *)
Definition zero_config : mtcp_config := MtcpConfig [] [] [] None [] None 0 0 0 0 0 0.
Definition zero_conf : conf := Conf zero_config [] 0 0 0 0 0 0 0 [] Dpdk 0.
