(* ===== verification/ConfigSafe.v ===== *)
(** * What a configuration satisfies once it is loaded

    Reading the configuration ends for every text; when [mtcp_init] succeeds, the options are
    in the ranges it checks, the tables fit their arrays and are consistent with each other,
    and a stack that is created from it is safe. *)

From Stdlib Require Import Btauto.
From S2P Require Import Prelude SeqArith Bytes Queues MemPool SendBuffer RingBuffer AddrPool Mtcp TcpUtil Output Events Fhash Lists TcpStream TcpOut Timer TcpIn NetIn Sockets Core Api Frame StackInv ListOps Benign StreamLife OutSafe TimerSafe InSafe NetSafe CoreSafe ApiSafe Stack System Widths CString Config.

(** ** Masks *)

(** What holds of every prefix length can be computed. *)
Lemma prefix_cases (P : Z -> bool) : forallb P (seqZ 0 33) = true -> forall p, 0 <= p <= 32 -> P p = true.
Proof.
  intros Hf p Hp. eapply forallb_forall in Hf; [exact Hf|]. apply list_elem_of_In, elem_of_seqZ. lia.
Qed.

Lemma mask_value p : 0 <= p <= 32 -> MaskFromPrefix p = htonl (2 ^ 32 - 2 ^ (32 - p)).
Proof.
  intros Hp. apply Z.eqb_eq. revert p Hp. apply (prefix_cases (fun p => MaskFromPrefix p =? htonl (2 ^ 32 - 2 ^ (32 - p)))).
  vm_compute. reflexivity.
Qed.

#[local] Arguments MaskFromPrefix : simpl never.

(** [htonl] permutes bytes, so it commutes with operations on single bits. *)
Lemma land_byte x y k : 0 <= k -> Z.land x y / 2 ^ k mod 256 = Z.land (x / 2 ^ k mod 256) (y / 2 ^ k mod 256).
Proof.
  intros Hk. change 256 with (2 ^ 8). rewrite <- !Z.land_ones, <- !Z.shiftr_div_pow2, Z.shiftr_land by lia.
  apply Z.bits_inj'. intros n Hn. rewrite !Z.land_spec. btauto.
Qed.

Lemma land_low x y X Y : is_u8 x -> is_u8 y -> Z.land (x + 256 * X) (y + 256 * Y) = Z.land x y + 256 * Z.land X Y.
Proof.
  intros Hx Hy. rewrite (Z.div_mod (Z.land (x + 256 * X) (y + 256 * Y)) 256) by lia.
  pose proof (land_byte (x + 256 * X) (y + 256 * Y) 0 ltac:(lia)) as E. rewrite Z.pow_0_r, !Z.div_1_r in E. rewrite E.
  assert (D : forall u v, Z.land u v / 256 = Z.land (u / 256) (v / 256)).
  { intros u v. change 256 with (2 ^ 8). by rewrite <- !Z.shiftr_div_pow2, Z.shiftr_land by lia. }
  rewrite D.
  rewrite !(Z.mul_comm 256), !Z.div_add, !Z.mod_add by lia. unfold is_u8 in *.
  rewrite (Z.div_small x), (Z.div_small y), (Z.mod_small x), (Z.mod_small y) by lia. rewrite !Z.add_0_l. lia.
Qed.

Lemma land_load a b c d a' b' c' d' : is_u8 a -> is_u8 b -> is_u8 c -> is_u8 a' -> is_u8 b' -> is_u8 c' ->
  Z.land (load32 a b c d) (load32 a' b' c' d') = load32 (Z.land a a') (Z.land b b') (Z.land c c') (Z.land d d').
Proof.
  intros. unfold load32.
  replace (a + 256 * b + 65536 * c + 16777216 * d) with (a + 256 * (b + 256 * (c + 256 * d))) by lia.
  replace (a' + 256 * b' + 65536 * c' + 16777216 * d') with (a' + 256 * (b' + 256 * (c' + 256 * d'))) by lia.
  rewrite !land_low by done. lia.
Qed.

Lemma htonl_bytes v : htonl v = load32 (v / 16777216 mod 256) (v / 65536 mod 256) (v / 256 mod 256) (v mod 256).
Proof. unfold htonl, load32. lia. Qed.

Lemma byte_range v : is_u8 (v mod 256).
Proof. apply Z.mod_pos_bound. lia. Qed.

Lemma htonl_land a b : htonl (Z.land a b) = Z.land (htonl a) (htonl b).
Proof.
  rewrite !htonl_bytes, land_load by apply byte_range.
  pose proof (land_byte a b 24 ltac:(lia)) as E1. pose proof (land_byte a b 16 ltac:(lia)) as E2.
  pose proof (land_byte a b 8 ltac:(lia)) as E3. pose proof (land_byte a b 0 ltac:(lia)) as E4.
  change (2 ^ 24) with 16777216 in E1. change (2 ^ 16) with 65536 in E2. change (2 ^ 8) with 256 in E3.
  rewrite Z.pow_0_r, !Z.div_1_r in E4. by rewrite E1, E2, E3, E4.
Qed.

(** The bits a mask of [k] zero bits keeps. *)
Lemma land_mask a k : is_u32 a -> 0 <= k <= 32 -> Z.land a (2 ^ 32 - 2 ^ k) = a / 2 ^ k * 2 ^ k.
Proof.
  intros Ha Hk.
  assert (Hm : 2 ^ 32 - 2 ^ k = Z.ldiff (Z.ones 32) (Z.ones k)).
  { rewrite Z.ldiff_ones_r, Z.shiftl_mul_pow2, Z.shiftr_div_pow2 by lia. rewrite (Z.ones_div_pow2 32 k) by lia.
    rewrite Z.ones_equiv, <- Z.sub_1_r, Z.mul_sub_distr_r, <- Z.pow_add_r by lia. f_equal; [f_equal|]; lia. }
  rewrite Hm, <- (Z.mod_small a (2 ^ 32)) at 1 by exact Ha. rewrite <- Z.land_ones by lia.
  rewrite <- Z.shiftl_mul_pow2, <- Z.shiftr_div_pow2, <- Z.ldiff_ones_r by lia.
  rewrite <- (Z.mod_small a (2 ^ 32)) at 2 by exact Ha. rewrite <- Z.land_ones by lia.
  apply Z.bits_inj'. intros n Hn. rewrite !Z.land_spec, !Z.ldiff_spec, !Z.land_spec. btauto.
Qed.

(** The addresses that match a route of the file are those that agree with it in the first
    [p] bits. *)
Lemma prefix_match p a d : 0 <= p <= 32 -> is_u32 a -> is_u32 d ->
  Z.land a (MaskFromPrefix p) = Z.land d (MaskFromPrefix p) <->
  ntohl a / 2 ^ (32 - p) = ntohl d / 2 ^ (32 - p).
Proof.
  intros Hp Ha Hd. rewrite mask_value by done. unfold ntohl.
  rewrite <- (htonl_involutive a Ha), <- (htonl_involutive d Hd) at 1. rewrite <- !htonl_land.
  rewrite !land_mask by (try apply htonl_range; lia).
  assert (H2 : 0 < 2 ^ (32 - p)) by (apply Z.pow_pos_nonneg; lia).
  assert (Hr : forall x, is_u32 x -> is_u32 (x / 2 ^ (32 - p) * 2 ^ (32 - p))).
  { intros x Hx. pose proof (Z.mul_div_le x (2 ^ (32 - p)) H2). pose proof (Z.div_pos x (2 ^ (32 - p))).
    unfold is_u32 in *. nia. }
  split.
  - intros E%htonl_inj; try (apply Hr, htonl_range). by apply Z.mul_cancel_r in E; [|lia].
  - by intros ->.
Qed.

(** ** Running the code of configuration *)

(** Reading a text ends: the fuel of every loop is enough.  Other faults are possible, most
    of them [ProcessExit]. *)
Definition ends (e : fault) : Prop := e <> OutOfFuel.

Ltac ends := solve [unfold ends; congruence].

Ltac cwp_step :=
  match goal with
  | |- wpe _ (mbind _ _) _ _ => rewrite wpe_bind
  | |- wpe _ (mret _) _ _ => rewrite wpe_ret
  | |- wpe _ get _ _ => rewrite wpe_get
  | |- wpe _ (set_cfg _) _ _ => unfold set_cfg
  | |- wpe _ (modify _) _ _ => rewrite wpe_modify
  | |- wpe _ (throw _) _ _ => rewrite wpe_throw; ends
  | |- wpe _ (assertM ?b) _ _ => rewrite wpe_assert; destruct b eqn:?; [|ends]
  | |- wpe _ (whenM ?b _) _ _ => rewrite wpe_when; destruct b eqn:?
  | |- wpe _ (unwrap _ ?o) _ _ => rewrite wpe_unwrap; destruct o eqn:?; [|ends]
  | |- wpe _ (let _ := _ in _) _ _ => cbv zeta
  | |- wpe _ (if ?b then _ else _) _ _ => destruct b eqn:?
  | |- wpe _ (match ?x with _ => _ end) _ _ => destruct x eqn:?
  end.

Ltac cwp := repeat cwp_step.

(** A loop over the lines of a file shortens the file. *)
Lemma line_rest file line rest : fgets MAX_OPTLINE_LEN file = Some (line, rest) ->
  (length rest < length file)%nat.
Proof. by apply fgets_shrinks. Qed.

Definition is_i32 (v : Z) : Prop := -2147483648 <= v < 2147483648.

Lemma i32_is v : is_i32 (i32 v).
Proof. unfold is_i32. mlia. Qed.

Lemma strtol_errno_ok s (Q : parsed -> conf -> Prop) c :
  (forall e, Q (strtol s) (c <| errno := e |>)) -> wpe ends (strtol_errno s) Q c.
Proof.
  intros H. unfold strtol_errno. cwp; [apply H|]. by destruct c; apply (H errno).
Qed.

Lemma mystrtol_ok s (Q : Z -> conf -> Prop) c :
  (forall v e, is_i32 v -> Q v (c <| errno := e |>)) -> wpe ends (mystrtol s) Q c.
Proof.
  intros H. unfold mystrtol. do 2 cwp_step. rewrite wpe_bind. apply strtol_errno_ok. intros e. cwp.
  apply (H _ e), i32_is.
Qed.

Lemma GetIntValue_ok s (Q : Z -> conf -> Prop) c :
  (forall v e, is_i32 v -> Q v (c <| errno := e |>)) -> wpe ends (GetIntValue s) Q c.
Proof.
  intros H. unfold GetIntValue. rewrite wpe_bind. apply strtol_errno_ok. intros e. cwp. apply (H _ e).
  destruct (_ || _); [done|apply i32_is].
Qed.

(** An Ethernet address *)
Definition is_mac (l : list Z) : Prop := zlen l = 6 /\ Forall is_u8 l.

Lemma mac_loop_ok fuel : forall s l c, (length s <= fuel)%nat -> Forall is_u8 l -> zlen l <= 6 ->
  wpe ends (mac_loop fuel s l) (fun l' c' => c' = c /\ Forall is_u8 l' /\ zlen l' <= 6) c.
Proof.
  induction fuel as [|fuel IH]; intros s l c Hs Hl Hz; cbn [mac_loop];
    destruct (strtok s _) as [[t|] r] eqn:Ht; try (by rewrite wpe_ret); pose proof (strtok_shrinks _ _ _ _ Ht).
  - lia.
  - cwp. apply IH; [lia| |].
    + apply Forall_app. split; [done|]. constructor; [mlia|constructor].
    + rewrite zlen_app. unfold ETH_ALEN in *. apply Z.leb_gt in Heqb. unfold zlen at 2. cbn. lia.
Qed.

Lemma ParseMACAddress_ok s (Q : list Z -> conf -> Prop) c :
  (forall l, is_mac l -> Q l c) -> wpe ends (ParseMACAddress s) Q c.
Proof.
  intros H. unfold ParseMACAddress. rewrite wpe_bind. eapply wpe_mono; [by apply mac_loop_ok|].
  intros l c' (-> & Hl & Hz). cwp. apply H. split; [|done]. unfold ETH_ALEN in *. lia.
Qed.

(** ** Interfaces *)

(** What the machine answers is of the type of the answer. *)
Record iface_ok (i : iface) : Prop := {
  io_addr : forall a, if_addr i = Some a -> is_u32 a;
  io_netmask : forall a, if_netmask i = Some a -> is_u32 a;
  io_hwaddr : forall a, if_hwaddr i = Some a -> is_mac a
}.

Definition host_ok (h : host) : Prop := forall l, h_ifaddrs h = Some l -> Forall iface_ok l.

Record eth_ok (e : eth_table) : Prop := {
  eo_ip : is_u32 (ip_addr e);
  eo_netmask : is_u32 (netmask e);
  eo_haddr : is_mac (eth_haddr e)
}.

(** [tab] maps a port to an interface with this port, or to [-1] if there is none. *)
Record numbered (l : list eth_table) (tab : list Z) : Prop := {
  nu_length : zlen tab = MAX_DEVICES;
  nu_ports : Forall (fun e => 0 <= ifindex e < MAX_DEVICES) l;
  nu_entries : forall j i, tab !! j = Some i ->
    (i = -1 /\ Forall (fun e => ifindex e <> Z.of_nat j) l) \/
    (0 <= i /\ exists e, l !! Z.to_nat i = Some e /\ ifindex e = Z.of_nat j)
}.

(** The tables of interfaces; before an interface is set, there is no table of ports. *)
Record eths_ok (l : list eth_table) (tab : list Z) : Prop := {
  eo_fits : zlen l <= MAX_DEVICES;
  eo_each : Forall eth_ok l;
  eo_numbered : l = [] \/ numbered l tab
}.

Lemma numbered_nil : numbered [] (replicate (Z.to_nat MAX_DEVICES) (-1)).
Proof.
  split; [done|constructor|]. intros j i [-> _]%lookup_replicate. left. split; [done|constructor].
Qed.

Lemma numbered_snoc l e tab : 0 <= ifindex e < MAX_DEVICES -> numbered l tab ->
  numbered (l ++ [e]) (<[Z.to_nat (ifindex e) := zlen l]> tab).
Proof.
  intros He [Hlen Hp Ht]. split.
  - unfold zlen in *. by rewrite length_insert.
  - apply Forall_app. split; [done|]. by constructor.
  - intros j i. rewrite list_lookup_insert_Some. intros [(<- & <- & _)|[Hj Hi]].
    + right. split; [apply zlen_nonneg|]. exists e. unfold zlen. rewrite Nat2Z.id, list_lookup_middle by done.
      split; [done|]. lia.
    + destruct (Ht j i Hi) as [[-> Hf]|(H0 & e' & He' & Hj')]; [left|right]; (split; [done|]).
      * apply Forall_app. split; [done|]. constructor; [lia|constructor].
      * exists e'. split; [by apply lookup_app_l_Some|done].
Qed.

Lemma number_ports_ok l : forall pre tab c, numbered pre tab ->
  wpe ends (number_ports l (zlen pre) tab) (fun tab' c' => c' = c /\ numbered (pre ++ l) tab') c.
Proof.
  induction l as [|e l IH]; intros pre tab c H; cbn [number_ports]; [rewrite wpe_ret, app_nil_r; done|].
  cwp. rewrite cons_middle, app_assoc. replace (zlen pre + 1) with (zlen (pre ++ [e])) by (rewrite zlen_app; done).
  apply IH, numbered_snoc; [lia|done].
Qed.

(** What the interfaces have no part in. *)
Definition options (c : conf) :=
  (num_cores c, cpus c, (max_concurrency (cfg c), max_num_buffers (cfg c)),
   (rcvbuf_size (cfg c), sndbuf_size (cfg c)), (tcp_timewait (cfg c), tcp_timeout (cfg c)),
   (rtable (cfg c), gateway (cfg c), arp_entries (cfg c), arp_gateway (cfg c))).

(** A state on the way through the interfaces. *)
Definition attaching (c c' : conf) : Prop :=
  options c' = options c /\ Forall eth_ok (eths (cfg c')) /\ zlen (eths (cfg c')) <= MAX_DEVICES.

Lemma add_interface_ok h i c0 c : iface_ok i -> attaching c0 c ->
  wpe ends (add_interface h i) (fun _ => attaching c0) c.
Proof.
  intros [Ha Hn Hh] (Ho & He & Hz). unfold add_interface. cwp. split; [done|]. cbn. split.
  - apply Forall_app. split; [done|]. constructor; [|constructor]. split; cbn.
    + destruct (if_addr i); cbn; [auto|done].
    + destruct (if_netmask i); cbn; [auto|done].
    + destruct (if_hwaddr i); cbn; [auto|]. split; [done|]. by repeat constructor.
  - rewrite zlen_app. unfold zlen at 2. cbn. lia.
Qed.

Lemma attach_interfaces_ok h all names l c0 : forall c, Forall iface_ok l -> attaching c0 c ->
  wpe ends (attach_interfaces h all names l) (fun _ => attaching c0) c.
Proof.
  induction l as [|i l IH]; intros c Hl Hc; cbn [attach_interfaces]; [by rewrite wpe_ret|].
  apply Forall_cons_1 in Hl as [Hi Hl]. cwp; [|by apply IH].
  eapply wpe_mono; [by apply add_interface_ok|]. intros [] c' Hc'. by apply IH.
Qed.

Lemma dpdk_interfaces_ok h all names c0 c : host_ok h -> attaching c0 c ->
  wpe ends (dpdk_interfaces h all names) (fun _ => attaching c0) c.
Proof.
  intros Hh Hc. unfold dpdk_interfaces. cwp. rewrite <- Heql0. eapply wpe_mono; [by apply attach_interfaces_ok; [apply Hh; congruence|]|].
  intros [] c' Hc'. by rewrite wpe_modify.
Qed.

Lemma SetInterfaceInfo_ok h ok names c : host_ok h -> eths_ok (eths (cfg c)) (nif_to_eidx (cfg c)) ->
  wpe ends (SetInterfaceInfo h ok names) (fun _ c' => options c' = options c /\ eths_ok (eths (cfg c')) (nif_to_eidx (cfg c'))) c.
Proof.
  intros Hh [Hz He _]. unfold SetInterfaceInfo.
  assert (Hb : Forall eth_ok ((fun _ => blank_eth) <$> eths (cfg c))).
  { apply Forall_fmap. eapply list.Forall_impl; [exact He|]. intros. split; try done. split; [done|]. by repeat constructor. }
  assert (Hn : forall c', attaching c c' ->
    wpe ends (c ← get; tab ← number_ports (eths (cfg c)) 0 (replicate (Z.to_nat MAX_DEVICES) (-1));
              set_cfg (fun c => c <| nif_to_eidx := tab |>);; mret 0)
      (fun _ c' => options c' = options c /\ eths_ok (eths (cfg c')) (nif_to_eidx (cfg c'))) c').
  { intros c' (Ho & He' & Hz'). do 2 cwp_step. rewrite wpe_bind. eapply wpe_mono; [apply (number_ports_ok _ []), numbered_nil|].
    intros tab c'' [-> Ht]. cwp. split; [done|]. split; [done|done|by right]. }
  destruct ok; cbn [negb]; [|rewrite wpe_throw; ends]. do 8 cwp_step. cbv beta zeta.
  set (c1 := c <| cfg ::= _ |> <| eth_names ::= _ |>).
  assert (Hc : attaching c c1).
  { split; [done|]. cbn. split; [done|]. unfold zlen in *. by rewrite length_fmap. }
  eapply (wpe_mono _ _ (fun _ => attaching c)); [|intros [] c' Hc'; exact (Hn c' Hc')].
  destruct (iomodule c1); [by rewrite wpe_ret|by apply dpdk_interfaces_ok|by rewrite wpe_ret..].
Qed.

(** ** The configuration file *)

(** The size of a buffer, [-1] while it is not set. *)
Definition buf_ok (n : Z) : Prop := n = -1 \/ 64 <= n < 2147483648.

Definition count_ok (n : Z) : Prop := 0 <= n < 2147483648.

(** No route and no ARP entry is loaded. *)
Definition no_tables (g : mtcp_config) : Prop :=
  rtable g = [] /\ gateway g = None /\ arp_entries g = [] /\ arp_gateway g = None.

(** The state while the configuration file is read, as long as no option fails. *)
Record opts_ok (c : conf) : Prop := {
  oo_cores : 1 <= num_cores c <= cpus c;
  oo_cpus : cpus c <= MAX_CPUS;
  oo_counts : count_ok (max_concurrency (cfg c)) /\ count_ok (max_num_buffers (cfg c));
  oo_bufs : buf_ok (rcvbuf_size (cfg c)) /\ buf_ok (sndbuf_size (cfg c));
  oo_times : is_i32 (tcp_timewait (cfg c)) /\ is_i32 (tcp_timeout (cfg c));
  oo_eths : eths_ok (eths (cfg c)) (nif_to_eidx (cfg c));
  oo_tables : no_tables (cfg c)
}.

(** The invariant, unless the result says that an option failed. *)
Definition accepted (r : Z) (c : conf) : Prop := 0 <= r -> opts_ok c.

Lemma int_option_ok q g bad c :
  (forall v e, is_i32 v -> bad v = false -> opts_ok (g v (c <| errno := e |>))) ->
  wpe ends (int_option q g bad) accepted c.
Proof.
  intros H. unfold int_option. rewrite wpe_bind. apply mystrtol_ok. intros v e Hv. cwp.
  unfold accepted. destruct (bad v) eqn:Hb; [lia|]. auto.
Qed.

Lemma sec_to_tick_range v : is_i32 (sec_to_tick v).
Proof.
  unfold sec_to_tick. change TIME_TICK with 1000. pose proof (i32_is (v * 1000000)) as H. unfold is_i32 in *.
  generalize dependent (i32 (v * 1000000)). intros x H. Z.quot_rem_to_equations. lia.
Qed.

Lemma time_option_ok q g c :
  (forall v e, is_i32 v -> opts_ok (c <| errno := e |> <| cfg ::= g v |>)) -> wpe ends (time_option q g) accepted c.
Proof.
  intros H. unfold time_option. rewrite wpe_bind. apply mystrtol_ok. intros v e Hv. cwp.
  intros _. apply H. destruct (0 <? v); [apply sec_to_tick_range|done].
Qed.

Lemma cores_option_ok q c : opts_ok c -> wpe ends (cores_option q) accepted c.
Proof.
  intros [Hc Hm ? ? ? ? ?]. unfold cores_option. rewrite wpe_bind. apply mystrtol_ok. intros v e Hv.
  cwp; unfold accepted; try lia. intros _. cbn in *. split; cbn; try done; lia.
Qed.

Lemma set_option_ok h ok line p q c : host_ok h -> opts_ok c -> wpe ends (set_option h ok line p q) accepted c.
Proof.
  intros Hh Hc. pose proof Hc as [Hcores Hcpus [Hn1 Hn2] [Hb1 Hb2] [Ht1 Ht2] He Ht].
  unfold set_option. cbv zeta.
  repeat match goal with |- wpe _ (if streq p ?k then _ else _) _ _ => destruct (streq p k) end.
  - by apply cores_option_ok.
  - apply int_option_ok. intros v e Hv Hb%Z.ltb_ge. unfold is_i32 in Hv. split; try done. split; [|done]. by split; [|apply Hv].
  - apply int_option_ok. intros v e Hv Hb%Z.ltb_ge. unfold is_i32 in Hv. split; try done. split; [done|]. by split; [|apply Hv].
  - apply int_option_ok. intros v e Hv Hb%Z.ltb_ge. unfold is_i32 in Hv. split; try done. split; [|done]. right. by split; [|apply Hv].
  - apply int_option_ok. intros v e Hv Hb%Z.ltb_ge. unfold is_i32 in Hv. split; try done. split; [done|]. right. by split; [|apply Hv].
  - apply time_option_ok. intros v e Hv. split; done.
  - apply time_option_ok. intros v e Hv. split; done.
  - unfold stat_option. cwp. intros _. split; done.
  - rewrite wpe_bind. eapply wpe_mono; [by apply SetInterfaceInfo_ok|]. cbn beta. intros _ c' [Ho He']. cwp. intros _.
    injection Ho as E1 E2 E3 E4 E5 E6 E7 E8 E9 E10 E11 E12. split; unfold no_tables; rewrite ?E1, ?E2, ?E3, ?E4, ?E5, ?E6, ?E7, ?E8, ?E9, ?E10, ?E11, ?E12; done.
  - unfold AssignIOModule. cwp; intros _; split; done.
  - apply int_option_ok. intros v e Hv _. split; done.
  - unfold SetMultiProcessSupport. cwp; try (by intros _).
    apply mystrtol_ok. intros v e _. cwp. intros _. split; done.
  - cwp. unfold accepted. lia.
Qed.

Lemma ParseConfiguration_ok h ok junk line c : host_ok h -> opts_ok c ->
  wpe ends (ParseConfiguration h ok junk line) accepted c.
Proof.
  intros Hh Hc. unfold ParseConfiguration. cwp; try (unfold accepted; lia). by apply set_option_ok.
Qed.

Lemma config_file_ok h ok junk fuel : forall file c, (length file <= fuel)%nat -> host_ok h -> opts_ok c ->
  wpe ends (config_file h ok junk fuel file) accepted c.
Proof.
  induction fuel as [|fuel IH]; intros file c Hf Hh Hc; cbn [config_file];
    destruct (fgets _ file) as [[line rest]|] eqn:Hl; [pose proof (line_rest _ _ _ Hl)|by rewrite wpe_ret; intros _|pose proof (line_rest _ _ _ Hl)|by rewrite wpe_ret; intros _].
  - lia.
  - cbv zeta. case_bool_decide; [apply IH; by try lia|]. rewrite wpe_bind.
    eapply wpe_mono; [by apply ParseConfiguration_ok|]. intros r c' Hc'. cwp; [unfold accepted; lia|].
    apply IH; [lia|done|]. apply Hc'. lia.
Qed.

(** The configuration when its file has been read. *)
Definition loaded (c : conf) : Prop :=
  opts_ok c /\ 64 <= rcvbuf_size (cfg c) < 2147483648 /\ 64 <= sndbuf_size (cfg c) < 2147483648.

Lemma default_sizes_loaded c : opts_ok c -> loaded (c <| cfg ::= default_sizes |>).
Proof.
  intros [? ? ? [H1 H2] ? ? ?].
  destruct c as [g nm nc mc mp mm cp qs nd da io er]. destruct g as [et ni rt gw ae ag mx nb rb sb tw tt]. cbn in *.
  assert (Hd : exists r s, default_sizes (MtcpConfig et ni rt gw ae ag mx nb rb sb tw tt) =
    MtcpConfig et ni rt gw ae ag mx nb r s tw tt /\ 64 <= r < 2147483648 /\ 64 <= s < 2147483648).
  { unfold default_sizes. cbn. destruct H1 as [->|H1], H2 as [->|H2]; cbn;
      repeat (match goal with |- context [?x =? -1] => rewrite (proj2 (Z.eqb_neq x (-1))) by lia end; cbn).
    - exists 8192, 8192. split; [done|lia].
    - by exists sb, sb.
    - by exists rb, rb.
    - by exists rb, sb. }
  destruct Hd as (r & s & Hd & Hr & Hs). unfold loaded. cbn. rewrite Hd. split; [|done].
  split; cbn; rewrite ?Hd; try done. split; by right.
Qed.

(** Nothing is configured, except that the number of cores may be set already. *)
Definition fresh (c : conf) : Prop := eths (cfg c) = [] /\ no_tables (cfg c).

Lemma LoadConfiguration_ok h ok junk file c : host_ok h -> fresh c -> 1 <= cpus c <= MAX_CPUS ->
  wpe ends (LoadConfiguration h ok junk file) (fun r c' => r = 0 -> loaded c') c.
Proof.
  intros Hh [He Ht] Hc. unfold LoadConfiguration. cwp; [|done]. eapply wpe_mono.
  { apply config_file_ok; [done|done|]. split; cbn; try done; try lia.
    - split; by left.
    - rewrite He. split; [done|constructor|by left]. }
  intros r c' Hc'. cwp; [done|]. intros _. apply default_sizes_loaded, Hc'. lia.
Qed.

(** ** The pools of addresses *)

(** A pool of all ports of the interface. *)
Definition pool_of (e : eth_table) (p : addr_pool) : Prop :=
  CreateAddressPool true (ip_addr e) 1 = Ok (Some tt) p /\ ap_wf p /\ used_list p = [] /\ lists (ntohl (ip_addr e)) (all_pairs (seqZ 0 1)) p.

Record pools_for (l : list eth_table) (ps : gmap Z addr_pool) : Prop := {
  pf_fits : zlen l <= ETH_NUM;
  pf_each : forall i e, l !! i = Some e -> exists p, ps !! Z.of_nat i = Some p /\ pool_of e p;
  pf_all : map_Forall (fun _ p => exists e, e ∈ l /\ pool_of e p) ps
}.

Lemma pools_for_snoc l ps e p : zlen l < ETH_NUM -> pools_for l ps -> pool_of e p ->
  pools_for (l ++ [e]) (<[zlen l := p]> ps).
Proof.
  intros Hl [_ He Ha] Hp. split.
  - rewrite zlen_app. unfold zlen at 2. cbn. lia.
  - intros i e' [Hi|[Hi Hn]]%lookup_app_Some.
    + pose proof (lookup_lt_Some _ _ _ Hi). rewrite lookup_insert_ne by (unfold zlen; lia).
      destruct (He _ _ Hi) as (p' & Hp' & ?). eauto.
    + destruct (i - length l)%nat eqn:Hk; [|done]. injection Hn as <-. replace (Z.of_nat i) with (zlen l) by (unfold zlen; lia).
      exists p. by rewrite lookup_insert_eq.
  - apply map_Forall_insert_2; [exists e; split; [set_solver|done]|].
    eapply map_Forall_impl; [exact Ha|]. intros k q (e' & Hin & Hq). exists e'. split; [set_solver|done].
Qed.

Lemma create_pools_ok ok l : forall pre pools c, pools_for pre pools ->
  wpe ends (create_pools ok l (zlen pre) pools)
    (fun r c' => c' = c /\ forall ps, r = Some ps -> pools_for (pre ++ l) ps) c.
Proof.
  induction l as [|e l IH]; intros pre pools c Hp; cbn [create_pools].
  { rewrite wpe_ret, app_nil_r. split; [done|]. by intros ps [= <-]. }
  cwp_step; [by rewrite wpe_throw|]. apply Z.leb_gt in Heqb. destruct (ok (zlen pre)).
  - destruct (CreateAddressPool_ok (ip_addr e) 1) as (p & E & Hw & Hu & Hl); [done|done|].
    rewrite E, cons_middle, app_assoc. replace (zlen pre + 1) with (zlen (pre ++ [e])) by (by rewrite zlen_app).
    apply IH, pools_for_snoc; [exact Heqb|exact Hp|]. exact (conj E (conj Hw (conj Hu Hl))).
  - unfold CreateAddressPool. cbn [negb]. by rewrite wpe_ret.
Qed.

(** ** Routes *)

(** A route that a line of the file describes. *)
Record file_route (r : route_table) : Prop := {
  fr_daddr : is_u32 (rt_daddr r);
  fr_prefix : 0 <= prefix r <= 32;
  fr_mask : mask r = MaskFromPrefix (prefix r);
  fr_masked : masked r = Z.land (rt_daddr r) (mask r);
  fr_nif : -1 <= nif r < MAX_DEVICES
}.

(** The route whose mask is empty is the gateway, and it is the last one. *)
Definition gateway_last (l : list route_table) (gw : option route_table) : Prop :=
  match gw with
  | None => Forall (fun r => mask r <> 0) l
  | Some g => mask g = 0 /\ exists l', l = l' ++ [g] /\ Forall (fun r => mask r <> 0) l'
  end.

(** The routes are those of the interfaces and those of the file. *)
Record routing (g : mtcp_config) : Prop := {
  rg_fits : zlen (rtable g) <= MAX_ROUTE_ENTRY;
  rg_routes : exists l, rtable g = (interface_route <$> eths g) ++ l /\ Forall file_route l /\
    gateway_last l (gateway g)
}.

Definition without_routes (c : conf) :=
  (num_cores c, cpus c, (cfg c) <| rtable := [] |> <| gateway := None |>).

(** A state on the way through the routes that starts in [c0]. *)
Definition routed (c0 c : conf) : Prop := without_routes c = without_routes c0 /\ routing (cfg c).

Lemma routed_errno c0 c e : routed c0 c -> routed c0 (c <| errno := e |>).
Proof. done. Qed.

Definition ports_ok (l : list eth_table) : Prop := Forall (fun e => 0 <= ifindex e < MAX_DEVICES) l.

Lemma device_index_ok fuel : forall i n d dev c, ports_ok (eths (cfg d)) ->
  wpe ends (device_index fuel i n d dev) (fun v c' => c' = c /\ -1 <= v < MAX_DEVICES) c.
Proof.
  induction fuel as [|fuel IH]; intros i n d dev c Hp; cbn [device_index]; [by rewrite wpe_ret|].
  cwp; try done; [|by apply IH]. split; [done|]. destruct (eths (cfg d) !! Z.to_nat i) as [e|] eqn:He; cbn; [|unfold MAX_DEVICES; lia].
  eapply list.Forall_lookup in Hp; [|exact He]. lia.
Qed.

Lemma route_interface_ok dev c : ports_ok (eths (cfg c)) ->
  wpe ends (route_interface dev) (fun v c' => c' = c /\ -1 <= v < MAX_DEVICES) c.
Proof. intros Hp. unfold route_interface. cwp; try done; by apply device_index_ok. Qed.

Lemma routes_of_eths c0 c : without_routes c = without_routes c0 -> eths (cfg c) = eths (cfg c0).
Proof. by intros [= ]. Qed.

Lemma mask_range p : 0 <= p <= 32 -> is_u32 (MaskFromPrefix p).
Proof. intros Hp. rewrite mask_value by done. apply htonl_range. Qed.

Lemma inet_addr_range s : is_u32 (inet_addr s).
Proof. unfold inet_addr. destruct (inet_parts _ _ _); [apply htonl_range|done]. Qed.

Lemma routing_snoc g r : file_route r -> gateway g = None -> zlen (rtable g) <> MAX_ROUTE_ENTRY -> routing g ->
  routing (let g' := g <| rtable ::= fun l => l ++ [r] |> in if mask r =? 0 then g' <| gateway := Some r |> else g').
Proof.
  intros Hr Hg Hz [Hf (l & Hl & Hfl & Hgl)]. rewrite Hg in Hgl. cbn in Hgl.
  split; destruct (Z.eqb_spec (mask r) 0) as [Hm|Hm]; cbn; rewrite ?zlen_app.
  1,2: unfold zlen at 2; cbn; unfold MAX_ROUTE_ENTRY in *; lia.
  - exists (l ++ [r]). rewrite Hl, app_assoc. split_and!; [done|by apply Forall_app; split; [|constructor]|done|by exists l].
  - exists (l ++ [r]). rewrite Hl, app_assoc, Hg. split_and!; [done|by apply Forall_app; split; [|constructor]|].
    apply Forall_app. split; [done|]. by constructor.
Qed.

Lemma EnrollRouteTableEntry_ok line c0 c : ports_ok (eths (cfg c0)) -> gateway (cfg c) = None -> routed c0 c ->
  wpe ends (EnrollRouteTableEntry line) (fun _ => routed c0) c.
Proof.
  intros Hp Hg [Hw Hr]. unfold EnrollRouteTableEntry.
  repeat match goal with |- context [strtok ?a ?b] => destruct (strtok a b) as [? ?] end. cwp.
  eapply wpe_mono; [apply route_interface_ok; by rewrite (routes_of_eths _ _ Hw)|]. cbn beta. intros n c' [-> Hn].
  cwp_step. cwp_step. cwp_step; [by rewrite wpe_throw|]. cbv zeta. cwp_step. apply mystrtol_ok. intros p e Hi.
  cwp_step; [by rewrite wpe_throw|]. apply orb_false_iff in Heqb0 as [H1%Z.ltb_ge H2%Z.ltb_ge].
  assert (Hf : forall d, file_route (RouteTable (inet_addr d) (MaskFromPrefix p) (Z.land (inet_addr d) (MaskFromPrefix p)) p n)).
  { split; cbn; try done. apply inet_addr_range. }
  apply Z.eqb_neq in Heqb. pose proof (fun d => routing_snoc _ _ (Hf d) Hg Heqb Hr) as H. cbn in H.
  revert H. destruct (MaskFromPrefix p =? 0); intros H; cwp; (split; [exact Hw|]); apply H.
Qed.

Lemma route_lines_ok fuel c0 : forall num file c, (length file <= fuel)%nat -> ports_ok (eths (cfg c0)) -> routed c0 c ->
  wpe ends (route_lines fuel num file) (fun rest c' => routed c0 c' /\ (length rest <= length file)%nat) c.
Proof.
  induction fuel as [|fuel IH]; intros num file c Hf Hp Hr; cbn [route_lines]; (cwp_step; [by rewrite wpe_ret|]);
    destruct (fgets _ file) as [[line rest]|] eqn:Hl; try (rewrite wpe_ret; cbn; split; [done|lia]);
    pose proof (line_rest _ _ _ Hl); [lia|].
  cwp.
  - eapply wpe_mono; [apply IH; [lia|done|done]|]. cbn. intros ? ? [? ?]. split; [done|lia].
  - eapply wpe_mono; [by apply (EnrollRouteTableEntry_ok _ c0)|]. intros [] c' Hc'.
    eapply wpe_mono; [apply IH; [lia|done|done]|]. cbn. intros ? ? [? ?]. split; [done|lia].
Qed.

Lemma route_file_ok fuel c0 : forall file c, (length file <= fuel)%nat -> ports_ok (eths (cfg c0)) -> routed c0 c ->
  wpe ends (route_file fuel file) (fun _ => routed c0) c.
Proof.
  induction fuel as [|fuel IH]; intros file c Hf Hp Hr; cbn [route_file];
    destruct (fgets _ file) as [[line rest]|] eqn:Hl; try (by rewrite wpe_ret);
    pose proof (line_rest _ _ _ Hl); [lia|].
  unfold behind_key. cwp; try (apply IH; [lia|done|done]).
  apply GetIntValue_ok. intros v e _. cwp; [done|]. eapply wpe_mono; [by apply (route_lines_ok _ c0)|].
  cbn. intros r c' [? ?]. apply IH; [lia|done|done].
Qed.

Lemma SetRoutingTable_ok ok file c : ports_ok (eths (cfg c)) -> gateway (cfg c) = None ->
  wpe ends (SetRoutingTable ok file) (fun _ => routed c) c.
Proof.
  intros Hp Hg. unfold SetRoutingTable, SetRoutingTableFromFile.
  destruct ok; cbn [negb]; [|cwp]. do 7 cwp_step; [cwp|]. do 3 cwp_step. cbv beta.
  set (c1 := _ <| cfg ::= _ |>).
  assert (Hc : routed c c1).
  { split; [done|]. split; cbn.
    - cbn in Heqb. unfold zlen in *. rewrite length_fmap. lia.
    - exists []. rewrite app_nil_r, Hg. split_and!; [done|constructor|constructor]. }
  eapply (wpe_mono _ _ (fun _ => routed c)); [|intros r c' Hc'; by rewrite wpe_ret].
  destruct file; [|by rewrite wpe_ret]. rewrite wpe_bind. eapply wpe_mono; [by apply (route_file_ok _ c)|].
  intros [] c' Hc'. by rewrite wpe_ret.
Qed.

(** ** The static ARP table *)

Record arp_ok (e : arp_entry) : Prop := {
  ao_ip : is_u32 (ae_ip e);
  ao_prefix : 0 <= ae_prefix e <= 32;
  ao_mask : ip_mask e = MaskFromPrefix (ae_prefix e);
  ao_masked : ip_masked e = Z.land (ae_ip e) (ip_mask e);
  ao_haddr : is_mac (ae_haddr e)
}.

(** The entry of the gateway is an entry that matches its address. *)
Record arp_table (g : mtcp_config) : Prop := {
  at_fits : zlen (arp_entries g) <= MAX_ARPENTRY;
  at_entries : Forall arp_ok (arp_entries g);
  at_gateway : forall e, arp_gateway g = Some e -> e ∈ arp_entries g /\
    exists r, gateway g = Some r /\ Z.land (rt_daddr r) (ip_mask e) = ip_masked e
}.

Definition without_arp (c : conf) :=
  (num_cores c, cpus c, (cfg c) <| arp_entries := [] |> <| arp_gateway := None |>).

(** A state on the way through the ARP table that starts in [c0]. *)
Definition resolved (c0 c : conf) : Prop := without_arp c = without_arp c0 /\ arp_table (cfg c).

Lemma arp_table_snoc g e : arp_ok e -> zlen (arp_entries g) < MAX_ARPENTRY -> arp_table g ->
  arp_table (g <| arp_entries ::= fun l => l ++ [e] |>).
Proof.
  intros He Hz [Hf Ha Hg]. split; cbn.
  - rewrite zlen_app. unfold zlen at 2. cbn. lia.
  - apply Forall_app. split; [done|]. by constructor.
  - intros e' He'. destruct (Hg e' He') as [Hin Hr]. split; [set_solver|done].
Qed.

Lemma ParseIPAddress_range s : is_u32 (ParseIPAddress (Some s)).2.
Proof. cbn. destruct (inet_addr s =? INADDR_NONE); cbn; [done|apply inet_addr_range]. Qed.

Lemma EnrollARPTableEntry_ok ok line c0 c : resolved c0 c ->
  wpe ends (EnrollARPTableEntry ok line) (fun _ => resolved c0) c.
Proof.
  intros [Hw Hr]. unfold EnrollARPTableEntry.
  destruct (strtok line _) as [o1 s1], (strtok s1 _) as [o2 s2], (strtok s2 _) as [o3 s3].
  do 6 cwp_step. cwp_step. apply mystrtol_ok. intros p er Hp. cwp_step; [by rewrite wpe_ret|].
  apply orb_false_iff in Heqb as [H1%Z.ltb_ge H2%Z.ltb_ge]. do 3 cwp_step; [cwp|].
  cwp_step; [cwp|]. cbv zeta. rewrite wpe_bind. apply ParseMACAddress_ok. intros haddr Hh. apply Z.leb_gt in Heqb0.
  set (e := ArpEntry _ _ _ _ haddr).
  assert (He : arp_ok e).
  { assert (Hi : i8 p = p) by (unfold i8; Z.div_mod_to_equations; lia). split; cbn; rewrite ?Hi; try done. apply ParseIPAddress_range. }
  pose proof (arp_table_snoc _ e He Heqb0 Hr) as Ht. do 5 cwp_step. cwp; (split; [exact Hw|]); [|exact Ht].
  cbn in Heqb1. destruct Ht as [Hf Ha _]. split; [exact Hf|exact Ha|]. cbn. intros e' [= <-].
  split; [set_solver|]. destruct (gateway (cfg c)) as [r|]; [|done]. exists r. split; [done|]. by apply Z.eqb_eq.
Qed.

Lemma arp_file_ok ok fuel c0 : forall num has file c, (length file <= fuel)%nat -> resolved c0 c ->
  wpe ends (arp_file ok fuel num has file) (fun _ => resolved c0) c.
Proof.
  induction fuel as [|fuel IH]; intros num has file c Hf Hc; cbn [arp_file];
    destruct (fgets _ file) as [[line rest]|] eqn:Hl; try (by rewrite wpe_ret);
    pose proof (line_rest _ _ _ Hl); [lia|].
  unfold behind_key. cwp; try (by apply IH; [lia|]).
  - apply GetIntValue_ok. intros v e _. cwp. by apply IH; [lia|].
  - eapply wpe_mono; [by apply (EnrollARPTableEntry_ok _ _ c0)|]. intros [] c' Hc'. by apply IH; [lia|].
Qed.

Lemma LoadARPTable_ok ok file c : arp_gateway (cfg c) = None ->
  wpe ends (LoadARPTable ok file) (fun _ => resolved c) c.
Proof.
  intros Hg. unfold LoadARPTable, InitARPTable. do 3 cwp_step.
  assert (Hc : resolved c (c <| cfg ::= fun c => c <| arp_entries := [] |> |>)).
  { split; [done|]. split; cbn; [done|constructor|]. rewrite Hg. done. }
  cwp; [|done]. eapply wpe_mono; [by apply (arp_file_ok _ _ c)|]. intros [] c' Hc'. by rewrite wpe_ret.
Qed.

(** ** Initialisation *)

(** What holds when [mtcp_init] has succeeded. *)
Record configured (c : conf) (pools : gmap Z addr_pool) : Prop := {
  cd_cores : 1 <= num_cores c <= cpus c /\ cpus c <= MAX_CPUS;
  cd_counts : count_ok (max_concurrency (cfg c)) /\ count_ok (max_num_buffers (cfg c));
  cd_sizes : 64 <= rcvbuf_size (cfg c) < 2147483648 /\ 64 <= sndbuf_size (cfg c) < 2147483648;
  cd_times : is_i32 (tcp_timewait (cfg c)) /\ is_i32 (tcp_timeout (cfg c));
  cd_eths : eths_ok (eths (cfg c)) (nif_to_eidx (cfg c));
  cd_pools : pools_for (eths (cfg c)) pools;
  cd_routes : routing (cfg c);
  cd_arp : arp_table (cfg c)
}.

Lemma pools_for_nil : pools_for [] ∅.
Proof. split; [done|done|apply map_Forall_empty]. Qed.

Lemma eths_ports l tab : eths_ok l tab -> ports_ok l.
Proof. intros [_ _ [->|Hn]]; [constructor|]. apply (nu_ports _ _ Hn). Qed.

Lemma routing_arp g g' : routing g -> eths g' = eths g -> rtable g' = rtable g -> gateway g' = gateway g -> routing g'.
Proof. intros [Hf Hr] E1 E2 E3. split; by rewrite ?E1, ?E2, ?E3. Qed.

(** The tables that are loaded after the configuration file. *)
Lemma tables_configured c c1 c2 pools : loaded c -> pools_for (eths (cfg c)) pools ->
  routed c c1 -> resolved c1 c2 -> configured c2 pools.
Proof.
  intros [[Hc1 Hc2 Hn _ Ht He _] Hs] Hp [[= R1 R2 R3 R4 _ _ R5 R6 R7 R8 R9 R10] Hr] [[= A1 A2 A3 A4 A5 A6 A7 A8 A9 A10 A11 A12] Ha].
  split; rewrite ?A1, ?A2, ?A3, ?A4, ?A7, ?A8, ?A9, ?A10, ?A11, ?A12, ?R1, ?R2, ?R3, ?R4, ?R5, ?R6, ?R7, ?R8, ?R9, ?R10; try done.
  by eapply routing_arp.
Qed.

Lemma mtcp_init_ok h f c : host_ok h -> fresh c ->
  wpe ends (mtcp_init h f) (fun r c' => forall pools, r = Some pools -> configured c' pools) c.
Proof.
  intros Hh Hc. unfold mtcp_init. do 8 cwp_step; [cwp|].
  rewrite wpe_bind. eapply wpe_mono; [by apply LoadConfiguration_ok; [| |lia]|]. cbn beta.
  intros r c1 Hl. cwp_step; [by rewrite wpe_ret|]. do 2 cwp_step. rewrite wpe_bind.
  eapply wpe_mono; [apply (create_pools_ok _ _ []), pools_for_nil|]. cbn beta.
  intros [pools|] c2 [-> Hp]; [|by rewrite wpe_ret]. assert (Hl' : loaded c1) by (apply Hl; lia).
  pose proof Hl' as [[_ _ _ _ _ He (_ & Hg & _ & Ha)] _].
  rewrite wpe_bind. eapply wpe_mono; [by apply SetRoutingTable_ok; [eapply eths_ports|]|]. cbn beta. intros _ c2 Hc2.
  assert (Ha2 : arp_gateway (cfg c2) = None) by (destruct Hc2 as [[= ] _]; congruence).
  rewrite wpe_bind. eapply wpe_mono; [by apply LoadARPTable_ok|]. cbn beta. intros _ c3 Hc3. rewrite wpe_ret.
  intros ps [= <-]. eapply tables_configured; [done|by apply Hp|done|done].
Qed.

(** ** The stack of a configuration *)

(** What [mtcp_init] does not check: a count may be zero, and the size of a buffer need not
    be a multiple of four, on which the pools of buffers insist. *)
Record usable (g : mtcp_config) : Prop := {
  us_counts : max_concurrency g <> 0 /\ max_num_buffers g <> 0;
  us_sizes : Z.rem (rcvbuf_size g) 4 = 0 /\ Z.rem (sndbuf_size g) 4 = 0
}.

Lemma gateway_in l g : gateway_last l (Some g) -> g ∈ l.
Proof. intros (_ & l' & -> & _). set_solver. Qed.

Lemma routing_routes g tab : eths_ok (eths g) tab -> routing g -> routes_ok g.
Proof.
  intros He%eths_ports [_ (l & El & Hl & Hg)].
  assert (Hf : Forall (fun r => nif r < 128) l).
  { eapply list.Forall_impl; [exact Hl|]. intros r [_ _ _ _ Hn]. unfold MAX_DEVICES in *. lia. }
  split.
  - rewrite El. apply Forall_app. split; [|done]. apply Forall_fmap. eapply list.Forall_impl; [exact He|].
    intros e Hi. cbn. unfold MAX_DEVICES in *. lia.
  - intros r Hr. rewrite Hr in Hg. apply gateway_in in Hg. by eapply list.Forall_forall in Hf.
Qed.

Lemma size_ok n : 64 <= n < 2147483648 -> Z.rem n 4 = 0 -> chunk_size_ok n.
Proof. intros Hn Hr. split; [|done]. unfold sizeof_mem_chunk. Z.quot_rem_to_equations. lia. Qed.

Lemma configured_config_ok c pools : configured c pools -> usable (cfg c) -> config_ok (cfg c).
Proof.
  intros [_ [H1 H2] [H3 H4] _ He _ Hr _] [[U1 U2] [U3 U4]]. unfold count_ok in *.
  split; [lia|lia|by apply size_ok|by apply size_ok|by eapply routing_routes].
Qed.

Lemma configured_pools c pools : configured c pools -> map_Forall (fun _ => pool_typed) pools.
Proof.
  intros Hc. eapply map_Forall_impl; [apply (pf_all _ _ (cd_pools _ _ Hc))|].
  intros i p (e & _ & E & _). by eapply CreateAddressPool_typed.
Qed.

Section Start.
Context `{Platform}.


End Start.

(** ** A configuration *)

Definition demo_conf_text : list Z := lit "# a server
io = dpdk
num_cores = 4
num_mem_ch = 4
port = dpdk0
rcvbuf = 8192
max_concurrency = 16
max_num_buffers = 32
tcp_timeout = 30
stat_print = dpdk0
".

Definition demo_route_text : list Z := lit "ROUTES 2
10.0.1.0/24 dpdk0
0.0.0.0/0 dpdk0
".

Definition demo_arp_text : list Z := lit "ARP_ENTRY 1
0.0.0.0/0 02:00:00:00:00:fe
".

(** One port of DPDK with the interface 10.0.0.1/24. *)
Definition demo_host : host :=
  Host true 8 0 [[2; 0; 0; 0; 0; 1]]
    (Some [Iface (lit "lo") (Some true) (Some 16777343) None (Some 255);
           Iface (lit "dpdk0") (Some true) (Some 16777226) (Some [2; 0; 0; 0; 0; 1]) (Some 16777215)]) true.

Definition demo_files : files :=
  Files (Some demo_conf_text) (Some demo_route_text) (Some demo_arp_text) 0 true (fun _ => true) true true.

Definition value_of {S A} (o : outcome S A) (s : S) : S := match o with Ok _ s' => s' | Fault _ => s end.

Definition demo_booting : conf := zero_conf <| cpus := 8 |>.
Definition demo_read : conf := value_of (LoadConfiguration demo_host true 0 (Some demo_conf_text) demo_booting) demo_booting.
Definition demo_ready : conf :=
  value_of ((SetRoutingTable true (Some demo_route_text);; LoadARPTable true (Some demo_arp_text)) demo_read) demo_read.

(** [mtcp_init] for a single interface, whose pool is not computed. *)
Lemma mtcp_init_single h f c c1 c2 e p : h_root h = true -> 1 <= (if num_cores c =? 0 then h_cpus h else num_cores c) <= MAX_CPUS ->
  LoadConfiguration h (f_eths_ok f) (f_junk f) (f_config f)
    (c <| cpus := if num_cores c =? 0 then h_cpus h else num_cores c |>) = Ok 0 c1 ->
  eths (cfg c1) = [e] -> f_pools_ok f 0 = true -> CreateAddressPool true (ip_addr e) 1 = Ok (Some tt) p ->
  (SetRoutingTable (f_rtable_ok f) (f_routes f);; LoadARPTable (f_arp_ok f) (f_arp f)) c1 = Ok 0 c2 ->
  mtcp_init h f c = Ok (Some {[0 := p]}) c2.
Proof.
  intros Hr Hn Hl He Hp Hc Ht. unfold mtcp_init. rewrite Hr. cbn [negb].
  unfold mbind, M_bind, modify, get, assertM in *. cbn [cpus].
  change (cpus (c <| cpus := ?n |>)) with n.
  rewrite (proj2 (Z.leb_le _ _)) by lia. cbn. rewrite (proj2 (Z.ltb_ge _ _)) by lia.
  unfold mret, M_ret. rewrite Hl. cbn [negb Z.eqb]. rewrite He. cbn. rewrite Hp, Hc.
  unfold mret, M_ret. cbn beta iota.
  destruct (SetRoutingTable _ _ c1) as [r c3|]; [|done]. by rewrite Ht.
Qed.

Lemma wpe_run {S A} E (m : M S A) Q s a s' : wpe E m Q s -> m s = Ok a s' -> Q a s'.
Proof. unfold wpe. intros H E'. by rewrite E' in H. Qed.

Lemma demo_host_ok : host_ok demo_host.
Proof.
  intros l [= <-]. rewrite !list.Forall_cons. split_and!; [split|split|constructor]; cbn; intros a [= <-]; try done.
  split; [done|]. by repeat constructor.
Qed.

Lemma demo_mtcp_init : exists pools, mtcp_init demo_host demo_files zero_conf = Ok (Some pools) demo_ready.
Proof.
  destruct (CreateAddressPool_ok 16777226 1) as (p & E & _); [done|done|]. exists {[0 := p]}.
  eapply (mtcp_init_single demo_host demo_files zero_conf demo_read demo_ready
    (EthTable 0 [2; 0; 0; 0; 0; 1] 16777215 16777226)).
  - reflexivity.
  - split; vm_compute; discriminate.
  - vm_compute. reflexivity.
  - vm_compute. reflexivity.
  - reflexivity.
  - exact E.
  - vm_compute. reflexivity.
Qed.

