(* ===== verification/Routes.v ===== *)
(** * Routes, from their text to the choice of an interface

    A line of the route file that is printed from an address, a prefix length and a device is
    read back as this route; a number is taken modulo 2^32.  The loaded table sends a packet
    out by the first route that agrees with the destination in its prefix. *)

From S2P Require Import Prelude Bytes AddrPool Mtcp Output Core Stack CString Config ConfigSafe.

(** ** Numbers *)

(** Out of range: above [LONG_MAX] the value is -1, and no error is noticed. *)
Lemma mystrtol_dec n c : 0 <= n ->
  mystrtol (dec n) c = Ok (i32 (clamp n)) (c <| errno := if n =? clamp n then 0 else ERANGE |>).
Proof.
  intros Hn. pose proof (strtol_dec n [] Hn I) as E. rewrite app_nil_r in E.
  unfold mystrtol, strtol_errno. cbv zeta. rewrite E. cbn [r_range r_value r_rest].
  assert (Hd : [] <> dec n) by (destruct (dec_spec n Hn) as (_ & _ & Hd); congruence).
  destruct (Z.eqb_spec n (clamp n)) as [Hc|Hc]; cbn.
  - unfold mret, M_ret, mbind, M_bind, get, modify. cbn. by rewrite bool_decide_false.
  - assert (clamp n = LONG_MAX) as -> by (unfold clamp, LONG_MAX, LONG_MIN in *; lia).
    unfold mret, M_ret, mbind, M_bind, get, modify. cbn. by rewrite bool_decide_false.
Qed.

(** numbers of the configuration.  A decimal number of the configuration is stored
    modulo 2^32 as a signed number, and -1 if it exceeds the range of [long]: the comparison
    with [LONG_MAX] in an [int] that should reject it never holds. *)
Theorem mystrtol_wraps (n : Z) (c : conf) : 0 <= n ->
  exists e, mystrtol (dec n) c = Ok (if n <=? LONG_MAX then i32 n else -1) (c <| errno := e |>) /\
    (e = ERANGE <-> LONG_MAX < n).
Proof.
  intros Hn. rewrite mystrtol_dec by done. unfold clamp. change LONG_MIN with (-9223372036854775808).
  destruct (Z.leb_spec n LONG_MAX) as [H|H]; eexists; (split; [f_equal|]).
  - f_equal. unfold LONG_MAX in *. lia.
  - unfold LONG_MAX in *. rewrite (proj2 (Z.eqb_eq _ _)) by lia. unfold ERANGE. lia.
  - rewrite Z.min_l by lia. done.
  - unfold LONG_MAX in *. rewrite (proj2 (Z.eqb_neq _ _)) by lia. unfold ERANGE. lia.
Qed.

Lemma mystrtol_wraps_witness : exists e,
  mystrtol (lit "4294967297") zero_conf = Ok 1 (zero_conf <| errno := e |>) /\ (e = ERANGE <-> LONG_MAX < 4294967297).
Proof. exact (mystrtol_wraps 4294967297 zero_conf ltac:(lia)). Defined.

(** ** Addresses *)

(** Four numbers with dots between them. *)
Definition quad (a b c d : Z) : list Z := dec a ++ 46 :: dec b ++ 46 :: dec c ++ 46 :: dec d.

Lemma byte_cases (P : Z -> bool) : forallb P (seqZ 0 256) = true -> forall n, is_u8 n -> P n = true.
Proof.
  intros Hf n Hn. eapply forallb_forall in Hf; [exact Hf|]. apply list_elem_of_In, elem_of_seqZ. unfold is_u8 in Hn. lia.
Qed.

(** A byte has no leading zeros. *)
Lemma dec_byte n : is_u8 n -> (n = 0 /\ dec n = [48]) \/ (first (dec n) =? 48) = false.
Proof.
  intros Hn. destruct (decide (n = 0)) as [->|H0]; [by left|right].
  assert (H : ((n =? 0) || negb (first (dec n) =? 48)) = true).
  { revert n Hn H0. intros n Hn _. revert n Hn. apply (byte_cases (fun n => (n =? 0) || negb (first (dec n) =? 48))).
    vm_compute. reflexivity. }
  rewrite (proj2 (Z.eqb_neq _ _)) in H by done. by apply negb_true_iff.
Qed.

(** Neither a digit nor the mark of a hexadecimal number. *)
Definition ends_number (r : list Z) : Prop := r = [] \/ exists r', r = 46 :: r'.

Lemma strtoul0_dec n r : is_u8 n -> ends_number r -> strtoul0 (dec n ++ r) = (n, r).
Proof.
  intros Hn Hr. assert (H0 : 0 <= n) by apply Hn. destruct (dec_spec n H0) as (E & Hf & Hne).
  assert (Hd : stops isdigit r) by (by destruct Hr as [->|[r' ->]]).
  assert (Ho : stops is_oct r) by (by destruct Hr as [->|[r' ->]]).
  unfold strtoul0. destruct (dec_byte n Hn) as [[-> Hz]|Hz].
  - rewrite Hz. by destruct Hr as [->|[r' ->]].
  - destruct (dec n) as [|x ds] eqn:Hx; [done|]. cbn [first hd] in Hz.
    assert (Hh : starts_with_case (lit "0x") ((x :: ds) ++ r) = false).
    { change ((48 =? tolower x) && starts_with [120] (tolower <$> ds ++ r) = false).
      apply Forall_cons_1 in Hf as [Hdx _]. unfold isdigit in Hdx.
      assert (tolower x = x) as -> by (unfold tolower, isupper; rewrite (proj2 (Z.leb_gt 65 x)) by lia; done).
      by rewrite Z.eqb_sym, Hz. }
    rewrite Hh. cbn [andb app first hd]. rewrite Hz. change (x :: ds ++ r) with ((x :: ds) ++ r).
    rewrite span_while_app by done. by rewrite E.
Qed.

Lemma inet_parts_dec fuel parts n r : is_u8 n -> ends_number r ->
  inet_parts fuel parts (dec n ++ r) =
    match r, fuel with
    | [], _ => if 256 ^ (4 - zlen parts) <=? n then None
               else Some (fold_left (fun a p => a * 256 + p) parts 0 * 256 ^ (4 - zlen parts) + n)
    | _, O => None
    | _, S fuel' => inet_parts fuel' (parts ++ [n]) (tail r)
    end.
Proof.
  intros Hn Hr. assert (H0 : 0 <= n) by apply Hn. destruct (dec_spec n H0) as (_ & Hf & Hne).
  assert (Hd : isdigit (first (dec n ++ r)) = true).
  { destruct (dec n) as [|x ds]; [done|]. by apply Forall_cons_1 in Hf as [Hx _]. }
  unfold is_u8 in Hn.
  destruct fuel; cbn [inet_parts]; rewrite Hd, strtoul0_dec by done; cbn [negb];
    rewrite (proj2 (Z.ltb_ge 4294967295 n)) by lia; destruct Hr as [->|[r' ->]]; cbn; try done.
  by rewrite (proj2 (Z.ltb_ge 255 n)) by lia.
Qed.

Lemma inet_addr_quad a b c d : is_u8 a -> is_u8 b -> is_u8 c -> is_u8 d -> inet_addr (quad a b c d) = load32 a b c d.
Proof.
  intros Ha Hb Hc Hd. unfold inet_addr, quad.
  do 3 (rewrite inet_parts_dec by (done || (right; by eexists)); cbn [tail]).
  rewrite <- (app_nil_r (dec d)), inet_parts_dec by (done || by left). cbn.
  change (256 ^ (4 - zlen [a; b; c])) with 256. rewrite (proj2 (Z.leb_gt 256 d)) by apply Hd.
  rewrite <- (htonl_load d c b a) by done. f_equal. unfold load32. lia.
Qed.

(** ** A line of the route file *)

Definition route_line (a b c d p : Z) (dev : list Z) : list Z :=
  quad a b c d ++ 47 :: dec p ++ 32 :: dev ++ [10].

(** The device of the name [dev] is the [i]-th one. *)
Record device (c : conf) (dev : list Z) (i : nat) (e : eth_table) : Prop := {
  dv_module : iomodule c = Dpdk \/ iomodule c = Onvm;
  dv_devices : Z.of_nat i < num_devices c <= MAX_DEVICES;
  dv_name : exists b, eth_names c !! i = Some (dev, b);
  dv_first : forall j n, (j < i)%nat -> eth_names c !! j = Some n -> n.1 <> dev;
  dv_named : dev <> [] /\ Forall (fun c => c <> 10) dev;
  dv_eth : eths (cfg c) !! i = Some e
}.

Lemma device_index_found c dev i e k : device c dev i e -> forall fuel j, (j + k = i)%nat -> (k < fuel)%nat ->
  device_index fuel (Z.of_nat j) (num_devices c) c dev c = Ok (ifindex e) c.
Proof.
  intros [_ Hn [b Hb] Hf [Hd _] He]. induction k as [|k IH]; intros [|fuel] j Hj Hk; try lia; cbn [device_index];
    rewrite (proj2 (Z.leb_gt _ _)) by lia; rewrite (proj2 (Z.leb_gt _ _)) by lia; rewrite Nat2Z.id.
  - assert (j = i) as -> by lia. rewrite Hb. cbn. rewrite (proj2 (streq_spec _ _) eq_refl). by rewrite He.
  - destruct (streq _ dev) eqn:E.
    + apply streq_spec in E. destruct (eth_names c !! j) as [n|] eqn:Hj'; cbn in E; [|done].
      by destruct (Hf j n ltac:(lia) Hj').
    + replace (Z.of_nat j + 1) with (Z.of_nat (S j)) by lia. apply IH; lia.
Qed.

Lemma route_interface_found c dev i e : device c dev i e -> route_interface dev c = Ok (ifindex e) c.
Proof.
  intros Hd. pose proof (dv_devices _ _ _ _ Hd) as Hn.
  pose proof (device_index_found c dev i e i Hd (S (Z.to_nat (num_devices c))) 0 ltac:(lia) ltac:(lia)) as E.
  unfold route_interface, mbind, M_bind, get. by destruct (dv_module _ _ _ _ Hd) as [->| ->].
Qed.

Lemma digits_avoid ds x : Forall (fun c => isdigit c = true) ds -> isdigit x = false -> Forall (fun c => c ∉ [x]) ds.
Proof.
  intros Hd Hx. eapply list.Forall_impl; [exact Hd|]. intros c Hc ->%list_elem_of_singleton. congruence.
Qed.

Lemma quad_avoids a b c d : is_u8 a -> is_u8 b -> is_u8 c -> is_u8 d ->
  quad a b c d <> [] /\ Forall (fun x => x ∉ [47]) (quad a b c d).
Proof.
  assert (H : forall n, is_u8 n -> Forall (fun x => x ∉ [47]) (dec n)).
  { intros n Hn. apply digits_avoid; [|done]. apply dec_spec, Hn. }
  assert (Hp : 46 ∉ [47]) by (by intros E%list_elem_of_singleton).
  intros Ha Hb Hc Hd. split.
  - unfold quad. destruct (dec_spec a) as (_ & _ & Hne); [apply Ha|]. by destruct (dec a).
  - unfold quad. rewrite !list.Forall_app, !list.Forall_cons, !list.Forall_app, !list.Forall_cons, !list.Forall_app, !list.Forall_cons.
    auto 10.
Qed.

Lemma route_line_tokens a b c d p dev : is_u8 a -> is_u8 b -> is_u8 c -> is_u8 d -> 0 <= p ->
  dev <> [] -> Forall (fun c => c <> 10) dev ->
  strtok (route_line a b c d p dev) (lit "/") = (Some (quad a b c d), dec p ++ 32 :: dev ++ [10]) /\
  strtok (dec p ++ 32 :: dev ++ [10]) (lit " ") = (Some (dec p), dev ++ [10]) /\
  strtok (dev ++ [10]) [10] = (Some dev, []).
Proof.
  intros Ha Hb Hc Hd Hp Hdev Hnl. destruct (quad_avoids a b c d Ha Hb Hc Hd) as [Hq1 Hq2].
  destruct (dec_spec p Hp) as (_ & Hf & Hne). split_and!.
  - apply strtok_token; [done|done|set_solver].
  - apply strtok_token; [done|by apply digits_avoid|set_solver].
  - apply strtok_token; [done| |set_solver]. eapply list.Forall_impl; [exact Hnl|]. by intros x Hx ->%list_elem_of_singleton.
Qed.

Lemma EnrollRouteTableEntry_line a b c d p dev i e (s : conf) : is_u8 a -> is_u8 b -> is_u8 c -> is_u8 d -> 0 <= p <= 32 ->
  device s dev i e -> zlen (rtable (cfg s)) < MAX_ROUTE_ENTRY ->
  let addr := load32 a b c d in
  let r := RouteTable addr (MaskFromPrefix p) (Z.land addr (MaskFromPrefix p)) p (ifindex e) in
  EnrollRouteTableEntry (route_line a b c d p dev) s =
    Ok tt (s <| errno := 0 |> <| cfg ::= fun g =>
      let g' := g <| rtable ::= fun l => l ++ [r] |> in if MaskFromPrefix p =? 0 then g' <| gateway := Some r |> else g' |>).
Proof.
  intros Ha Hb Hc Hd Hp Hdev Hz addr r. destruct (dv_named _ _ _ _ Hdev) as [Hne Hnl].
  destruct (route_line_tokens a b c d p dev Ha Hb Hc Hd (proj1 Hp) Hne Hnl) as (E1 & E2 & E3).
  unfold EnrollRouteTableEntry. rewrite E1. cbv beta iota. rewrite E2. cbv beta iota. rewrite E3. cbv beta iota.
  pose proof (route_interface_found _ _ _ _ Hdev) as Ei. pose proof (mystrtol_dec p s (proj1 Hp)) as Em.
  assert (Hcl : clamp p = p) by (unfold clamp, LONG_MAX, LONG_MIN; lia).
  rewrite Hcl, Z.eqb_refl in Em. rewrite i32_small in Em by lia.
  unfold mbind, M_bind, unwrap, get, set_cfg, modify, whenM, mret, M_ret. rewrite Ei.
  rewrite (proj2 (Z.eqb_neq _ _)) by lia. rewrite Em, inet_addr_quad by done.
  rewrite (proj2 (Z.ltb_ge 32 p)), (proj2 (Z.ltb_ge p 0)) by lia. cbn [orb].
  by destruct (MaskFromPrefix p =? 0).
Qed.

Lemma mask_zero p : 0 <= p <= 32 -> (MaskFromPrefix p =? 0) = (p =? 0).
Proof.
  intros Hp. apply eqb_prop. revert p Hp. apply (prefix_cases (fun p => eqb (MaskFromPrefix p =? 0) (p =? 0))).
  vm_compute. reflexivity.
Qed.

(** [x] and [y] agree in their first [p] bits; both are in network order. *)
Definition agree (p x y : Z) : Prop := ntohl x / 2 ^ (32 - p) = ntohl y / 2 ^ (32 - p).

#[export] Instance agree_dec p x y : Decision (agree p x y) := decide (ntohl x / 2 ^ (32 - p) = ntohl y / 2 ^ (32 - p)).

(** C26: a route of the file.  The line that is printed for an address, a prefix length and
    a device is read back as a route by the port of this device, which matches exactly the
    addresses that agree with it in their first bits; with the prefix length 0 it becomes
    the gateway. *)
Theorem route_line_roundtrip (a b c d p : Z) (dev : list Z) (i : nat) (e : eth_table) (s : conf) :
  is_u8 a -> is_u8 b -> is_u8 c -> is_u8 d -> 0 <= p <= 32 ->
  device s dev i e -> zlen (rtable (cfg s)) < MAX_ROUTE_ENTRY ->
  exists r s', EnrollRouteTableEntry (route_line a b c d p dev) s = Ok tt s' /\
    rtable (cfg s') = rtable (cfg s) ++ [r] /\
    gateway (cfg s') = (if p =? 0 then Some r else gateway (cfg s)) /\
    rt_daddr r = load32 a b c d /\ prefix r = p /\ nif r = ifindex e /\
    forall x, is_u32 x -> Z.land x (mask r) = masked r <-> agree p x (load32 a b c d).
Proof.
  intros Ha Hb Hc Hd Hp Hdev Hz. eexists _, _. split; [by eapply EnrollRouteTableEntry_line|]. rewrite mask_zero by done.
  split; [by destruct (p =? 0)|]. split; [by destruct (p =? 0)|]. split_and!; [done|done|done|].
  intros x Hx. apply prefix_match; [done|done|]. unfold load32, is_u8, is_u32 in *. lia.
Qed.

Lemma route_line_roundtrip_witness : exists r s',
  EnrollRouteTableEntry (lit "10.0.2.0/23 dpdk0" ++ [10]) demo_read = Ok tt s' /\
    rtable (cfg s') = rtable (cfg demo_read) ++ [r] /\
    gateway (cfg s') = (if 23 =? 0 then Some r else gateway (cfg demo_read)) /\
    rt_daddr r = load32 10 0 2 0 /\ prefix r = 23 /\ nif r = 0 /\
    forall x, is_u32 x -> Z.land x (mask r) = masked r <-> agree 23 x (load32 10 0 2 0).
Proof.
  assert (Hd : device demo_read (lit "dpdk0") 0 (EthTable 0 [2; 0; 0; 0; 0; 1] 16777215 16777226)).
  { split.
    - left. vm_compute. reflexivity.
    - vm_compute. split; [reflexivity|discriminate].
    - exists true. vm_compute. reflexivity.
    - intros j n Hj. lia.
    - split; [done|]. vm_compute. repeat constructor; discriminate.
    - vm_compute. reflexivity. }
  exact (route_line_roundtrip 10 0 2 0 23 (lit "dpdk0") 0 _ demo_read ltac:(done) ltac:(done) ltac:(done) ltac:(done)
    ltac:(lia) Hd ltac:(vm_compute; reflexivity)).
Defined.

(** ** The choice of a route *)

(** The first route of the file that agrees with the destination. *)
Definition first_route (l : list route_table) (d : Z) : option route_table :=
  snd <$> list_find (fun r => agree (prefix r) d (rt_daddr r)) l.

(** The network of an interface. *)
Definition on_network (d : Z) (e : eth_table) : Prop := Z.land d (netmask e) = Z.land (ip_addr e) (netmask e).

#[export] Instance on_network_dec d e : Decision (on_network d e) := decide (_ = _).

Lemma walk_interfaces gw d l r : Forall (fun e => ~ on_network d e) l ->
  route_walk ((interface_route <$> l) ++ r) gw d = route_walk r gw d.
Proof.
  induction l as [|e l IH]; [done|]. intros [He Hl]%Forall_cons_1. cbn. unfold on_network in He.
  destruct (Z.eqb_spec (Z.land d (netmask e)) (Z.land (ip_addr e) (netmask e))); [done|by apply IH].
Qed.

Lemma shift_count_ge fuel : forall c p, p <= shift_count fuel c p.
Proof.
  induction fuel as [|fuel IH]; intros c p; cbn [shift_count]; [lia|]. destruct (_ =? 0); [lia|]. specialize (IH (Z.shiftr c 1) (p + 1)). lia.
Qed.

Lemma interface_prefix e : 0 < prefix (interface_route e).
Proof. unfold interface_route. cbn [prefix]. pose proof (shift_count_ge 32 (netmask e) 0). lia. Qed.

(** The prefix length that is stored for the network of an interface is the one of its mask
    rounded up to whole bytes, since the bits are counted in memory order. *)
Lemma interface_prefix_bytes e p : 0 < p <= 32 -> netmask e = MaskFromPrefix p ->
  prefix (interface_route e) = 8 * ((p + 7) / 8).
Proof.
  intros Hp He. unfold interface_route. cbn [prefix]. rewrite He.
  assert (H : ((p =? 0) || (shift_count 32 (MaskFromPrefix p) 0 + 1 =? 8 * ((p + 7) / 8))) = true).
  { apply (prefix_cases (fun p => (p =? 0) || (shift_count 32 (MaskFromPrefix p) 0 + 1 =? 8 * ((p + 7) / 8)))); [|lia].
    vm_compute. reflexivity. }
  apply orb_true_iff in H as [H|H]; lia.
Qed.

Lemma walk_network gw d l r i e : list_find (on_network d) l = Some (i, e) ->
  route_walk ((interface_route <$> l) ++ r) gw d = (ifindex e, false).
Proof.
  revert i. induction l as [|x l IH]; intros i Hf; [done|]. cbn [list_find] in Hf. cbn [fmap list_fmap app route_walk].
  change (Z.land d (mask (interface_route x)) =? masked (interface_route x)) with
    (Z.land d (netmask x) =? Z.land (ip_addr x) (netmask x)) at 1.
  destruct (decide (on_network d x)) as [Hx|Hx].
  - injection Hf as _ <-. unfold on_network in Hx. rewrite Hx, Z.eqb_refl.
    by rewrite (proj2 (Z.ltb_lt _ _) (interface_prefix x)).
  - apply fmap_Some in Hf as ([j y] & Hf & [= _ ->]). rewrite (proj2 (Z.eqb_neq _ _)) by exact Hx. by eapply IH.
Qed.

Lemma walk_file gw d l : is_u32 d -> Forall file_route l ->
  route_walk l gw d = match first_route l d with
                      | None => (-1, false)
                      | Some r => if 0 <? prefix r then (nif r, false)
                                  else match gw with Some g => (nif g, true) | None => (-1, false) end
                      end.
Proof.
  intros Hd. unfold first_route. induction l as [|r l IH]; intros Hl; [done|].
  apply Forall_cons_1 in Hl as [[Ha Hp Hm Hk _] Hl]. cbn [route_walk list_find].
  pose proof (prefix_match (prefix r) d (rt_daddr r) Hp Hd Ha) as Hx. rewrite <- Hm, <- Hk in Hx.
  destruct (decide (agree (prefix r) d (rt_daddr r))) as [Hy|Hy].
  - by rewrite (proj2 (Z.eqb_eq _ _)) by by apply Hx.
  - rewrite (proj2 (Z.eqb_neq _ _)) by (intros E; by apply Hy, Hx). rewrite IH by done.
    by destruct (list_find _ l) as [[]|].
Qed.

(** The route with an empty prefix that is found is the gateway. *)
Lemma first_route_gateway l gw d r : Forall file_route l -> gateway_last l gw -> first_route l d = Some r ->
  prefix r = 0 -> gw = Some r.
Proof.
  intros Hl Hg Hr Hp. unfold first_route in Hr. apply fmap_Some in Hr as ([i x] & Hr & ->). cbn in Hp.
  apply list_find_Some in Hr as (Hi & _ & _). apply list_elem_of_lookup_2 in Hi.
  assert (Hm : mask x = 0).
  { eapply list.Forall_forall in Hl; [|exact Hi]. rewrite (fr_mask _ Hl), Hp. done. }
  destruct gw as [g|]; cbn in Hg.
  - destruct Hg as (_ & l' & -> & Hf). apply elem_of_app in Hi as [Hi|Hi%list_elem_of_singleton]; [|by subst].
    by eapply list.Forall_forall in Hf; [|exact Hi].
  - by eapply list.Forall_forall in Hg; [|exact Hi].
Qed.


Lemma demo_routing : routing (cfg demo_ready).
Proof.
  destruct demo_mtcp_init as [pools E].
  assert (Hf : fresh zero_conf) by (repeat split).
  exact (cd_routes _ _ (wpe_run _ _ _ _ _ _ (mtcp_init_ok demo_host demo_files zero_conf demo_host_ok Hf) E pools eq_refl)).
Qed.

