(* ===== verification/Threads.v ===== *)
(** * The threads of a process ([core.c])

    A process runs a thread of the stack per core.  The application creates and ends them,
    a signal asks them to stop, and the main loop of a thread ends when it is asked to.  The
    state is the global variables of [core.c] and the thread contexts, which are objects with
    addresses: a context that is freed is not there any more.  The operations are those of
    the code; [mtcp_create_context] is split where it waits for the thread, [MTCPRunThread]
    where the main loop runs, and [mtcp_free_context] where it waits for the log thread. *)

From S2P Require Import Prelude Queues AddrPool Mtcp Sockets Core Api Config.

(** [struct mtcp_thread_context], its flags *)
Record thread_ctx := ThreadCtx {
  tc_cpu : Z;
  done : bool;
  exit : bool;
  interrupt : bool
}.

#[export] Instance thread_ctx_eta : Settable thread_ctx :=
  fun r => ThreadCtx (tc_cpu r) (done r) (exit r) (interrupt r).

(** What [mtcp_free_context] and the end of the thread give back. *)
Inductive resource :=
| RStreamQueue (k : nat)
| RSender (i : Z)
| RPool (k : nat)
| RAddrPool
| RLock (k : nat)
| RHandle
| RContext
| RLogger
| RTable (k : nat).

(** Where a thread is: started, in its main loop, in [mtcp_free_context] after the loop, at
    its end, or returned because no device was attached. *)
Inductive thread_pc := Started | Looping | Freeing | Ended | Failed.

#[export] Instance thread_pc_eq : EqDecision thread_pc.
Proof. solve_decision. Defined.

#[export] Instance resource_eq : EqDecision resource.
Proof. solve_decision. Defined.

(** The global variables; the tables are indexed by the core, and an absent pointer is null.
    [contexts] and [loggers] are the objects that are allocated, [creating] the cores whose
    creator waits, [handles] those for which the application holds a [mctx_t], and
    [released] what was given back for a core. *)
Record process := Process {
  contexts : gmap Z thread_ctx;
  g_pctx : gmap Z Z;
  g_mtcp : gmap Z (Z * mtcp_manager);
  loggers : gset Z;
  g_logctx : gmap Z Z;
  g_init_sem : gmap Z Z;
  running : gset Z;
  app_signal_handler : option Z;
  sigint_cnt : gmap Z Z;
  sigint_ts : gmap Z Z;
  mtcp_master : Z;
  threads : gmap Z thread_pc;
  creating : gset Z;
  handles : gset Z;
  released : gmap Z (list resource);
  fresh_addr : Z
}.

#[export] Instance process_eta : Settable process :=
  fun r => Process (contexts r) (g_pctx r) (g_mtcp r) (loggers r) (g_logctx r) (g_init_sem r) (running r)
     (app_signal_handler r) (sigint_cnt r) (sigint_ts r) (mtcp_master r) (threads r) (creating r)
     (handles r) (released r) (fresh_addr r).

Definition MP (A : Type) : Type := M process A.

Definition SIGINT : Z := 2.
Definition SIGUSR1 : Z := 10.

(** The configuration that does not change. *)
Record setup := Setup {
  su_num_cores : Z;
  su_num_cpus : Z;
  su_multi_process : bool;
  su_num_queues : Z;
  su_endian_check : bool;
  su_config : mtcp_config
}.

Section Threads.
Context `{Platform} (su : setup).

(** [malloc] *)
Definition new_addr : MP Z :=
  p ← get;
  modify (fun p => p <| fresh_addr ::= fun a => a + 1 |>);;
  mret (fresh_addr p).

(** [g_pctx[i]->flag = TRUE] *)
Definition context_at (a : Z) : MP thread_ctx :=
  p ← get; unwrap DanglingPointer (contexts p !! a).

Definition set_context (a : Z) (f : thread_ctx -> thread_ctx) : MP unit :=
  c ← context_at a;
  modify (fun p => p <| contexts ::= <[a := f c]> |>).

Definition pctx (i : Z) : MP Z := p ← get; unwrap NullPointer (g_pctx p !! i).

Definition flag_running (f : thread_ctx -> thread_ctx) (i : Z) : MP unit :=
  p ← get;
  whenM (bool_decide (i ∈ running p)) (a ← pctx i; set_context a f).

Fixpoint for_cpus (body : Z -> MP unit) (i : Z) (n : nat) : MP unit :=
  match n with
  | O => mret tt
  | S n => body i;; for_cpus body (i + 1) n
  end.

Definition all_cpus (body : Z -> MP unit) : MP unit := for_cpus body 0 (Z.to_nat (su_num_cpus su)).

Definition ask_exit : MP unit := all_cpus (flag_running (fun c => c <| exit := true |>)).
Definition ask_interrupt : MP unit := all_cpus (flag_running (fun c => c <| interrupt := true |>)).

(** [core] is the core the handler runs on, [now] and [later] the seconds of the clock when
    it is read.  The result is the handler of the application that is called. *)
Definition HandleSignal (sig core now later : Z) : MP (option Z) :=
  whenM (sig =? SIGINT)
    (if su_multi_process su then ask_exit
     else if negb ((0 <=? core) && (core <? MAX_CPUS)) then throw OutOfBounds
     else
       p ← get;
       (if (0 <? default 0 (sigint_cnt p !! core)) && (default 0 (sigint_ts p !! core) <? now)
        then ask_exit
        else
          ask_interrupt;;
          whenM (bool_decide (app_signal_handler p = None)) ask_exit);;
       modify (fun p => p <| sigint_cnt ::= <[core := i32 (default 0 (sigint_cnt p !! core) + 1)]> |>
                          <| sigint_ts ::= <[core := later]> |>));;
  p ← get;
  mret (if sig =? SIGUSR1 then None else app_signal_handler p).

(** ** Creation *)

(** The outcomes of the calls of the system. *)
Record create_env := CreateEnv {
  ce_sem : bool;
  ce_mctx : bool;
  ce_log : bool;
  ce_log_thread : bool;
  ce_thread : bool
}.

(** Up to [sem_wait]; the result says whether the creator waits, or has returned a null
    pointer. *)
Definition create_begin (cpu : Z) (e : create_env) : MP bool :=
  if su_num_cores su <=? cpu then mret false
  else if negb ((0 <=? cpu) && (cpu <? MAX_CPUS)) then throw OutOfBounds
  else
    p ← get;
    match g_logctx p !! cpu with
    | Some _ => mret false
    | None =>
        if negb (ce_sem e) then mret false
        else
          modify (fun p => p <| g_init_sem ::= <[cpu := 0]> |>);;
          if negb (ce_mctx e) then mret false
          else if negb (ce_log e) then mret false
          else
            a ← new_addr;
            modify (fun p => p <| loggers ::= union {[a]} |> <| g_logctx ::= <[cpu := a]> |>);;
            if negb (ce_log_thread e) then
              modify (fun p => p <| loggers ::= fun l => l ∖ {[a]} |>);;
              mret false
            else if negb (ce_thread e) then mret false
            else
              modify (fun p => p <| threads ::= <[cpu := Started]> |> <| creating ::= union {[cpu]} |>);;
              mret true
    end.

(** From the return of [sem_wait] on. *)
Definition create_end (cpu : Z) : MP unit :=
  modify (fun p => p <| g_init_sem ::= delete cpu |> <| running ::= union {[cpu]} |>
                     <| creating ::= fun c => c ∖ {[cpu]} |> <| handles ::= union {[cpu]} |>);;
  p ← get;
  whenM (mtcp_master p <? 0) (modify (fun p => p <| mtcp_master := cpu |>)).

(** [MTCPRunThread] up to the main loop.  The result says whether a device was attached. *)
Definition thread_start (cpu : Z) (ctx_ok : bool) (al : init_allocs) (pools : gmap Z addr_pool)
    (id : Z) (arpm : list arp_queue_entry) (attached : bool) : MP bool :=
  if negb ctx_ok then throw ProcessExit
  else
    a ← new_addr;
    modify (fun p => p <| contexts ::= <[a := ThreadCtx cpu false false false]> |>);;
    match InitializeMTCPManager al (su_config su) pools id arpm with
    | Fault e => throw e
    | Ok None _ => throw ProcessExit
    | Ok (Some m) _ =>
        modify (fun p => p <| g_mtcp ::= <[cpu := (a, m)]> |> <| g_pctx ::= <[cpu := a]> |>);;
        if negb attached then
          modify (fun p => p <| threads ::= <[cpu := Failed]> |>);;
          mret false
        else
          modify (fun p => p <| g_init_sem ::= alter (Z.add 1) cpu |> <| threads ::= <[cpu := Looping]> |>);;
          mret true
    end.

(** ** End *)

(** [mctx] is freed. *)
Definition mtcp_destroy_context (cpu : Z) : MP unit :=
  p ← get;
  match g_pctx p !! cpu with
  | Some a => set_context a (fun c => c <| done := true |>)
  | None => mret tt
  end;;
  modify (fun p => p <| handles ::= fun h => h ∖ {[cpu]} |>).

(** What [GetMTCPManager] looks at; its answer is [Sockets.GetMTCPManager]. *)
Definition app_context (cpu : Z) : MP app_ctx :=
  let valid := (0 <=? cpu) && (cpu <? su_num_cpus su) in
  if negb valid then
    mret (AppCtx false false false false cpu (su_num_cpus su) (su_num_queues su) (su_endian_check su))
  else
    p ← get;
    g ← unwrap NullPointer (g_mtcp p !! cpu);
    c ← context_at g.1;
    mret (AppCtx true (done c) (exit c) (interrupt c) cpu (su_num_cpus su) (su_num_queues su) (su_endian_check su)).

(** Code that runs on the manager of the core. *)
Definition on_manager {A} (cpu : Z) (f : MT A) : MP A := fun p =>
  match g_mtcp p !! cpu with
  | None => Fault NullPointer
  | Some (a, m) =>
      match f m with
      | Ok r m' => Ok r (p <| g_mtcp ::= <[cpu := (a, m')]> |>)
      | Fault e => Fault e
      end
  end.

Definition close_socket (cpu i : Z) : MP unit :=
  s ← on_manager cpu (socket_at i);
  whenM (socktype s =? MTCP_SOCK_STREAM)
    (x ← app_context cpu;
     on_manager cpu (mtcp_close x i);;
     mret tt).

(** The thread that takes over as master: the first other one that runs. *)
Definition next_master (cpu : Z) (p : process) : Z :=
  match list_find (fun i => i <> cpu /\ i ∈ running p) (seqZ 0 (su_num_cpus su)) with
  | Some (_, i) => i
  | None => mtcp_master p
  end.

(** [mtcp_free_context] up to the wait for the log thread. *)
Definition free_begin (cpu : Z) : MP unit :=
  a ← pctx cpu;
  c ← context_at a;
  whenM (negb (exit c))
    (for_cpus (close_socket cpu) 0 (Z.to_nat (max_concurrency (su_config su))));;
  set_context a (fun c => c <| done := true |>);;
  modify (fun p => p <| running ::= fun r => r ∖ {[cpu]} |>);;
  p ← get;
  whenM (mtcp_master p =? cpu) (modify (fun p => p <| mtcp_master := next_master cpu p |>));;
  p ← get;
  l ← unwrap NullPointer (g_logctx p !! cpu);
  if bool_decide (l ∈ loggers p) then modify (fun p => p <| threads ::= <[cpu := Freeing]> |>)
  else throw DanglingPointer.

Definition release (cpu : Z) (r : resource) : MP unit :=
  modify (fun p => p <| released ::= alter (fun l => l ++ [r]) cpu |>).

Fixpoint release_all (cpu : Z) (l : list resource) : MP unit :=
  match l with [] => mret tt | r :: l' => release cpu r;; release_all cpu l' end.

(** The queues: connectq, sendq, ackq, closeq, closeq_int, resetq, resetq_int, destroyq;
    the senders; the pools rv_pool, sv_pool, flow_pool; the pool of addresses; the locks. *)
Definition manager_resources (m : mtcp_manager) : list resource :=
  (RStreamQueue <$> seq 0 8) ++ RSender (-1) :: (RSender <$> seqZ 0 (zlen (eths (CONFIG m)))) ++
  (RPool <$> seq 0 3) ++ (if bool_decide (ap m = None) then [] else [RAddrPool]) ++ (RLock <$> seq 0 6).

(** The rest of [mtcp_free_context], and the end of the thread: the two hash tables. *)
Definition free_end (cpu : Z) : MP unit :=
  a ← pctx cpu;
  p ← get;
  g ← unwrap NullPointer (g_mtcp p !! cpu);
  modify (fun p => p <| released ::= <[cpu := []]> |>);;
  release_all cpu (manager_resources g.2);;
  modify (fun p => p <| g_mtcp ::= <[cpu := (g.1, g.2 <| ap := None |>)]> |>);;
  release cpu RHandle;;
  context_at a;;
  modify (fun p => p <| contexts ::= delete a |>);;
  release cpu RContext;;
  p ← get;
  match g_logctx p !! cpu with
  | Some l =>
      release cpu RLogger;;
      modify (fun p => p <| loggers ::= fun s => s ∖ {[l]} |> <| g_logctx ::= delete cpu |>)
  | None => mret tt
  end;;
  modify (fun p => p <| g_pctx ::= delete cpu |>);;
  release cpu (RTable 0);;
  release cpu (RTable 1);;
  modify (fun p => p <| threads ::= <[cpu := Ended]> |>).

(** The loop of [RunMainLoop] goes on for as long as this holds. *)
Definition loop_goes_on (c : thread_ctx) (m : mtcp_manager) : bool :=
  (negb (done c) || negb (flow_cnt m =? 0)) && negb (exit c).

(** For [SIGINT] the handler of the application is replaced; the others are the business of
    [signal], with the answer [sys]. *)
Definition mtcp_register_signal (signum : Z) (handler : option Z) (sys : option Z) : MP (option Z) :=
  if signum =? SIGINT then
    p ← get;
    modify (fun p => p <| app_signal_handler := handler |>);;
    mret (app_signal_handler p)
  else mret sys.

(** [mtcp_destroy] waits for the threads that run. *)
Definition all_joined (p : process) : bool :=
  forallb (fun i => negb (bool_decide (i ∈ running p)) ||
                    bool_decide (threads p !! i = Some Ended)) (seqZ 0 (su_num_cpus su)).

(** The address pools of the interfaces when it returns; [None]: it waits. *)
Definition mtcp_destroy (pools : gmap Z addr_pool) : MP (option (gmap Z addr_pool)) :=
  p ← get;
  mret (if all_joined p then Some (foldr delete pools (seqZ 0 (zlen (eths (su_config su))))) else None).

End Threads.

Definition zero_process : process :=
  Process ∅ ∅ ∅ ∅ ∅ ∅ ∅ None ∅ ∅ (-1) ∅ ∅ ∅ ∅ 1.
