(* ===== verification/ThreadsSafe.v ===== *)
(** * The life of the threads

    The events of a process are the calls of the application that create and end a thread,
    the signals, and the steps of the threads.  In every history of events, the context of a
    core that is marked as running is allocated, so that a signal can be handled; what a
    thread gives back is given back once.  Some histories show flaws: a creator that waits
    for ever, a master that is dead, a context that is used after it was freed. *)

From S2P Require Import Prelude Queues AddrPool Mtcp Lists Sockets Core Api Stack Widths Config Threads.

(** ** Events *)

Inductive pevent :=
| ECreate (cpu : Z) (e : create_env)
| EThread (cpu : Z) (ctx_ok : bool) (al : init_allocs) (pools : gmap Z addr_pool) (id : Z)
    (arpm : list arp_queue_entry) (attached : bool)
| ECreated (cpu : Z)
| EWork (cpu : Z) (m : mtcp_manager)
| ESignal (sig core now later : Z)
| ERegister (signum : Z) (handler sys : option Z)
| EDestroy (cpu : Z)
| EStop (cpu : Z)
| EFree (cpu : Z).

(** Every socket that the configuration provides is there. *)
Definition sockets_there (n : Z) (m : mtcp_manager) : Prop := forall i, 0 <= i < n -> is_Some (smap m !! i).

Section Life.
Context `{Platform} (su : setup).

(** What the thread and the application do to the manager of a core. *)
Definition work (cpu : Z) (m : mtcp_manager) : MP unit :=
  p ← get;
  g ← unwrap NullPointer (g_mtcp p !! cpu);
  modify (fun p => p <| g_mtcp ::= <[cpu := (g.1, m)]> |>).

Definition run_pevent (e : pevent) : MP unit :=
  match e with
  | ECreate cpu e => create_begin su cpu e;; mret tt
  | EThread cpu ok al pools id arpm att => thread_start su cpu ok al pools id arpm att;; mret tt
  | ECreated cpu => create_end cpu
  | EWork cpu m => work cpu m
  | ESignal sig core now later => HandleSignal su sig core now later;; mret tt
  | ERegister signum h sys => mtcp_register_signal signum h sys;; mret tt
  | EDestroy cpu => mtcp_destroy_context cpu
  | EStop cpu => free_begin su cpu
  | EFree cpu => free_end cpu
  end.

(** When an event can happen.  The application does not create a context for a core while
    it still holds one for it. *)
Definition penabled (e : pevent) (p : process) : Prop :=
  match e with
  | ECreate cpu _ => 0 <= cpu /\ cpu ∉ handles p
  | EThread cpu _ _ _ _ _ _ => threads p !! cpu = Some Started
  | ECreated cpu => cpu ∈ creating p /\ exists n, g_init_sem p !! cpu = Some n /\ 0 < n
  | EWork cpu m => threads p !! cpu = Some Looping /\ sockets_there (max_concurrency (su_config su)) m
  | ESignal _ core _ _ => 0 <= core < MAX_CPUS
  | ERegister _ _ _ => True
  | EDestroy cpu => cpu ∈ handles p
  | EStop cpu => threads p !! cpu = Some Looping /\
      exists a m c, g_mtcp p !! cpu = Some (a, m) /\ contexts p !! a = Some c /\ loop_goes_on c m = false
  | EFree cpu => threads p !! cpu = Some Freeing
  end.

Inductive pstep (p p' : process) : Prop :=
| pstep_event (e : pevent) : penabled e p -> run_pevent e p = Ok tt p' -> pstep p p'.

(** ** The invariant *)

(** The context of core [i] is allocated, and the manager points to it. *)
Definition has_context (p : process) (i a : Z) (c : thread_ctx) : Prop :=
  g_pctx p !! i = Some a /\ contexts p !! a = Some c /\ tc_cpu c = i /\
  exists m, g_mtcp p !! i = Some (a, m) /\ sockets_there (max_concurrency (su_config su)) m.

Definition has_logger (p : process) (i : Z) : Prop := exists l, g_logctx p !! i = Some l /\ l ∈ loggers p.

(** The creator has not returned and no one can have asked the thread to stop. *)
Definition unknown (p : process) (i : Z) (c : thread_ctx) : Prop :=
  i ∈ creating p /\ i ∉ running p /\ i ∉ handles p /\ g_init_sem p !! i = Some 1 /\ done c = false /\ exit c = false.

Definition core_ok (p : process) (i : Z) : Prop :=
  match threads p !! i with
  | None => i ∉ creating p /\ i ∉ running p /\ i ∉ handles p /\ g_pctx p !! i = None
  | Some Started => i ∈ creating p /\ i ∉ running p /\ i ∉ handles p /\ g_pctx p !! i = None /\
      g_init_sem p !! i = Some 0 /\ has_logger p i
  | Some Looping => exists a c, has_context p i a c /\ has_logger p i /\
      (unknown p i c \/ (i ∉ creating p /\ i ∈ running p))
  | Some Freeing => exists a c, has_context p i a c /\ has_logger p i /\ i ∉ creating p /\ i ∉ running p
  | Some Ended => i ∉ creating p /\ i ∉ running p /\ g_pctx p !! i = None /\
      exists a m, g_mtcp p !! i = Some (a, m) /\ contexts p !! a = None
  | Some Failed => i ∈ creating p /\ i ∉ running p /\ i ∉ handles p /\
      exists a c, has_context p i a c /\ g_init_sem p !! i = Some 0 /\ has_logger p i
  end.

Record threads_inv (p : process) : Prop := {
  ti_cores : forall i, core_ok p i;
  ti_range : forall i, i ∈ running p \/ i ∈ creating p -> 0 <= i < su_num_cores su;
  ti_contexts : forall a c, contexts p !! a = Some c -> a < fresh_addr p;
  ti_managers : forall i a m, g_mtcp p !! i = Some (a, m) -> a < fresh_addr p;
  ti_loggers : forall i l, g_logctx p !! i = Some l -> l < fresh_addr p;
  ti_own_logger : forall i j l, g_logctx p !! i = Some l -> g_logctx p !! j = Some l -> i = j;
  ti_owner : forall i a m c, g_mtcp p !! i = Some (a, m) -> contexts p !! a = Some c -> tc_cpu c = i
}.

Lemma zero_inv : threads_inv zero_process.
Proof using.
  split; cbn; try (intros *; by rewrite lookup_empty).
  - intros i. unfold core_ok. cbn. rewrite !lookup_empty. split_and!; try apply not_elem_of_empty. done.
  - intros i [Hi|Hi]; by apply not_elem_of_empty in Hi.
Qed.

(** What [core_ok] looks at. *)
Definition same_core (p p' : process) (i : Z) : Prop :=
  threads p' !! i = threads p !! i /\ (i ∈ creating p' <-> i ∈ creating p) /\
  (i ∈ running p' <-> i ∈ running p) /\ (i ∈ handles p' <-> i ∈ handles p) /\
  g_pctx p' !! i = g_pctx p !! i /\ g_mtcp p' !! i = g_mtcp p !! i /\ g_init_sem p' !! i = g_init_sem p !! i /\
  (forall a m, g_mtcp p !! i = Some (a, m) -> contexts p' !! a = contexts p !! a) /\
  g_logctx p' !! i = g_logctx p !! i /\ (forall l, g_logctx p !! i = Some l -> l ∈ loggers p' <-> l ∈ loggers p).

Lemma same_core_context p p' i a c : same_core p p' i -> has_context p i a c -> has_context p' i a c.
Proof using.
  intros (_ & _ & _ & _ & Ep & Em & _ & Ex & _) (H1 & H2 & H3 & m & H4 & H5). unfold has_context.
  rewrite Ep, Em, (Ex a m H4). eauto 10.
Qed.

Lemma same_core_logger p p' i : same_core p p' i -> has_logger p i -> has_logger p' i.
Proof using. intros (_ & _ & _ & _ & _ & _ & _ & _ & El & Ell) (l & H1 & H2). exists l. rewrite El. split; [done|by apply Ell]. Qed.

Lemma same_core_ok p p' i : same_core p p' i -> core_ok p i -> core_ok p' i.
Proof using.
  intros Hs. pose proof (fun a c => same_core_context _ _ _ a c Hs) as Hc. pose proof (same_core_logger _ _ _ Hs) as Hl.
  destruct Hs as (Et & Ec & Er & Eh & Ep & Em & Es & Ex & _ & _). unfold core_ok, unknown. rewrite Et.
  destruct (threads p !! i) as [[]|]; rewrite ?Ec, ?Er, ?Eh, ?Ep, ?Es; try done.
  - intros (? & ? & ? & ? & ? & ?). eauto 10.
  - intros (a & c & H1 & H2 & H3). exists a, c. rewrite Ec, Er, Eh. eauto.
  - intros (a & c & H1 & H2 & H3). exists a, c. rewrite Ec, Er. eauto.
  - intros (H1 & H2 & H3 & a & m & H4 & H5). split_and!; try done. exists a, m. by rewrite Em, (Ex a m H4).
  - intros (H1 & H2 & H3 & a & c & H4 & H5 & H6). split_and!; try done. exists a, c. eauto.
Qed.

Lemma running_context p i : threads_inv p -> i ∈ running p -> exists a c, has_context p i a c /\ threads p !! i = Some Looping.
Proof using.
  intros Hi Hr. pose proof (ti_cores _ Hi i) as Hc. unfold core_ok in Hc.
  destruct (threads p !! i) as [[]|]; try (by destruct_and?; set_solver); naive_solver.
Qed.

(** An event of core [cpu] leaves the other cores alone. *)
Lemma inv_update p p' cpu : threads_inv p -> (forall i, i <> cpu -> same_core p p' i) -> core_ok p' cpu ->
  (forall i, i ∈ running p' \/ i ∈ creating p' -> 0 <= i < su_num_cores su) ->
  (forall a c, contexts p' !! a = Some c -> a < fresh_addr p') ->
  (forall i a m, g_mtcp p' !! i = Some (a, m) -> a < fresh_addr p') ->
  (forall i l, g_logctx p' !! i = Some l -> l < fresh_addr p') ->
  (forall i j l, g_logctx p' !! i = Some l -> g_logctx p' !! j = Some l -> i = j) ->
  (forall i a m c, g_mtcp p' !! i = Some (a, m) -> contexts p' !! a = Some c -> tc_cpu c = i) ->
  threads_inv p'.
Proof using.
  intros Hi Ho Hc H1 H2 H3 H4 H5 H6. split; try done. intros i. destruct (decide (i = cpu)) as [->|Hn]; [done|].
  eapply same_core_ok; [by apply Ho|]. apply Hi.
Qed.

Ltac others := intros ? ?; split_and!; cbn; rewrite ?lookup_insert_ne, ?lookup_delete_ne, ?lookup_alter_ne by congruence; try done; try set_solver.

(** The addresses stay fresh and the loggers apart. *)
Lemma logctx_insert p cpu : threads_inv p ->
  (forall i l, <[cpu := fresh_addr p]> (g_logctx p) !! i = Some l -> l < fresh_addr p + 1) /\
  (forall i j l, <[cpu := fresh_addr p]> (g_logctx p) !! i = Some l ->
     <[cpu := fresh_addr p]> (g_logctx p) !! j = Some l -> i = j).
Proof using.
  intros Hi. split.
  - intros i l. rewrite lookup_insert_Some. intros [[_ <-]|[_ Hl]]; [lia|]. apply (ti_loggers _ Hi) in Hl. lia.
  - intros i j l. rewrite !lookup_insert_Some. intros [[<- <-]|[? H1]] [[<- E]|[? H2]]; try done.
    + apply (ti_loggers _ Hi) in H2. lia.
    + subst. apply (ti_loggers _ Hi) in H1. lia.
    + by eapply (ti_own_logger _ Hi).
Qed.

Definition never (e : fault) : Prop := False.

(** A core without a logger has no thread. *)
Lemma idle_core p cpu : threads_inv p -> g_logctx p !! cpu = None ->
  (threads p !! cpu = None \/ threads p !! cpu = Some Ended) /\ cpu ∉ creating p /\ cpu ∉ running p /\ g_pctx p !! cpu = None.
Proof using.
  intros Hi Hl. pose proof (ti_cores _ Hi cpu) as Hc. unfold core_ok, has_logger in Hc. rewrite Hl in Hc.
  destruct (threads p !! cpu) as [[]|]; naive_solver.
Qed.

(** The state of an idle core depends on its thread, its handle and its manager. *)
Lemma idle_ok p p' cpu : core_ok p cpu -> g_logctx p !! cpu = None ->
  threads p' !! cpu = threads p !! cpu -> creating p' = creating p -> running p' = running p -> handles p' = handles p ->
  g_pctx p' = g_pctx p -> g_mtcp p' = g_mtcp p -> contexts p' = contexts p -> core_ok p' cpu.
Proof using.
  unfold core_ok, has_logger. intros Hc Hl -> -> -> -> -> -> ->. destruct (threads p !! cpu) as [[]|]; naive_solver.
Qed.

Ltac pwp_step :=
  match goal with
  | |- wpe _ (mbind _ _) _ _ => rewrite wpe_bind
  | |- wpe _ (mret _) _ _ => rewrite wpe_ret
  | |- wpe _ get _ _ => rewrite wpe_get
  | |- wpe _ (modify _) _ _ => rewrite wpe_modify
  | |- wpe _ (throw _) _ _ => rewrite wpe_throw
  | |- wpe _ (whenM ?b _) _ _ => rewrite wpe_when; destruct b eqn:?
  | |- wpe _ (unwrap _ ?o) _ _ => rewrite wpe_unwrap; destruct o eqn:?
  | |- wpe _ (let _ := _ in _) _ _ => cbv zeta
  | |- wpe _ (if ?b then _ else _) _ _ => destruct b eqn:?
  | |- wpe _ (match ?x with _ => _ end) _ _ => destruct x eqn:?
  end.

Ltac pwp := repeat pwp_step.

(** Some changes of a core that keep the invariant. *)
Lemma sem_inv p cpu : threads_inv p -> g_logctx p !! cpu = None -> threads_inv (p <| g_init_sem ::= <[cpu := 0]> |>).
Proof using.
  intros Hi Hl. apply (inv_update p _ cpu Hi); try apply Hi; [others|]. by apply (idle_ok p); [apply Hi|..].
Qed.

Lemma logger_inv p cpu L : threads_inv p -> g_logctx p !! cpu = None ->
  (forall l, l < fresh_addr p -> l ∈ L <-> l ∈ loggers p) ->
  threads_inv (p <| fresh_addr ::= fun a => a + 1 |> <| loggers := L |> <| g_logctx ::= <[cpu := fresh_addr p]> |>).
Proof using.
  intros Hi Hl HL. destruct (logctx_insert p cpu Hi) as [G1 G2]. apply (inv_update p _ cpu Hi); cbn; try done; try apply Hi.
  - others. intros l ?%(ti_loggers _ Hi). by apply HL.
  - by apply (idle_ok p); [apply Hi|..].
  - intros a c ?%(ti_contexts _ Hi). lia.
  - intros i a m ?%(ti_managers _ Hi). lia.
Qed.

Lemma started_inv p cpu : threads_inv p -> 0 <= cpu < su_num_cores su -> cpu ∉ handles p -> cpu ∉ running p ->
  g_pctx p !! cpu = None -> g_init_sem p !! cpu = Some 0 -> has_logger p cpu ->
  threads_inv (p <| threads ::= <[cpu := Started]> |> <| creating ::= union {[cpu]} |>).
Proof using.
  intros Hi Hr Hh Hru Hp Hs Hl. apply (inv_update p _ cpu Hi); cbn; try apply Hi.
  - others.
  - unfold core_ok. cbn. rewrite lookup_insert_eq. split_and!; try done; set_solver.
  - intros i [Hx|[->%elem_of_singleton|Hx]%elem_of_union]; [apply Hi; auto|done|apply Hi; auto].
Qed.

Lemma create_begin_inv cpu e p : su_num_cores su <= MAX_CPUS -> threads_inv p -> 0 <= cpu -> cpu ∉ handles p ->
  wpe never (create_begin su cpu e) (fun _ => threads_inv) p.
Proof using.
  intros Hcores Hi H0 Hh. unfold create_begin, new_addr. pwp; try done; try (unfold MAX_CPUS in *; lia).
  all: destruct (idle_core p cpu Hi Heqo) as (Ht & Hcr & Hru & Hpc); pose proof (sem_inv p cpu Hi Heqo) as Hi'.
  - done.
  - done.
  - apply (logger_inv _ _ (({[fresh_addr p]} ∪ loggers p) ∖ {[fresh_addr p]}) Hi' Heqo). cbn. intros l Hl. set_solver by lia.
  - apply (logger_inv _ _ ({[fresh_addr p]} ∪ loggers p) Hi' Heqo). cbn. intros l Hl. set_solver by lia.
  - apply started_inv; try done.
    + apply (logger_inv _ _ ({[fresh_addr p]} ∪ loggers p) Hi' Heqo). cbn. intros l Hl. set_solver by lia.
    + lia.
    + cbn. by rewrite lookup_insert_eq.
    + exists (fresh_addr p). cbn. rewrite lookup_insert_eq. split; [done|set_solver].
Qed.

Lemma initial_sockets al c pools id arpm m u : InitializeMTCPManager al c pools id arpm = Ok (Some m) u ->
  sockets_there (max_concurrency c) m.
Proof using.
  intros E. unfold InitializeMTCPManager in E.
  repeat match type of E with checked _ _ = _ => apply checked_some in E as [? E] end.
  destruct (InitRTOHashstore _); [|done]. injection E as <- _. intros i Hi. cbn.
  apply not_eq_None_Some. intros Hn%not_elem_of_list_to_map_2. apply Hn. rewrite <- list_fmap_compose.
  apply list_elem_of_fmap. exists i. split; [done|]. apply elem_of_seqZ. lia.
Qed.

(** The thread has got its context and its manager. *)
Lemma context_inv p cpu m pc sem : threads_inv p -> threads p !! cpu = Some Started ->
  sockets_there (max_concurrency (su_config su)) m ->
  (pc = Failed /\ sem = g_init_sem p) \/ (pc = Looping /\ sem = alter (Z.add 1) cpu (g_init_sem p)) ->
  threads_inv (p <| fresh_addr ::= fun a => a + 1 |>
     <| contexts ::= <[fresh_addr p := ThreadCtx cpu false false false]> |>
     <| g_mtcp ::= <[cpu := (fresh_addr p, m)]> |> <| g_pctx ::= <[cpu := fresh_addr p]> |>
     <| g_init_sem := sem |> <| threads ::= <[cpu := pc]> |>).
Proof using.
  intros Hi Ht Hm Hpc. pose proof (ti_cores _ Hi cpu) as Hc. unfold core_ok in Hc. rewrite Ht in Hc.
  destruct Hc as (Hcr & Hru & Hh & Hp & Hs & Hl).
  assert (Hctx : forall p', g_pctx p' = <[cpu := fresh_addr p]> (g_pctx p) -> g_mtcp p' = <[cpu := (fresh_addr p, m)]> (g_mtcp p) ->
    contexts p' = <[fresh_addr p := ThreadCtx cpu false false false]> (contexts p) ->
    has_context p' cpu (fresh_addr p) (ThreadCtx cpu false false false)).
  { intros p' E1 E2 E3. unfold has_context. rewrite E1, E2, E3, !lookup_insert_eq. eauto 10. }
  apply (inv_update p _ cpu Hi); cbn; try apply Hi.
  - intros i Hn. split_and!; cbn; rewrite ?lookup_insert_ne by congruence; try done.
    + destruct Hpc as [[_ ->]|[_ ->]]; [done|]. by rewrite lookup_alter_ne.
    + intros a m' Ha%(ti_managers _ Hi). by rewrite lookup_insert_ne by lia.
  - unfold core_ok. cbn. rewrite lookup_insert_eq. destruct Hpc as [[-> ->]|[-> ->]].
    + split_and!; try done. eexists _, _. split; [by apply Hctx|]. done.
    + eexists _, _. split; [by apply Hctx|]. split; [done|]. left. split_and!; try done. cbn. by rewrite lookup_alter_eq, Hs.
  - intros a c. rewrite lookup_insert_Some. intros [[<- _]|[_ Ha%(ti_contexts _ Hi)]]; lia.
  - intros i a m'. rewrite lookup_insert_Some. intros [[_ [= <- _]]|[_ Ha%(ti_managers _ Hi)]]; lia.
  - intros i l Hx%(ti_loggers _ Hi). lia.
  - intros i a m' c. rewrite !lookup_insert_Some. intros [[<- [= <- _]]|[Hn Ha]] [[Ea <-]|[Hn' Ha']]; try done.
    + apply (ti_managers _ Hi) in Ha. lia.
    + by eapply (ti_owner _ Hi).
Qed.

Definition may_fault (e : pevent) (f : fault) : Prop :=
  match e with
  | EThread _ _ al pools id arpm _ => f = ProcessExit \/ InitializeMTCPManager al (su_config su) pools id arpm = Fault f
  | _ => False
  end.

Lemma thread_start_inv cpu ok al pools id arpm att p : threads_inv p -> threads p !! cpu = Some Started ->
  wpe (may_fault (EThread cpu ok al pools id arpm att)) (thread_start su cpu ok al pools id arpm att) (fun _ => threads_inv) p.
Proof using.
  intros Hi Ht. unfold thread_start, new_addr. pwp; try (by left); try (by right).
  all: match goal with E : InitializeMTCPManager _ _ _ _ _ = Ok (Some ?m) _ |- _ =>
    pose proof (initial_sockets _ _ _ _ _ _ _ E) as Hm end.
  - apply (context_inv p cpu m Failed (g_init_sem p)); auto.
  - apply (context_inv p cpu m Looping (alter (Z.add 1) cpu (g_init_sem p))); auto.
Qed.

(** The flags of a context. *)
Lemma flag_inv p i a c d : threads_inv p -> has_context p i a c -> tc_cpu d = i ->
  (unknown p i c -> done d = false /\ exit d = false) ->
  threads_inv (p <| contexts ::= <[a := d]> |>) /\ has_context (p <| contexts ::= <[a := d]> |>) i a d.
Proof using.
  intros Hi Hx Hd Hu. pose proof Hx as (Hp & Hc & Ht & m & Hm & Hs).
  assert (Hx' : has_context (p <| contexts ::= <[a := d]> |>) i a d).
  { split_and!; cbn; try done; [by rewrite lookup_insert_eq|]. by exists m. }
  split; [|done]. apply (inv_update p _ i Hi); cbn; try apply Hi.
  - others. intros a' m' Ha. rewrite lookup_insert_ne; [done|]. intros <-. pose proof (ti_owner _ Hi _ _ _ _ Ha Hc). congruence.
  - pose proof (ti_cores _ Hi i) as Hk. unfold core_ok in *. cbn in *. destruct (threads p !! i) as [[]|]; try naive_solver.
    destruct Hk as (a' & c' & (Hp' & Hc' & _) & Hl & Hk). assert (a' = a) as -> by congruence. assert (c' = c) as -> by congruence.
    exists a, d. split; [done|]. split; [done|]. destruct Hk as [Hk|Hk]; [left|by right].
    destruct (Hu Hk) as [H1 H2]. destruct Hk as (K1 & K2 & K3 & K4 & _). by split_and!.
  - intros a' c'. rewrite lookup_insert_Some. intros [[<- _]|[_ Ha]]; by eapply (ti_contexts _ Hi).
  - intros j a' m' c' Ha. rewrite lookup_insert_Some. intros [[<- <-]|[_ Hb]]; [|by eapply (ti_owner _ Hi)].
    rewrite <- (ti_owner _ Hi _ _ _ _ Ha Hc). congruence.
Qed.

Lemma set_context_inv p i a c f : threads_inv p -> has_context p i a c -> tc_cpu (f c) = i ->
  (unknown p i c -> done (f c) = false /\ exit (f c) = false) ->
  wpe never (set_context a f) (fun _ p' => p' = p <| contexts ::= <[a := f c]> |> /\ threads_inv p' /\ has_context p' i a (f c)) p.
Proof using.
  intros Hi Hx Hf Hu. destruct (flag_inv p i a c (f c) Hi Hx Hf Hu). destruct Hx as (_ & Hc & _).
  unfold set_context, context_at. rewrite !wpe_bind, wpe_get, wpe_unwrap, Hc, wpe_modify. done.
Qed.

Lemma create_end_inv cpu p : threads_inv p -> cpu ∈ creating p ->
  (exists n, g_init_sem p !! cpu = Some n /\ 0 < n) -> wpe never (create_end cpu) (fun _ => threads_inv) p.
Proof using.
  intros Hi Hcr (n & Hn & H0). pose proof (ti_cores _ Hi cpu) as Hk. unfold core_ok in Hk.
  set (q := p <| g_init_sem ::= delete cpu |> <| running ::= union {[cpu]} |>
                     <| creating ::= fun c => c ∖ {[cpu]} |> <| handles ::= union {[cpu]} |>).
  assert (Hq : threads_inv q).
  { apply (inv_update p _ cpu Hi); cbn; try apply Hi.
    - others.
    - unfold core_ok. cbn. destruct (threads p !! cpu) as [[]|]; try (by destruct Hk).
      + destruct Hk as (_ & _ & _ & _ & Hs & _). assert (n = 0) by congruence. lia.
      + destruct Hk as (a & c & Hx & Hl & _). exists a, c. split; [done|]. split; [done|]. right. set_solver.
      + by destruct Hk as (a & c & Hx & Hl & ? & _).
      + destruct Hk as (_ & _ & _ & a & c & _ & Hs & _). assert (n = 0) by congruence. lia.
    - intros i [[->%elem_of_singleton|Hr]%elem_of_union|[Hr _]%elem_of_difference]; apply Hi; auto. }
  unfold create_end. pwp; [|exact Hq]. apply (inv_update q _ cpu Hq); cbn; try apply Hq. others.
Qed.

Lemma work_inv cpu m p : threads_inv p -> threads p !! cpu = Some Looping ->
  sockets_there (max_concurrency (su_config su)) m -> wpe never (work cpu m) (fun _ => threads_inv) p.
Proof using.
  intros Hi Ht Hm. pose proof (ti_cores _ Hi cpu) as Hk. unfold core_ok in Hk. rewrite Ht in Hk.
  destruct Hk as (a & c & (Hp & Hc & Hcpu & m0 & Hg & _) & Hl & Hk).
  unfold work. rewrite !wpe_bind, wpe_get, wpe_bind, wpe_unwrap, Hg, wpe_modify. cbn [fst].
  apply (inv_update p _ cpu Hi); cbn; try apply Hi.
  - others.
  - unfold core_ok. cbn. rewrite Ht. exists a, c. split; [|done]. split_and!; cbn; try done.
    exists m. by rewrite lookup_insert_eq.
  - intros i a' m'. rewrite lookup_insert_Some. intros [[_ [= <- _]]|[_ Ha]]; by eapply (ti_managers _ Hi).
  - intros i a' m' c'. rewrite lookup_insert_Some. intros [[<- [= <- _]]|[_ Ha]] ?; by eapply (ti_owner _ Hi).
Qed.

(** A core for which the application holds a handle, and which has a context. *)
Lemma handle_context p cpu a : threads_inv p -> cpu ∈ handles p -> g_pctx p !! cpu = Some a ->
  exists c, has_context p cpu a c /\ ~ unknown p cpu c.
Proof using.
  intros Hi Hh Ha. pose proof (ti_cores _ Hi cpu) as Hk. unfold core_ok in Hk.
  assert (Hu : forall c, ~ unknown p cpu c) by (intros c (_ & _ & Hn & _); done).
  assert (Hx : forall b c, has_context p cpu b c -> has_context p cpu a c /\ ~ unknown p cpu c).
  { intros b c Hx. assert (b = a) as -> by (destruct Hx; congruence). auto. }
  destruct (threads p !! cpu) as [[]|].
  - by destruct Hk as (_ & _ & ? & _).
  - destruct Hk as (b & c & Hb & _). exists c. by apply (Hx b).
  - destruct Hk as (b & c & Hb & _). exists c. by apply (Hx b).
  - destruct Hk as (_ & _ & ? & _). congruence.
  - by destruct Hk as (_ & _ & ? & _).
  - by destruct Hk as (_ & _ & ? & _).
Qed.

Lemma mtcp_destroy_context_inv cpu p : threads_inv p -> cpu ∈ handles p ->
  wpe never (mtcp_destroy_context cpu) (fun _ => threads_inv) p.
Proof using.
  intros Hi Hh. unfold mtcp_destroy_context. rewrite wpe_bind, wpe_get, wpe_bind.
  assert (Hq : forall p', threads_inv p' -> cpu ∈ handles p' -> threads_inv (p' <| handles ::= fun h => h ∖ {[cpu]} |>)).
  { intros p' Hi' Hh'. apply (inv_update p' _ cpu Hi'); cbn; try apply Hi'; [others|].
    pose proof (ti_cores _ Hi' cpu) as Hk. unfold core_ok, unknown, has_context, has_logger in *. cbn.
    destruct (threads p' !! cpu) as [[]|]; try (by destruct Hk as (_ & _ & ? & _)); try done.
    destruct Hk as (a & c & Hx & Hl & [(_ & _ & Hn & _)|Hk]); [done|]. exists a, c. auto. }
  destruct (g_pctx p !! cpu) as [a|] eqn:Ha; [|rewrite wpe_ret, wpe_modify; by apply Hq].
  destruct (handle_context p cpu a Hi Hh Ha) as (c & Hx & Hu).
  eapply wpe_mono; [apply (set_context_inv p cpu a c); [done|done|by destruct Hx as (_ & _ & ? & _)|done]|].
  cbn beta. intros _ p' (-> & Hi' & _). rewrite wpe_modify. by apply Hq.
Qed.

(** ** Signals *)

Definition frozen (p : process) : process := p <| contexts := ∅ |>.

(** [p'] is [p] with the flags of some contexts changed by [f], at least for the cores that
    run and satisfy [P]. *)
Definition flagged (f : thread_ctx -> thread_ctx) (P : Z -> Prop) (p p' : process) : Prop :=
  frozen p' = frozen p /\
  forall j a c, has_context p j a c -> exists c', has_context p' j a c' /\ (c' = c \/ c' = f c) /\
    (P j -> j ∈ running p -> c' = f c).

Lemma flag_running_ok f i p : (forall c, tc_cpu (f c) = tc_cpu c) -> threads_inv p ->
  wpe never (flag_running f i) (fun _ p' => threads_inv p' /\ flagged f (eq i) p p') p.
Proof using.
  intros Hf Hi. unfold flag_running, pctx. rewrite wpe_bind, wpe_get, wpe_when. case_bool_decide as Hr.
  - destruct (running_context p i Hi Hr) as (a & c & Hx & Ht). rewrite !wpe_bind, wpe_get, wpe_unwrap.
    pose proof Hx as (-> & Hc & Hcpu & m & Hm & _).
    eapply wpe_mono; [apply (set_context_inv p i a c); [done|done|by rewrite Hf|by intros (_ & Hn & _)]|].
    cbn beta. intros _ p' (-> & Hi' & Hx'). split; [done|]. split; [done|]. intros j b d Hj.
    destruct (decide (j = i)) as [->|Hn].
    + assert (b = a) as -> by (destruct Hx, Hj; congruence).
      assert (d = c) as -> by (destruct Hj as (_ & ? & _); congruence). eauto.
    + exists d. split; [|split; [by left|congruence]]. destruct Hj as (J1 & J2 & J3 & m' & J4 & J5).
      split_and!; cbn; try done; [|by exists m']. rewrite lookup_insert_ne; [done|]. intros <-.
      pose proof (ti_owner _ Hi _ _ _ _ Hm J2). congruence.
  - split; [done|]. split; [done|]. intros j a c Hj. exists c. split_and!; [done|by left|by intros <-].
Qed.

Lemma flag_all f n : (forall c, tc_cpu (f c) = tc_cpu c) -> (forall c, f (f c) = f c) -> forall i p, threads_inv p ->
  wpe never (for_cpus (flag_running f) i n) (fun _ p' => threads_inv p' /\ flagged f (fun j => i <= j < i + Z.of_nat n) p p') p.
Proof using.
  intros Hf Hff. induction n as [|n IH]; intros i p Hi; cbn [for_cpus].
  - rewrite wpe_ret. split; [done|]. split; [done|]. intros j a c Hj. exists c. split_and!; [done|by left|lia].
  - rewrite wpe_bind. eapply wpe_mono; [by apply flag_running_ok|]. cbn beta. intros _ p1 (Hi1 & E1 & H1).
    eapply wpe_mono; [by apply IH|]. cbn beta. intros _ p2 (Hi2 & E2 & H2). split; [done|]. split; [congruence|].
    assert (Er : running p1 = running p) by exact (f_equal running E1).
    intros j a c Hj. destruct (H1 j a c Hj) as (c1 & Hj1 & D1 & F1). destruct (H2 j a c1 Hj1) as (c2 & Hj2 & D2 & F2).
    exists c2. split; [done|]. assert (Hd : c2 = c \/ c2 = f c) by (destruct D1 as [->| ->], D2 as [->| ->]; rewrite ?Hff; auto).
    split; [done|]. intros Hn Hr. destruct (decide (i = j)) as [Ej|Hne].
    + rewrite (F1 Ej ltac:(by subst)) in D2. rewrite Hff in D2. by destruct D2.
    + rewrite F2; [|lia|by rewrite Er]. destruct D1 as [->| ->]; by rewrite ?Hff.
Qed.

(** The cores that run are asked to stop. *)
Definition all_asked (p p' : process) : Prop :=
  forall i, i ∈ running p -> exists a c, has_context p' i a c /\ exit c = true.

(** A signal asks the threads to stop: in a process of several, the second time in another
    second, or without a handler of the application. *)
Definition asks (sig core now : Z) (p : process) : bool :=
  (sig =? SIGINT) &&
  (su_multi_process su || (0 <? default 0 (sigint_cnt p !! core)) && (default 0 (sigint_ts p !! core) <? now)
   || bool_decide (app_signal_handler p = None)).

Lemma ask_exit_ok p : su_num_cores su <= su_num_cpus su -> threads_inv p ->
  wpe never (ask_exit su) (fun _ p' => threads_inv p' /\ frozen p' = frozen p /\ all_asked p p') p.
Proof using.
  intros Hn Hi. unfold ask_exit, all_cpus. eapply wpe_mono; [by apply flag_all|]. cbn beta. intros _ p' (Hi' & E & H').
  split; [done|]. split; [done|]. intros i Hr. destruct (running_context p i Hi Hr) as (a & c & Hx & _).
  pose proof (ti_range _ Hi i (or_introl Hr)).
  destruct (H' i a c Hx) as (c' & Hx' & _ & Hc'). exists a, c'. split; [done|]. rewrite Hc'; [done|lia|done].
Qed.

Lemma ask_interrupt_ok p : threads_inv p ->
  wpe never (ask_interrupt su) (fun _ p' => threads_inv p' /\ frozen p' = frozen p) p.
Proof using.
  intros Hi. unfold ask_interrupt, all_cpus. eapply wpe_mono; [by apply flag_all|]. cbn beta. by intros _ p' (Hi' & E & _).
Qed.

(** The counters of signals have no part in the invariant. *)
Lemma sigint_inv p n t : threads_inv p -> threads_inv (p <| sigint_cnt := n |> <| sigint_ts := t |>).
Proof using. intros Hi. apply (inv_update p _ 0 Hi); cbn; try apply Hi. others. Qed.

Lemma HandleSignal_ok sig core now later p : su_num_cores su <= su_num_cpus su -> threads_inv p -> 0 <= core < MAX_CPUS ->
  wpe never (HandleSignal su sig core now later)
    (fun r p' => threads_inv p' /\ running p' = running p /\ (asks sig core now p = true -> all_asked p p') /\
       r = if sig =? SIGUSR1 then None else app_signal_handler p) p.
Proof using.
  intros Hn Hi Hcore. unfold HandleSignal, asks. rewrite wpe_bind, wpe_when.
  destruct (sig =? SIGINT); cbn [andb]; [|by rewrite wpe_bind, wpe_get, wpe_ret]. destruct (su_multi_process su); cbn [orb].
  { eapply wpe_mono; [by apply ask_exit_ok|]. cbn beta. intros _ p' (Hi' & E & Ha). rewrite wpe_bind, wpe_get, wpe_ret.
    split; [done|]. split; [exact (f_equal running E)|]. split; [done|].
    by rewrite <- (f_equal app_signal_handler E : app_signal_handler p' = app_signal_handler p). }
  rewrite (proj2 (Z.leb_le 0 core)), (proj2 (Z.ltb_lt core MAX_CPUS)) by lia. cbn [andb negb].
  rewrite !wpe_bind, wpe_get, wpe_bind.
  assert (Hend : forall p' (b : bool), threads_inv p' -> frozen p' = frozen p -> (b = true -> all_asked p p') ->
    wpe never (modify (fun p => p <| sigint_cnt ::= <[core := i32 (default 0 (sigint_cnt p !! core) + 1)]> |>
                          <| sigint_ts ::= <[core := later]> |>))
      (fun _ => wpe never (p ← get; mret (if sig =? SIGUSR1 then None else app_signal_handler p))
        (fun r p' => threads_inv p' /\ running p' = running p /\ (b = true -> all_asked p p') /\
           r = (if sig =? SIGUSR1 then None else app_signal_handler p))) p').
  { intros p' b Hi' E Ha. rewrite wpe_modify, wpe_bind, wpe_get, wpe_ret. split; [by apply (sigint_inv p')|].
    split; [exact (f_equal running E)|]. split; [exact Ha|]. cbn. by rewrite <- (f_equal app_signal_handler E : app_signal_handler p' = app_signal_handler p). }
  destruct ((0 <? _) && _); cbn [orb].
  - eapply wpe_mono; [by apply ask_exit_ok|]. cbn beta. intros _ p' (Hi' & E & Ha). by apply Hend.
  - rewrite wpe_bind. eapply wpe_mono; [by apply ask_interrupt_ok|]. cbn beta. intros _ p1 (Hi1 & E1). rewrite wpe_when.
    case_bool_decide; [|by apply Hend]. eapply wpe_mono; [by apply ask_exit_ok|]. cbn beta. intros _ p' (Hi' & E & Ha).
    apply Hend; [done|congruence|]. intros _ i Hr. apply Ha. by rewrite (f_equal running E1 : running p1 = running p).
Qed.

(** ** The end of a thread *)

Lemma on_manager_same {A} cpu (f : MT A) p a m x : g_mtcp p !! cpu = Some (a, m) -> f m = Ok x m -> on_manager cpu f p = Ok x p.
Proof using.
  intros Hm Hf. unfold on_manager. rewrite Hm, Hf. f_equal.
  transitivity (p <| g_mtcp := <[cpu := (a, m)]> (g_mtcp p) |>); [done|]. rewrite insert_id by done. by destruct p.
Qed.

(** When the flag [done] is set, [mtcp_close] refuses. *)
Lemma close_refused x i m : ac_done x = true -> exists e, mtcp_close x i m = Ok (Errno e) m.
Proof using.
  intros Hx. unfold mtcp_close, with_manager, GetMTCPManager. rewrite Hx. destruct (ac_valid x); cbn; by eexists.
Qed.

Lemma close_socket_nothing cpu i p a m c : g_mtcp p !! cpu = Some (a, m) -> contexts p !! a = Some c -> done c = true ->
  is_Some (smap m !! i) -> close_socket su cpu i p = Ok tt p.
Proof using.
  intros Hm Hc Hd [s Hs]. unfold close_socket, mbind, M_bind.
  assert (E : socket_at i m = Ok s m) by (unfold socket_at, mbind, M_bind, get, unwrap; by rewrite Hs).
  rewrite (on_manager_same cpu _ p a m s Hm E). unfold whenM. destruct (socktype s =? MTCP_SOCK_STREAM); [|done].
  unfold app_context. destruct (_ && _) eqn:Hv; cbn [negb].
  - unfold context_at, mbind, M_bind, get, unwrap, mret, M_ret. rewrite Hm. cbn [fst]. rewrite Hc.
    match goal with |- context [mtcp_close ?x i] => destruct (close_refused x i m Hd) as [e He] end.
    by rewrite (on_manager_same cpu _ p a m _ Hm He).
  - match goal with |- context [AppCtx ?u ?v ?w ?x ?y ?z ?s ?t] => set (ac := AppCtx u v w x y z s t) end.
    assert (He : mtcp_close ac i m = Ok (Errno EINVAL) m) by done.
    unfold mret, M_ret. by rewrite (on_manager_same cpu _ p a m _ Hm He).
Qed.

Lemma close_loop_nothing cpu n p a m c : g_mtcp p !! cpu = Some (a, m) -> contexts p !! a = Some c -> done c = true ->
  forall i, 0 <= i -> sockets_there (i + Z.of_nat n) m -> for_cpus (close_socket su cpu) i n p = Ok tt p.
Proof using.
  intros Hm Hc Hd. induction n as [|n IH]; intros i H0 Hs; cbn [for_cpus]; [done|].
  unfold mbind, M_bind. rewrite (close_socket_nothing cpu i p a m c Hm Hc Hd) by (apply Hs; lia).
  apply IH; [lia|]. intros j Hj. apply Hs. lia.
Qed.

(** The thread is asked to stop. *)
Definition asked_to_stop (p : process) (cpu : Z) : Prop :=
  exists a m c, g_mtcp p !! cpu = Some (a, m) /\ contexts p !! a = Some c /\ loop_goes_on c m = false.

Lemma stopping p cpu : threads_inv p -> threads p !! cpu = Some Looping -> asked_to_stop p cpu ->
  exists a c, has_context p cpu a c /\ has_logger p cpu /\ cpu ∉ creating p /\ cpu ∈ running p /\
    (exit c = true \/ done c = true).
Proof using.
  intros Hi Ht (a & m & c & Hm & Hc & Hg). pose proof (ti_cores _ Hi cpu) as Hk. unfold core_ok in Hk. rewrite Ht in Hk.
  destruct Hk as (a' & c' & Hx & Hl & Hk). pose proof Hx as (_ & Hc' & _ & m' & Hm' & _).
  assert (a' = a) as -> by congruence. assert (c' = c) as -> by congruence.
  unfold loop_goes_on in Hg. exists a, c. destruct Hk as [(_ & _ & _ & _ & H1 & H2)|[H1 H2]].
  - by rewrite H1, H2 in Hg.
  - split_and!; try done. destruct (exit c); [by left|right]. by destruct (done c).
Qed.

(** The state in which [mtcp_free_context] waits for the log thread. *)
Definition stopped (p : process) (cpu a : Z) (c : thread_ctx) : process :=
  let q := p <| contexts ::= <[a := c <| done := true |>]> |> <| running ::= fun r => r ∖ {[cpu]} |> in
  let q := if mtcp_master p =? cpu then q <| mtcp_master := next_master su cpu q |> else q in
  q <| threads ::= <[cpu := Freeing]> |>.

Lemma free_begin_run cpu p a c : has_context p cpu a c -> has_logger p cpu -> exit c = true \/ done c = true ->
  free_begin su cpu p = Ok tt (stopped p cpu a c).
Proof using.
  intros (Hp & Hc & _ & m & Hm & Hs) (l & Hl & Hll) Hor.
  assert (Hloop : whenM (negb (exit c)) (for_cpus (close_socket su cpu) 0 (Z.to_nat (max_concurrency (su_config su)))) p = Ok tt p).
  { unfold whenM. destruct (exit c) eqn:He; cbn [negb]; [done|]. destruct Hor as [|Hd]; [done|].
    eapply close_loop_nothing; [done|done|done|lia|]. intros j Hj. apply Hs. lia. }
  unfold free_begin, pctx, set_context, context_at, mbind, M_bind, get, unwrap, modify, mret, M_ret.
  rewrite Hp, Hc, Hloop, Hc.
  unfold stopped, whenM. cbn. destruct (mtcp_master p =? cpu); cbn; rewrite Hl; by rewrite bool_decide_true.
Qed.

Lemma stopped_inv p cpu a c : threads_inv p -> threads p !! cpu = Some Looping -> has_context p cpu a c -> has_logger p cpu ->
  cpu ∉ creating p -> threads_inv (stopped p cpu a c).
Proof using.
  intros Hi Ht Hx Hl Hcr. pose proof Hx as (_ & _ & Hcpu & _).
  assert (Hi1 : threads_inv (p <| contexts ::= <[a := c <| done := true |>]> |>) /\
    has_context (p <| contexts ::= <[a := c <| done := true |>]> |>) cpu a (c <| done := true |>)).
  { apply (flag_inv p cpu a c); try done. by intros (? & _). }
  destruct Hi1 as [Hi1 Hx1]. set (p1 := p <| contexts ::= _ |>) in *.
  assert (Hq : forall q, g_pctx q = g_pctx p1 -> g_mtcp q = g_mtcp p1 -> contexts q = contexts p1 ->
    loggers q = loggers p1 -> g_logctx q = g_logctx p1 -> g_init_sem q = g_init_sem p1 -> handles q = handles p1 ->
    creating q = creating p1 -> running q = running p1 ∖ {[cpu]} -> threads q = <[cpu := Freeing]> (threads p1) ->
    fresh_addr q = fresh_addr p1 -> threads_inv q).
  { intros q E1 E2 E3 E4 E5 E6 E7 E8 E9 E10 E11. apply (inv_update p1 _ cpu Hi1); rewrite ?E2, ?E3, ?E5, ?E11; try apply Hi1.
    - intros i Hn. split_and!; rewrite ?E1, ?E2, ?E3, ?E4, ?E5, ?E6, ?E7, ?E8, ?E9, ?E10; rewrite ?lookup_insert_ne by congruence; try done; set_solver.
    - unfold core_ok. rewrite E10, lookup_insert_eq. exists a, (c <| done := true |>). unfold has_context, has_logger.
      rewrite E1, E2, E3, E4, E5, E8, E9. split; [exact Hx1|]. split; [exact Hl|]. split; [exact Hcr|set_solver].
    - intros i. rewrite E8, E9. intros [[Hr _]%elem_of_difference|Hr]; apply (ti_range _ Hi1); auto. }
  unfold stopped. cbv zeta. fold p1. destruct (mtcp_master p =? cpu); by apply Hq.
Qed.

Lemma release_run cpu r p R l : R !! cpu = Some l ->
  release cpu r (p <| released := R |>) = Ok tt (p <| released := <[cpu := l ++ [r]]> R |>).
Proof using.
  intros Hl. unfold release, modify.
  assert (E : alter (fun l => l ++ [r]) cpu R = <[cpu := l ++ [r]]> R).
  { apply map_eq. intros k. destruct (decide (k = cpu)) as [->|Hn]; [by rewrite lookup_alter_eq, Hl, lookup_insert_eq|].
    by rewrite lookup_alter_ne, lookup_insert_ne by congruence. }
  rewrite <- E. done.
Qed.

Lemma release_all_run cpu rs : forall p R l, R !! cpu = Some l ->
  release_all cpu rs (p <| released := R |>) = Ok tt (p <| released := <[cpu := l ++ rs]> R |>).
Proof using.
  induction rs as [|r rs IH]; intros p R l Hl; cbn [release_all].
  - rewrite app_nil_r, insert_id by done. done.
  - unfold mbind, M_bind. rewrite (release_run _ _ _ _ _ Hl). rewrite (IH p _ (l ++ [r])) by by rewrite lookup_insert_eq.
    by rewrite insert_insert_eq, <- app_assoc.
Qed.

(** What the thread gave back, and the state in which it has ended. *)
Definition all_resources (m : mtcp_manager) : list resource :=
  manager_resources m ++ [RHandle; RContext; RLogger; RTable 0; RTable 1].

Definition freed (p : process) (cpu a : Z) (m : mtcp_manager) (l : Z) : process :=
  p <| released ::= <[cpu := all_resources m]> |>
    <| g_mtcp ::= <[cpu := (a, m <| ap := None |>)]> |> <| contexts ::= delete a |>
    <| loggers ::= fun s => s ∖ {[l]} |> <| g_logctx ::= delete cpu |>
    <| g_pctx ::= delete cpu |> <| threads ::= <[cpu := Ended]> |>.

Lemma free_end_run cpu p a c m l : g_pctx p !! cpu = Some a -> contexts p !! a = Some c -> g_mtcp p !! cpu = Some (a, m) ->
  g_logctx p !! cpu = Some l -> free_end cpu p = Ok tt (freed p cpu a m l).
Proof using.
  intros Hp Hc Hm Hl. unfold free_end, pctx. unfold mbind, M_bind, get, unwrap, mret, M_ret. rewrite Hp, Hm. cbn [fst snd].
  unfold modify at 1.
  change (p <| released ::= <[cpu := []]> |>) with (p <| released := <[cpu := []]> (released p) |>).
  rewrite (release_all_run cpu _ p _ []) by by rewrite lookup_insert_eq. rewrite insert_insert_eq. cbn [app].
  unfold modify at 1. set (p1 := p <| g_mtcp ::= <[cpu := (a, m <| ap := None |>)]> |>).
  set (R1 := <[cpu := manager_resources m]> (released p)).
  change (p <| released := R1 |> <| g_mtcp ::= <[cpu := (a, m <| ap := None |>)]> |>) with (p1 <| released := R1 |>).
  rewrite (release_run cpu RHandle p1 R1 (manager_resources m)) by by unfold R1; rewrite lookup_insert_eq.
  unfold context_at, mbind, M_bind, get, unwrap, mret, M_ret.
  match goal with |- context [contexts ?q !! a] => change (contexts q) with (contexts p) end. rewrite Hc. unfold modify at 1.
  set (p2 := p1 <| contexts ::= delete a |>). set (R2 := <[cpu := manager_resources m ++ [RHandle]]> R1).
  change (p1 <| released := R2 |> <| contexts ::= delete a |>) with (p2 <| released := R2 |>).
  rewrite (release_run cpu RContext p2 R2 (manager_resources m ++ [RHandle])) by by unfold R2; rewrite lookup_insert_eq.
  match goal with |- context [g_logctx ?q !! cpu] => change (g_logctx q) with (g_logctx p) end.
  rewrite Hl. set (R3 := <[cpu := (manager_resources m ++ [RHandle]) ++ [RContext]]> R2).
  rewrite (release_run cpu RLogger p2 R3 ((manager_resources m ++ [RHandle]) ++ [RContext])) by by unfold R3; rewrite lookup_insert_eq.
  set (R4 := <[cpu := ((manager_resources m ++ [RHandle]) ++ [RContext]) ++ [RLogger]]> R3).
  unfold modify at 1. unfold modify at 1.
  set (p3 := p2 <| loggers ::= fun s => s ∖ {[l]} |> <| g_logctx ::= delete cpu |> <| g_pctx ::= delete cpu |>).
  match goal with |- context [release cpu (RTable 0) ?q] => change q with (p3 <| released := R4 |>) end.
  rewrite (release_run cpu (RTable 0) p3 R4 _ (lookup_insert_eq _ _ _)), (release_run cpu (RTable 1) p3 _ _ (lookup_insert_eq _ _ _)).
  unfold R4, R3, R2, R1, freed, all_resources. rewrite !insert_insert_eq, <- !app_assoc. done.
Qed.

Lemma freed_inv p cpu a c m l : threads_inv p -> threads p !! cpu = Some Freeing -> has_context p cpu a c ->
  g_mtcp p !! cpu = Some (a, m) -> g_logctx p !! cpu = Some l -> cpu ∉ creating p -> cpu ∉ running p ->
  threads_inv (freed p cpu a m l).
Proof using.
  intros Hi Ht Hx Hm Hl Hcr Hru. pose proof Hx as (_ & Hc & Hcpu & _).
  apply (inv_update p _ cpu Hi); cbn; try apply Hi.
  - intros i Hn. split_and!; cbn; rewrite ?lookup_insert_ne, ?lookup_delete_ne by congruence; try done.
    + intros b m' Hb. rewrite lookup_delete_ne; [done|]. intros <-. pose proof (ti_owner _ Hi _ _ _ _ Hb Hc). congruence.
    + intros l' Hl'. rewrite elem_of_difference, elem_of_singleton. split; [by intros [? _]|]. intros Hin. split; [done|].
      intros ->. apply Hn. by eapply (ti_own_logger _ Hi).
  - unfold core_ok. cbn. rewrite lookup_insert_eq. split_and!; try done; [apply lookup_delete_eq|].
    eexists _, _. rewrite lookup_insert_eq. split; [done|]. apply lookup_delete_eq.
  - intros b d. rewrite lookup_delete_Some. intros [_ ?]. by eapply (ti_contexts _ Hi).
  - intros i b m'. rewrite lookup_insert_Some. intros [[_ [= <- _]]|[_ Hb]]; by eapply (ti_managers _ Hi).
  - intros i l'. rewrite lookup_delete_Some. intros [_ ?]. by eapply (ti_loggers _ Hi).
  - intros i j l'. rewrite !lookup_delete_Some. intros [_ ?] [_ ?]. by eapply (ti_own_logger _ Hi).
  - intros i b m' d. rewrite lookup_insert_Some, lookup_delete_Some. intros [[_ [= <- _]]|[_ Hb]] [? ?]; [done|]. by eapply (ti_owner _ Hi).
Qed.

(** ** Properties *)

Lemma never_may e {A} (f : MP A) (Q : A -> process -> Prop) p : wpe never f Q p -> wpe (may_fault e) f Q p.
Proof using. unfold wpe. destruct (f p); [done|]. intros []. Qed.

Lemma then_done E {A} (f : MP A) (Q : process -> Prop) p : wpe E f (fun _ => Q) p -> wpe E (f;; mret tt) (fun _ => Q) p.
Proof using. intros Hf. rewrite wpe_bind. eapply wpe_mono; [exact Hf|]. intros a p' Hp. by rewrite wpe_ret. Qed.

Lemma freeing p cpu : threads_inv p -> threads p !! cpu = Some Freeing ->
  exists a c m l, has_context p cpu a c /\ g_mtcp p !! cpu = Some (a, m) /\ g_logctx p !! cpu = Some l /\
    cpu ∉ creating p /\ cpu ∉ running p.
Proof using.
  intros Hi Ht. pose proof (ti_cores _ Hi cpu) as Hk. unfold core_ok in Hk. rewrite Ht in Hk.
  destruct Hk as (a & c & Hx & (l & Hl & _) & Hcr & Hru). pose proof Hx as (_ & _ & _ & m & Hm & _).
  by exists a, c, m, l.
Qed.

Lemma pevent_ok e p : su_num_cores su <= MAX_CPUS -> su_num_cores su <= su_num_cpus su -> threads_inv p -> penabled e p ->
  wpe (may_fault e) (run_pevent e) (fun _ => threads_inv) p.
Proof using.
  intros H1 H2 Hi He. destruct e as [cpu e|cpu ok al pools id arpm att|cpu|cpu m|sig core now later|n h s|cpu|cpu|cpu];
    cbn [penabled run_pevent] in *; try apply then_done.
  - apply never_may. destruct He. by apply create_begin_inv.
  - by apply thread_start_inv.
  - apply never_may. destruct He. by apply create_end_inv.
  - apply never_may. destruct He. by apply work_inv.
  - apply never_may. eapply wpe_mono; [by apply HandleSignal_ok|]. by intros r p' (? & _).
  - apply never_may. unfold mtcp_register_signal. pwp; [|done]. apply (inv_update p _ 0 Hi); cbn; try apply Hi. others.
  - apply never_may. by apply mtcp_destroy_context_inv.
  - destruct He as [Ht Ha]. destruct (stopping p cpu Hi Ht Ha) as (a & c & Hx & Hl & Hcr & Hru & Hor).
    unfold wpe. rewrite (free_begin_run cpu p a c) by done. by apply stopped_inv.
  - destruct (freeing p cpu Hi He) as (a & c & m & l & Hx & Hm & Hl & Hcr & Hru).
    unfold wpe. rewrite (free_end_run cpu p a c m l) by (done || apply Hx). by eapply freed_inv.
Qed.

Lemma reachable_inv p p' : su_num_cores su <= MAX_CPUS -> su_num_cores su <= su_num_cpus su -> threads_inv p ->
  rtc pstep p p' -> threads_inv p'.
Proof using.
  intros H1 H2 Hi Hr. revert Hi. induction Hr as [|p p1 p' [e He E] _ IH]; intros Hi; [done|]. apply IH.
  pose proof (pevent_ok e p H1 H2 Hi He) as Hk. unfold wpe in Hk. by rewrite E in Hk.
Qed.

(** Resources of different kinds are different. *)
Ltac apart Hx :=
  rewrite ?elem_of_cons, ?elem_of_app, ?list_elem_of_fmap, ?elem_of_cons;
  let E := fresh in intros E; destruct_or? E; try done; try (by destruct E as (? & ? & _));
  try (by apply Hx in E); try (by apply not_elem_of_nil in E).

Lemma resources_NoDup m : NoDup (all_resources m).
Proof using.
  unfold all_resources.
  assert (Hinj : forall (A : Type) (f : A -> resource) (l : list A), (forall x y, f x = f y -> x = y) -> NoDup l -> NoDup (f <$> l))
    by (intros A f l Hf Hl; by apply NoDup_fmap_2).
  unfold manager_resources. set (o := if bool_decide (ap m = None) then [] else [RAddrPool]).
  assert (Ho : NoDup o /\ forall x, x ∈ o -> x = RAddrPool).
  { unfold o. case_bool_decide; split; try (by constructor); [by intros x ?%not_elem_of_nil|apply NoDup_singleton|].
    by intros x ?%list_elem_of_singleton. }
  destruct Ho as [Ho Hx]. rewrite <- !app_assoc. cbn [app]. rewrite <- !app_assoc.
  apply list.NoDup_app. split_and!; [by apply Hinj; [by intros ? ? [= ]|apply NoDup_seq]| |].
  { intros x (k & -> & _)%list_elem_of_fmap. apart Hx. }
  apply list.NoDup_cons. split.
  { apart Hx. match goal with E : exists _, _ |- _ => destruct E as (k & [= <-] & Hk%elem_of_seqZ); lia end. }
  apply list.NoDup_app. split_and!; [by apply Hinj; [by intros ? ? [= ]|apply NoDup_seqZ]| |].
  { intros x (k & -> & _)%list_elem_of_fmap. apart Hx. }
  apply list.NoDup_app. split_and!; [by apply Hinj; [by intros ? ? [= ]|apply NoDup_seq]| |].
  { intros x (k & -> & _)%list_elem_of_fmap. apart Hx. }
  apply list.NoDup_app. split_and!; [done|by intros x ->%Hx; apart Hx|].
  apply (bool_decide_unpack _). vm_compute. exact I.
Qed.

(** C14: the life of the threads.  In every history of creations, starts, signals and ends
    of threads, a core that is marked as running has an allocated context and its thread is
    in the main loop, and whatever event comes next, no null pointer is followed and no freed
    context or logger is touched; only the creation of a manager can fail. *)
Theorem threads_safe (p : process) :
  su_num_cores su <= MAX_CPUS -> su_num_cores su <= su_num_cpus su -> rtc pstep zero_process p ->
  (forall i, i ∈ running p -> 0 <= i < su_num_cores su /\ threads p !! i = Some Looping /\
     exists a c, g_pctx p !! i = Some a /\ contexts p !! a = Some c) /\
  forall e, penabled e p -> wpe (may_fault e) (run_pevent e) (fun _ p' => rtc pstep zero_process p') p.
Proof using.
  intros H1 H2 Hr. pose proof (reachable_inv _ _ H1 H2 zero_inv Hr) as Hi. split.
  - intros i Hru. destruct (running_context p i Hi Hru) as (a & c & (Ha & Hc & _) & Ht).
    split; [by apply Hi; left|]. split; [done|]. by exists a, c.
  - intros e He. pose proof (pevent_ok e p H1 H2 Hi He) as Hk. unfold wpe in *.
    destruct (run_pevent e p) as [[] p'|f] eqn:E; [|done]. eapply rtc_r; [exact Hr|]. by econstructor.
Qed.

(** C23: signals.  Handling a signal does not fail; after SIGINT every thread that runs is
    asked to exit, if the process is one of several, if it is not the first one and a later
    second, or if the application has no handler; and the main loop of a thread that is
    asked to exit ends. *)
Theorem HandleSignal_stops (sig core now later : Z) (p : process) :
  su_num_cores su <= MAX_CPUS -> su_num_cores su <= su_num_cpus su -> rtc pstep zero_process p ->
  0 <= core < MAX_CPUS ->
  exists r p', HandleSignal su sig core now later p = Ok r p' /\
    r = (if sig =? SIGUSR1 then None else app_signal_handler p) /\
    (asks sig core now p = true -> forall i, i ∈ running p -> penabled (EStop i) p').
Proof using.
  intros H1 H2 Hr Hc. pose proof (reachable_inv _ _ H1 H2 zero_inv Hr) as Hi.
  pose proof (HandleSignal_ok sig core now later p H2 Hi Hc) as Hk. unfold wpe in Hk.
  destruct (HandleSignal su sig core now later p) as [r p'|] eqn:E; [|done]. destruct Hk as (Hi' & Er & Ha & ->).
  eexists _, p'. split; [done|]. split; [done|]. intros Hs i Hru. destruct (Ha Hs i Hru) as (a & c & Hx & He).
  destruct Hx as (Hp & Hx & _ & m & Hm & _). cbn. split; [|exists a, m, c; unfold loop_goes_on; by rewrite He, andb_false_r].
  rewrite <- Er in Hru. by destruct (running_context p' i Hi' Hru) as (? & ? & _ & ?).
Qed.

Lemma next_master_runs cpu q i : 0 <= i < su_num_cpus su -> i <> cpu -> i ∈ running q -> next_master su cpu q ∈ running q.
Proof using.
  intros Hi Hn Hr. unfold next_master.
  destruct (list_find_elem_of (fun i => i <> cpu /\ i ∈ running q) (seqZ 0 (su_num_cpus su)) i) as [[k j] Hj];
    [by apply elem_of_seqZ; lia|done|].
  rewrite Hj. by apply list_find_Some in Hj as (_ & [_ ?] & _).
Qed.


(** *** A creator that waits for ever *)

(** Code that leaves the threads where they are. *)
Definition same_threads (p p' : process) : Prop := threads p' = threads p.

#[local] Instance same_threads_pre : PreOrder same_threads.
Proof. split; [done|]. intros p q r Hpq Hqr. unfold same_threads in *. congruence. Qed.

#[local] Abbreviation stays := (stable (fun _ => True) (fun _ => True) same_threads).

Lemma stays_for_cpus f n : (forall i, stays (f i)) -> forall i, stays (for_cpus f i n).
Proof using. intros Hf. induction n as [|n IH]; intros i; cbn [for_cpus]; stab; auto. Qed.

Lemma stays_flag f i : stays (flag_running f i).
Proof using. unfold flag_running, pctx, set_context, context_at. by stab. Qed.

Lemma stays_HandleSignal sig core now later : stays (HandleSignal su sig core now later).
Proof using.
  unfold HandleSignal, ask_exit, ask_interrupt, all_cpus.
  stab; try done; apply stays_for_cpus; apply stays_flag.
Qed.

(** A step of another core. *)
Definition keeps_thread (cpu : Z) (p : process) : MP unit -> Prop := fun f =>
  wpe (fun _ => True) f (fun _ p' => threads p' !! cpu = threads p !! cpu) p.

Lemma stays_keeps {A} (f : MP A) cpu p : stays f -> keeps_thread cpu p (f;; mret tt).
Proof using.
  intros Hf. unfold keeps_thread. rewrite wpe_bind. eapply wpe_mono; [by apply Hf|]. cbn beta. intros _ p' [_ E]. rewrite wpe_ret. by rewrite E.
Qed.

Lemma failed_step p p' cpu : threads_inv p -> threads p !! cpu = Some Failed -> pstep p p' -> threads p' !! cpu = Some Failed.
Proof using.
  intros Hi Ht [e He E]. pose proof (ti_cores _ Hi cpu) as Hk. unfold core_ok in Hk. rewrite Ht in Hk.
  destruct Hk as (Hcr & Hru & Hh & a & c & Hx & Hs & (l & Hl & _)).
  assert (Hw : keeps_thread cpu p (run_pevent e)); [|unfold keeps_thread, wpe in Hw; rewrite E in Hw; congruence].
  destruct e as [k e|k ok al pools id arpm att|k|k m|sig core now later|n h s|k|k|k]; cbn [penabled run_pevent] in *.
  - unfold keeps_thread, create_begin, new_addr. pwp; try done. assert (k <> cpu) by congruence. cbn. by rewrite lookup_insert_ne.
  - assert (k <> cpu) by congruence. unfold keeps_thread, thread_start, new_addr. pwp; try done; cbn; by rewrite lookup_insert_ne.
  - unfold keeps_thread, create_end. by pwp.
  - unfold keeps_thread, work. by pwp.
  - by apply stays_keeps, stays_HandleSignal.
  - unfold keeps_thread, mtcp_register_signal. by pwp.
  - unfold keeps_thread, mtcp_destroy_context, set_context, context_at. by pwp.
  - destruct He as [Hk Ha]. destruct (stopping p k Hi Hk Ha) as (b & d & Hb & Hlb & _ & _ & Hor).
    unfold keeps_thread, wpe. rewrite (free_begin_run k p b d) by done. assert (k <> cpu) by congruence.
    unfold stopped. cbv zeta. destruct (_ =? k); cbn; by rewrite lookup_insert_ne.
  - destruct (freeing p k Hi He) as (b & d & m & lg & Hb & Hm & Hlg & _ & _).
    unfold keeps_thread, wpe. rewrite (free_end_run k p b d m lg) by (done || apply Hb). assert (k <> cpu) by congruence.
    cbn. by rewrite lookup_insert_ne.
Qed.

(** C24: a device that is not attached.  When [AttachDevice] fails, the thread returns
    without posting the semaphore: whatever happens afterwards, [mtcp_create_context] for
    this core does not return. *)
Theorem attach_failure_blocks (cpu : Z) (p p' : process) :
  su_num_cores su <= MAX_CPUS -> su_num_cores su <= su_num_cpus su -> rtc pstep zero_process p ->
  threads p !! cpu = Some Failed -> rtc pstep p p' ->
  cpu ∈ creating p' /\ cpu ∉ running p' /\ ~ penabled (ECreated cpu) p'.
Proof using.
  intros H1 H2 Hr Ht Hs. pose proof (reachable_inv _ _ H1 H2 zero_inv Hr) as Hi.
  assert (H' : threads_inv p' /\ threads p' !! cpu = Some Failed).
  { clear Hr. revert Hi Ht. induction Hs as [|p p1 p' Hp _ IH]; intros Hi Ht; [done|]. apply IH; [|by eapply failed_step].
    eapply reachable_inv; [done|done|exact Hi|]. by apply rtc_once. }
  destruct H' as [Hi' Ht']. pose proof (ti_cores _ Hi' cpu) as Hk. unfold core_ok in Hk. rewrite Ht' in Hk.
  destruct Hk as (Hcr & Hru & _ & a & c & _ & Hse & _). split_and!; [done|done|].
  intros [_ (n & Hn & H0)]. rewrite Hse in Hn. injection Hn as <-. lia.
Qed.
End Life.

(** ** A process with two threads *)

Definition demo_setup : setup := Setup 2 2 false 2 false demo_config.

Definition all_fine : create_env := CreateEnv true true true true true.

Definition demo_thread (cpu : Z) (attached : bool) : pevent :=
  EThread cpu true (good_allocs demo_blocks demo_sizes) ∅ 0 [] attached.

Definition demo_next (e : pevent) (p : process) : process :=
  match run_pevent demo_setup e p with Ok _ p' => p' | Fault _ => p end.

Definition demo_run (l : list pevent) (p : process) : process := fold_left (fun p e => demo_next e p) l p.

(** Both threads run. *)
Definition demo_start (cpu : Z) : list pevent := [ECreate cpu all_fine; demo_thread cpu true; ECreated cpu].
Definition demo_two : process := demo_run (demo_start 0 ++ demo_start 1) zero_process.

(** The first one has ended before the second one is created. *)
Definition demo_interrupted : list pevent := demo_start 0 ++ [ESignal SIGINT 0 0 0; EStop 0].
Definition demo_late : process := demo_run (demo_interrupted ++ EFree 0 :: demo_start 1) zero_process.

(** Whether an event is enabled, for the events of these histories. *)
Definition can (e : pevent) (p : process) : bool :=
  match e with
  | ECreate cpu _ => (0 <=? cpu) && negb (bool_decide (cpu ∈ handles p))
  | EThread cpu _ _ _ _ _ _ => bool_decide (threads p !! cpu = Some Started)
  | ECreated cpu => bool_decide (cpu ∈ creating p) && (0 <? default 0 (g_init_sem p !! cpu))
  | ESignal _ core _ _ => (0 <=? core) && (core <? MAX_CPUS)
  | EStop cpu => bool_decide (threads p !! cpu = Some Looping) &&
      match g_mtcp p !! cpu with
      | Some (a, m) => match contexts p !! a with Some c => negb (loop_goes_on c m) | None => false end
      | None => false
      end
  | EFree cpu => bool_decide (threads p !! cpu = Some Freeing)
  | _ => false
  end.

Lemma can_enabled e p : can e p = true -> penabled demo_setup e p.
Proof.
  destruct e; cbn; rewrite ?andb_true_iff, ?negb_true_iff, ?bool_decide_eq_true, ?bool_decide_eq_false, ?Z.leb_le, ?Z.ltb_lt; try done.
  - intros [Hc Hs]. split; [done|]. destruct (g_init_sem p !! cpu) as [n|]; [|done]. by exists n.
  - intros [Ht Hg]. split; [done|]. destruct (g_mtcp p !! cpu) as [[a m]|]; [|done].
    destruct (contexts p !! a) as [c|] eqn:Hc; [|done]. exists a, m, c. by apply negb_true_iff in Hg.
Qed.

(** The events of the list are enabled one after the other and do not fail. *)
Fixpoint feasible (l : list pevent) (p : process) : bool :=
  match l with
  | [] => true
  | e :: l' => can e p && match run_pevent demo_setup e p with Ok _ _ => true | Fault _ => false end && feasible l' (demo_next e p)
  end.

Lemma feasible_run l : forall p, feasible l p = true -> rtc (pstep demo_setup) p (demo_run l p).
Proof.
  induction l as [|e l IH]; intros p Hf; [done|]. cbn in Hf. apply andb_true_iff in Hf as [[Hc Hr]%andb_true_iff Hf].
  eapply rtc_l; [|by apply IH]. apply (pstep_event _ _ _ e); [by apply can_enabled|]. unfold demo_next.
  by destruct (run_pevent demo_setup e p) as [[] ?|].
Qed.

Lemma demo_two_reached : rtc (pstep demo_setup) zero_process demo_two.
Proof. apply feasible_run. vm_compute. reflexivity. Qed.

(** The master is the dead core 0, although core 1 runs: no thread expires the ARP queue. *)
Lemma master_lost : rtc (pstep demo_setup) zero_process demo_late /\
  running demo_late = {[1]} /\ mtcp_master demo_late = 0.
Proof. split_and!; [|vm_compute; reflexivity..]. apply feasible_run. vm_compute. reflexivity. Qed.

(** *** Witnesses *)

Lemma threads_safe_witness :
  running demo_two = {[0; 1]} /\
  (forall i, i ∈ running demo_two -> 0 <= i < 2 /\ threads demo_two !! i = Some Looping /\
     exists a c, g_pctx demo_two !! i = Some a /\ contexts demo_two !! a = Some c).
Proof.
  split; [vm_compute; reflexivity|].
  exact (proj1 (threads_safe demo_setup demo_two ltac:(vm_compute; discriminate) ltac:(vm_compute; discriminate) demo_two_reached)).
Defined.

Lemma HandleSignal_stops_witness : exists r p', HandleSignal demo_setup SIGINT 0 100 100 demo_two = Ok r p' /\
  penabled demo_setup (EStop 0) p' /\ penabled demo_setup (EStop 1) p'.
Proof.
  destruct (HandleSignal_stops demo_setup SIGINT 0 100 100 demo_two ltac:(vm_compute; discriminate) ltac:(vm_compute; discriminate)
    demo_two_reached ltac:(split; vm_compute; [discriminate|reflexivity])) as (r & p' & E & _ & Hs).
  assert (Ha : asks demo_setup SIGINT 0 100 demo_two = true) by (vm_compute; reflexivity).
  exists r, p'. split; [exact E|].
  split; apply (Hs Ha); apply (bool_decide_unpack _); vm_compute; exact I.
Defined.

Definition demo_asked : process := demo_run (demo_start 0 ++ demo_start 1 ++ [ESignal SIGINT 0 0 0]) zero_process.


(** A device that cannot be attached. *)
Definition demo_failed : process := demo_run [ECreate 0 all_fine; demo_thread 0 false] zero_process.

Lemma attach_failure_blocks_witness : 0 ∈ creating (demo_run (demo_start 1) demo_failed) /\
  0 ∉ running (demo_run (demo_start 1) demo_failed) /\
  ~ penabled demo_setup (ECreated 0) (demo_run (demo_start 1) demo_failed).
Proof.
  assert (Hr : rtc (pstep demo_setup) zero_process demo_failed) by (apply feasible_run; vm_compute; reflexivity).
  assert (Hs : rtc (pstep demo_setup) demo_failed (demo_run (demo_start 1) demo_failed)) by (apply feasible_run; vm_compute; reflexivity).
  assert (Hf : threads demo_failed !! 0 = Some Failed) by (vm_compute; reflexivity).
  exact (attach_failure_blocks demo_setup 0 demo_failed _ ltac:(vm_compute; discriminate) ltac:(vm_compute; discriminate) Hr Hf Hs).
Defined.
