(* ===== verification/Logger.v ===== *)
(** * The log of a thread ([logger.c], and the printing part of [debug.c])

    A thread of the stack prints into a buffer; full buffers go through a queue to the log
    thread of the core, which writes them to the file and gives them back.  The two threads
    share the queues under two locks: the steps of the model are the critical sections and
    what a thread does between them.

    In every interleaving each buffer is in one place, the counters are the lengths of the
    queues, and the file is a prefix of what was printed unless the log thread lost a buffer
    at its limit; once the thread of the stack has flushed and set [done], the log thread
    ends and the file is complete. *)

From S2P Require Import Prelude.

(** [LOG_BUFF_SIZE], [NUM_LOG_BUFF] and [PRINT_LIMIT] *)
Record sizes := Sizes { LOG_BUFF_SIZE : Z; NUM_LOG_BUFF : Z; PRINT_LIMIT : Z }.

Definition code_sizes : sizes := Sizes (256 * 1024) 100 4096.

Inductive log_state := IDLE_LOGT | ACTIVE_LOGT.

#[export] Instance log_state_eq : EqDecision log_state.
Proof. solve_decision. Defined.

(** [struct log_buff]; [buff] is its memory. *)
Record log_buff := LogBuff { buff_len : Z; buff : list Z }.

#[export] Instance log_buff_eta : Settable log_buff := fun b => LogBuff (buff_len b) (buff b).

(** Where the log thread is: at the test of [done], before the next job of a loop, with a
    buffer to write or to give back, at the test of the state, or at its end.  The flag says
    that it is in the last loop. *)
Inductive log_pc :=
| Outer
| Take (final : bool) (cnt : Z)
| Writing (final : bool) (cnt b : Z)
| Giving (final : bool) (cnt b : Z)
| Waiting
| Finished.

#[export] Instance log_pc_eq : EqDecision log_pc.
Proof. solve_decision. Defined.

(** Where the thread of the stack is: in its main loop, after the flush at its end, and
    after [mtcp_free_context] has set [done]. *)
Inductive stack_pc := Printing | Flushed | Stopped.

#[export] Instance stack_pc_eq : EqDecision stack_pc.
Proof. solve_decision. Defined.

(** [struct log_thread_context], the buffer of the manager, the bytes in the pipe and the
    file.  [printed] is all that was printed and [lost] the buffers that the log thread
    dropped. *)
Record logs := Logs {
  buffs : gmap Z log_buff;
  free_queue : list Z;
  working_queue : list Z;
  free_buff_cnt : Z;
  job_buff_cnt : Z;
  state : log_state;
  done : bool;
  w_buffer : option Z;
  tokens : nat;
  file : list Z;
  pc : log_pc;
  spc : stack_pc;
  printed : list Z;
  lost : list Z
}.

#[export] Instance logs_eta : Settable logs :=
  fun c => Logs (buffs c) (free_queue c) (working_queue c) (free_buff_cnt c) (job_buff_cnt c) (state c)
    (done c) (w_buffer c) (tokens c) (file c) (pc c) (spc c) (printed c) (lost c).

Definition ML (A : Type) : Type := M logs A.

Section Logger.
Context (sz : sizes).

Definition buff_at (b : Z) : ML log_buff := c ← get; unwrap DanglingPointer (buffs c !! b).
Definition buff_set (b : Z) (x : log_buff) : ML unit := modify (fun c => c <| buffs ::= <[b := x]> |>).

(** [assert(ctx->free_buff_cnt + ctx->job_buff_cnt <= NUM_LOG_BUFF)] *)
Definition assert_total : ML unit :=
  c ← get; assertM (free_buff_cnt c + job_buff_cnt c <=? NUM_LOG_BUFF sz).

Definition EnqueueFreeBuffer (b : Z) : ML unit :=
  modify (fun c => c <| free_queue ::= fun q => q ++ [b] |> <| free_buff_cnt ::= Z.add 1 |>);;
  c ← get;
  assertM (free_buff_cnt c <=? NUM_LOG_BUFF sz);;
  assert_total.

Definition DequeueFreeBuffer : ML (option Z) :=
  c ← get;
  match free_queue c with
  | [] => mret tt
  | _ :: q => modify (fun c => c <| free_queue := q |> <| free_buff_cnt ::= fun n => n - 1 |>)
  end;;
  c' ← get;
  assertM (0 <=? free_buff_cnt c');;
  assert_total;;
  mret (head (free_queue c)).

Definition EnqueueJobBuffer (b : Z) : ML unit :=
  modify (fun c => c <| working_queue ::= fun q => q ++ [b] |> <| job_buff_cnt ::= Z.add 1 |>
                     <| state := ACTIVE_LOGT |>);;
  c ← get;
  assertM (job_buff_cnt c <=? NUM_LOG_BUFF sz);;
  assert_total.

Definition DequeueJobBuffer : ML (option Z) :=
  c ← get;
  match working_queue c with
  | [] => modify (fun c => c <| state := IDLE_LOGT |>)
  | _ :: q => modify (fun c => c <| working_queue := q |> <| job_buff_cnt ::= fun n => n - 1 |>)
  end;;
  c' ← get;
  assertM (0 <=? job_buff_cnt c');;
  assert_total;;
  mret (head (working_queue c)).

Definition zero_logs : logs :=
  Logs ∅ [] [] 0 0 IDLE_LOGT false None 0 [] Outer Printing [] [].

Fixpoint enqueue_all (l : list Z) : ML unit :=
  match l with [] => mret tt | b :: l' => EnqueueFreeBuffer b;; enqueue_all l' end.

(** The buffers are one block; their addresses are 1, 2, ... and [garbage] what the memory
    holds. *)
Definition InitLogThreadContext (garbage : Z -> log_buff) : ML unit :=
  let l := seqZ 1 (NUM_LOG_BUFF sz) in
  put (zero_logs <| buffs := list_to_map ((fun b => (b, garbage b)) <$> l) |>);;
  enqueue_all l.

(** The buffer stays the buffer of the manager. *)
Definition flush_log_data : ML unit :=
  c ← get;
  match w_buffer c with
  | Some b => EnqueueJobBuffer b;; modify (fun c => c <| tokens ::= S |>)
  | None => mret tt
  end.

(** [text] is what the format yields: [vsnprintf] writes at most [PRINT_LIMIT - 1] of its
    bytes and a null byte, and returns its length. *)
Definition thread_printf (text : list Z) : ML unit :=
  c ← get;
  wbuf ← (match w_buffer c with
          | Some b =>
              x ← buff_at b;
              if LOG_BUFF_SIZE sz <? buff_len x + PRINT_LIMIT sz then flush_log_data;; mret None
              else mret (Some b)
          | None => mret None
          end);
  b ← (match wbuf with
       | Some b => mret b
       | None =>
           o ← DequeueFreeBuffer;
           b ← unwrap AssertFail o;
           x ← buff_at b;
           buff_set b (x <| buff_len := 0 |>);;
           modify (fun c => c <| w_buffer := Some b |>);;
           mret b
       end);
  x ← buff_at b;
  w ← unwrap OutOfBounds (mem_write (buff x) (buff_len x) (take (Z.to_nat (PRINT_LIMIT sz - 1)) text ++ [0]));
  buff_set b (LogBuff (i32 (buff_len x + zlen text)) w);;
  modify (fun c => c <| printed ::= fun p => p ++ text |>).

(** [fwrite] of the buffer, of which [wrote] bytes reach the file. *)
Definition write_out (final : bool) (b wrote : Z) : ML unit :=
  x ← buff_at b;
  d ← unwrap OutOfBounds (mem_read (buff x) 0 (buff_len x));
  modify (fun c => c <| file ::= fun f => f ++ take (Z.to_nat wrote) d |>);;
  whenM final (assertM (wrote =? buff_len x)).

Definition goto (p : log_pc) : ML unit := modify (fun c => c <| pc := p |>).

(** One step of [ThreadLogMain]: [wrote] is the answer of [fwrite] when there is one.  A
    dequeued buffer is dropped when the limit of the loop is exceeded. *)
Definition log_step (wrote : Z) : ML unit :=
  c ← get;
  match pc c with
  | Outer => goto (Take (done c) 0)
  | Take final cnt =>
      o ← DequeueJobBuffer;
      match o with
      | None => goto (if final then Finished else Waiting)
      | Some b =>
          if NUM_LOG_BUFF sz <? cnt + 1 then
            modify (fun c => c <| lost ::= fun l => l ++ [b] |>);;
            goto (if final then Finished else Waiting)
          else goto (Writing final (cnt + 1) b)
      end
  | Writing final cnt b => write_out final b wrote;; goto (Giving final cnt b)
  | Giving final cnt b => EnqueueFreeBuffer b;; goto (Take final cnt)
  | Waiting =>
      if bool_decide (state c = IDLE_LOGT) && negb (done c) then
        modify (fun c => c <| tokens ::= Nat.pred |>);; goto Outer
      else goto Outer
  | Finished => mret tt
  end.

(** [mtcp_free_context] ends the log thread. *)
Definition log_stop : ML unit :=
  modify (fun c => c <| done := true |> <| tokens ::= S |> <| spc := Stopped |>).

End Logger.

(** ** Histories of the two threads *)

Inductive levent :=
| EPrint (text : list Z)
| EFlush
| EStop
| ELog (wrote : Z).

Section History.
Context (sz : sizes).

Definition run_levent (e : levent) : ML unit :=
  match e with
  | EPrint text => thread_printf sz text
  | EFlush => flush_log_data sz;; modify (fun c => c <| spc := Flushed |>)
  | EStop => log_stop
  | ELog wrote => log_step sz wrote
  end.

(** The thread of the stack prints lines below the limit, flushes at the end of its main
    loop and stops the log thread.  [fwrite] writes everything, and the log thread sleeps
    while the pipe is empty. *)
Definition lenabled (e : levent) (c : logs) : Prop :=
  match e with
  | EPrint text => spc c = Printing /\ zlen text < PRINT_LIMIT sz
  | EFlush => spc c = Printing
  | EStop => spc c = Flushed
  | ELog wrote =>
      match pc c with
      | Writing _ _ b => exists x, buffs c !! b = Some x /\ wrote = buff_len x
      | Waiting => state c = ACTIVE_LOGT \/ done c = true \/ (0 < tokens c)%nat
      | Finished => False
      | _ => True
      end
  end.

Inductive lstep (c c' : logs) : Prop :=
| LStep e : lenabled e c -> run_levent e c = Ok tt c' -> lstep c c'.

(** ** The invariant *)

(** The buffers in the hands of the log thread, those of them that are not written yet, and
    the buffer that the thread of the stack fills. *)
Definition held (c : logs) : list Z :=
  match pc c with Writing _ _ b | Giving _ _ b => [b] | _ => [] end.

Definition unwritten (c : logs) : list Z :=
  match pc c with Writing _ _ b => [b] | _ => [] end.

Definition filling (c : logs) : list Z :=
  match spc c with Printing => option_list (w_buffer c) | _ => [] end.

Definition text_of (m : gmap Z log_buff) (b : Z) : list Z :=
  match m !! b with Some x => take (Z.to_nat (buff_len x)) (buff x) | None => [] end.

Definition texts (m : gmap Z log_buff) (l : list Z) : list Z := concat (text_of m <$> l).

(** The buffers of a loop with the jobs that wait fit under its limit. *)
Definition room (c : logs) : Prop :=
  match pc c with
  | Take _ cnt | Writing _ cnt _ | Giving _ cnt _ => cnt + zlen (working_queue c) <= NUM_LOG_BUFF sz
  | _ => True
  end.

Definition count_ok (c : logs) : Prop :=
  match pc c with
  | Take final cnt => 0 <= cnt <= NUM_LOG_BUFF sz /\ (final = true -> done c = true /\ room c)
  | Writing final cnt _ | Giving final cnt _ => 0 < cnt <= NUM_LOG_BUFF sz /\ (final = true -> done c = true /\ room c)
  | Finished => done c = true /\ (lost c = [] -> working_queue c = [])
  | _ => True
  end.

Definition buff_ok (x : log_buff) : Prop :=
  zlen (buff x) = LOG_BUFF_SIZE sz.

Record log_inv (c : logs) : Prop := {
  li_places : Permutation (free_queue c ++ working_queue c ++ held c ++ filling c ++ lost c) (seqZ 1 (NUM_LOG_BUFF sz));
  li_free : free_buff_cnt c = zlen (free_queue c);
  li_jobs : job_buff_cnt c = zlen (working_queue c);
  li_buffs : forall b, 1 <= b <= NUM_LOG_BUFF sz -> exists x, buffs c !! b = Some x /\ buff_ok x;
  li_lens : forall b, b ∈ unwritten c ++ working_queue c ++ filling c ->
    exists x, buffs c !! b = Some x /\ 0 <= buff_len x <= LOG_BUFF_SIZE sz;
  li_done : done c = true <-> spc c = Stopped;
  li_count : count_ok c;
  li_text : lost c = [] -> file c ++ texts (buffs c) (unwritten c ++ working_queue c ++ filling c) = printed c
}.

Record sizes_ok : Prop := {
  so_limit : 0 < PRINT_LIMIT sz <= LOG_BUFF_SIZE sz;
  so_size : LOG_BUFF_SIZE sz < 2147483648;
  so_num : 0 <= NUM_LOG_BUFF sz < 2147483648
}.

(** ** Lemmas on the places of buffers *)

Lemma all_places c b : log_inv c -> b ∈ free_queue c ++ working_queue c ++ held c ++ filling c ++ lost c -> 1 <= b <= NUM_LOG_BUFF sz.
Proof using. intros H Hb. rewrite (li_places _ H) in Hb. apply elem_of_seqZ in Hb. lia. Qed.

Lemma places_apart c : log_inv c -> NoDup (free_queue c ++ working_queue c ++ held c ++ filling c ++ lost c).
Proof using. intros H. rewrite (li_places _ H). apply NoDup_seqZ. Qed.

Lemma places_total c : 0 <= NUM_LOG_BUFF sz -> log_inv c ->
  zlen (free_queue c) + zlen (working_queue c) + zlen (held c) + zlen (filling c) + zlen (lost c) = NUM_LOG_BUFF sz.
Proof using.
  intros H0 H. pose proof (Permutation_length (li_places _ H)) as E. rewrite !length_app, length_seqZ in E. unfold zlen. lia.
Qed.

Lemma unwritten_held c b : b ∈ unwritten c -> b ∈ held c.
Proof using. unfold unwritten, held. destruct (pc c); done || by intros ?%not_elem_of_nil. Qed.

Lemma texts_app m l k : texts m (l ++ k) = texts m l ++ texts m k.
Proof using. unfold texts. by rewrite fmap_app, concat_app. Qed.

Lemma texts_other m b x l : b ∉ l -> texts (<[b := x]> m) l = texts m l.
Proof using.
  intros Hb. unfold texts. f_equal. apply list_fmap_ext. intros i z Hz. unfold text_of.
  rewrite lookup_insert_ne; [done|]. intros <-. apply Hb. by eapply list_elem_of_lookup_2.
Qed.

Lemma texts_one m b x : texts (<[b := x]> m) [b] = take (Z.to_nat (buff_len x)) (buff x).
Proof using. unfold texts, text_of. cbn. by rewrite lookup_insert_eq, app_nil_r. Qed.

(** ** The steps of the log thread *)

Lemma counts c : sizes_ok -> log_inv c ->
  0 <= zlen (free_queue c) /\ 0 <= zlen (working_queue c) /\
  zlen (free_queue c) + zlen (working_queue c) + zlen (held c) + zlen (filling c) <= NUM_LOG_BUFF sz /\
  0 <= zlen (held c) /\ 0 <= zlen (filling c).
Proof using.
  intros Hs H. pose proof (places_total c (proj1 (so_num Hs)) H).
  pose proof (zlen_nonneg (free_queue c)); pose proof (zlen_nonneg (held c)); pose proof (zlen_nonneg (filling c));
    pose proof (zlen_nonneg (lost c)); pose proof (zlen_nonneg (working_queue c)). lia.
Qed.

Lemma outer_ok c : sizes_ok -> log_inv c -> pc c = Outer ->
  log_inv (c <| pc := Take (done c) 0 |>).
Proof using.
  intros Hs H Hp. pose proof (counts c Hs H) as Hc. pose proof (so_num Hs).
  destruct H as [IP IF IJ IB IL ID IC IT]. unfold held, unwritten in *. rewrite Hp in *.
  split; cbn; try done. unfold count_ok, room. cbn. split; [lia|]. intros ->. split; [done|lia].
Qed.

(** The state after the next job is taken off the queue. *)
Lemma take_none c final cnt : log_inv c -> pc c = Take final cnt -> working_queue c = [] ->
  log_inv (c <| state := IDLE_LOGT |> <| pc := if final then Finished else Waiting |>).
Proof using.
  intros [IP IF IJ IB IL ID IC IT] Hp Hw. unfold held, unwritten, count_ok in *. rewrite Hp in *.
  split; destruct final; cbn; unfold held, unwritten, count_ok; cbn; try done. destruct IC as [_ IC]. by destruct (IC eq_refl).
Qed.

Lemma take_some c final cnt b q : log_inv c -> pc c = Take final cnt -> working_queue c = b :: q -> cnt < NUM_LOG_BUFF sz ->
  log_inv (c <| working_queue := q |> <| job_buff_cnt ::= fun n => n - 1 |> <| pc := Writing final (cnt + 1) b |>).
Proof using.
  intros H Hp Hw Hc. assert (Hpl : Permutation (free_queue c ++ q ++ [b] ++ filling c ++ lost c) (seqZ 1 (NUM_LOG_BUFF sz))).
  { assert (E : held c = []) by (unfold held; by rewrite Hp). pose proof (li_places _ H) as E'. rewrite E, Hw in E'. revert E'. recount. }
  destruct H as [IP IF IJ IB IL ID IC IT]. unfold held, unwritten, count_ok, room in *. rewrite Hp, Hw in *.
  rewrite zlen_cons in *. split; cbn; try done; [lia|..].
  - unfold count_ok, room. cbn. split; [lia|]. intros Hf. destruct (proj2 IC Hf). split; [done|lia].
Qed.

Lemma take_lost c cnt b q : log_inv c -> pc c = Take false cnt -> working_queue c = b :: q ->
  log_inv (c <| working_queue := q |> <| job_buff_cnt ::= fun n => n - 1 |> <| lost ::= fun l => l ++ [b] |> <| pc := Waiting |>).
Proof using.
  intros H Hp Hw. assert (Hpl : Permutation (free_queue c ++ q ++ [] ++ filling c ++ lost c ++ [b]) (seqZ 1 (NUM_LOG_BUFF sz))).
  { assert (E : held c = []) by (unfold held; by rewrite Hp). pose proof (li_places _ H) as E'. rewrite E, Hw in E'. revert E'. recount. }
  destruct H as [IP IF IJ IB IL ID IC IT]. unfold held, unwritten, count_ok, room in *. rewrite Hp, Hw in *.
  rewrite zlen_cons in *. split; cbn; try done; [lia|..].
  - intros b' Hb. apply IL. cbn. rewrite elem_of_cons. by right.
  - intros E. by apply app_nil in E as [_ E].
Qed.

Lemma written_ok c final cnt b x : log_inv c -> pc c = Writing final cnt b -> buffs c !! b = Some x ->
  log_inv (c <| file ::= fun f => f ++ text_of (buffs c) b |> <| pc := Giving final cnt b |>).
Proof using.
  intros [IP IF IJ IB IL ID IC IT] Hp Hx. unfold held, unwritten, count_ok, room in *. rewrite Hp in *. split; cbn; try done.
  - intros b' Hb. apply IL. cbn. rewrite elem_of_cons. by right.
  - intros Hl. rewrite <- (IT Hl). rewrite <- app_assoc. done.
Qed.

Lemma given_ok c final cnt b : log_inv c -> pc c = Giving final cnt b ->
  log_inv (c <| free_queue ::= fun q => q ++ [b] |> <| free_buff_cnt ::= Z.add 1 |> <| pc := Take final cnt |>).
Proof using.
  intros H Hp. assert (Hpl : Permutation ((free_queue c ++ [b]) ++ working_queue c ++ [] ++ filling c ++ lost c) (seqZ 1 (NUM_LOG_BUFF sz))).
  { assert (E : held c = [b]) by (unfold held; by rewrite Hp). pose proof (li_places _ H) as E'. rewrite E in E'. revert E'. recount. }
  destruct H as [IP IF IJ IB IL ID IC IT]. unfold held, unwritten, count_ok, room in *. rewrite Hp in *. split; cbn; try done.
  - rewrite zlen_app, IF. unfold zlen. cbn. lia.
  - unfold count_ok, room. cbn. split; [lia|apply IC].
Qed.

Lemma woken_ok c n : log_inv c -> pc c = Waiting -> log_inv (c <| tokens := n |> <| pc := Outer |>).
Proof using.
  intros [IP IF IJ IB IL ID IC IT] Hp. unfold held, unwritten, count_ok in *. rewrite Hp in *. by split.
Qed.

(** The steps the log thread still has to make once [done] is set. *)
Definition todo (c : logs) : nat :=
  let n := (3 * length (working_queue c))%nat in
  match pc c with
  | Finished => 0
  | Take true _ => n + 1
  | Giving true _ _ | Outer => n + 2
  | Writing true _ _ | Waiting => n + 3
  | Take false _ => n + 4
  | Giving false _ _ => n + 5
  | Writing false _ _ => n + 6
  end.

(** What every step of the log thread keeps. *)
Definition progress (c c' : logs) : Prop :=
  log_inv c' /\ spc c' = spc c /\ done c' = done c /\ printed c' = printed c /\
  (done c = true -> (todo c' < todo c)%nat) /\ (room c -> room c' /\ lost c' = lost c).

Ltac wps :=
  repeat match goal with
  | |- wp (mbind _ _) _ _ => rewrite wp_bind
  | |- wp get _ _ => rewrite wp_get
  | |- wp (modify _) _ _ => rewrite wp_modify
  | |- wp (mret _) _ _ => rewrite wp_ret
  | |- wp (assertM _) _ _ => rewrite wp_assert; split; [cbn; lia|]
  end.

Lemma wp_DequeueJobBuffer c (Q : option Z -> logs -> Prop) : sizes_ok -> log_inv c ->
  (working_queue c = [] -> Q None (c <| state := IDLE_LOGT |>)) ->
  (forall b q, working_queue c = b :: q -> Q (Some b) (c <| working_queue := q |> <| job_buff_cnt ::= fun n => n - 1 |>)) ->
  wp (DequeueJobBuffer sz) Q c.
Proof using.
  intros Hs H Hn Hb. pose proof (counts c Hs H) as Hc. pose proof (li_jobs _ H) as Hj. pose proof (li_free _ H) as Hf.
  unfold DequeueJobBuffer, assert_total. rewrite wp_bind, wp_get.
  destruct (working_queue c) as [|b q] eqn:E.
  - change (zlen []) with 0 in *. wps. by apply Hn.
  - rewrite zlen_cons in *. pose proof (zlen_nonneg q). wps. by apply Hb.
Qed.

Lemma wp_EnqueueFreeBuffer c b (Q : unit -> logs -> Prop) : sizes_ok -> log_inv c -> 0 < zlen (held c) ->
  Q tt (c <| free_queue ::= fun q => q ++ [b] |> <| free_buff_cnt ::= Z.add 1 |>) -> wp (EnqueueFreeBuffer sz b) Q c.
Proof using.
  intros Hs H Hh HQ. pose proof (counts c Hs H) as Hc. pose proof (li_jobs _ H) as Hj. pose proof (li_free _ H) as Hf.
  unfold EnqueueFreeBuffer, assert_total. wps. done.
Qed.

Lemma write_out_ok c final cnt b x : sizes_ok -> log_inv c -> pc c = Writing final cnt b -> buffs c !! b = Some x ->
  wp (write_out final b (buff_len x)) (fun _ c' => c' = c <| file ::= fun f => f ++ text_of (buffs c) b |>) c.
Proof using.
  intros Hs H Hp Hx. unfold write_out, buff_at.
  destruct (li_lens _ H b) as (x' & Hx' & Hlen); [unfold unwritten; rewrite Hp; by left|]. rewrite Hx in Hx'. injection Hx' as <-.
  assert (Hok : buff_ok x).
  { destruct (li_buffs _ H b) as (y & Hy & Hok); [|congruence]. apply (all_places c); [done|]. unfold held. rewrite Hp.
    rewrite !elem_of_app. right; right; left. by left. }
  rewrite !wp_bind, wp_get, wp_unwrap. exists x. split; [done|]. rewrite wp_bind, wp_unwrap. eexists.
  split; [apply mem_read_ok; [lia|lia|unfold buff_ok in Hok; lia]|]. rewrite wp_bind, wp_modify.
  assert (Et : take (Z.to_nat (buff_len x)) (take (Z.to_nat (buff_len x)) (drop (Z.to_nat 0) (buff x))) = text_of (buffs c) b).
  { unfold text_of. rewrite Hx. cbn [Z.to_nat drop]. by rewrite take_take, Nat.min_id. }
  rewrite Et, wp_when. by split; intros _; rewrite ?wp_assert, ?Z.eqb_refl.
Qed.

Lemma log_step_ok c wrote : sizes_ok -> log_inv c -> lenabled (ELog wrote) c -> wp (log_step sz wrote) (fun _ => progress c) c.
Proof using.
  intros Hs H He. pose proof (counts c Hs H) as Hc. pose proof (so_num Hs) as Hn. unfold log_step. rewrite wp_bind, wp_get. cbn in He.
  destruct (pc c) as [|final cnt|final cnt b|final cnt b| |] eqn:Hp; unfold goto.
  - rewrite wp_modify. split_and!; try done; [by apply outer_ok|unfold todo; rewrite Hp; cbn|unfold room; cbn; intros; split; [lia|done]].
    intros ->. lia.
  - rewrite wp_bind. apply wp_DequeueJobBuffer; [done|done|..].
    + intros Hw. rewrite wp_modify. split_and!; try done; [by eapply take_none| |].
      * unfold todo. rewrite Hp, Hw. destruct final; cbn; rewrite ?Hw; cbn; lia.
      * intros _. by destruct final.
    + intros b q Hw. pose proof (li_count _ H) as Hk. unfold count_ok in Hk. rewrite Hp in Hk. destruct Hk as [Hk Hf].
      destruct (Z.ltb_spec (NUM_LOG_BUFF sz) (cnt + 1)) as [Hl|Hl].
      * destruct final; [destruct (Hf eq_refl) as [_ Hr]; unfold room in Hr; rewrite Hp, Hw, zlen_cons in Hr; pose proof (zlen_nonneg q); lia|].
        rewrite wp_bind, !wp_modify. split_and!; try done; [by eapply take_lost| |].
        -- unfold todo. rewrite Hp, Hw. cbn. lia.
        -- unfold room. rewrite Hp, Hw, zlen_cons. pose proof (zlen_nonneg q). lia.
      * rewrite wp_modify. split_and!; try done; [eapply take_some; done || lia| |].
        -- unfold todo. rewrite Hp, Hw. destruct final; cbn; rewrite ?Hw; cbn; lia.
        -- unfold room. rewrite Hp, Hw, zlen_cons. cbn. intros. split; [lia|done].
  - destruct He as (x & Hx & ->). rewrite wp_bind. eapply wp_mono; [by eapply write_out_ok|]. intros [] c' ->. rewrite wp_modify.
    split_and!; try done; [by eapply written_ok| |].
    + unfold todo. rewrite Hp. destruct final; cbn; lia.
    + unfold room. by rewrite Hp.
  - rewrite wp_bind. apply wp_EnqueueFreeBuffer; [done|done|unfold held; rewrite Hp; unfold zlen; cbn; lia|].
    rewrite wp_modify. split_and!; try done; [by apply given_ok| |].
    + unfold todo. rewrite Hp. destruct final; cbn; lia.
    + unfold room. by rewrite Hp.
  - assert (Hg : forall n, progress c (c <| tokens := n |> <| pc := Outer |>)).
    { intros n. split_and!; try done; [by apply woken_ok|]. unfold todo. rewrite Hp. cbn. lia. }
    destruct (_ && _); [rewrite wp_bind, !wp_modify; apply Hg|rewrite wp_modify; apply (Hg (tokens c))].
  - done.
Qed.

(** ** The steps of the thread of the stack *)

(** A buffer that was handed to the log thread: it is not filled any more. *)
Lemma enqueued_ok c b n wb sp : log_inv c -> spc c = Printing -> w_buffer c = Some b ->
  (sp = Printing /\ wb = None) \/ sp = Flushed ->
  log_inv (c <| working_queue ::= fun q => q ++ [b] |> <| job_buff_cnt ::= Z.add 1 |> <| state := ACTIVE_LOGT |>
             <| tokens := n |> <| w_buffer := wb |> <| spc := sp |>).
Proof using.
  intros H Hsp Hb Hw. assert (Ef : filling c = [b]) by (unfold filling; by rewrite Hsp, Hb).
  assert (Hpl : Permutation (free_queue c ++ (working_queue c ++ [b]) ++ held c ++ [] ++ lost c) (seqZ 1 (NUM_LOG_BUFF sz))).
  { pose proof (li_places _ H) as E. rewrite Ef in E. revert E. recount. }
  assert (Hfl : match sp with Printing => option_list wb | _ => [] end = []) by (by destruct Hw as [[-> ->]| ->]).
  destruct H as [IP IF IJ IB IL ID IC IT]. rewrite Ef in *.
  split; cbn; unfold filling; cbn; rewrite ?Hfl; try done.
  - rewrite zlen_app, IJ. unfold zlen. cbn. lia.
  - intros b' Hb'. apply IL. by rewrite app_nil_r in Hb'.
  - split; [intros Hd; apply ID in Hd; congruence|]. by destruct Hw as [[-> ->]| ->].
  - assert (Hd : done c = false) by (apply not_true_is_false; intros Hd; apply ID in Hd; congruence).
    unfold count_ok, room in *. cbn. destruct (pc c) as [|[] cnt|[] cnt d|[] cnt d| |]; rewrite Hd in *; try done;
      try (by destruct IC as [_ IC]; destruct (IC eq_refl)); try (by split; [apply IC|]). by destruct IC.
  - intros Hl. rewrite app_nil_r. by apply IT.
Qed.

(** A fresh buffer to fill. *)
Lemma fresh_ok c f q x : sizes_ok -> log_inv (c <| w_buffer := None |>) -> spc c = Printing -> free_queue c = f :: q -> buffs c !! f = Some x ->
  log_inv (c <| free_queue := q |> <| free_buff_cnt ::= fun n => n - 1 |> <| buffs ::= <[f := x <| buff_len := 0 |>]> |>
             <| w_buffer := Some f |>).
Proof using.
  intros Hs H Hsp Hf Hx. pose proof (places_apart _ H) as Hnd. unfold filling in Hnd. cbn in Hnd. rewrite Hsp, Hf in Hnd. cbn in Hnd.
  apply list.NoDup_cons in Hnd as [Hn _].
  assert (Hpl : Permutation (q ++ working_queue c ++ held c ++ [f] ++ lost c) (seqZ 1 (NUM_LOG_BUFF sz))).
  { pose proof (li_places _ H) as E. unfold filling in E. cbn in E. rewrite Hsp, Hf in E. cbn in E. revert E.
    change (held (c <| w_buffer := None |>)) with (held c). recount. }
  destruct H as [IP IF IJ IB IL ID IC IT]. unfold filling in *. cbn in *. rewrite Hsp, Hf in *.
  assert (Hu : f ∉ unwritten c ++ working_queue c).
  { intros Hin. apply Hn. rewrite !elem_of_app. apply elem_of_app in Hin as [Hin|Hin]; [|by right; left].
    right; right; left. by apply unwritten_held. }
  split; cbn; unfold filling; cbn; rewrite ?Hsp; try done.
  - rewrite IF, zlen_cons. lia.
  - intros b Hb. destruct (IB b Hb) as (y & Hy & Hok). destruct (decide (b = f)) as [->|Hne].
    + rewrite lookup_insert_eq. eexists. split; [done|]. by simplify_eq.
    + rewrite lookup_insert_ne by done. eauto.
  - intros b Hb. change (unwritten _) with (unwritten c) in Hb. rewrite app_assoc in Hb. apply elem_of_app in Hb as [Hb|Hb].
    + rewrite lookup_insert_ne by (intros ->; done). apply IL. by rewrite app_nil_r.
    + apply list_elem_of_singleton in Hb as ->. rewrite lookup_insert_eq. eexists. split; [done|]. cbn. pose proof (so_limit Hs). lia.
  - intros Hl. rewrite <- (IT Hl), app_nil_r. f_equal. change (unwritten _) with (unwritten c).
    rewrite app_assoc, texts_app, texts_other, texts_one by done. cbn. by rewrite app_nil_r.
Qed.

Lemma filling_apart c b : log_inv c -> filling c = [b] -> b ∉ unwritten c ++ working_queue c.
Proof using.
  intros H Ef Hin. pose proof (places_apart _ H) as Hnd. rewrite Ef in Hnd.
  assert (E : Permutation (free_queue c ++ working_queue c ++ held c ++ [b] ++ lost c)
                (b :: free_queue c ++ working_queue c ++ held c ++ lost c)).
  { rewrite (Permutation_count_occ Z.eq_dec). intros z. rewrite ?count_occ_app. cbn [count_occ app]. rewrite ?count_occ_app.
    destruct (Z.eq_dec b z); lia. }
  rewrite E in Hnd. apply list.NoDup_cons in Hnd as [Hn _]. apply Hn. rewrite !elem_of_app.
  apply elem_of_app in Hin as [Hin|Hin]; [|by right; left]. right; right; left. by apply unwritten_held.
Qed.

(** The text is appended to the buffer that is filled. *)
Lemma appended_ok c b x w text : sizes_ok -> log_inv c -> spc c = Printing -> w_buffer c = Some b -> buffs c !! b = Some x ->
  buff_len x + PRINT_LIMIT sz <= LOG_BUFF_SIZE sz -> zlen text < PRINT_LIMIT sz ->
  mem_write (buff x) (buff_len x) (text ++ [0]) = Some w ->
  log_inv (c <| buffs ::= <[b := LogBuff (i32 (buff_len x + zlen text)) w]> |> <| printed ::= fun p => p ++ text |>).
Proof using.
  intros Hs H Hsp Hb Hx Hroom Ht Hw. assert (Ef : filling c = [b]) by (unfold filling; by rewrite Hsp, Hb).
  pose proof (filling_apart c b H Ef) as Hu.
  destruct (li_lens _ H b) as (x' & Hx' & Hlen); [rewrite Ef, !elem_of_app; right; right; by left|].
  rewrite Hx in Hx'. injection Hx' as <-. pose proof (so_size Hs). pose proof (zlen_nonneg text). pose proof (mem_write_length _ _ _ _ Hw) as Ew.
  pose proof (mem_write_bounds _ _ _ _ Hw) as [_ Hbd]. rewrite zlen_app in Hbd. change (zlen [0]) with 1 in Hbd.
  assert (Et : take (Z.to_nat (buff_len x + zlen text)) w = take (Z.to_nat (buff_len x)) (buff x) ++ text).
  { rewrite mem_write_ok in Hw by (rewrite ?zlen_app; cbn; unfold zlen in *; cbn; lia). injection Hw as <-. unfold zlen in *.
    rewrite <- app_assoc, app_assoc. apply take_app_length'. rewrite length_app, length_take. lia. }
  destruct H as [IP IF IJ IB IL ID IC IT]. rewrite Ef in *. rewrite i32_small by lia.
  split; cbn; change (filling _) with (filling c); change (unwritten _) with (unwritten c); rewrite ?Ef; try done.
  - intros b' Hb'. destruct (IB b' Hb') as (y & Hy & Hok). destruct (decide (b' = b)) as [->|Hne].
    + rewrite lookup_insert_eq. eexists. split; [done|]. simplify_eq. unfold buff_ok, zlen in *. cbn. by rewrite Ew.
    + rewrite lookup_insert_ne by done. eauto.
  - intros b' Hb'. destruct (decide (b' = b)) as [->|Hne].
    + rewrite lookup_insert_eq. eexists. split; [done|]. cbn. lia.
    + rewrite lookup_insert_ne by done. by apply IL.
  - intros Hl. rewrite <- (IT Hl), (app_assoc (unwritten c)), !(texts_app _ (unwritten c ++ working_queue c) [b]), texts_other, texts_one by done.
    cbn [buff_len buff]. rewrite Et. replace (texts (buffs c) [b]) with (take (Z.to_nat (buff_len x)) (buff x)); [by rewrite !app_assoc|].
    unfold texts, text_of. cbn. by rewrite Hx, app_nil_r.
Qed.

Definition out_of_buffers (c : logs) (e : fault) : Prop := e = AssertFail /\ free_queue c = [].

(** [DequeueFreeBuffer] and the preparation of the buffer, in a state whose own buffer was
    given away or is not there. *)
Lemma wp_fresh_buffer c (Q : unit -> logs -> Prop) (k : Z -> ML unit) : sizes_ok -> spc c = Printing ->
  log_inv (c <| w_buffer := None |>) ->
  (forall c' f, log_inv c' -> spc c' = Printing -> w_buffer c' = Some f -> (exists x, buffs c' !! f = Some x /\ buff_len x = 0) ->
     wpe (out_of_buffers c) (k f) Q c') ->
  wpe (out_of_buffers c) (b ← (o ← DequeueFreeBuffer sz; b ← unwrap AssertFail o; x ← buff_at b;
    buff_set b (x <| buff_len := 0 |>);; modify (fun c => c <| w_buffer := Some b |>);; mret b); k b) Q c.
Proof using.
  intros Hs Hsp H Hk. pose proof (counts _ Hs H) as Hc. pose proof (li_jobs _ H) as Hj. pose proof (li_free _ H) as Hf. cbn in Hc, Hj, Hf.
  unfold DequeueFreeBuffer, assert_total, buff_at, buff_set. rewrite !wpe_bind, wpe_get.
  destruct (free_queue c) as [|f q] eqn:Eq.
  - change (zlen []) with 0 in *. rewrite wpe_bind, wpe_ret, wpe_bind, wpe_get, wpe_bind, wpe_assert.
    rewrite (proj2 (Z.leb_le _ _)) by lia. rewrite !wpe_bind, wpe_get, wpe_assert, (proj2 (Z.leb_le _ _)) by lia. by split.
  - rewrite zlen_cons in *. pose proof (zlen_nonneg q). rewrite wpe_bind, wpe_modify, wpe_bind, wpe_get, wpe_bind, wpe_assert. cbn.
    rewrite (proj2 (Z.leb_le _ _)) by lia. rewrite !wpe_bind, wpe_get, wpe_assert, (proj2 (Z.leb_le _ _)) by (cbn; lia).
    assert (Hr : 1 <= f <= NUM_LOG_BUFF sz). { apply (all_places _ _ H). cbn. rewrite Eq. by left. }
    destruct (li_buffs _ H f Hr) as (x & Hx & Hok). cbn in Hx. rewrite !wpe_ret, wpe_bind, wpe_unwrap, !wpe_bind, wpe_get, wpe_unwrap. cbn. rewrite Hx.
    rewrite wpe_bind, wpe_modify, wpe_bind, wpe_modify, wpe_ret. apply Hk; [by apply fresh_ok|done|done|]. eexists. cbn. rewrite lookup_insert_eq. done.
Qed.

Lemma wpe_buff_at E b x c (Q : log_buff -> logs -> Prop) : buffs c !! b = Some x -> Q x c -> wpe E (buff_at b) Q c.
Proof using. intros Hx HQ. unfold buff_at. by rewrite wpe_bind, wpe_get, wpe_unwrap, Hx. Qed.

(** The end of [thread_printf]. *)
Lemma print_into_ok E c b x text (Q : unit -> logs -> Prop) : sizes_ok -> log_inv c -> spc c = Printing -> w_buffer c = Some b ->
  buffs c !! b = Some x -> buff_len x + PRINT_LIMIT sz <= LOG_BUFF_SIZE sz -> zlen text < PRINT_LIMIT sz ->
  (forall c', log_inv c' -> Q tt c') ->
  wpe E (x ← buff_at b;
    w ← unwrap OutOfBounds (mem_write (buff x) (buff_len x) (take (Z.to_nat (PRINT_LIMIT sz - 1)) text ++ [0]));
    buff_set b (LogBuff (i32 (buff_len x + zlen text)) w);;
    modify (fun c => c <| printed ::= fun p => p ++ text |>)) Q c.
Proof using.
  intros Hs H Hsp Hb Hx Hroom Ht HQ. unfold buff_at, buff_set. rewrite !wpe_bind, wpe_get, wpe_unwrap, Hx, wpe_bind, wpe_unwrap.
  rewrite take_ge by (unfold zlen in *; lia).
  destruct (li_lens _ H b) as (x' & Hx' & Hlen); [unfold filling; rewrite Hsp, Hb, !elem_of_app; right; right; by left|].
  destruct (li_buffs _ H b) as (x'' & Hx'' & Hok).
  { apply (all_places c _ H). unfold filling. rewrite Hsp, Hb, !elem_of_app. right; right; right; left. by left. }
  simplify_eq. unfold buff_ok in Hok. destruct (mem_write _ _ _) as [w|] eqn:Ew.
  - rewrite wpe_bind, !wpe_modify. apply HQ. by eapply appended_ok.
  - rewrite mem_write_ok in Ew; [done|lia|]. rewrite zlen_app. change (zlen [0]) with 1. lia.
Qed.

Lemma wpe_EnqueueJobBuffer E c b (Q : unit -> logs -> Prop) : sizes_ok -> log_inv c -> 0 < zlen (filling c) ->
  Q tt (c <| working_queue ::= fun q => q ++ [b] |> <| job_buff_cnt ::= Z.add 1 |> <| state := ACTIVE_LOGT |>) ->
  wpe E (EnqueueJobBuffer sz b) Q c.
Proof using.
  intros Hs H Hh HQ. pose proof (counts c Hs H) as Hc. pose proof (li_jobs _ H) as Hj. pose proof (li_free _ H) as Hf.
  unfold EnqueueJobBuffer, assert_total. rewrite wpe_bind, wpe_modify, wpe_bind, wpe_get, wpe_bind, wpe_assert.
  rewrite (proj2 (Z.leb_le _ _)) by (cbn; lia). rewrite wpe_bind, wpe_get, wpe_assert, (proj2 (Z.leb_le _ _)) by (cbn; lia). done.
Qed.

Lemma thread_printf_ok c text : sizes_ok -> log_inv c -> lenabled (EPrint text) c ->
  wpe (out_of_buffers c) (thread_printf sz text) (fun _ => log_inv) c.
Proof using.
  intros Hs H [Hsp Ht]. unfold thread_printf. rewrite wpe_bind, wpe_get. pose proof (so_limit Hs) as Hl. destruct (w_buffer c) as [b|] eqn:Eb.
  - assert (Ef : filling c = [b]) by (unfold filling; by rewrite Hsp, Eb).
    destruct (li_lens _ H b) as (x & Hx & Hlen); [rewrite Ef, !elem_of_app; right; right; by left|].
    rewrite !wpe_bind. apply (wpe_buff_at _ _ _ _ _ Hx). destruct (Z.ltb_spec (LOG_BUFF_SIZE sz) (buff_len x + PRINT_LIMIT sz)).
    + unfold flush_log_data. rewrite !wpe_bind, wpe_get, Eb, wpe_bind. apply wpe_EnqueueJobBuffer; [done|done|by rewrite Ef|].
      rewrite wpe_modify, wpe_ret. set (c1 := _ <| tokens ::= S |>).
      change (out_of_buffers c) with (out_of_buffers c1). apply wp_fresh_buffer; [done|done| |].
      * replace (c1 <| w_buffer := None |>) with (c <| working_queue ::= fun q => q ++ [b] |> <| job_buff_cnt ::= Z.add 1 |>
          <| state := ACTIVE_LOGT |> <| tokens := S (tokens c) |> <| w_buffer := None |> <| spc := Printing |>); [|by rewrite <- Hsp].
        apply enqueued_ok; [done|done|done|by left].
      * intros c' f H' Hsp' Hf (y & Hy & Hy0). eapply print_into_ok; try done. lia.
    + rewrite wpe_ret, wpe_bind, wpe_ret. eapply print_into_ok; try done.
  - rewrite wpe_bind, wpe_ret. apply wp_fresh_buffer; [done|done| |].
    + replace (c <| w_buffer := None |>) with c; [done|]. rewrite <- Eb. by destruct c.
    + intros c' f H' Hsp' Hf (y & Hy & Hy0). eapply print_into_ok; try done. lia.
Qed.

Lemma flush_ok c : sizes_ok -> log_inv c -> spc c = Printing -> wp (run_levent EFlush) (fun _ => log_inv) c.
Proof using.
  intros Hs H Hsp. cbn [run_levent]. unfold flush_log_data. rewrite !wp_bind, wp_get. destruct (w_buffer c) as [b|] eqn:Eb.
  - rewrite wp_bind. change (wp ?m ?Q ?s) with (wpe (fun _ => False) m Q s). apply wpe_EnqueueJobBuffer; [done|done|unfold filling; by rewrite Hsp, Eb|].
    rewrite !wp_modify. by apply (enqueued_ok c b (S (tokens c)) (w_buffer c) Flushed H Hsp Eb (or_intror eq_refl)).
  - rewrite wp_ret, wp_modify. destruct H as [IP IF IJ IB IL ID IC IT]. unfold filling in *. rewrite Hsp, Eb in *.
    split; cbn; unfold filling; cbn; try done. split; [intros Hd; by apply ID in Hd|done].
Qed.

Lemma stop_ok c : log_inv c -> spc c = Flushed -> wp (run_levent EStop) (fun _ => log_inv) c.
Proof using.
  intros [IP IF IJ IB IL ID IC IT] Hsp. cbn [run_levent]. unfold log_stop. rewrite wp_modify. unfold filling in *. rewrite Hsp in *.
  split; cbn; unfold filling; cbn; try done. unfold count_ok, room in *. cbn.
  assert (Hd : done c = false) by (apply not_true_is_false; intros Hd; by apply ID in Hd).
  destruct (pc c) as [|[] cnt|[] cnt d|[] cnt d| |]; rewrite Hd in *; try done;
    try (by destruct IC as [_ IC]; destruct (IC eq_refl)); try (by split; [apply IC|]). by destruct IC.
Qed.

(** ** Histories *)

Lemma enqueue_all_run l : forall c, free_buff_cnt c = zlen (free_queue c) -> job_buff_cnt c = 0 ->
  zlen (free_queue c) + zlen l <= NUM_LOG_BUFF sz ->
  enqueue_all sz l c = Ok tt (c <| free_queue := free_queue c ++ l |> <| free_buff_cnt := zlen (free_queue c ++ l) |>).
Proof using.
  induction l as [|b l IH]; intros c Hf Hj Hn; cbn [enqueue_all].
  - rewrite app_nil_r, <- Hf. by destruct c.
  - rewrite zlen_cons in Hn. pose proof (zlen_nonneg l). unfold EnqueueFreeBuffer, assert_total, mbind, M_bind, modify, get, assertM. cbn.
    rewrite (proj2 (Z.leb_le _ _)) by lia. cbn. rewrite (proj2 (Z.leb_le _ _)) by lia. cbn.
    rewrite IH; cbn; [by rewrite <- app_assoc| |done|]; rewrite zlen_app; change (zlen [b]) with 1; lia.
Qed.

Definition created (garbage : Z -> log_buff) : logs :=
  let l := seqZ 1 (NUM_LOG_BUFF sz) in
  zero_logs <| buffs := list_to_map ((fun b => (b, garbage b)) <$> l) |> <| free_queue := l |> <| free_buff_cnt := zlen l |>.

Lemma Init_run garbage c : sizes_ok -> InitLogThreadContext sz garbage c = Ok tt (created garbage).
Proof using.
  intros Hs. unfold InitLogThreadContext, mbind, M_bind, put. rewrite enqueue_all_run; cbn; [done|done|done|].
  pose proof (so_num Hs). unfold zlen. cbn. rewrite length_seqZ. lia.
Qed.

Lemma created_ok garbage : sizes_ok -> (forall b, buff_ok (garbage b)) -> log_inv (created garbage).
Proof using.
  intros Hs Hg. split; cbn; try done.
  - by rewrite !app_nil_r.
  - intros b Hb. exists (garbage b). split; [|done]. apply elem_of_list_to_map_1.
    + rewrite <- list_fmap_compose, (list_fmap_ext _ id), list_fmap_id by done. apply NoDup_seqZ.
    + apply list_elem_of_fmap. exists b. split; [done|]. apply elem_of_seqZ. lia.
  - by intros b ?%not_elem_of_nil.
Qed.

Lemma levent_ok c e : sizes_ok -> log_inv c -> lenabled e c ->
  wpe (fun f => out_of_buffers c f /\ exists t, e = EPrint t) (run_levent e) (fun _ => log_inv) c.
Proof using.
  intros Hs H He. destruct e as [text| | |wrote].
  - pose proof (thread_printf_ok c text Hs H He) as Hp. cbn [run_levent]. unfold wpe in *. destruct (thread_printf sz text c); eauto.
  - pose proof (flush_ok c Hs H He) as Hp. unfold wp, wpe in *. by destruct (run_levent EFlush c).
  - pose proof (stop_ok c H He) as Hp. unfold wp, wpe in *. by destruct (run_levent EStop c).
  - pose proof (log_step_ok c wrote Hs H He) as Hp. cbn [run_levent]. unfold wp, wpe in *. destruct (log_step sz wrote c); [apply Hp|done].
Qed.

Lemma history_inv c c' : sizes_ok -> log_inv c -> rtc lstep c c' -> log_inv c'.
Proof using.
  intros Hs H Hr. revert H. induction Hr as [c|c c1 c2 [e He Hrun] _ IH]; [done|]. intros H. apply IH.
  pose proof (levent_ok c e Hs H He) as Hw. unfold wpe in Hw. by rewrite Hrun in Hw.
Qed.

(** What the log thread does when it is left to itself: [fwrite] writes everything. *)
Definition whole (c : logs) : Z :=
  match pc c with Writing _ _ b => match buffs c !! b with Some x => buff_len x | None => 0 end | _ => 0 end.

Fixpoint run_log (fuel : nat) : ML unit :=
  c ← get;
  match pc c with
  | Finished => mret tt
  | _ => match fuel with
         | O => throw OutOfFuel
         | S fuel => log_step sz (whole c);; run_log fuel
         end
  end.

Lemma whole_enabled c : log_inv c -> done c = true -> pc c <> Finished -> lenabled (ELog (whole c)) c.
Proof using.
  intros H Hd Hp. unfold lenabled, whole. destruct (pc c) as [| |final cnt b| | |] eqn:E; try done; [|by right; left].
  destruct (li_lens _ H b) as (x & -> & _); [unfold unwritten; rewrite E; by left|]. eauto.
Qed.

Lemma run_log_ok fuel : forall c, sizes_ok -> log_inv c -> done c = true -> (todo c <= fuel)%nat ->
  wp (run_log fuel) (fun _ c' => log_inv c' /\ spc c' = spc c /\ pc c' = Finished /\ printed c' = printed c /\
    (room c -> lost c' = lost c)) c.
Proof using.
  induction fuel as [|fuel IH]; intros c Hs H Hd Hf; cbn [run_log]; rewrite wp_bind, wp_get;
    (destruct (decide (pc c = Finished)) as [E|E]; [rewrite E, wp_ret; done|]).
  - exfalso. unfold todo in Hf. destruct (pc c) as [|[]|[]|[]| |]; cbn in Hf; lia || done.
  - pose proof (log_step_ok c (whole c) Hs H (whole_enabled c H Hd E)) as Hstep.
    assert (Hw : wp (log_step sz (whole c);; run_log fuel) (fun _ c' => log_inv c' /\ spc c' = spc c /\ pc c' = Finished /\
      printed c' = printed c /\ (room c -> lost c' = lost c)) c).
    { rewrite wp_bind. eapply wp_mono; [exact Hstep|]. intros [] c1 (H1 & Hsp & Hd1 & Hp1 & Hm & Hr). cbn beta.
      eapply wp_mono; [apply IH; [done|done|congruence|specialize (Hm Hd); lia]|]. intros [] c2 (H2 & Hs2 & Hf2 & Hp2 & Hr2).
      split_and!; try done; [congruence|congruence|]. intros Hro. destruct (Hr Hro) as [Hr1 El]. rewrite <- El. by apply Hr2. }
    by destruct (pc c).
Qed.

(** The places and the text in a state of the history. *)
Definition in_order (c : logs) : Prop :=
  Permutation (free_queue c ++ working_queue c ++ held c ++ filling c ++ lost c) (seqZ 1 (NUM_LOG_BUFF sz)) /\
  free_buff_cnt c = zlen (free_queue c) /\ job_buff_cnt c = zlen (working_queue c) /\
  (lost c = [] -> file c ++ texts (buffs c) (unwritten c ++ working_queue c ++ filling c) = printed c).

Lemma inv_in_order c : log_inv c -> in_order c.
Proof using. intros H. split_and!; apply H. Qed.



(** ** Runs of given events *)

Definition lcan (e : levent) (c : logs) : bool :=
  match e with
  | EPrint text => bool_decide (spc c = Printing) && (zlen text <? PRINT_LIMIT sz)
  | EFlush => bool_decide (spc c = Printing)
  | EStop => bool_decide (spc c = Flushed)
  | ELog wrote =>
      match pc c with
      | Writing _ _ b => match buffs c !! b with Some x => wrote =? buff_len x | None => false end
      | Waiting => bool_decide (state c = ACTIVE_LOGT) || done c || (0 <? tokens c)%nat
      | Finished => false
      | _ => true
      end
  end.

Lemma lcan_enabled e c : lcan e c = true -> lenabled e c.
Proof using.
  destruct e as [text| | |wrote]; cbn; rewrite ?andb_true_iff, ?bool_decide_eq_true; [intros []; split; [done|lia]|done|done|].
  destruct (pc c); try done; [destruct (buffs c !! b) as [x|]; [|done]; intros ?%Z.eqb_eq; eauto|].
  rewrite !orb_true_iff, bool_decide_eq_true. destruct (tokens c); [|right; right; lia]. intros [[]|]; [by left|by right; left|done].
Qed.

Fixpoint play (es : list levent) (c : logs) : option logs :=
  match es with
  | [] => Some c
  | e :: es' => if lcan e c then match run_levent e c with Ok _ c' => play es' c' | Fault _ => None end else None
  end.

Lemma play_history es : forall c c', play es c = Some c' -> rtc lstep c c'.
Proof using.
  induction es as [|e es IH]; intros c c'; cbn; [by intros [= ->]|]. destruct (lcan e c) eqn:Ec; [|done].
  destruct (run_levent e c) as [[] c1|] eqn:Er; [|done]. intros Hp. eapply rtc_l; [|by apply IH].
  exists e; [by apply lcan_enabled|done].
Qed.

End History.

Lemma code_sizes_ok : sizes_ok code_sizes.
Proof. split; cbn; lia. Qed.

(** Two buffers of eight bytes and lines of up to three, so that runs can be evaluated. *)
Definition demo_sizes : sizes := Sizes 8 2 4.
Definition demo_garbage (b : Z) : log_buff := LogBuff b [9; 9; 9; 9; 9; 9; 9; 9].
Definition demo_line : levent := EPrint [97; 98; 99].
Definition demo_state (es : list levent) : logs := default zero_logs (play demo_sizes es (created demo_sizes demo_garbage)).

(** Two lines fill a buffer, the third flushes it; the log thread takes, writes and gives. *)
Definition demo_busy : list levent := [demo_line; demo_line; demo_line; ELog 0; ELog 0; ELog 6; ELog 0; demo_line; EFlush; EStop].

Lemma demo_ok : sizes_ok demo_sizes /\ forall b, buff_ok demo_sizes (demo_garbage b).
Proof. split; [split; cbn; lia|done]. Qed.

Lemma demo_history : rtc (lstep demo_sizes) (created demo_sizes demo_garbage) (demo_state demo_busy).
Proof. apply (play_history demo_sizes demo_busy). vm_compute. reflexivity. Qed.



(** The log thread drops the buffer it has just taken when more buffers than there are come
    in one loop: the text is missing from the file at the end and the buffer never comes back. *)
Definition demo_three : list levent := [demo_line; demo_line].
Definition demo_serve : list levent := [ELog 0; ELog 6; ELog 0].

Lemma log_drops_buffer :
  let c := demo_state ([ELog 0] ++ demo_three ++ [demo_line] ++ demo_serve ++ demo_three ++ demo_serve ++ demo_three ++ [ELog 0; EFlush; EStop]) in
  lost c = [1] /\ exists c', run_log demo_sizes (todo c) c = Ok tt c' /\ pc c' = Finished /\
    length (file c') = 15%nat /\ length (printed c') = 21%nat.
Proof. vm_compute. split; [done|]. eexists. split; [reflexivity|]. done. Qed.

(** A line that is cut at the limit still counts with its full length: bytes that were never
    printed are written to the file, and a line longer than the buffer makes [fwrite] read
    behind it. *)
Lemma long_line_overruns :
  match thread_printf demo_sizes [1; 2; 3; 4; 5; 6; 7; 8; 9] (created demo_sizes demo_garbage) with
  | Ok _ c => write_out false 1 9 c = Fault OutOfBounds
  | Fault _ => False
  end.
Proof. vm_compute. reflexivity. Qed.
