(* ===== verification/Dpdk.v ===== *)
(** * The packet I/O module ([dpdk_module.c])

    Packets live in buffers of a pool (mbufs), which move between the pool, the rings of the
    network card, the table of packets to send and the table of received packets.  The model
    keeps the contents of every buffer and who owns it; reading or freeing one that was given
    away is a fault.  The card is an environment that returns buffers, delivers bursts and
    accepts any part of what it is offered.

    [DpdkSafe.v] shows that every buffer has one owner in every history of the module, that
    no one is freed twice, and that the packets of a table reach the card in order, each
    once, however the card splits them.  The statistics and the loading of the driver are
    left out. *)

From S2P Require Import Prelude.

Definition MAX_PKT_BURST : Z := 64.
Definition BUF_SIZE : Z := 2048.

(** [struct rte_mbuf]: what the module uses of it; [bytes] is the memory of the packet. *)
Record rte_mbuf := RteMbuf {
  pkt_len : Z;
  bytes : list Z;
  ol_flags : Z;
  l2_len : Z;
  l3_len : Z;
  l4_len : Z
}.

#[export] Instance rte_mbuf_eta : Settable rte_mbuf :=
  fun m => RteMbuf (pkt_len m) (bytes m) (ol_flags m) (l2_len m) (l3_len m) (l4_len m).

(** [struct mbuf_table]; a null pointer is 0. *)
Record mbuf_table := MbufTable { len : Z; m_table : list Z }.

#[export] Instance mbuf_table_eta : Settable mbuf_table := fun t => MbufTable (len t) (m_table t).

Definition zero_table : mbuf_table := MbufTable 0 (replicate (Z.to_nat MAX_PKT_BURST) 0).

(** [struct dpdk_private_context] with the memory it uses: [mbufs] are the contents of the
    buffers, [pool] and [nic] the buffers that the pool and the card own, [wire] the packets
    that the card was given for each interface. *)
Record dpdk := Dpdk {
  rmbufs : list mbuf_table;
  wmbufs : list mbuf_table;
  pkts_burst : list Z;
  mbufs : gmap Z rte_mbuf;
  pool : list Z;
  nic : list Z;
  wire : list (Z * list Z)
}.

#[export] Instance dpdk_eta : Settable dpdk :=
  fun d => Dpdk (rmbufs d) (wmbufs d) (pkts_burst d) (mbufs d) (pool d) (nic d) (wire d).

Definition MD (A : Type) : Type := M dpdk A.

(** What the module uses of DPDK and of the configuration: the flags of a buffer, the
    offloads of a device, the checksum of the pseudo header, and the number of ports. *)
Record offloads := Offloads { tx_ip : bool; tx_tcp : bool; rx_ip : bool; rx_tcp : bool }.

Record platform := MkPlatform {
  TX_IP_CKSUM : Z;
  TX_TCP_CKSUM : Z;
  TX_IPV4 : Z;
  RX_CKSUM_BAD : Z;
  RTE_MAX_ETHPORTS : Z;
  num_devices_attached : Z;
  dev_info : Z -> offloads;
  nif_to_eidx : Z -> Z;
  phdr_cksum : list Z -> Z -> Z
}.

Section Dpdk.
Context (pf : platform).

(** ** Buffers *)

Definition given_away (a : Z) (d : dpdk) : bool := bool_decide (a ∈ pool d) || bool_decide (a ∈ nic d).

Definition mbuf_at (a : Z) : MD rte_mbuf :=
  d ← get;
  if a =? 0 then throw NullPointer
  else if given_away a d then throw DanglingPointer
  else unwrap DanglingPointer (mbufs d !! a).

Definition mbuf_set (a : Z) (m : rte_mbuf) : MD unit := modify (fun d => d <| mbufs ::= <[a := m]> |>).

(** [rte_pktmbuf_alloc] *)
Definition rte_pktmbuf_alloc : MD Z :=
  d ← get;
  match pool d with
  | [] => mret 0
  | a :: p => modify (fun d => d <| pool := p |>);; mret a
  end.

(** [rte_pktmbuf_free]; a null pointer is ignored. *)
Definition rte_pktmbuf_free (a : Z) : MD unit :=
  if a =? 0 then mret tt
  else
    mbuf_at a;;
    modify (fun d => d <| pool ::= fun p => p ++ [a] |>).

(** ** Tables *)

Definition table_at (l : list mbuf_table) (ifidx : Z) : MD mbuf_table :=
  if ifidx <? 0 then throw OutOfBounds else unwrap OutOfBounds (l !! Z.to_nat ifidx).

Definition wtable (ifidx : Z) : MD mbuf_table := d ← get; table_at (wmbufs d) ifidx.
Definition rtable (ifidx : Z) : MD mbuf_table := d ← get; table_at (rmbufs d) ifidx.

Definition set_wtable (ifidx : Z) (t : mbuf_table) : MD unit :=
  modify (fun d => d <| wmbufs ::= <[Z.to_nat ifidx := t]> |>).
Definition set_rtable (ifidx : Z) (t : mbuf_table) : MD unit :=
  modify (fun d => d <| rmbufs ::= <[Z.to_nat ifidx := t]> |>).

Definition slot (l : list Z) (i : Z) : MD Z :=
  if i <? 0 then throw OutOfBounds else unwrap OutOfBounds (l !! Z.to_nat i).

(** Fresh buffers for the slots from [i] on. *)
Fixpoint refill (ifidx i : Z) (n : nat) : MD unit :=
  match n with
  | O => mret tt
  | S n =>
      a ← rte_pktmbuf_alloc;
      if a =? 0 then throw ProcessExit
      else
        t ← wtable ifidx;
        set_wtable ifidx (t <| m_table ::= <[Z.to_nat i := a]> |>);;
        refill ifidx (i + 1) n
  end.

Fixpoint init_tables (j : Z) (n : nat) : MD unit :=
  match n with
  | O => mret tt
  | S n =>
      refill j 0 (Z.to_nat MAX_PKT_BURST);;
      t ← wtable j;
      set_wtable j (t <| len := 0 |>);;
      init_tables (j + 1) n
  end.

(** The context is zeroed memory; [ok] says whether it could be allocated. *)
Definition dpdk_init_handle (ok : bool) : MD unit :=
  if negb ok then throw ProcessExit
  else
    let tables := replicate (Z.to_nat (RTE_MAX_ETHPORTS pf)) zero_table in
    modify (fun d => d <| rmbufs := tables |> <| wmbufs := tables |>
                       <| pkts_burst := replicate (Z.to_nat MAX_PKT_BURST) 0 |>);;
    init_tables 0 (Z.to_nat (num_devices_attached pf)).

(** ** Sending *)

(** The buffer for the next packet; a full table has none. *)
Definition dpdk_get_wptr (ifidx pktsize : Z) : MD (option Z) :=
  t ← wtable ifidx;
  if len t =? MAX_PKT_BURST then mret None
  else
    a ← slot (m_table t) (len t);
    m ← mbuf_at a;
    mbuf_set a (m <| pkt_len := u16 pktsize |>);;
    set_wtable ifidx (t <| len := len t + 1 |>);;
    mret (Some a).

(** The packet of a buffer, as the card sees it. *)
Definition packet_of (m : rte_mbuf) : list Z := take (Z.to_nat (pkt_len m)) (bytes m).

(** The buffers the card accepts belong to it. *)
Fixpoint transmit (ifidx : Z) (l : list Z) : MD unit :=
  match l with
  | [] => mret tt
  | a :: l =>
      m ← mbuf_at a;
      modify (fun d => d <| wire ::= fun w => w ++ [(ifidx, packet_of m)] |> <| nic ::= fun n => n ++ [a] |>);;
      transmit ifidx l
  end.

(** [rte_eth_tx_burst] answers how many packets it took, between none and all; the loop goes
    on until all are taken. *)
Fixpoint tx_loop (ifidx : Z) (pkts : list Z) (answers : list Z) : MD Z :=
  match answers with
  | [] => throw EndlessLoop
  | ret :: answers =>
      transmit ifidx (take (Z.to_nat ret) pkts);;
      let pkts := drop (Z.to_nat ret) pkts in
      match pkts with
      | [] => mret ret
      | _ => tx_loop ifidx pkts answers
      end
  end.

Definition dpdk_send_pkts (ifidx : Z) (answers : list Z) : MD Z :=
  t ← wtable ifidx;
  if 0 <? len t then
    ret ← tx_loop ifidx (take (Z.to_nat (len t)) (m_table t)) answers;
    refill ifidx 0 (Z.to_nat (len t));;
    t ← wtable ifidx;
    set_wtable ifidx (t <| len := 0 |>);;
    mret ret
  else mret 0.

(** ** Receiving *)

Fixpoint free_pkts (l : list Z) : MD unit :=
  match l with [] => mret tt | a :: l => rte_pktmbuf_free a;; free_pkts l end.

(** [rte_eth_rx_burst] hands over buffers of the card with their packets and flags. *)
Fixpoint rx_burst (burst : list (Z * rte_mbuf)) : MD unit :=
  match burst with
  | [] => mret tt
  | (a, m) :: burst =>
      modify (fun d => d <| nic ::= filter (fun b => b <> a) |> <| mbufs ::= <[a := m]> |>);;
      rx_burst burst
  end.

Definition dpdk_recv_pkts (ifidx : Z) (burst : list (Z * rte_mbuf)) : MD Z :=
  t ← rtable ifidx;
  whenM (negb (len t =? 0))
    (free_pkts (take (Z.to_nat (len t)) (m_table t));;
     set_rtable ifidx (t <| len := 0 |>));;
  rx_burst burst;;
  modify (fun d => d <| pkts_burst ::= fun l => (burst.*1) ++ drop (length burst) l |>);;
  t ← rtable ifidx;
  set_rtable ifidx (t <| len := zlen burst |>);;
  mret (zlen burst).

(** The packet and its length, or none when the card found its checksum bad. *)
Definition dpdk_get_rptr (ifidx index : Z) : MD (option (list Z) * Z) :=
  d ← get;
  a ← slot (pkts_burst d) index;
  m ← mbuf_at a;
  t ← rtable ifidx;
  slot (m_table t) index;;
  set_rtable ifidx (t <| m_table ::= <[Z.to_nat index := a]> |>);;
  mret (if Z.land (ol_flags m) (RX_CKSUM_BAD pf) =? 0 then Some (packet_of m) else None, u16 (pkt_len m)).

(** The part of [RunMainLoop] that uses them: every packet of the burst is fetched. *)
Fixpoint fetch_burst (ifidx i : Z) (n : nat) : MD (list (option (list Z))) :=
  match n with
  | O => mret []
  | S n =>
      p ← dpdk_get_rptr ifidx i;
      l ← fetch_burst ifidx (i + 1) n;
      mret (p.1 :: l)
  end.

Definition receive_round (ifidx : Z) (burst : list (Z * rte_mbuf)) : MD (list (option (list Z))) :=
  recv_cnt ← dpdk_recv_pkts ifidx burst;
  fetch_burst ifidx 0 (Z.to_nat recv_cnt).

(** ** The end *)

Fixpoint free_tables (j : Z) (n : nat) : MD unit :=
  match n with
  | O => mret tt
  | S n => t ← wtable j; free_pkts (take (Z.to_nat MAX_PKT_BURST) (m_table t));; free_tables (j + 1) n
  end.

Definition dpdk_destroy_handle : MD unit := free_tables 0 (Z.to_nat (num_devices_attached pf)).

(** ** Offloads

    The commands of [io_module.h].  The IP header that the callers pass lies behind the
    Ethernet header of the packet that was queued last. *)
Definition PKT_TX_IP_CSUM : Z := 1.
Definition PKT_TX_TCP_CSUM : Z := 2.
Definition PKT_TX_TCPIP_CSUM : Z := 4.
Definition PKT_RX_IP_CSUM : Z := 5.
Definition PKT_RX_TCP_CSUM : Z := 6.
Definition PKT_TX_TCPIP_CSUM_PEEK : Z := 7.
Definition DRV_NAME : Z := 8.
Definition sizeof_ether_hdr : Z := 14.

Definition byte_of (m : rte_mbuf) (i : Z) : MD Z := slot (bytes m) i.

(** [iph->ihl << 2] *)
Definition ip_hlen (m : rte_mbuf) : MD Z :=
  b ← byte_of m sizeof_ether_hdr; mret (Z.shiftl (Z.land b 15) 2).

(** [tcph->check] gets the sum of the pseudo header. *)
Definition set_check (m : rte_mbuf) (hlen : Z) : MD rte_mbuf :=
  let sum := u16 (phdr_cksum pf (drop (Z.to_nat sizeof_ether_hdr) (bytes m)) (ol_flags m)) in
  w ← unwrap OutOfBounds (mem_write (bytes m) (sizeof_ether_hdr + hlen + 16) [Z.land sum 255; Z.shiftr sum 8]);
  mret (m <| bytes := w |>).

(** The packet that was queued last. *)
Definition last_queued (eidx : Z) : MD Z :=
  t ← wtable eidx; slot (m_table t) (len t - 1).

Definition dpdk_dev_ioctl (nif cmd : Z) : MD Z :=
  if cmd =? DRV_NAME then mret 0
  else
    let eidx := nif_to_eidx pf nif in
    let o := dev_info pf nif in
    wtable eidx;;
    if cmd =? PKT_TX_IP_CSUM then
      if negb (tx_ip o) then mret (-1)
      else
        a ← last_queued eidx;
        m ← mbuf_at a;
        h ← ip_hlen m;
        mbuf_set a (m <| ol_flags := Z.lor (TX_IP_CKSUM pf) (TX_IPV4 pf) |> <| l2_len := sizeof_ether_hdr |> <| l3_len := h |>);;
        mret 0
    else if cmd =? PKT_TX_TCP_CSUM then
      if negb (tx_tcp o) then mret (-1)
      else
        a ← last_queued eidx;
        m ← mbuf_at a;
        h ← ip_hlen m;
        m' ← set_check (m <| ol_flags := Z.lor (ol_flags m) (TX_TCP_CKSUM pf) |>) h;
        mbuf_set a m';;
        mret 0
    else if cmd =? PKT_TX_TCPIP_CSUM then
      if negb (tx_ip o) then mret (-1)
      else if negb (tx_tcp o) then mret (-1)
      else
        a ← last_queued eidx;
        m ← mbuf_at a;
        h ← ip_hlen m;
        b ← byte_of m (sizeof_ether_hdr + h + 12);
        m' ← set_check (m <| l2_len := sizeof_ether_hdr |> <| l3_len := h |> <| l4_len := Z.shiftl (Z.shiftr b 4) 2 |>
                          <| ol_flags := Z.lor (Z.lor (TX_TCP_CKSUM pf) (TX_IP_CKSUM pf)) (TX_IPV4 pf) |>) h;
        mbuf_set a m';;
        mret 0
    else if cmd =? PKT_RX_IP_CSUM then mret (if rx_ip o then 0 else -1)
    else if cmd =? PKT_RX_TCP_CSUM then mret (if rx_tcp o then 0 else -1)
    else if cmd =? PKT_TX_TCPIP_CSUM_PEEK then mret (if tx_ip o && tx_tcp o then 0 else -1)
    else mret (-1).

(** The caller of [get_wptr] writes its packet through the pointer. *)
Definition queue_packet (ifidx pktsize : Z) (bs : list Z) : MD bool :=
  o ← dpdk_get_wptr ifidx pktsize;
  match o with
  | None => mret false
  | Some a =>
      m ← mbuf_at a;
      w ← unwrap OutOfBounds (mem_write (bytes m) 0 bs);
      mbuf_set a (m <| bytes := w |>);;
      mret true
  end.

End Dpdk.
