(* ===== verification/DpdkSafe.v ===== *)
(** * The packet I/O module: who owns a buffer

    The invariant of [Dpdk.v]: in every history of the module and of the network card every
    buffer of the pool has exactly one owner.  The operations are shown to compute explicit
    states, from which the invariant and the order of the packets on the wire follow. *)

From S2P Require Import Prelude Dpdk.

(** ** What the operations compute *)

Section Runs.
Context (pf : platform).

(** The first slots of a table. *)
Definition received (t : mbuf_table) : list Z := take (Z.to_nat (len t)) (m_table t).

Definition table_ok (t : mbuf_table) : Prop := zlen (m_table t) = MAX_PKT_BURST /\ 0 <= len t <= MAX_PKT_BURST.

(** The module owns the buffers [l]. *)
Record mine (l : list Z) (d : dpdk) : Prop := {
  mi_apart : NoDup l;
  mi_null : 0 ∉ l;
  mi_kept : forall a, a ∈ l -> a ∉ pool d /\ a ∉ nic d;
  mi_there : forall a, a ∈ l -> is_Some (mbufs d !! a)
}.

Definition packet_at (mb : gmap Z rte_mbuf) (a : Z) : list Z :=
  match mb !! a with Some m => packet_of m | None => [] end.

Lemma mbuf_at_run a m d : a <> 0 -> a ∉ pool d -> a ∉ nic d -> mbufs d !! a = Some m -> mbuf_at a d = Ok m d.
Proof using.
  intros H0 Hp Hn Hm. unfold mbuf_at, given_away, mbind, M_bind, get. rewrite (proj2 (Z.eqb_neq a 0)), !bool_decide_false by done.
  cbn. by rewrite Hm.
Qed.

Lemma mine_at a l d : mine l d -> a ∈ l -> exists m, mbufs d !! a = Some m /\ mbuf_at a d = Ok m d.
Proof using.
  intros [H1 H2 H3 H4] Ha. destruct (H4 a Ha) as [m Hm]. exists m. split; [done|]. destruct (H3 a Ha).
  apply mbuf_at_run; try done. by intros ->.
Qed.

Lemma mine_tail a l d : mine (a :: l) d -> mine l d.
Proof using.
  intros [H1 H2 H3 H4]. apply list.NoDup_cons in H1 as [_ H1]. rewrite elem_of_cons in H2.
  split; [done|tauto| |]; intros b Hb; [apply H3|apply H4]; by right.
Qed.

Lemma mine_same l d d' : mine l d -> pool d' = pool d -> nic d' = nic d -> mbufs d' = mbufs d -> mine l d'.
Proof using. intros [H1 H2 H3 H4] E1 E2 E3. by split; rewrite ?E1, ?E2, ?E3. Qed.

Lemma mine_app l k d : mine (l ++ k) d -> mine l d /\ mine k d.
Proof using.
  intros [H1 H2 H3 H4]. apply list.NoDup_app in H1 as (N1 & _ & N2). rewrite elem_of_app in H2.
  split; (split; [done|tauto| |]); intros b Hb; apply H3 || apply H4; apply elem_of_app; tauto.
Qed.

(** Giving the first buffer to the pool or to the card leaves the others. *)
Lemma mine_give a l d d' : mine (a :: l) d -> mbufs d' = mbufs d ->
  (pool d' = pool d ++ [a] /\ nic d' = nic d) \/ (pool d' = pool d /\ nic d' = nic d ++ [a]) -> mine l d'.
Proof using.
  intros Hm Eb Hg. pose proof (mi_apart _ _ Hm) as [Hn _]%list.NoDup_cons. destruct (mine_tail _ _ _ Hm) as [H1 H2 H3 H4].
  split; [done|done| |]; intros b Hb; [|rewrite Eb; by apply H4]. destruct (H3 b Hb) as [Hp Hi]. assert (b <> a) by (by intros ->).
  destruct Hg as [[-> ->]|[-> ->]]; rewrite ?elem_of_app, ?list_elem_of_singleton; tauto.
Qed.

Lemma transmit_run ifidx l : forall d, mine l d ->
  transmit ifidx l d = Ok tt (d <| wire := wire d ++ ((fun a => (ifidx, packet_at (mbufs d) a)) <$> l) |> <| nic := nic d ++ l |>).
Proof using.
  induction l as [|a l IH]; intros d Hm; cbn [transmit].
  - cbn. rewrite !app_nil_r. by destruct d.
  - destruct (mine_at a _ d Hm) as (m & Hx & E); [by left|]. unfold mbind, M_bind. rewrite E. unfold modify.
    rewrite IH by (eapply mine_give; [exact Hm|done|by right]). cbn. unfold packet_at at 2. rewrite Hx, <- !app_assoc. done.
Qed.

(** The answers of a card that takes between none and all of what it is offered, until all
    [n] packets are taken. *)
Fixpoint tx_ok (n : Z) (answers : list Z) : Prop :=
  match answers with
  | [] => False
  | ret :: answers => 0 <= ret <= n /\ (ret < n -> tx_ok (n - ret) answers)
  end.

Lemma tx_loop_run ifidx answers : forall pkts d, mine pkts d -> tx_ok (zlen pkts) answers -> exists ret,
  tx_loop ifidx pkts answers d = Ok ret (d <| wire := wire d ++ ((fun a => (ifidx, packet_at (mbufs d) a)) <$> pkts) |> <| nic := nic d ++ pkts |>).
Proof using.
  induction answers as [|ret answers IH]; intros pkts d Hm Ha; [done|]. destruct Ha as [Hr Ha]. cbn [tx_loop].
  rewrite <- (take_drop (Z.to_nat ret) pkts) in Hm. destruct (mine_app _ _ _ Hm) as [Hm1 Hm2].
  unfold mbind at 1, M_bind at 1. rewrite (transmit_run ifidx _ _ Hm1). cbv zeta. destruct (drop (Z.to_nat ret) pkts) as [|b rest] eqn:E.
  - exists ret. rewrite take_ge; [done|]. apply (f_equal length) in E. rewrite length_drop in E. cbn in E. lia.
  - assert (Hlen : zlen (b :: rest) = zlen pkts - ret) by (rewrite <- E; unfold zlen in *; rewrite length_drop; lia).
    destruct (IH (b :: rest) (d <| wire := wire d ++ ((fun a => (ifidx, packet_at (mbufs d) a)) <$> take (Z.to_nat ret) pkts) |>
      <| nic := nic d ++ take (Z.to_nat ret) pkts |>)) as (r & Er).
    + destruct Hm as [N1 N2 N3 N4]. split; [apply Hm2|apply Hm2| |apply Hm2]. intros a Hain. cbn. destruct (mi_kept _ _ Hm2 a Hain).
      split; [done|]. rewrite elem_of_app. intros [?|Ht]; [done|]. apply list.NoDup_app in N1 as (_ & N1 & _). by apply (N1 a Ht).
    + rewrite Hlen. apply Ha. rewrite zlen_cons in Hlen. pose proof (zlen_nonneg rest). lia.
    + exists r. rewrite Er, <- E. cbn. rewrite <- !app_assoc, <- fmap_app, take_drop. done.
Qed.

Lemma table_run l ifidx t d : 0 <= ifidx -> l !! Z.to_nat ifidx = Some t -> table_at l ifidx d = Ok t d.
Proof using. intros Hi Hl. unfold table_at. rewrite (proj2 (Z.ltb_ge _ _)) by lia. by rewrite Hl. Qed.

Lemma wtable_run ifidx t d : 0 <= ifidx -> wmbufs d !! Z.to_nat ifidx = Some t -> wtable ifidx d = Ok t d.
Proof using. apply table_run. Qed.

Lemma rtable_run ifidx t d : 0 <= ifidx -> rmbufs d !! Z.to_nat ifidx = Some t -> rtable ifidx d = Ok t d.
Proof using. apply table_run. Qed.

Lemma slot_run l i a d : 0 <= i -> l !! Z.to_nat i = Some a -> slot l i d = Ok a d.
Proof using. intros Hi Hl. unfold slot. rewrite (proj2 (Z.ltb_ge _ _)) by lia. by rewrite Hl. Qed.

Lemma take_insert_next {A} (l : list A) (k : nat) a : (k < length l)%nat -> take (S k) (<[k := a]> l) = take k l ++ [a].
Proof using.
  intros Hk. rewrite insert_take_drop by done. replace (S k) with (length (take k l ++ [a])) at 1 by (rewrite length_app, length_take; cbn; lia).
  change (a :: drop (S k) l) with ([a] ++ drop (S k) l). by rewrite app_assoc, take_app_length.
Qed.

(** The slots from [i] on get the first buffers of the pool; without enough of them the
    process ends. *)
Definition refilled (ifidx i : Z) (n : nat) (t : mbuf_table) (d : dpdk) : dpdk :=
  d <| pool := drop n (pool d) |>
    <| wmbufs := <[Z.to_nat ifidx := MbufTable (len t)
         (take (Z.to_nat i) (m_table t) ++ take n (pool d) ++ drop (Z.to_nat i + n) (m_table t))]> (wmbufs d) |>.

Lemma refill_run ifidx n : forall i t d, 0 <= ifidx -> 0 <= i -> wmbufs d !! Z.to_nat ifidx = Some t -> 0 ∉ pool d ->
  (Z.to_nat i + n <= length (m_table t))%nat ->
  refill ifidx i n d = if (n <=? length (pool d))%nat then Ok tt (refilled ifidx i n t d) else Fault ProcessExit.
Proof using.
  induction n as [|n IH]; intros i t d H0 Hi Ht Hp Hl; cbn [refill].
  - unfold refilled. rewrite drop_0, Nat.add_0_r. rewrite take_0, app_nil_l, take_drop, list_insert_id by (by destruct t). by destruct d.
  - unfold mbind at 1, M_bind at 1, rte_pktmbuf_alloc. unfold mbind at 1, M_bind at 1, get. cbn.
    destruct (pool d) as [|a p] eqn:Ep; [done|]. unfold mbind, M_bind, modify, mret, M_ret. rewrite elem_of_cons in Hp.
    rewrite (proj2 (Z.eqb_neq a 0)) by (intros ->; tauto). rewrite (wtable_run _ t) by done. unfold set_wtable, modify. cbn.
    rewrite (IH (i + 1) (t <| m_table ::= <[Z.to_nat i := a]> |>)); cbn; [|lia|lia| |tauto|].
    + destruct (n <=? length p)%nat; [|done]. unfold refilled. cbn. rewrite list_insert_insert_eq, Ep.
      replace (Z.to_nat (i + 1)) with (S (Z.to_nat i)) by lia. rewrite take_insert_next, drop_insert_lt, <- app_assoc by lia.
      cbn. by rewrite Nat.add_succ_r.
    + by rewrite list_lookup_insert_eq by (by eapply lookup_lt_Some).
    + rewrite length_insert. lia.
Qed.

(** The card has the packets, and fresh buffers took their slots. *)
Definition sent (ifidx : Z) (t : mbuf_table) (d : dpdk) : dpdk :=
  let n := Z.to_nat (len t) in
  d <| wire := wire d ++ ((fun a => (ifidx, packet_at (mbufs d) a)) <$> received t) |>
    <| nic := nic d ++ received t |> <| pool := drop n (pool d) |>
    <| wmbufs := <[Z.to_nat ifidx := MbufTable 0 (take n (pool d) ++ drop n (m_table t))]> (wmbufs d) |>.

Lemma send_run ifidx t answers d : 0 <= ifidx -> wmbufs d !! Z.to_nat ifidx = Some t -> table_ok t -> mine (received t) d ->
  0 ∉ pool d -> 0 < len t -> tx_ok (len t) answers ->
  if (Z.to_nat (len t) <=? length (pool d))%nat then exists ret, dpdk_send_pkts ifidx answers d = Ok ret (sent ifidx t d)
  else dpdk_send_pkts ifidx answers d = Fault ProcessExit.
Proof using.
  intros Hi Ht [Hl Hn] Hm Hp Hpos Ha. assert (Er : zlen (received t) = len t).
  { unfold received, zlen in *. rewrite length_take. lia. }
  destruct (tx_loop_run ifidx answers (received t) d Hm) as (ret & E); [by rewrite Er|].
  unfold dpdk_send_pkts. unfold mbind, M_bind. rewrite (wtable_run _ t) by done. rewrite (proj2 (Z.ltb_lt _ _)) by done.
  change (take (Z.to_nat (len t)) (m_table t)) with (received t). rewrite E.
  rewrite (refill_run ifidx _ 0 t) by (done || cbn; unfold zlen in *; lia). cbn [pool upd dpdk_eta].
  destruct (_ <=? _)%nat eqn:Ele; [|done]. exists ret.
  rewrite (wtable_run _ (MbufTable (len t) (take (Z.to_nat (len t)) (pool d) ++ drop (Z.to_nat (len t)) (m_table t)))); [|done|].
  - unfold set_wtable, modify, sent, refilled, mret, M_ret. rewrite <- (list_insert_insert_eq (wmbufs d) (Z.to_nat ifidx)
      (MbufTable 0 (take (Z.to_nat (len t)) (pool d) ++ drop (Z.to_nat (len t)) (m_table t)))
      (MbufTable (len t) (take (Z.to_nat (len t)) (pool d) ++ drop (Z.to_nat (len t)) (m_table t)))). reflexivity.
  - cbn. rewrite list_lookup_insert_eq; [done|]. by eapply lookup_lt_Some.
Qed.

Lemma free_run l : forall d, mine l d -> free_pkts l d = Ok tt (d <| pool := pool d ++ l |>).
Proof using.
  induction l as [|a l IH]; intros d Hm; cbn [free_pkts].
  - rewrite app_nil_r. by destruct d.
  - destruct (mine_at a _ d Hm) as (m & Hx & E); [by left|]. unfold rte_pktmbuf_free.
    rewrite (proj2 (Z.eqb_neq a 0)) by (intros ->; apply (mi_null _ _ Hm); by left). unfold mbind, M_bind. rewrite E. unfold modify.
    rewrite IH by (eapply mine_give; [exact Hm|done|by left]). cbn. by rewrite <- app_assoc.
Qed.

(** The buffers of a burst change their owner and get new contents. *)
Definition taken (burst : list (Z * rte_mbuf)) (l : list Z) : list Z :=
  foldl (fun l p => filter (fun b => b <> p.1) l) l burst.

Definition filled (burst : list (Z * rte_mbuf)) (mb : gmap Z rte_mbuf) : gmap Z rte_mbuf :=
  foldl (fun mb p => <[p.1 := p.2]> mb) mb burst.

Definition delivered (burst : list (Z * rte_mbuf)) (d : dpdk) : dpdk :=
  d <| nic := taken burst (nic d) |> <| mbufs := filled burst (mbufs d) |>.

Lemma rx_burst_run burst : forall d, rx_burst burst d = Ok tt (delivered burst d).
Proof using.
  induction burst as [|[a m] burst IH]; intros d; cbn [rx_burst]; [by destruct d|].
  unfold mbind, M_bind, modify. rewrite IH. done.
Qed.

Lemma filter_absent (a : Z) (l : list Z) : a ∉ l -> filter (fun b => b <> a) l = l.
Proof using.
  induction l as [|b l IH]; [done|]. rewrite elem_of_cons. intros Hn. rewrite filter_cons_True by (intros ->; tauto). by rewrite IH by tauto.
Qed.

Lemma take_one (a : Z) (l : list Z) : NoDup l -> a ∈ l -> Permutation l (a :: filter (fun b => b <> a) l).
Proof using.
  induction l as [|b l IH]; [by intros _ ?%not_elem_of_nil|]. intros [Hn Hd]%list.NoDup_cons Ha. destruct (decide (b = a)) as [->|Hne].
  - rewrite filter_cons_False by tauto. f_equiv. rewrite (filter_absent a l Hn). done.
  - rewrite filter_cons_True by done. apply elem_of_cons in Ha as [->|Ha]; [done|].
    rewrite (IH Hd Ha) at 1. apply Permutation_swap.
Qed.

Lemma taken_split burst : forall l, NoDup l -> NoDup burst.*1 -> (forall a, a ∈ burst.*1 -> a ∈ l) ->
  Permutation l (burst.*1 ++ taken burst l).
Proof using.
  induction burst as [|[a m] burst IH]; intros l Hl Hb Hs; [done|]. cbn in *. apply list.NoDup_cons in Hb as [Hn Hb].
  rewrite (take_one a l Hl) at 1 by (apply Hs; by left). f_equiv. apply IH; [by apply list.NoDup_filter|done|].
  intros b Hin. apply list_elem_of_filter. split; [by intros ->|]. apply Hs. by right.
Qed.

Lemma filled_there burst : forall mb a, is_Some (mb !! a) -> is_Some (filled burst mb !! a).
Proof using.
  induction burst as [|[b m] burst IH]; intros mb a Ha; [done|]. apply IH. cbn. destruct (decide (a = b)) as [->|Hn].
  - rewrite lookup_insert_eq. done.
  - by rewrite lookup_insert_ne by done.
Qed.

Lemma filled_absent burst : forall mb a, a ∉ burst.*1 -> filled burst mb !! a = mb !! a.
Proof using.
  induction burst as [|[c m] b IH]; intros mb a Ha; [done|]. cbn in *. rewrite elem_of_cons in Ha. etransitivity; [apply IH; tauto|].
  apply lookup_insert_ne. intros ->. tauto.
Qed.

Lemma filled_at burst : forall mb i a m, NoDup burst.*1 -> burst !! i = Some (a, m) ->
  filled burst mb !! a = Some m.
Proof using.
  induction burst as [|[b x] burst IH]; intros mb i a m Hn Hi; [done|]. cbn in *. apply list.NoDup_cons in Hn as [Hb Hn].
  destruct i as [|i]; cbn in Hi; [|by eapply IH]. injection Hi as -> ->. etransitivity; [by apply filled_absent|]. apply lookup_insert_eq.
Qed.

(** [fetch_burst] enters the buffers of the burst into the table and answers the packets whose
    checksum the card did not find bad. *)
Definition answer_of (m : rte_mbuf) : option (list Z) :=
  if Z.land (ol_flags m) (RX_CKSUM_BAD pf) =? 0 then Some (packet_of m) else None.

Lemma fetch_run ifidx burst : forall i t d, 0 <= ifidx -> 0 <= i -> rmbufs d !! Z.to_nat ifidx = Some t ->
  mine burst.*1 d ->
  (forall k a m, burst !! k = Some (a, m) -> pkts_burst d !! (Z.to_nat i + k)%nat = Some a /\ mbufs d !! a = Some m) ->
  (Z.to_nat i + length burst <= length (m_table t))%nat ->
  fetch_burst pf ifidx i (length burst) d = Ok (answer_of <$> burst.*2)
    (d <| rmbufs := <[Z.to_nat ifidx := MbufTable (len t)
        (take (Z.to_nat i) (m_table t) ++ burst.*1 ++ drop (Z.to_nat i + length burst) (m_table t))]> (rmbufs d) |>).
Proof using.
  induction burst as [|[a m] burst IH]; intros i t d H0 Hi Ht Hmi Hb Hl; cbn [length fetch_burst].
  - rewrite Nat.add_0_r. cbn. rewrite take_drop, list_insert_id by (by destruct t). by destruct d.
  - destruct (Hb 0%nat a m eq_refl) as [Hs Hx]. rewrite Nat.add_0_r in Hs.
    destruct (mine_at a _ d Hmi) as (m' & Hx' & Hm); [by left|]. rewrite Hx in Hx'. injection Hx' as <-. unfold dpdk_get_rptr. unfold mbind, M_bind, get.
    rewrite (slot_run _ _ a) by done. rewrite Hm, (rtable_run _ t) by done.
    cbn [length] in Hl. destruct (lookup_lt_is_Some_2 (m_table t) (Z.to_nat i)) as [z Hz]; [lia|]. rewrite (slot_run _ _ z) by done.
    unfold set_rtable, modify, mret, M_ret. set (d1 := d <| rmbufs ::= _ |>).
    rewrite (IH (i + 1) (t <| m_table ::= <[Z.to_nat i := a]> |>) d1); cbn; [|lia|lia| | | |].
    + replace (Z.to_nat (i + 1)) with (S (Z.to_nat i)) by lia. rewrite take_insert_next, drop_insert_lt, <- app_assoc by lia.
      rewrite list_insert_insert_eq. cbn. rewrite Nat.add_succ_r. done.
    + rewrite list_lookup_insert_eq; [done|]. by eapply lookup_lt_Some.
    + eapply mine_same; [by eapply mine_tail|done..].
    + intros k b x Hk. destruct (Hb (S k) b x Hk) as [Hs' Hx']. split; [|done]. rewrite <- Hs'. f_equal. lia.
    + rewrite length_insert. lia.
Qed.

(** The state after a round of receiving: the packets of the round before are freed. *)
Definition took (ifidx : Z) (t : mbuf_table) (burst : list (Z * rte_mbuf)) (d : dpdk) : dpdk :=
  d <| pool := pool d ++ received t |> <| nic := taken burst (nic d) |> <| mbufs := filled burst (mbufs d) |>
    <| pkts_burst := burst.*1 ++ drop (length burst) (pkts_burst d) |>
    <| rmbufs := <[Z.to_nat ifidx := MbufTable (zlen burst) (burst.*1 ++ drop (length burst) (m_table t))]> (rmbufs d) |>.

Lemma recv_run ifidx t burst d : 0 <= ifidx -> rmbufs d !! Z.to_nat ifidx = Some t -> table_ok t -> mine (received t) d ->
  dpdk_recv_pkts ifidx burst d = Ok (zlen burst) (d <| pool := pool d ++ received t |> <| nic := taken burst (nic d) |>
    <| mbufs := filled burst (mbufs d) |> <| pkts_burst := burst.*1 ++ drop (length burst) (pkts_burst d) |>
    <| rmbufs := <[Z.to_nat ifidx := MbufTable (zlen burst) (m_table t)]> (rmbufs d) |>).
Proof using.
  intros Hi Ht [Hl Hn] Hm. unfold dpdk_recv_pkts. unfold mbind, M_bind. rewrite (rtable_run _ t) by done. unfold whenM.
  pose proof (lookup_lt_Some _ _ _ Ht) as Hlt. destruct (Z.eqb_spec (len t) 0) as [E|E]; cbn [negb].
  - unfold mret, M_ret. rewrite rx_burst_run. unfold modify. rewrite (rtable_run _ t) by done.
    unfold set_rtable, modify, delivered. replace (received t) with (@nil Z) by (unfold received; by rewrite E). rewrite app_nil_r. by destruct d.
  - change (take (Z.to_nat (len t)) (m_table t)) with (received t). unfold mbind, M_bind. rewrite (free_run _ _ Hm).
    unfold set_rtable, modify. rewrite rx_burst_run. rewrite (rtable_run _ (MbufTable 0 (m_table t))); [|done|].
    + unfold delivered, mret, M_ret.
      rewrite <- (list_insert_insert_eq (rmbufs d) (Z.to_nat ifidx) (MbufTable (zlen burst) (m_table t)) (MbufTable 0 (m_table t))). reflexivity.
    + cbn. by rewrite list_lookup_insert_eq.
Qed.

Lemma receive_run ifidx t burst d : 0 <= ifidx -> rmbufs d !! Z.to_nat ifidx = Some t -> table_ok t -> mine (received t) d ->
  NoDup burst.*1 -> zlen burst <= MAX_PKT_BURST -> mine burst.*1 (took ifidx t burst d) ->
  receive_round pf ifidx burst d = Ok (answer_of <$> burst.*2) (took ifidx t burst d).
Proof using.
  intros Hi Ht Hok Hm Hnd Hb Hmi. unfold receive_round, mbind, M_bind. rewrite (recv_run _ t) by done.
  pose proof (lookup_lt_Some _ _ _ Ht) as Hlt. destruct Hok as [Hl _].
  replace (Z.to_nat (zlen burst)) with (length burst) by (unfold zlen; lia).
  rewrite (fetch_run ifidx burst 0 (MbufTable (zlen burst) (m_table t))).
  - unfold took. rewrite <- (list_insert_insert_eq (rmbufs d) (Z.to_nat ifidx)
      (MbufTable (zlen burst) (burst.*1 ++ drop (length burst) (m_table t))) (MbufTable (zlen burst) (m_table t))). reflexivity.
  - done.
  - done.
  - cbn. by rewrite list_lookup_insert_eq.
  - eapply mine_same; [exact Hmi|done..].
  - intros k a m Hk. split; cbn.
    + rewrite lookup_app_l; [|rewrite length_fmap; by eapply lookup_lt_Some]. change (Z.to_nat 0 + k)%nat with k. by rewrite list_lookup_fmap, Hk.
    + by eapply filled_at.
  - cbn. unfold zlen in *. lia.
Qed.

End Runs.

(** ** The invariant *)

Section Owners.
Context (pf : platform) (all : list Z).

Definition sending (k : nat) (d : dpdk) : list Z := concat (m_table <$> take k (wmbufs d)).
Definition receiving (d : dpdk) : list Z := concat (received <$> rmbufs d).

#[local] Arguments sending : simpl never.
#[local] Arguments receiving : simpl never.

Definition mbuf_ok (m : rte_mbuf) : Prop := zlen (bytes m) = BUF_SIZE.

(** [all] are the buffers of the pool; the first [k] tables have buffers for packets to send. *)
Record owners (k : nat) (d : dpdk) : Prop := {
  ow_places : Permutation (pool d ++ nic d ++ sending k d ++ receiving d) all;
  ow_mbufs : forall a, a ∈ all -> exists m, mbufs d !! a = Some m /\ mbuf_ok m;
  ow_send : Forall table_ok (wmbufs d) /\ zlen (wmbufs d) = RTE_MAX_ETHPORTS pf;
  ow_recv : Forall table_ok (rmbufs d) /\ zlen (rmbufs d) = RTE_MAX_ETHPORTS pf;
  ow_burst : zlen (pkts_burst d) = MAX_PKT_BURST
}.

Record platform_ok : Prop := {
  pl_all : NoDup all /\ 0 ∉ all;
  pl_ports : 0 <= num_devices_attached pf <= RTE_MAX_ETHPORTS pf
}.

(** Replacing one table keeps the buffers of the others. *)
Lemma tables_split (f : mbuf_table -> list Z) l i t : l !! i = Some t ->
  exists rest, Permutation (concat (f <$> l)) (f t ++ rest) /\
    forall t', Permutation (concat (f <$> <[i := t']> l)) (f t' ++ rest).
Proof using.
  intros Hi. exists (concat (f <$> (take i l ++ drop (S i) l))).
  assert (E : forall t', Permutation (concat (f <$> (take i l ++ t' :: drop (S i) l))) (f t' ++ concat (f <$> (take i l ++ drop (S i) l)))).
  { intros t'. rewrite !fmap_app, !concat_app. cbn. rewrite !app_assoc. apply Permutation_app_tail, Permutation_app_comm. }
  split; [|intros t'; rewrite insert_take_drop by (by eapply lookup_lt_Some); apply E].
  rewrite <- E. by rewrite take_drop_middle.
Qed.

Lemma sending_split k d i t : wmbufs d !! i = Some t -> (i < k)%nat ->
  exists rest, Permutation (sending k d) (m_table t ++ rest) /\
    forall d' t', wmbufs d' = <[i := t']> (wmbufs d) -> Permutation (sending k d') (m_table t' ++ rest).
Proof using.
  intros Hi Hk. destruct (tables_split m_table (take k (wmbufs d)) i t) as (rest & H1 & H2); [by rewrite lookup_take_lt|].
  exists rest. split; [done|]. intros d' t' E. unfold sending. rewrite E, take_insert_lt by done. apply H2.
Qed.

Lemma receiving_split d i t : rmbufs d !! i = Some t ->
  exists rest, Permutation (receiving d) (received t ++ rest) /\
    forall d' t', rmbufs d' = <[i := t']> (rmbufs d) -> Permutation (receiving d') (received t' ++ rest).
Proof using.
  intros Hi. destruct (tables_split received (rmbufs d) i t Hi) as (rest & H1 & H2).
  exists rest. split; [done|]. intros d' t' E. unfold receiving. rewrite E. apply H2.
Qed.

(** Buffers that neither the pool nor the card has belong to the module. *)
Lemma owners_mine k d l rest : platform_ok -> owners k d ->
  Permutation (sending k d ++ receiving d) (l ++ rest) -> mine l d.
Proof using.
  intros [[Hnd H0] _] H Hl. assert (E : Permutation (l ++ pool d ++ nic d ++ rest) all).
  { rewrite <- (ow_places _ _ H). rewrite (Permutation_count_occ Z.eq_dec) in Hl |- *. intros z. specialize (Hl z).
    rewrite !count_occ_app in *. lia. }
  rewrite <- E in Hnd, H0. rewrite elem_of_app in H0. apply list.NoDup_app in Hnd as (N1 & N2 & N3).
  split; [done|tauto| |].
  - intros a Ha. specialize (N2 a Ha). rewrite !elem_of_app in N2. tauto.
  - intros a Ha. destruct (ow_mbufs _ _ H a) as (m & -> & _); [|done]. rewrite <- E, elem_of_app. by left.
Qed.

Lemma mine_send k d i t : platform_ok -> owners k d -> wmbufs d !! i = Some t -> (i < k)%nat -> mine (m_table t) d.
Proof using.
  intros Hp H Hi Hk. destruct (sending_split k d i t Hi Hk) as (rest & E & _). apply (owners_mine k d _ (rest ++ receiving d)); [done|done|].
  by rewrite E, app_assoc.
Qed.

Lemma mine_recv k d i t : platform_ok -> owners k d -> rmbufs d !! i = Some t -> mine (received t) d.
Proof using.
  intros Hp H Hi. destruct (receiving_split d i t Hi) as (rest & E & _). apply (owners_mine k d _ (sending k d ++ rest)); [done|done|].
  rewrite E. rewrite !app_assoc. apply Permutation_app_tail, Permutation_app_comm.
Qed.

Lemma pool_nonnull k d : platform_ok -> owners k d -> 0 ∉ pool d.
Proof using. intros Hp H Hin. apply (proj2 (pl_all Hp)). rewrite <- (ow_places _ _ H), elem_of_app. by left. Qed.

(** ** The invariant is kept *)

Lemma tables_insert l i t' (P : mbuf_table -> Prop) n : Forall P l /\ zlen l = n -> P t' -> Forall P (<[i := t']> l) /\ zlen (<[i := t']> l) = n.
Proof using. intros [H1 H2] Ht. split; [by apply Forall_insert|]. unfold zlen in *. by rewrite length_insert. Qed.

Lemma take_drop_count (l : list Z) n z :
  count_occ Z.eq_dec l z = (count_occ Z.eq_dec (take n l) z + count_occ Z.eq_dec (drop n l) z)%nat.
Proof using. by rewrite <- count_occ_app, take_drop. Qed.

Lemma set_ok k d a m : owners k d -> mbuf_ok m -> owners k (d <| mbufs ::= <[a := m]> |>).
Proof using.
  intros [H1 H2 H3 H4 H5] Hm. split; try done. intros b Hb. cbn. destruct (decide (b = a)) as [->|Hn].
  - rewrite lookup_insert_eq. eauto.
  - rewrite lookup_insert_ne by done. by apply H2.
Qed.

(** A table whose buffers stay the same. *)
Lemma table_set_ok k d i t t' : owners k d -> wmbufs d !! i = Some t -> (i < k)%nat -> m_table t' = m_table t -> table_ok t' ->
  owners k (d <| wmbufs ::= <[i := t']> |>).
Proof using.
  intros [H1 H2 H3 H4 H5] Hi Hk Em Ht. destruct (sending_split k d i t Hi Hk) as (rest & E1 & E2).
  split; try done; [|by apply tables_insert]. cbn. change (receiving _) with (receiving d). rewrite <- H1, E1, (E2 _ t') by done. by rewrite Em.
Qed.

Lemma sent_ok k d i t : owners k d -> 0 <= i -> wmbufs d !! Z.to_nat i = Some t -> (Z.to_nat i < k)%nat ->
  (Z.to_nat (len t) <= length (pool d))%nat -> owners k (sent i t d).
Proof using.
  intros [H1 H2 H3 H4 H5] H0 Hi Hk Hl. destruct (sending_split k d (Z.to_nat i) t Hi Hk) as (rest & E1 & E2).
  assert (Ht : table_ok t) by (eapply Forall_lookup_1; [apply H3|exact Hi]). destruct Ht as [Ht1 Ht2].
  set (n := Z.to_nat (len t)) in *.
  split; try done; [|apply tables_insert; [done|]].
  - unfold sent. cbn. change (receiving _) with (receiving d). rewrite E1 in H1.
    rewrite (E2 _ (MbufTable 0 (take n (pool d) ++ drop n (m_table t)))) by done. cbn [m_table].
    rewrite (Permutation_count_occ Z.eq_dec) in H1 |- *. intros z. rewrite <- H1, !count_occ_app, (take_drop_count (pool d) n z), (take_drop_count (m_table t) n z).
    change (received t) with (take n (m_table t)). fold n. unfold receiving. lia.
  - split; cbn; [|unfold MAX_PKT_BURST; lia]. rewrite zlen_app. unfold zlen in *. rewrite length_take, length_drop. lia.
Qed.

Lemma received_burst (burst : list (Z * rte_mbuf)) t :
  received (MbufTable (zlen burst) (burst.*1 ++ drop (length burst) (m_table t))) = burst.*1.
Proof using. unfold received, zlen. cbn. rewrite Nat2Z.id, <- (length_fmap fst burst). apply take_app_length. Qed.

Lemma took_ok k d i t burst : platform_ok -> owners k d -> 0 <= i -> rmbufs d !! Z.to_nat i = Some t ->
  NoDup burst.*1 -> (forall a, a ∈ burst.*1 -> a ∈ nic d) -> Forall mbuf_ok burst.*2 -> zlen burst <= MAX_PKT_BURST ->
  owners k (took i t burst d).
Proof using.
  intros Hp H H0 Hi Hnd Hin Hm Hb. assert (Hn : NoDup (nic d)).
  { pose proof (proj1 (pl_all Hp)) as Ha. rewrite <- (ow_places _ _ H) in Ha. apply list.NoDup_app in Ha as (_ & _ & Ha).
    by apply list.NoDup_app in Ha as (Ha & _ & _). }
  pose proof (taken_split burst (nic d) Hn Hnd Hin) as Ht. destruct H as [H1 H2 H3 H4 H5].
  destruct (receiving_split d (Z.to_nat i) t Hi) as (rest & E1 & E2).
  assert (Hok : table_ok t) by (eapply Forall_lookup_1; [apply H4|exact Hi]). destruct Hok as [Ht1 Ht2].
  set (t' := MbufTable (zlen burst) (burst.*1 ++ drop (length burst) (m_table t))).
  pose proof (received_burst burst t) as Er. fold t' in Er.
  split.
  - unfold took. cbn. change (sending k _) with (sending k d). rewrite E1 in H1. rewrite (E2 _ t') by done. rewrite Er.
    rewrite (Permutation_count_occ Z.eq_dec) in H1, Ht |- *. intros z. specialize (Ht z). rewrite <- H1, !count_occ_app in *. lia.
  - intros a Ha. unfold took. cbn. destruct (decide (a ∈ burst.*1)) as [Hx|Hx].
    + apply list_elem_of_fmap in Hx as ([b m] & -> & Hx). apply list_elem_of_lookup in Hx as (j & Hj). exists m. split; [by eapply filled_at|].
      eapply Forall_lookup_1; [exact Hm|]. rewrite list_lookup_fmap, Hj. done.
    + rewrite filled_absent by done. by apply H2.
  - done.
  - apply tables_insert; [done|]. split; cbn; [|pose proof (zlen_nonneg burst); lia].
    rewrite zlen_app. unfold zlen in *. rewrite length_fmap, length_drop. lia.
  - unfold took. cbn. rewrite zlen_app. unfold zlen in *. rewrite length_fmap, length_drop. lia.
Qed.

(** ** The operations *)

Lemma attached_table k d i : owners k d -> (k <= Z.to_nat (RTE_MAX_ETHPORTS pf))%nat -> 0 <= i -> (Z.to_nat i < k)%nat ->
  exists t, wmbufs d !! Z.to_nat i = Some t /\ table_ok t.
Proof using.
  intros H Hk H0 Hi. destruct (ow_send _ _ H) as [Ht Hl]. destruct (lookup_lt_is_Some_2 (wmbufs d) (Z.to_nat i)) as [t E]; [unfold zlen in Hl; lia|].
  exists t. split; [done|]. by eapply Forall_lookup_1.
Qed.

Lemma recv_table k d i : owners k d -> 0 <= i < RTE_MAX_ETHPORTS pf -> exists t, rmbufs d !! Z.to_nat i = Some t /\ table_ok t.
Proof using.
  intros H Hi. destruct (ow_recv _ _ H) as [Ht Hl]. destruct (lookup_lt_is_Some_2 (rmbufs d) (Z.to_nat i)) as [t E]; [unfold zlen in Hl; lia|].
  exists t. split; [done|]. by eapply Forall_lookup_1.
Qed.

(** A packet is appended to the table, unless it is full. *)
Lemma queue_run k d i t size bs : platform_ok -> owners k d -> 0 <= i -> wmbufs d !! Z.to_nat i = Some t -> table_ok t -> (Z.to_nat i < k)%nat ->
  0 <= size < 65536 -> zlen bs <= BUF_SIZE ->
  if len t =? MAX_PKT_BURST then queue_packet i size bs d = Ok false d
  else exists a m w, m_table t !! Z.to_nat (len t) = Some a /\ mbufs d !! a = Some m /\ mem_write (bytes m) 0 bs = Some w /\
    queue_packet i size bs d = Ok true (d <| mbufs := <[a := m <| pkt_len := size |> <| bytes := w |>]> (mbufs d) |>
      <| wmbufs ::= <[Z.to_nat i := t <| len := len t + 1 |>]> |>).
Proof using.
  intros Hp H Hi Ht [Hl Hn] Hk Hsz Hbs. unfold queue_packet, dpdk_get_wptr. unfold mbind, M_bind. rewrite (wtable_run _ t) by done.
  destruct (Z.eqb_spec (len t) MAX_PKT_BURST) as [E|E]; [done|].
  destruct (lookup_lt_is_Some_2 (m_table t) (Z.to_nat (len t))) as [a Ha]; [unfold zlen in *; lia|].
  pose proof (mine_send k d _ t Hp H Ht Hk) as Hm. assert (Hin : a ∈ m_table t) by (by eapply list_elem_of_lookup_2).
  destruct (mine_at a _ d Hm Hin) as (m & Hx & Em). rewrite (slot_run _ _ a) by (done || lia). rewrite Em. unfold mbuf_set, set_wtable, modify, mret, M_ret.
  assert (Hok : mbuf_ok m).
  { destruct (ow_mbufs _ _ H a) as (m' & Hx' & Hok); [|congruence]. rewrite <- (ow_places _ _ H).
    destruct (sending_split k d _ t Ht Hk) as (rest & -> & _). rewrite !elem_of_app. tauto. }
  rewrite (mbuf_at_run a (m <| pkt_len := u16 size |>)).
  - pose proof (mem_write_ok (bytes m) 0 bs ltac:(lia) ltac:(unfold mbuf_ok in Hok; lia)) as Ew.
    exists a, m. eexists. split_and!; [done|done|exact Ew|]. change (bytes (m <| pkt_len := u16 size |>)) with (bytes m). rewrite Ew.
    unfold unwrap, mret, M_ret. replace (u16 size) with size by mlia.
    rewrite <- (insert_insert_eq (mbufs d) a _ (m <| pkt_len := size |>)). reflexivity.
  - intros ->. by apply (mi_null _ _ Hm).
  - apply (mi_kept _ _ Hm a Hin).
  - apply (mi_kept _ _ Hm a Hin).
  - cbn. apply lookup_insert_eq.
Qed.

Lemma ip_hlen_run m d : mbuf_ok m -> exists h, 0 <= h <= 60 /\ ip_hlen m d = Ok h d.
Proof using.
  intros Hm. destruct (lookup_lt_is_Some_2 (bytes m) (Z.to_nat sizeof_ether_hdr)) as [b Hb].
  { unfold mbuf_ok, zlen, BUF_SIZE in Hm. unfold sizeof_ether_hdr. lia. }
  exists (Z.shiftl (Z.land b 15) 2). split; [|unfold ip_hlen, byte_of, mbind, M_bind; by rewrite (slot_run _ _ b)].
  change 15 with (Z.ones 4). rewrite Z.land_ones, Z.shiftl_mul_pow2 by lia. pose proof (Z.mod_pos_bound b (2 ^ 4)). lia.
Qed.

Lemma set_check_run m h d : mbuf_ok m -> 0 <= h <= 60 -> exists m', mbuf_ok m' /\ set_check pf m h d = Ok m' d.
Proof using.
  intros Hm Hh. unfold set_check. set (s := u16 _). set (v := [_; _]).
  pose proof (mem_write_ok (bytes m) (sizeof_ether_hdr + h + 16) v) as E. unfold mbuf_ok, BUF_SIZE, sizeof_ether_hdr in *.
  specialize (E ltac:(lia) ltac:(change (zlen v) with 2; lia)). unfold mbind, M_bind. rewrite E. eexists. split; [|reflexivity].
  pose proof (mem_write_length _ _ _ _ E) as El. unfold zlen in *. rewrite <- Hm. f_equal. exact El.
Qed.

(** A command on the packet that was queued last changes its contents alone. *)
Definition command_ok (k : nat) (d : dpdk) (r : Z) (d' : dpdk) : Prop :=
  owners k d' /\ (r = 0 \/ r = -1) /\ pool d' = pool d /\ nic d' = nic d /\ wire d' = wire d /\ wmbufs d' = wmbufs d.

Lemma ioctl_ok k d nif cmd t : platform_ok -> owners k d -> 0 <= nif_to_eidx pf nif -> (Z.to_nat (nif_to_eidx pf nif) < k)%nat ->
  wmbufs d !! Z.to_nat (nif_to_eidx pf nif) = Some t -> table_ok t -> 0 < len t ->
  exists r d', dpdk_dev_ioctl pf nif cmd d = Ok r d' /\ command_ok k d r d'.
Proof using.
  intros Hp H Hi Hk Ht [Hl Hn] Hpos. unfold dpdk_dev_ioctl.
  assert (Hsame : forall r, r = 0 \/ r = -1 -> exists r0 d', Ok r d = Ok r0 d' /\ command_ok k d r0 d') by (intros r Hr; exists r, d; done).
  destruct (cmd =? DRV_NAME); [apply Hsame; tauto|]. unfold mbind, M_bind, last_queued. rewrite (wtable_run _ t) by done. unfold mbind, M_bind.
  destruct (lookup_lt_is_Some_2 (m_table t) (Z.to_nat (len t - 1))) as [a Ha]; [unfold zlen in *; lia|].
  pose proof (mine_send k d _ t Hp H Ht Hk) as Hm. assert (Hin : a ∈ m_table t) by (by eapply list_elem_of_lookup_2).
  destruct (mine_at a _ d Hm Hin) as (m & Hx & Em).
  assert (Hok : mbuf_ok m).
  { destruct (ow_mbufs _ _ H a) as (m' & Hx' & Hok); [|congruence]. rewrite <- (ow_places _ _ H).
    destruct (sending_split k d _ t Ht Hk) as (rest & -> & _). rewrite !elem_of_app. tauto. }
  destruct (ip_hlen_run m d Hok) as (h & Hh & Eh).
  assert (Hset : forall m', mbuf_ok m' -> exists r d', (mbuf_set a m';; mret 0) d = Ok r d' /\ command_ok k d r d').
  { intros m' Hm'. exists 0. eexists. split; [reflexivity|]. split_and!; try done; [by apply set_ok|tauto]. }
  destruct (cmd =? PKT_TX_IP_CSUM).
  { destruct (tx_ip _); cbn [negb]; [|apply Hsame; tauto]. rewrite (wtable_run _ t), (slot_run _ _ a), Em, Eh by (done || lia). by apply Hset. }
  destruct (cmd =? PKT_TX_TCP_CSUM).
  { destruct (tx_tcp _); cbn [negb]; [|apply Hsame; tauto]. rewrite (wtable_run _ t), (slot_run _ _ a), Em, Eh by (done || lia).
    match goal with |- context [set_check pf ?x h d] => destruct (set_check_run x h d Hok Hh) as (m' & Hm' & Ec) end. rewrite Ec. by apply Hset. }
  destruct (cmd =? PKT_TX_TCPIP_CSUM).
  { destruct (tx_ip _); cbn [negb]; [|apply Hsame; tauto]. destruct (tx_tcp _); cbn [negb]; [|apply Hsame; tauto].
    rewrite (wtable_run _ t), (slot_run _ _ a), Em, Eh by (done || lia). unfold byte_of.
    destruct (lookup_lt_is_Some_2 (bytes m) (Z.to_nat (sizeof_ether_hdr + h + 12))) as [b Hb].
    { unfold mbuf_ok, zlen, BUF_SIZE, sizeof_ether_hdr in *. lia. }
    rewrite (slot_run _ _ b) by (done || unfold sizeof_ether_hdr; lia).
    match goal with |- context [set_check pf ?x h d] => destruct (set_check_run x h d Hok Hh) as (m' & Hm' & Ec) end. rewrite Ec. by apply Hset. }
  destruct (cmd =? PKT_RX_IP_CSUM); [apply Hsame; destruct (rx_ip _); tauto|].
  destruct (cmd =? PKT_RX_TCP_CSUM); [apply Hsame; destruct (rx_tcp _); tauto|].
  destruct (cmd =? PKT_TX_TCPIP_CSUM_PEEK); apply Hsame; [destruct (_ && _)|]; tauto.
Qed.

(** *** Creation *)

Lemma filled_ok j d t : platform_ok -> owners j d -> wmbufs d !! j = Some t -> (Z.to_nat MAX_PKT_BURST <= length (pool d))%nat ->
  owners (S j) (d <| pool := drop (Z.to_nat MAX_PKT_BURST) (pool d) |>
    <| wmbufs := <[j := MbufTable 0 (take (Z.to_nat MAX_PKT_BURST) (pool d))]> (wmbufs d) |>).
Proof using.
  intros Hp [H1 H2 H3 H4 H5] Ht Hl. set (n := Z.to_nat MAX_PKT_BURST) in *. pose proof (lookup_lt_Some _ _ _ Ht) as Hlt.
  split; try done; [|apply tables_insert; [done|]].
  - cbn. change (receiving _) with (receiving d).
    assert (E : sending (S j) (d <| pool := drop n (pool d) |> <| wmbufs := <[j := MbufTable 0 (take n (pool d))]> (wmbufs d) |>) = sending j d ++ take n (pool d)).
    { unfold sending. cbn [wmbufs upd dpdk_eta]. rewrite take_insert_next by done. rewrite fmap_app, concat_app. cbn. by rewrite app_nil_r. }
    rewrite E. rewrite (Permutation_count_occ Z.eq_dec) in H1 |- *. intros z.
    rewrite <- H1, !count_occ_app, (take_drop_count (pool d) n z). lia.
  - split; cbn; [|unfold MAX_PKT_BURST; lia]. unfold zlen. rewrite length_take. subst n. unfold MAX_PKT_BURST in *. lia.
Qed.

Lemma init_tables_ok n : forall j d, platform_ok -> owners j d -> (j + n <= Z.to_nat (RTE_MAX_ETHPORTS pf))%nat ->
  wpe (fun e => e = ProcessExit /\ zlen (pool d) < Z.of_nat n * MAX_PKT_BURST) (init_tables (Z.of_nat j) n)
    (fun _ d' => owners (j + n) d' /\ wire d' = wire d /\ nic d' = nic d) d.
Proof using.
  induction n as [|n IH]; intros j d Hp H Hj; cbn [init_tables].
  - rewrite wpe_ret, Nat.add_0_r. done.
  - destruct (ow_send _ _ H) as [Hf Hlen]. destruct (lookup_lt_is_Some_2 (wmbufs d) j) as [t Ht]; [unfold zlen in Hlen; lia|].
    assert (Hok : table_ok t) by (by eapply Forall_lookup_1). destruct Hok as [Hl _].
    unfold wpe. unfold mbind, M_bind. 
    rewrite (refill_run _ _ 0 t) by (lia || (by rewrite Nat2Z.id) || (by eapply pool_nonnull) || (unfold zlen in Hl; lia)).
    destruct (_ <=? _)%nat eqn:Ele.
    + apply Nat.leb_le in Ele. unfold refilled. rewrite Nat2Z.id.
      replace (take (Z.to_nat 0) (m_table t) ++ take (Z.to_nat MAX_PKT_BURST) (pool d) ++ drop (Z.to_nat 0 + Z.to_nat MAX_PKT_BURST) (m_table t))
        with (take (Z.to_nat MAX_PKT_BURST) (pool d)) by (rewrite (drop_ge (m_table t)) by (unfold zlen in Hl; lia); cbn; by rewrite app_nil_r).
      rewrite (wtable_run _ (MbufTable (len t) (take (Z.to_nat MAX_PKT_BURST) (pool d)))); [|lia|].
      2: { cbn. rewrite Nat2Z.id, list_lookup_insert_eq; [done|]. by eapply lookup_lt_Some. }
      pose proof (filled_ok j d t Hp H Ht Ele) as H'. unfold set_wtable, modify.
      rewrite <- (list_insert_insert_eq (wmbufs d) j _ (MbufTable (len t) (take (Z.to_nat MAX_PKT_BURST) (pool d)))) in H'.
      set (d1 := d <| pool := _ |> <| wmbufs := _ |>) in H'. specialize (IH (S j) d1 Hp H' ltac:(lia)).
      replace (Z.of_nat (S j)) with (Z.of_nat j + 1) in IH by lia. rewrite Nat2Z.id.
      change (wpe (fun e => e = ProcessExit /\ zlen (pool d) < Z.of_nat (S n) * MAX_PKT_BURST) (init_tables (Z.of_nat j + 1) n)
        (fun _ d' => owners (j + S n) d' /\ wire d' = wire d /\ nic d' = nic d) d1).
      unfold wpe in *. rewrite Nat.add_succ_r. destruct (init_tables (Z.of_nat j + 1) n d1); [done|]. destruct IH as [-> Hlt]. split; [done|].
      unfold d1, zlen in Hlt. cbn in Hlt. rewrite length_drop in Hlt. unfold zlen, MAX_PKT_BURST in *. lia.
    + apply Nat.leb_gt in Ele. split; [done|]. unfold zlen, MAX_PKT_BURST in *. lia.
Qed.

(** A pool that nobody has used yet. *)
Record untouched (d : dpdk) : Prop := {
  un_pool : pool d = all;
  un_nic : nic d = [];
  un_mbufs : forall a, a ∈ all -> exists m, mbufs d !! a = Some m /\ mbuf_ok m
}.

Lemma concat_nils (l : list mbuf_table) : Forall (fun t => len t = 0) l -> concat (received <$> l) = [].
Proof using. induction 1 as [|t l Ht _ IH]; [done|]. cbn. unfold received at 1. by rewrite Ht, IH. Qed.

Lemma init_ok d : platform_ok -> untouched d ->
  wpe (fun e => e = ProcessExit /\ zlen all < num_devices_attached pf * MAX_PKT_BURST) (dpdk_init_handle pf true)
    (fun _ d' => owners (Z.to_nat (num_devices_attached pf)) d') d.
Proof using.
  intros Hp [H1 H2 H3]. pose proof (pl_ports Hp) as Hports. unfold dpdk_init_handle. cbn [negb]. rewrite wpe_bind, wpe_modify.
  set (tables := replicate _ zero_table). set (d1 := d <| rmbufs := tables |> <| wmbufs := _ |> <| pkts_burst := _ |>).
  assert (Ht : Forall table_ok tables /\ zlen tables = RTE_MAX_ETHPORTS pf).
  { split; [|unfold zlen, tables; rewrite length_replicate; lia]. apply Forall_replicate. split; [done|]. cbn. unfold MAX_PKT_BURST. lia. }
  assert (H : owners 0 d1).
  { split; [|done|done|done|done]. unfold d1. cbn. unfold sending, receiving. cbn [rmbufs upd dpdk_eta wmbufs take fmap list_fmap concat].
    rewrite concat_nils by (by apply Forall_replicate). by rewrite H1, H2, !app_nil_r. }
  pose proof (init_tables_ok (Z.to_nat (num_devices_attached pf)) 0 d1 Hp H ltac:(lia)) as Hi. change (Z.of_nat 0) with 0 in Hi.
  unfold wpe in *. destruct (init_tables _ _ d1); [apply Hi|]. destruct Hi as [-> Hl]. split; [done|]. unfold d1 in Hl. cbn in Hl. by rewrite H1, Z2Nat.id in Hl by lia.
Qed.

(** ** Histories *)

Inductive devent :=
| DQueue (i size : Z) (bs : list Z)
| DIoctl (nif cmd : Z)
| DSend (i : Z) (answers : list Z)
| DReceive (i : Z) (burst : list (Z * rte_mbuf))
| NTake
| NDone (a : Z).

(** The card takes buffers for packets to come from the pool and returns buffers it has sent. *)
Definition run_devent (e : devent) : MD unit :=
  match e with
  | DQueue i size bs => queue_packet i size bs;; mret tt
  | DIoctl nif cmd => dpdk_dev_ioctl pf nif cmd;; mret tt
  | DSend i answers => dpdk_send_pkts i answers;; mret tt
  | DReceive i burst => receive_round pf i burst;; mret tt
  | NTake => modify (fun d => d <| pool := tail (pool d) |> <| nic ::= fun n => n ++ option_list (head (pool d)) |>)
  | NDone a => modify (fun d => d <| nic ::= filter (fun b => b <> a) |> <| pool ::= fun p => p ++ [a] |>)
  end.

Definition is_attached (i : Z) : Prop := 0 <= i < num_devices_attached pf.

Definition denabled (e : devent) (d : dpdk) : Prop :=
  match e with
  | DQueue i size bs => is_attached i /\ 0 <= size < 65536 /\ zlen bs <= BUF_SIZE
  | DIoctl nif cmd => is_attached (nif_to_eidx pf nif) /\
      exists t, wmbufs d !! Z.to_nat (nif_to_eidx pf nif) = Some t /\ 0 < len t
  | DSend i answers => is_attached i /\ forall t, wmbufs d !! Z.to_nat i = Some t -> 0 < len t -> tx_ok (len t) answers
  | DReceive i burst => is_attached i /\ NoDup burst.*1 /\ (forall a, a ∈ burst.*1 -> a ∈ nic d) /\
      Forall mbuf_ok burst.*2 /\ zlen burst <= MAX_PKT_BURST
  | NTake => True
  | NDone a => a ∈ nic d
  end.

Inductive dstep (d d' : dpdk) : Prop :=
| DStep e : denabled e d -> run_devent e d = Ok tt d' -> dstep d d'.

(** The process ends when a sent packet cannot be replaced. *)
Definition exhausted (e : devent) (d : dpdk) (f : fault) : Prop :=
  f = ProcessExit /\ exists i answers t, e = DSend i answers /\ wmbufs d !! Z.to_nat i = Some t /\ zlen (pool d) < len t.

Abbreviation ports := (Z.to_nat (num_devices_attached pf)).

Lemma port_table d i : platform_ok -> owners ports d -> is_attached i ->
  (Z.to_nat i < ports)%nat /\ exists t, wmbufs d !! Z.to_nat i = Some t /\ table_ok t.
Proof using.
  intros Hp H [Hi1 Hi2]. pose proof (pl_ports Hp). split; [lia|]. by apply (attached_table ports d i H); lia.
Qed.

Lemma received_prefix t : exists rest, m_table t = received t ++ rest.
Proof using. exists (drop (Z.to_nat (len t)) (m_table t)). unfold received. by rewrite take_drop. Qed.

Lemma mine_received k d i t : platform_ok -> owners k d -> wmbufs d !! i = Some t -> (i < k)%nat -> mine (received t) d.
Proof using.
  intros Hp H Hi Hk. destruct (received_prefix t) as [rest E]. pose proof (mine_send k d i t Hp H Hi Hk) as Hm. rewrite E in Hm.
  by apply mine_app in Hm as [Hm _].
Qed.

Lemma nic_take_ok k d : owners k d -> owners k (d <| pool := tail (pool d) |> <| nic ::= fun n => n ++ option_list (head (pool d)) |>).
Proof using.
  intros [H1 H2 H3 H4 H5]. split; try done. cbn. change (sending k _) with (sending k d). change (receiving _) with (receiving d).
  revert H1. destruct (pool d) as [|a p]; cbn; [by rewrite app_nil_r|]. recount.
Qed.

Lemma nic_done_ok k d a : platform_ok -> owners k d -> a ∈ nic d ->
  owners k (d <| nic ::= filter (fun b => b <> a) |> <| pool ::= fun p => p ++ [a] |>).
Proof using.
  intros Hp H Ha. assert (Hn : NoDup (nic d)).
  { pose proof (proj1 (pl_all Hp)) as Hx. rewrite <- (ow_places _ _ H) in Hx. apply list.NoDup_app in Hx as (_ & _ & Hx).
    by apply list.NoDup_app in Hx as (Hx & _ & _). }
  pose proof (take_one a _ Hn Ha) as Ht. destruct H as [H1 H2 H3 H4 H5]. split; try done. cbn. change (sending k _) with (sending k d).
  change (receiving _) with (receiving d). rewrite (Permutation_count_occ Z.eq_dec) in H1, Ht |- *. intros z. specialize (Ht z). rewrite <- H1, !count_occ_app, Ht.
  cbn [count_occ]. destruct (Z.eq_dec a z); lia.
Qed.

Lemma queue_event d i size bs : platform_ok -> owners ports d -> is_attached i -> 0 <= size < 65536 -> zlen bs <= BUF_SIZE ->
  exists r d', queue_packet i size bs d = Ok r d' /\ owners ports d'.
Proof using.
  intros Hp H Hi Hs Hb. destruct (port_table d i Hp H Hi) as (Hk & t & Ht & Hok).
  pose proof (queue_run ports d i t size bs Hp H (proj1 Hi) Ht Hok Hk Hs Hb) as Hq.
  destruct (Z.eqb_spec (len t) MAX_PKT_BURST) as [E|E]; [by exists false, d|]. destruct Hq as (a & m & w & Ha & Hm & Hw & Hq).
  eexists _, _. split; [exact Hq|]. apply (table_set_ok _ _ _ t); [|done|done|done|destruct Hok; split; cbn; [done|lia]].
  apply set_ok; [done|]. destruct (ow_mbufs _ _ H a) as (m' & Hx & Hmb).
  - rewrite <- (ow_places _ _ H). destruct (sending_split ports d _ t Ht Hk) as (rest & -> & _). rewrite !elem_of_app. apply list_elem_of_lookup_2 in Ha. tauto.
  - assert (m' = m) as -> by congruence. unfold mbuf_ok in *. cbn. pose proof (mem_write_length _ _ _ _ Hw) as El. unfold zlen in *. lia.
Qed.

Lemma send_event d i answers : platform_ok -> owners ports d -> denabled (DSend i answers) d ->
  wpe (exhausted (DSend i answers) d) (dpdk_send_pkts i answers) (fun _ d' => owners ports d') d.
Proof using.
  intros Hp H [Hi Ha]. destruct (port_table d i Hp H Hi) as (Hk & t & Ht & Hok). specialize (Ha t Ht).
  destruct (decide (0 < len t)) as [Hpos|Hz].
  - pose proof (send_run i t answers d (proj1 Hi) Ht Hok (mine_received ports d _ t Hp H Ht Hk) (pool_nonnull _ _ Hp H) Hpos (Ha Hpos)) as Hr.
    unfold wpe. destruct (_ <=? _)%nat eqn:El.
    + destruct Hr as [ret ->]. apply sent_ok; [done|apply Hi|done|done|by apply Nat.leb_le].
    + rewrite Hr. split; [done|]. exists i, answers, t. apply Nat.leb_gt in El. split_and!; [done|done|]. unfold zlen. lia.
  - unfold wpe, dpdk_send_pkts. unfold mbind, M_bind. rewrite (wtable_run _ t) by (done || apply Hi).
    by rewrite (proj2 (Z.ltb_ge _ _)) by lia.
Qed.

Lemma receive_event d i burst : platform_ok -> owners ports d -> denabled (DReceive i burst) d ->
  exists d', receive_round pf i burst d = Ok (answer_of pf <$> burst.*2) d' /\ owners ports d'.
Proof using.
  intros Hp H (Hi & Hn & Hin & Hm & Hl). destruct (recv_table ports d i H) as (t & Ht & Hok); [destruct Hi, (pl_ports Hp); lia|].
  pose proof (took_ok ports d i t burst Hp H (proj1 Hi) Ht Hn Hin Hm Hl) as H'. eexists. split; [|exact H'].
  apply receive_run; try done; [apply Hi|by eapply mine_recv|].
  pose proof (lookup_lt_Some _ _ _ Ht) as Hlt.
  rewrite <- (received_burst burst t). apply (mine_recv ports _ (Z.to_nat i)); [done|done|].
  unfold took. cbn. by rewrite list_lookup_insert_eq.
Qed.

Lemma devent_ok e d : platform_ok -> owners ports d -> denabled e d -> wpe (exhausted e d) (run_devent e) (fun _ d' => owners ports d') d.
Proof using.
  intros Hp H He. destruct e as [i size bs|nif cmd|i answers|i burst| |a]; cbn [run_devent].
  - destruct He as (Hi & Hs & Hb). destruct (queue_event d i size bs Hp H Hi Hs Hb) as (r & d' & E & H'). unfold wpe, mbind, M_bind. by rewrite E.
  - destruct He as (Hi & t & Ht & Hpos). destruct (port_table d _ Hp H Hi) as (Hk & t' & Ht' & Hok). assert (t' = t) as -> by congruence.
    destruct (ioctl_ok ports d nif cmd t Hp H (proj1 Hi) Hk Ht Hok Hpos) as (r & d' & E & H'). unfold wpe, mbind, M_bind. rewrite E. apply H'.
  - pose proof (send_event d i answers Hp H He) as Hs. unfold wpe, mbind, M_bind in *. by destruct (dpdk_send_pkts i answers d).
  - destruct (receive_event d i burst Hp H He) as (d' & E & H'). unfold wpe, mbind, M_bind. by rewrite E.
  - rewrite wpe_modify. by apply nic_take_ok.
  - rewrite wpe_modify. by apply nic_done_ok.
Qed.

(** C15: The buffers of the DPDK module are never confused.  When the pool holds a burst of
    buffers for each attached port, the handle is created; and from then on, in whatever
    order packets are queued, offload commands given, tables sent, bursts received, and
    buffers taken and returned by the card, every buffer is at exactly one place -- the
    pool, the card, a sending table or a receiving table -- and no operation touches a
    buffer it has given away, leaves a table or a buffer, or meets a null pointer.  The one
    way to stop is the end of the process when the pool has no replacement for the packets
    of a table that is sent. *)
Theorem dpdk_owners d0 : platform_ok -> untouched d0 -> num_devices_attached pf * MAX_PKT_BURST <= zlen all ->
  exists d1, dpdk_init_handle pf true d0 = Ok tt d1 /\
    forall d, rtc dstep d1 d ->
      Permutation (pool d ++ nic d ++ sending ports d ++ receiving d) all /\
      forall e, denabled e d -> wpe (exhausted e d) (run_devent e) (fun _ d' => dstep d d') d.
Proof using.
  intros Hp H0 Hl. pose proof (init_ok d0 Hp H0) as Hi. unfold wpe in Hi. destruct (dpdk_init_handle pf true d0) as [[] d1|e]; [|lia].
  exists d1. split; [done|]. intros d Hd. assert (H : owners ports d).
  { revert d Hd. apply (rtc_ind_r (R := dstep) (fun d => owners ports d) d1); [done|]. intros d' d'' _ [e He E] H.
    pose proof (devent_ok e d' Hp H He) as Hk. unfold wpe in Hk. by rewrite E in Hk. }
  split; [apply (ow_places _ _ H)|]. intros e He. pose proof (devent_ok e d Hp H He) as Hk. unfold wpe in *.
  destruct (run_devent e d) as [[] d'|f] eqn:E; [by apply (DStep _ _ e)|done].
Qed.

(** ** What is sent *)

Fixpoint queue_all (i : Z) (ps : list (list Z)) : MD unit :=
  match ps with [] => mret tt | p :: ps => queue_packet i (zlen p) p;; queue_all i ps end.

Definition queued (d : dpdk) (t : mbuf_table) : list (list Z) := packet_at (mbufs d) <$> received t.

(** A packet is put behind the ones that wait. *)
Lemma queue_step d i t p : platform_ok -> owners ports d -> is_attached i -> wmbufs d !! Z.to_nat i = Some t -> len t < MAX_PKT_BURST -> zlen p <= BUF_SIZE ->
  exists d', queue_packet i (zlen p) p d = Ok true d' /\ owners ports d' /\ wmbufs d' !! Z.to_nat i = Some (t <| len := len t + 1 |>) /\
    queued d' (t <| len := len t + 1 |>) = queued d t ++ [p] /\ pool d' = pool d /\ wire d' = wire d.
Proof using.
  intros Hp H Hi Ht Hlt Hb. destruct (port_table d i Hp H Hi) as (Hk & t' & Ht' & Hok). assert (t' = t) as -> by congruence. clear Ht'.
  assert (Hs : 0 <= zlen p < 65536) by (pose proof (zlen_nonneg p); unfold BUF_SIZE in Hb; lia).
  destruct (queue_event d i (zlen p) p Hp H Hi Hs Hb) as (r & d' & E & H').
  pose proof (queue_run ports d i t (zlen p) p Hp H (proj1 Hi) Ht Hok Hk Hs Hb) as Hq. rewrite (proj2 (Z.eqb_neq _ _)) in Hq by lia.
  destruct Hq as (a & m & w & Ha & Hm & Hw & Hq). rewrite Hq in E. injection E as <- <-. eexists. split; [exact Hq|]. split; [done|].
  pose proof (lookup_lt_Some _ _ _ Ht) as Hl. split; [cbn; by rewrite list_lookup_insert_eq|]. split; [|done].
  destruct Hok as [Hok1 Hok2]. unfold queued, received. cbn [len m_table upd mbuf_table_eta mbufs dpdk_eta].
  replace (Z.to_nat (len t + 1)) with (S (Z.to_nat (len t))) by lia. rewrite (take_S_r _ _ a) by done. rewrite fmap_app. f_equal.
  - apply list_fmap_ext. intros j b Hj. unfold packet_at. rewrite lookup_insert_ne; [done|]. intros <-.
    pose proof (lookup_lt_Some _ _ _ Hj) as Hj1. rewrite length_take in Hj1. rewrite lookup_take_lt in Hj by lia.
    pose proof (NoDup_lookup _ _ _ _ (mi_apart _ _ (mine_send ports d _ t Hp H Ht Hk)) Ha Hj). lia.
  - cbn. unfold packet_at. rewrite lookup_insert_eq. unfold packet_of. cbn. f_equal. unfold mem_write in Hw.
    destruct (_ && _); [|done]. injection Hw as <-. unfold zlen. rewrite Nat2Z.id. cbn. by rewrite take_app_length.
Qed.

Lemma queue_all_run i ps : forall d t, platform_ok -> owners ports d -> is_attached i -> wmbufs d !! Z.to_nat i = Some t ->
  len t + zlen ps <= MAX_PKT_BURST -> Forall (fun p => zlen p <= BUF_SIZE) ps ->
  exists d', queue_all i ps d = Ok tt d' /\ owners ports d' /\ wmbufs d' !! Z.to_nat i = Some (t <| len := len t + zlen ps |>) /\
    queued d' (t <| len := len t + zlen ps |>) = queued d t ++ ps /\ pool d' = pool d /\ wire d' = wire d.
Proof using.
  induction ps as [|p ps IH]; intros d t Hp H Hi Ht Hl Hps; cbn [queue_all].
  - exists d. rewrite app_nil_r. change (zlen []) with 0. rewrite Z.add_0_r. by destruct t.
  - apply list.Forall_cons in Hps as [Hb Hps]. rewrite zlen_cons in *. pose proof (zlen_nonneg ps).
    destruct (queue_step d i t p Hp H Hi Ht ltac:(lia) Hb) as (d1 & E1 & H1 & Ht1 & Hq1 & Ep1 & Ew1).
    destruct (IH d1 (t <| len := len t + 1 |>) Hp H1 Hi Ht1 ltac:(cbn; lia) Hps) as (d2 & E2 & H2 & Ht2 & Hq2 & Ep2 & Ew2).
    exists d2. cbn [len upd mbuf_table_eta m_table] in *. rewrite Z.add_assoc. unfold mbind, M_bind. rewrite E1, E2. split_and!; try done; [|congruence|congruence].
    rewrite Hq1, <- app_assoc in Hq2. exact Hq2.
Qed.

(** C16: What is queued at a port is what the card gets.  Up to a burst of packets that are
    written one after the other into the empty table of a port are put behind each other,
    one more is refused without any change once the table is full, and sending then hands
    the card exactly these packets, each once and in the order they were queued, however
    few of them the card accepts at a time; afterwards the table is empty and the buffers
    it lost have been replaced from the pool. *)
Theorem dpdk_sends d i t ps answers : platform_ok -> owners ports d -> is_attached i ->
  wmbufs d !! Z.to_nat i = Some t -> len t = 0 -> 0 < zlen ps <= MAX_PKT_BURST -> Forall (fun p => zlen p <= BUF_SIZE) ps ->
  tx_ok (zlen ps) answers -> zlen ps <= zlen (pool d) ->
  exists d1 ret d2, queue_all i ps d = Ok tt d1 /\ wire d1 = wire d /\
    (zlen ps = MAX_PKT_BURST -> forall size bs, queue_packet i size bs d1 = Ok false d1) /\
    dpdk_send_pkts i answers d1 = Ok ret d2 /\ wire d2 = wire d ++ ((fun p => (i, p)) <$> ps) /\
    (exists t2, wmbufs d2 !! Z.to_nat i = Some t2 /\ len t2 = 0) /\ owners ports d2.
Proof using.
  intros Hp H Hi Ht E0 Hn Hps Ha Hl. destruct (queue_all_run i ps d t Hp H Hi Ht) as (d1 & E1 & H1 & Ht1 & Hq & Ep & Ew); [lia|done|].
  rewrite E0, Z.add_0_l in Ht1, Hq. set (t1 := t <| len := zlen ps |>) in *. destruct (port_table d1 i Hp H1 Hi) as (Hk & t' & Ht' & Hok).
  assert (t' = t1) as -> by congruence. change (zlen ps) with (len t1) in Ha, Hl, Hn. rewrite <- Ep in Hl.
  pose proof (send_run i t1 answers d1 (proj1 Hi) Ht1 Hok (mine_received ports d1 _ t1 Hp H1 Ht1 Hk) (pool_nonnull _ _ Hp H1) ltac:(lia) Ha) as Hr.
  unfold zlen in Hl. rewrite (proj2 (Nat.leb_le _ _)) in Hr by lia. destruct Hr as [ret Er].
  exists d1, ret, (sent i t1 d1). split_and!; [done|done| |done| | |].
  - intros Hf size bs. unfold queue_packet, dpdk_get_wptr. unfold mbind, M_bind. rewrite (wtable_run _ t1) by (done || apply Hi).
    change (len t1) with (zlen ps). by rewrite (proj2 (Z.eqb_eq _ _)) by done.
  - unfold sent. cbn [wire upd dpdk_eta]. rewrite Ew. f_equal. assert (Er0 : queued d t = []) by (unfold queued, received; by rewrite E0).
    rewrite Er0 in Hq. cbn [app] in Hq. rewrite <- Hq. unfold queued. by rewrite <- list_fmap_compose.
  - eexists. split; [unfold sent; cbn; apply list_lookup_insert_eq; by eapply lookup_lt_Some|done].
  - apply sent_ok; [done|apply Hi|done|done|lia].
Qed.

Lemma free_tables_run n : forall j d, (j + n <= length (wmbufs d))%nat -> Forall table_ok (wmbufs d) ->
  mine (concat (m_table <$> take n (drop j (wmbufs d)))) d ->
  free_tables (Z.of_nat j) n d = Ok tt (d <| pool := pool d ++ concat (m_table <$> take n (drop j (wmbufs d))) |>).
Proof using.
  induction n as [|n IH]; intros j d Hj Hok Hm; cbn [free_tables].
  - cbn. rewrite app_nil_r. by destruct d.
  - destruct (lookup_lt_is_Some_2 (wmbufs d) j) as [t Ht]; [lia|]. rewrite (drop_S _ t) in * by done. cbn [take fmap list_fmap concat] in *.
    pose proof (Forall_lookup_1 _ _ _ _ Hok Ht) as [Hl _]. destruct (mine_app _ _ _ Hm) as [Hm1 Hm2].
    unfold mbind, M_bind. rewrite (wtable_run _ t) by (lia || by rewrite Nat2Z.id). rewrite take_ge by (unfold zlen in Hl; lia).
    rewrite free_run by done. replace (Z.of_nat j + 1) with (Z.of_nat (S j)) by lia. rewrite app_assoc, IH; [done|cbn; lia|done|].
    cbn. destruct Hm as [N1 N2 N3 N4]. apply list.NoDup_app in N1 as (_ & N1 & _). destruct Hm2 as [M1 M2 M3 M4].
    split; [done|done| |done]. intros a Ha. destruct (M3 a Ha). split; [|done]. cbn. rewrite elem_of_app. intros [?|Hx]; [done|]. by apply (N1 a Hx).
Qed.

(** Destroying the handle returns the buffers of the sending tables alone: those of the
    packets received last are in no pool and at no card. *)
Lemma dpdk_destroy_leaks d : platform_ok -> owners ports d ->
  exists d', dpdk_destroy_handle pf d = Ok tt d' /\ forall a, a ∈ receiving d -> a ∉ pool d' /\ a ∉ nic d'.
Proof using.
  intros Hp H. pose proof (pl_ports Hp). destruct (ow_send _ _ H) as [Hok Hl].
  pose proof (owners_mine ports d (receiving d ++ sending ports d) [] Hp H) as Hm. rewrite app_nil_r in Hm. specialize (Hm (Permutation_app_comm _ _)).
  destruct (mine_app _ _ _ Hm) as [Hr Hs]. eexists. split; [apply (free_tables_run ports 0 d); [unfold zlen in Hl; lia|done|done]|].
  intros a Ha. destruct (mi_kept _ _ Hr a Ha) as [H1 H2]. split; [|done]. cbn [pool upd dpdk_eta]. rewrite elem_of_app. intros [?|Hx]; [done|].
  pose proof (mi_apart _ _ Hm) as (_ & Hn & _)%list.NoDup_app. by apply (Hn a Ha).
Qed.

End Owners.

(** ** An instance: one port and a pool of 130 buffers *)

Definition one_port : platform :=
  MkPlatform 1 2 4 8 4 1 (fun _ => Offloads true true true true) (fun _ => 0) (fun _ _ => 0).

Definition some_mbufs : list Z := Z.of_nat <$> seq 1 130.

Definition fresh_pool : dpdk :=
  Dpdk [] [] [] (list_to_map ((fun a => (a, RteMbuf 0 (replicate (Z.to_nat BUF_SIZE) 0) 0 0 0 0)) <$> some_mbufs)) some_mbufs [] [].

Lemma one_port_ok : platform_ok one_port some_mbufs.
Proof using. split; [split; [apply (bool_decide_unpack _); by vm_compute|apply (bool_decide_unpack _); by vm_compute]|cbn; lia]. Qed.

Lemma fresh_pool_ok : untouched some_mbufs fresh_pool.
Proof using.
  split; [done|done|]. intros a Ha. exists (RteMbuf 0 (replicate (Z.to_nat BUF_SIZE) 0) 0 0 0 0). split; [|by vm_compute].
  unfold fresh_pool. cbn [mbufs]. apply elem_of_list_to_map_1'.
  - intros y Hy. apply list_elem_of_fmap in Hy as (b & E & _). congruence.
  - apply list_elem_of_fmap. eauto.
Qed.

Lemma dpdk_owners_witness : exists d1, dpdk_init_handle one_port true fresh_pool = Ok tt d1 /\
  Permutation (pool d1 ++ nic d1 ++ sending 1 d1 ++ receiving d1) some_mbufs.
Proof using.
  destruct (dpdk_owners one_port some_mbufs fresh_pool one_port_ok fresh_pool_ok ltac:(by vm_compute)) as (d1 & E & H).
  exists d1. split; [exact E|]. exact (proj1 (H d1 (rtc_refl _ _))).
Defined.

Definition started : dpdk := match dpdk_init_handle one_port true fresh_pool with Ok _ d => d | Fault _ => fresh_pool end.

Lemma started_ok : owners one_port some_mbufs 1 started.
Proof using.
  pose proof (init_ok one_port some_mbufs fresh_pool one_port_ok fresh_pool_ok) as H. unfold started. revert H. unfold wpe.
  destruct (dpdk_init_handle one_port true fresh_pool) as [? d|e]; [done|]. intros [_ H]. by vm_compute in H.
Qed.

(** Two packets; the card takes one of them, then none, then the other. *)
Lemma dpdk_sends_witness : exists d1 ret d2, queue_all 0 [[1; 2; 3]; [4; 5]] started = Ok tt d1 /\
  dpdk_send_pkts 0 [1; 0; 1] d1 = Ok ret d2 /\ wire d2 = wire started ++ [(0, [1; 2; 3]); (0, [4; 5])].
Proof using.
  destruct (dpdk_sends one_port some_mbufs started 0 (MbufTable 0 (Z.of_nat <$> seq 1 64)) [[1; 2; 3]; [4; 5]] [1; 0; 1])
    as (d1 & ret & d2 & H1 & _ & _ & H2 & H3 & _).
  - exact one_port_ok.
  - exact started_ok.
  - unfold is_attached. cbn. lia.
  - by vm_compute.
  - done.
  - by vm_compute.
  - repeat constructor; by vm_compute.
  - cbn. unfold zlen. cbn. lia.
  - by vm_compute.
  - exists d1, ret, d2. exact (conj H1 (conj H2 H3)).
Defined.
