(* ===== verification/Dates.v ===== *)
(** * Dates of HTTP ([util/tdate_parse.c])

    A date is parsed by trying seven formats of [sscanf] and turned into seconds since 1970.
    The names of days and months are found by binary search.  [sscanf] and [gmtime_r] are
    modelled as far as they are used.  A number of seconds that is printed as a date is read
    back, except in the years in which the test for a leap year is wrong. *)

From stdpp Require Import sorting.
From S2P Require Import Prelude CString Config.

(** ** Names *)

(** [struct strlong] *)
Abbreviation strlong := (list Z * Z)%type.

Definition pound_case (str : list Z) : list Z := (fun c => if isupper c then tolower c else c) <$> str.

Definition strlong_compare (v1 v2 : strlong) : Z := strcmp v1.1 v2.1.

(** The loop; the result is [None] when it does not end within the fuel or reads outside of
    the table, and otherwise what was found. *)
Fixpoint strlong_loop (fuel : nat) (str : list Z) (tab : list strlong) (l h : Z) : option (option Z) :=
  match fuel with
  | O => None
  | S fuel' =>
      let i := Z.quot (h + l) 2 in
      match (if i <? 0 then None else tab !! Z.to_nat i) with
      | None => None
      | Some e =>
          let r := strcmp str e.1 in
          if r =? 0 then Some (Some e.2)
          else
            let h := if r <? 0 then i - 1 else h in
            let l := if 0 <? r then i + 1 else l in
            if h <? l then Some None else strlong_loop fuel' str tab l h
      end
  end.

Definition strlong_search (str : list Z) (tab : list strlong) : option (option Z) :=
  strlong_loop (length tab) str tab 0 (zlen tab - 1).

(** [qsort] with [strlong_compare]. *)
Definition strlong_le (v1 v2 : strlong) : Prop := strlong_compare v1 v2 <= 0.

#[export] Instance strlong_le_dec : RelDecision strlong_le := fun a b => decide (strlong_compare a b <= 0).

Definition wday_tab : list strlong :=
  [(lit "sun", 0); (lit "sunday", 0); (lit "mon", 1); (lit "monday", 1); (lit "tue", 2); (lit "tuesday", 2);
   (lit "wed", 3); (lit "wednesday", 3); (lit "thu", 4); (lit "thursday", 4); (lit "fri", 5); (lit "friday", 5);
   (lit "sat", 6); (lit "saturday", 6)].

Definition mon_tab : list strlong :=
  [(lit "jan", 0); (lit "january", 0); (lit "feb", 1); (lit "february", 1); (lit "mar", 2); (lit "march", 2);
   (lit "apr", 3); (lit "april", 3); (lit "may", 4); (lit "jun", 5); (lit "june", 5); (lit "jul", 6); (lit "july", 6);
   (lit "aug", 7); (lit "august", 7); (lit "sep", 8); (lit "september", 8); (lit "oct", 9); (lit "october", 9);
   (lit "nov", 10); (lit "november", 10); (lit "dec", 11); (lit "december", 11)].

Definition scan_wday (str_wday : list Z) : option (option Z) :=
  strlong_search (pound_case str_wday) (merge_sort strlong_le wday_tab).

Definition scan_mon (str_mon : list Z) : option (option Z) :=
  strlong_search (pound_case str_mon) (merge_sort strlong_le mon_tab).

(** ** Seconds *)

(** [struct tm], the fields that are used *)
Record tm := Tm {
  tm_sec : Z;
  tm_min : Z;
  tm_hour : Z;
  tm_mday : Z;
  tm_mon : Z;
  tm_year : Z;
  tm_wday : Z
}.

Definition is_leap (year : Z) : bool :=
  if negb (Z.rem year 400 =? 0) then
    if negb (Z.rem year 100 =? 0) then (if negb (Z.rem year 4 =? 0) then false else true) else false
  else true.

Definition monthtab : list Z := [0; 31; 59; 90; 120; 151; 181; 212; 243; 273; 304; 334].

(** The first product is of type [int], the rest is of type [time_t], which is not
    exceeded.  [None]: the table of months is read outside of its range. *)
Definition tm_to_time (t : tm) : option Z :=
  let y := tm_year t in
  if (tm_mon t <? 0) then None
  else
    m ← monthtab !! Z.to_nat (tm_mon t);
    let d := i32 ((y - 70) * 365) + Z.quot (y - 1 - 68) 4 in
    let d := if 200 <? y then d - Z.quot (y - 1 - 100) 100 else d in
    let d := if 500 <? y then d + Z.quot (y - 1 - 100) 400 else d in
    let d := d + m in
    let d := if (2 <=? tm_mon t) && is_leap y then d + 1 else d in
    let d := d + (tm_mday t - 1) in
    Some (((d * 24 + tm_hour t) * 60 + tm_min t) * 60 + tm_sec t).

(** ** [sscanf] *)

Inductive directive :=
| DInt
| DLetters
| DChar (c : Z)
| DSpace.

Inductive item := IInt (v : Z) | ILetters (s : list Z).

(** The items that are converted until the first directive that does not match.  A number is
    converted as [strtol] does and stored in an [int]. *)
Fixpoint sscanf (fmt : list directive) (s : list Z) : list item :=
  match fmt with
  | [] => []
  | DSpace :: fmt' => sscanf fmt' (skip_while isspace s)
  | DChar c :: fmt' => if (first s =? c) && negb (bool_decide (s = [])) then sscanf fmt' (tail s) else []
  | DInt :: fmt' =>
      let r := strtol s in
      if bool_decide (r_rest r = s) then [] else IInt (i32 (r_value r)) :: sscanf fmt' (r_rest r)
  | DLetters :: fmt' =>
      let '(w, rest) := span_while isalpha s in
      if bool_decide (w = []) then [] else ILetters w :: sscanf fmt' rest
  end.

(** The buffers for names have 500 bytes. *)
Definition fits (i : item) : bool := match i with ILetters w => zlen w <? 500 | IInt _ => true end.

Definition gmt : list directive := [DChar 71; DChar 77; DChar 84].
Definition hms : list directive := [DInt; DChar 58; DInt; DChar 58; DInt].

Definition fmt1 := [DInt; DChar 45; DLetters; DChar 45; DInt; DSpace] ++ hms ++ DSpace :: gmt.
Definition fmt2 := [DInt; DSpace; DLetters; DSpace; DInt; DSpace] ++ hms ++ DSpace :: gmt.
Definition fmt3 := hms ++ DSpace :: gmt ++ [DSpace; DInt; DChar 45; DLetters; DChar 45; DInt].
Definition fmt4 := hms ++ DSpace :: gmt ++ [DSpace; DInt; DSpace; DLetters; DSpace; DInt].
Definition fmt5 := [DLetters; DChar 44; DSpace] ++ fmt1.
Definition fmt6 := [DLetters; DChar 44; DSpace] ++ fmt2.
Definition fmt7 := [DLetters; DSpace; DLetters; DSpace; DInt; DSpace] ++ hms ++ DSpace :: gmt ++ [DSpace; DInt].

(** The outcome of an attempt: a date, or [None] to try the next format. *)
Definition attempt (mon : list Z) (k : Z -> tm) : outcome unit (option tm) :=
  match scan_mon mon with
  | None => Fault OutOfBounds
  | Some None => Ok None tt
  | Some (Some m) => Ok (Some (k m)) tt
  end.

Definition attempt_wday (wday mon : list Z) (k : Z -> Z -> tm) : outcome unit (option tm) :=
  match scan_wday wday with
  | None => Fault OutOfBounds
  | Some None => Ok None tt
  | Some (Some w) => attempt mon (k w)
  end.

Definition convert (n : nat) (l : list item) : outcome unit (option tm) :=
  match n, l with
  | 1%nat, [IInt d; ILetters mon; IInt y; IInt h; IInt mi; IInt s]
  | 2%nat, [IInt d; ILetters mon; IInt y; IInt h; IInt mi; IInt s] => attempt mon (fun m => Tm s mi h d m y 0)
  | 3%nat, [IInt h; IInt mi; IInt s; IInt d; ILetters mon; IInt y]
  | 4%nat, [IInt h; IInt mi; IInt s; IInt d; ILetters mon; IInt y] => attempt mon (fun m => Tm s mi h d m y 0)
  | 5%nat, [ILetters wday; IInt d; ILetters mon; IInt y; IInt h; IInt mi; IInt s]
  | 6%nat, [ILetters wday; IInt d; ILetters mon; IInt y; IInt h; IInt mi; IInt s] =>
      attempt_wday wday mon (fun w m => Tm s mi h d m y w)
  | 7%nat, [ILetters wday; ILetters mon; IInt d; IInt h; IInt mi; IInt s; IInt y] =>
      attempt_wday wday mon (fun w m => Tm s mi h d m y w)
  | _, _ => Ok None tt
  end.

Fixpoint try_formats (fmts : list (nat * list directive)) (s : list Z) : outcome unit (option tm) :=
  match fmts with
  | [] => Ok None tt
  | (n, fmt) :: fmts' =>
      let l := sscanf fmt s in
      if negb (forallb fits l) then Fault OutOfBounds
      else match convert n l with
           | Ok None _ => try_formats fmts' s
           | r => r
           end
  end.

Definition formats : list (nat * list directive) :=
  [(1%nat, fmt1); (2%nat, fmt2); (3%nat, fmt3); (4%nat, fmt4); (5%nat, fmt5); (6%nat, fmt6); (7%nat, fmt7)].

(** A year is given with or without its century. *)
Definition fix_year (y : Z) : Z := if 1900 <? y then y - 1900 else if y <? 70 then y + 100 else y.

Definition httpdate_to_timet (str : list Z) : outcome unit Z :=
  let cp := skip_while (fun c => (c =? 32) || (c =? 9)) str in
  match try_formats formats cp with
  | Fault e => Fault e
  | Ok None _ => Ok (-1) tt
  | Ok (Some t) _ =>
      match tm_to_time (Tm (tm_sec t) (tm_min t) (tm_hour t) (tm_mday t) (tm_mon t) (fix_year (tm_year t)) (tm_wday t)) with
      | Some v => Ok v tt
      | None => Fault OutOfBounds
      end
  end.

(** ** Printing *)

(** The calendar. *)
Definition leap (Y : Z) : bool := (Y mod 4 =? 0) && (negb (Y mod 100 =? 0) || (Y mod 400 =? 0)).
Definition year_days (Y : Z) : Z := if leap Y then 366 else 365.
Definition month_days (Y m : Z) : Z :=
  if m =? 1 then (if leap Y then 29 else 28)
  else if (m =? 3) || (m =? 5) || (m =? 8) || (m =? 10) then 30 else 31.

(** The year, and the days left in it. *)
Fixpoint find_year (fuel : nat) (Y d : Z) : Z * Z :=
  match fuel with
  | O => (Y, d)
  | S fuel' => if d <? year_days Y then (Y, d) else find_year fuel' (Y + 1) (d - year_days Y)
  end.

Fixpoint find_month (fuel : nat) (Y m d : Z) : Z * Z :=
  match fuel with
  | O => (m, d)
  | S fuel' => if d <? month_days Y m then (m, d) else find_month fuel' Y (m + 1) (d - month_days Y m)
  end.

(** [gmtime_r] of a time that is not negative. *)
Definition gmtime (t : Z) : tm :=
  let d := t / 86400 in
  let s := t mod 86400 in
  let '(Y, dy) := find_year (Z.to_nat d) 1970 d in
  let '(m, dm) := find_month 12 Y 0 dy in
  Tm (s mod 60) (s / 60 mod 60) (s / 3600) (dm + 1) m (Y - 1900) ((d + 4) mod 7).

Definition day_of_week : list (list Z) :=
  [lit "Sun"; lit "Mon"; lit "Tue"; lit "Wed"; lit "Thu"; lit "Fri"; lit "Sat"].
Definition months : list (list Z) :=
  [lit "Jan"; lit "Feb"; lit "Mar"; lit "Apr"; lit "May"; lit "Jun"; lit "Jul"; lit "Aug"; lit "Sep"; lit "Oct"; lit "Nov"; lit "Dec"].

(** [%02d] and [%4d] of numbers that are not negative *)
Definition pad (c : Z) (w : nat) (s : list Z) : list Z := replicate (w - length s) c ++ s.
Definition two (n : Z) : list Z := pad 48 2 (dec n).
Definition four (n : Z) : list Z := pad 32 4 (dec n).

Definition print_date (g : tm) : option (list Z) :=
  d ← day_of_week !! Z.to_nat (tm_wday g);
  m ← months !! Z.to_nat (tm_mon g);
  Some (d ++ lit ", " ++ two (tm_mday g) ++ 32 :: m ++ 32 :: four (tm_year g + 1900) ++ 32 ::
        two (tm_hour g) ++ 58 :: two (tm_min g) ++ 58 :: two (tm_sec g) ++ lit " GMT").

(** The return value and the string in the buffer of [strlen] bytes. *)
Definition timet_to_httpdate (t strlen : Z) : option (Z * list Z) :=
  s ← print_date (gmtime t);
  Some (if zlen s =? strlen then -1 else 0, take (Z.to_nat (strlen - 1)) s).
