(* ===== verification/DatesOk.v ===== *)
(** * The dates are right, but for leap years that end in 00

    The binary search finds what is in the table; the number of seconds agrees with the
    calendar, except for a day from March on in some years; a printed date is read back. *)

From stdpp Require Import sorting.
From S2P Require Import Prelude CString Config Dates.

(** ** The search *)

Lemma strcmp_lt_trans a : forall b c, strcmp a b < 0 -> strcmp b c < 0 -> strcmp a c < 0.
Proof.
  induction a as [|x a IH]; intros [|y b] [|z c]; cbn; try lia.
  destruct (Z.eqb_spec x y) as [->|Hxy].
  - destruct (Z.eqb_spec y z) as [->|Hyz]; [apply IH|]. by destruct (Z.ltb_spec y z).
  - destruct (Z.ltb_spec x y); [|lia]. intros _. destruct (Z.eqb_spec y z) as [->|Hyz].
    + intros _. destruct (Z.eqb_spec x z); [lia|]. destruct (Z.ltb_spec x z); lia.
    + destruct (Z.ltb_spec y z); [|lia]. intros _. destruct (Z.eqb_spec x z); [lia|]. destruct (Z.ltb_spec x z); lia.
Qed.

Lemma strcmp_flip a : forall b, 0 < strcmp a b -> strcmp b a < 0.
Proof.
  induction a as [|x a IH]; intros [|y b]; cbn; try lia. rewrite (Z.eqb_sym y x).
  destruct (Z.eqb_spec x y) as [->|Hxy]; [apply IH|]. destruct (Z.ltb_spec x y), (Z.ltb_spec y x); lia.
Qed.

Lemma strcmp_eq a b : strcmp a b = 0 <-> a = b.
Proof. rewrite <- streq_spec. unfold streq. by rewrite Z.eqb_eq. Qed.

(** The names are in strictly increasing order. *)
Definition increasing (tab : list strlong) : Prop :=
  forall i j a b, (i < j)%nat -> tab !! i = Some a -> tab !! j = Some b -> strlong_compare a b < 0.

Section Search.
Context (str : list Z) (tab : list strlong) (Htab : increasing tab).

(** What is to be found lies between [l] and [h]. *)
Definition between (l h : Z) : Prop := forall i e, tab !! i = Some e -> e.1 = str -> l <= Z.of_nat i <= h.

Lemma between_left l h i e : tab !! i = Some e -> strcmp str e.1 < 0 -> between l h -> between l (Z.of_nat i - 1).
Proof using Htab.
  intros Hi Hlt Hb j e' Hj <-. split; [by eapply Hb|]. destruct (decide (j = i)) as [->|Hn].
  - assert (e' = e) as -> by congruence. pose proof (proj2 (strcmp_eq e.1 e.1) eq_refl). lia.
  - destruct (decide (i < j)%nat) as [Hij|Hij]; [|lia]. pose proof (Htab i j e e' Hij Hi Hj) as Hc. unfold strlong_compare in Hc.
    pose proof (strcmp_lt_trans _ _ _ Hlt Hc). pose proof (proj2 (strcmp_eq e'.1 e'.1) eq_refl). lia.
Qed.

Lemma between_right l h i e : tab !! i = Some e -> 0 < strcmp str e.1 -> between l h -> between (Z.of_nat i + 1) h.
Proof using Htab.
  intros Hi Hgt%strcmp_flip Hb j e' Hj <-. split; [|by eapply Hb]. destruct (decide (j = i)) as [->|Hn].
  - assert (e' = e) as -> by congruence. pose proof (proj2 (strcmp_eq e.1 e.1) eq_refl). lia.
  - destruct (decide (j < i)%nat) as [Hij|Hij]; [|lia]. pose proof (Htab j i e' e Hij Hj Hi) as Hc. unfold strlong_compare in Hc.
    pose proof (strcmp_lt_trans _ _ _ Hgt Hc). pose proof (proj2 (strcmp_eq e.1 e.1) eq_refl). lia.
Qed.

(** The value of an entry with the name, or nothing if there is none. *)
Definition found (r : option Z) : Prop :=
  match r with
  | Some v => (str, v) ∈ tab
  | None => forall e, e ∈ tab -> e.1 <> str
  end.

Lemma strlong_loop_found fuel : forall l h, 0 <= l <= h -> h < zlen tab -> h - l < Z.of_nat fuel -> between l h ->
  exists r, strlong_loop fuel str tab l h = Some r /\ found r.
Proof using Htab.
  induction fuel as [|fuel IH]; intros l h Hlh Hh Hf Hb; [lia|]. cbn [strlong_loop].
  assert (Hq : l <= Z.quot (h + l) 2 <= h) by (Z.quot_rem_to_equations; lia). set (i := Z.quot (h + l) 2) in *.
  rewrite (proj2 (Z.ltb_ge i 0)) by lia.
  match goal with |- context [match ?x with Some _ => _ | None => _ end] => destruct x as [e|] eqn:He end;
    [|apply lookup_ge_None in He; unfold zlen in *; lia].
  assert (Hni : Z.of_nat (Z.to_nat i) = i) by lia.
  destruct (Z.eqb_spec (strcmp str e.1) 0) as [E|Hn].
  { apply strcmp_eq in E. exists (Some e.2). split; [done|]. cbn. rewrite E. rewrite <- surjective_pairing. by eapply list_elem_of_lookup_2. }
  assert (Hnone : forall l h, between l h -> h < l -> found None).
  { intros l' h' Hb' Hlt e' [j Hj]%list_elem_of_lookup_1 E. specialize (Hb' j e' Hj E). lia. }
  destruct (Z.ltb_spec (strcmp str e.1) 0) as [Hlt|Hge].
  - rewrite (proj2 (Z.ltb_ge 0 (strcmp str e.1))) by lia. pose proof (between_left l h _ e He Hlt Hb) as Hb'. rewrite Hni in Hb'.
    destruct (Z.ltb_spec (i - 1) l); [exists None; eauto|]. apply IH; [lia..|done].
  - rewrite (proj2 (Z.ltb_lt 0 (strcmp str e.1))) by lia. pose proof (between_right l h _ e He ltac:(lia) Hb) as Hb'. rewrite Hni in Hb'.
    destruct (Z.ltb_spec h (i + 1)); [exists None; eauto|]. apply IH; [lia..|done].
Qed.

(** The search ends without reading outside of the table, and finds the name iff it is there. *)
Lemma strlong_search_found : tab <> [] -> exists r, strlong_search str tab = Some r /\ found r.
Proof using Htab.
  intros Hne. assert (0 < zlen tab) by (unfold zlen; destruct tab; [done|cbn; lia]).
  unfold strlong_search. apply strlong_loop_found; [lia|lia|unfold zlen; lia|].
  intros i e Hi%lookup_lt_Some _. unfold zlen. lia.
Qed.

Lemma increasing_unique v w : (str, v) ∈ tab -> (str, w) ∈ tab -> v = w.
Proof using Htab.
  intros [i Hi]%list_elem_of_lookup_1 [j Hj]%list_elem_of_lookup_1.
  assert (Hself : forall a b, ~ strlong_compare (str, a) (str, b) < 0).
  { intros a b. unfold strlong_compare. cbn. pose proof (proj2 (strcmp_eq str str) eq_refl). lia. }
  destruct (decide (i = j)) as [->|Hn]; [congruence|].
  destruct (decide (i < j)%nat) as [Hij|Hij]; edestruct Hself; [by eapply (Htab i j)|by eapply (Htab j i); [lia|..]].
Qed.

Lemma strlong_search_iff : tab <> [] -> exists r, strlong_search str tab = Some r /\ forall v, r = Some v <-> (str, v) ∈ tab.
Proof using Htab.
  intros Hne. destruct (strlong_search_found Hne) as (r & E & Hr). exists r. split; [done|]. intros v. split; [by intros ->|].
  intros Hin. destruct r as [w|]; cbn in Hr; [by rewrite (increasing_unique v w)|by destruct (Hr _ Hin)].
Qed.
End Search.

Lemma increasing_check tab :
  forallb (fun i => match tab !! i with
    | Some a => forallb (fun b => strlong_compare a b <? 0) (drop (S i) tab)
    | None => true end) (seq 0 (length tab)) = true -> increasing tab.
Proof.
  intros Hf i j a b Hij Hi Hj. pose proof (lookup_lt_Some _ _ _ Hi) as Hl.
  pose proof (proj1 (forallb_forall _ _) Hf i ltac:(apply in_seq; lia)) as Hg. cbn beta in Hg. rewrite Hi in Hg.
  apply Z.ltb_lt, (proj1 (forallb_forall _ _) Hg), list_elem_of_In, (list_elem_of_lookup_2 _ (j - S i)).
  rewrite lookup_drop. by replace (S i + (j - S i))%nat with j by lia.
Qed.

Lemma wday_increasing : increasing (merge_sort strlong_le wday_tab).
Proof. apply increasing_check. vm_compute. reflexivity. Qed.

Lemma mon_increasing : increasing (merge_sort strlong_le mon_tab).
Proof. apply increasing_check. vm_compute. reflexivity. Qed.

(** the names of days and months.  The binary search through the sorted table ends,
    stays inside of the table, and finds a name, in upper or lower case, iff it is there. *)
Theorem scan_names (str : list Z) :
  (exists r, scan_mon str = Some r /\ forall v, r = Some v <-> (pound_case str, v) ∈ mon_tab) /\
  (exists r, scan_wday str = Some r /\ forall v, r = Some v <-> (pound_case str, v) ∈ wday_tab).
Proof.
  split.
  - destruct (strlong_search_iff (pound_case str) _ mon_increasing) as (r & E & Hr); [by vm_compute|].
    exists r. split; [exact E|]. intros v. by rewrite <- (merge_sort_Permutation strlong_le mon_tab).
  - destruct (strlong_search_iff (pound_case str) _ wday_increasing) as (r & E & Hr); [by vm_compute|].
    exists r. split; [exact E|]. intros v. by rewrite <- (merge_sort_Permutation strlong_le wday_tab).
Qed.

(** ** The calendar *)

(** The days of the [n] years from 1970 on, and of the [m] months of a year. *)
Fixpoint years (n : nat) : Z := match n with O => 0 | S n' => years n' + year_days (1970 + Z.of_nat n') end.
Fixpoint months_to (Y : Z) (m : nat) : Z := match m with O => 0 | S m' => months_to Y m' + month_days Y (Z.of_nat m') end.

(** The seconds of a date. *)
Definition seconds (t : tm) : Z :=
  let Y := tm_year t + 1900 in
  (((years (Z.to_nat (Y - 1970)) + months_to Y (Z.to_nat (tm_mon t)) + (tm_mday t - 1)) * 24 + tm_hour t) * 60
    + tm_min t) * 60 + tm_sec t.

Lemma years_closed n : let k := Z.of_nat n in years n = 365 * k + (k + 1) / 4 - (k + 69) / 100 + (k + 369) / 400.
Proof.
  cbv zeta. induction n as [|n IH]; [done|]. cbn [years]. rewrite IH. unfold year_days, leap.
  rewrite Nat2Z.inj_succ. set (k := Z.of_nat n). assert (0 <= k) by lia.
  destruct (Z.eqb_spec ((1970 + k) mod 4) 0), (Z.eqb_spec ((1970 + k) mod 100) 0), (Z.eqb_spec ((1970 + k) mod 400) 0); cbn [andb orb negb];
    Z.div_mod_to_equations; lia.
Qed.

(** The code's count of the days of the years before. *)
Lemma years_code y : 70 <= y ->
  let d := (y - 70) * 365 + Z.quot (y - 1 - 68) 4 in
  let d := if 200 <? y then d - Z.quot (y - 1 - 100) 100 else d in
  (if 500 <? y then d + Z.quot (y - 1 - 100) 400 else d) = years (Z.to_nat (y + 1900 - 1970)).
Proof.
  intros Hy. cbv zeta. rewrite years_closed. cbv zeta. rewrite Z2Nat.id by lia.
  rewrite Z.quot_div_nonneg by lia.
  destruct (Z.ltb_spec 200 y), (Z.ltb_spec 500 y); try lia;
    rewrite ?(Z.quot_div_nonneg (y - 1 - 100)) by lia; Z.div_mod_to_equations; lia.
Qed.

(** The test for a leap year is given the years since 1900. *)
Definition misjudged (y : Z) : Z := if y mod 400 =? 100 then -1 else if y mod 400 =? 0 then 1 else 0.

Lemma is_leap_wrong y : 0 <= y -> (if is_leap y then 1 else 0) = (if leap (y + 1900) then 1 else 0) + misjudged y.
Proof.
  intros Hy. unfold is_leap, leap, misjudged. rewrite !Z.rem_mod_nonneg by lia.
  destruct (Z.eqb_spec (y mod 400) 0), (Z.eqb_spec (y mod 100) 0), (Z.eqb_spec (y mod 4) 0), (Z.eqb_spec (y mod 400) 100),
    (Z.eqb_spec ((y + 1900) mod 4) 0), (Z.eqb_spec ((y + 1900) mod 100) 0), (Z.eqb_spec ((y + 1900) mod 400) 0);
    cbn [andb orb negb]; try lia; Z.div_mod_to_equations; lia.
Qed.

Lemma months_code Y m : 0 <= m < 12 -> exists d, monthtab !! Z.to_nat m = Some d /\
  months_to Y (Z.to_nat m) = d + (if (2 <=? m) && leap Y then 1 else 0).
Proof.
  intros Hm. assert (H : m = 0 \/ m = 1 \/ m = 2 \/ m = 3 \/ m = 4 \/ m = 5 \/ m = 6 \/ m = 7 \/ m = 8 \/ m = 9 \/ m = 10 \/ m = 11) by lia.
  destruct_or! H; subst m; eexists; (split; [reflexivity|]);
    (match goal with |- context [months_to Y ?k] => let n := eval vm_compute in k in change k with n end);
    cbn [months_to]; unfold month_days; destruct (leap Y); reflexivity.
Qed.

(** dates as seconds.  For a date from 1970 on, [tm_to_time] is the number of seconds of
    the calendar, except from March on in the years 2000, 2400, ..., which it takes to have
    no leap day and is a day early, and in 2300, 2700, ..., where it is a day late. *)
Theorem tm_to_time_calendar (t : tm) : 70 <= tm_year t <= 5000000 -> 0 <= tm_mon t < 12 ->
  tm_to_time t = Some (seconds t + if 2 <=? tm_mon t then 86400 * misjudged (tm_year t) else 0).
Proof.
  intros Hy Hm. destruct (months_code (tm_year t + 1900) (tm_mon t) Hm) as (d & E & Hd).
  pose proof (years_code (tm_year t) ltac:(lia)) as Hyc. cbv zeta in Hyc.
  pose proof (is_leap_wrong (tm_year t) ltac:(lia)) as Hl.
  unfold tm_to_time, seconds. cbv zeta. rewrite (proj2 (Z.ltb_ge _ _)), E by lia. cbn [mbind option_bind].
  rewrite i32_small by lia. rewrite Hyc, Hd. f_equal.
  destruct (2 <=? tm_mon t); cbn [andb]; [|lia].
  destruct (is_leap (tm_year t)), (leap (tm_year t + 1900)); lia.
Qed.

(** 26 March 2000, 05:53:57 was 954050037. *)
Lemma tm_to_time_calendar_witness :
  tm_to_time (Tm 57 53 5 26 2 100 0) = Some (seconds (Tm 57 53 5 26 2 100 0) + 86400 * misjudged 100) /\
  seconds (Tm 57 53 5 26 2 100 0) = 954050037 /\ misjudged 100 = -1.
Proof.
  split_and!; [|vm_compute; reflexivity..].
  exact (tm_to_time_calendar (Tm 57 53 5 26 2 100 0) ltac:(cbn; lia) ltac:(cbn; lia)).
Defined.

(** ** [gmtime_r] *)

Lemma find_year_ok fuel : forall n d, 0 <= d < Z.of_nat fuel + 1 ->
  let '(Y, r) := find_year fuel (1970 + Z.of_nat n) d in
  exists k, Y = 1970 + Z.of_nat k /\ years k + r = years n + d /\ 0 <= r < year_days Y.
Proof.
  induction fuel as [|fuel IH]; intros n d Hd; cbn [find_year].
  - exists n. split_and!; try lia. unfold year_days. destruct (leap _); lia.
  - destruct (Z.ltb_spec d (year_days (1970 + Z.of_nat n))) as [Hlt|Hge]; [exists n; split_and!; try done; lia|].
    assert (H1 : 365 <= year_days (1970 + Z.of_nat n)) by (unfold year_days; destruct (leap _); lia).
    specialize (IH (S n) (d - year_days (1970 + Z.of_nat n)) ltac:(lia)).
    replace (1970 + Z.of_nat n + 1) with (1970 + Z.of_nat (S n)) by lia.
    destruct (find_year fuel _ _) as [Y r]. destruct IH as (k & HY & Hk & Hr). exists k. split; [done|]. split; [|done].
    rewrite Hk. cbn [years]. lia.
Qed.

Lemma find_month_ok Y fuel : forall m d, (m + fuel = 12)%nat -> 0 <= d -> months_to Y m + d < months_to Y 12 ->
  let '(k, r) := find_month fuel Y (Z.of_nat m) d in
  0 <= k < 12 /\ months_to Y (Z.to_nat k) + r = months_to Y m + d /\ 0 <= r < month_days Y k.
Proof.
  induction fuel as [|fuel IH]; intros m d Hm Hd Hlt; cbn [find_month].
  - replace m with 12%nat in Hlt by lia. lia.
  - destruct (Z.ltb_spec d (month_days Y (Z.of_nat m))) as [Hl|Hge]; [rewrite Nat2Z.id; split_and!; lia|].
    replace (Z.of_nat m + 1) with (Z.of_nat (S m)) by lia.
    specialize (IH (S m) (d - month_days Y (Z.of_nat m)) ltac:(lia) ltac:(lia)).
    change (months_to Y (S m)) with (months_to Y m + month_days Y (Z.of_nat m)) in IH.
    destruct (find_month fuel Y _ _) as [k r]. destruct IH as (H1 & H2 & H3); [lia|]. split_and!; try done; lia.
Qed.

Lemma year_months Y : months_to Y 12 = year_days Y.
Proof. cbn [months_to]. unfold month_days, year_days. destruct (leap Y); reflexivity. Qed.

(** The fields that [gmtime_r] yields. *)
Record proper (t : tm) : Prop := {
  pr_time : 0 <= tm_hour t < 24 /\ 0 <= tm_min t < 60 /\ 0 <= tm_sec t < 60;
  pr_day : 1 <= tm_mday t <= 31 /\ 0 <= tm_mon t < 12 /\ 0 <= tm_wday t < 7;
  pr_year : 70 <= tm_year t
}.

Lemma month_days_range Y m : 28 <= month_days Y m <= 31.
Proof. unfold month_days. destruct (m =? 1); [destruct (leap Y)|destruct (_ || _)]; lia. Qed.

Lemma gmtime_ok t : 0 <= t -> seconds (gmtime t) = t /\ proper (gmtime t).
Proof.
  intros Ht. unfold gmtime. set (d := t / 86400). assert (Hd : 0 <= d) by (apply Z.div_pos; lia).
  pose proof (find_year_ok (Z.to_nat d) 0 d ltac:(lia)) as HY. rewrite Z.add_0_r in HY.
  destruct (find_year _ 1970 d) as [Y r]. destruct HY as (k & HY & Hk & Hr). cbn [years] in Hk.
  rewrite <- year_months in Hr. pose proof (find_month_ok Y 12 0 r eq_refl (proj1 Hr) ltac:(change (months_to Y 0) with 0; lia)) as HM.
  change (Z.of_nat 0) with 0 in HM. destruct (find_month 12 Y 0 r) as [m q]. destruct HM as (Hm & Hmq & Hq). change (months_to Y 0) with 0 in Hmq.
  pose proof (month_days_range Y m). split.
  - unfold seconds. cbn [tm_year tm_mon tm_mday tm_hour tm_min tm_sec]. replace (Y - 1900 + 1900) with Y by lia.
    replace (Z.to_nat (Y - 1970)) with k by lia. replace (years k + months_to Y (Z.to_nat m) + (q + 1 - 1)) with d by lia.
    unfold d. Z.div_mod_to_equations. lia.
  - split; cbn; [|split_and!; try lia; apply Z.mod_pos_bound; lia|lia].
    split_and!; Z.div_mod_to_equations; lia.
Qed.

(** ** Reading what was printed *)

Record numeral (ds : list Z) (v : Z) : Prop := {
  nm_digits : Forall (fun c => isdigit c = true) ds;
  nm_some : ds <> [];
  nm_value : decimal ds = v;
  nm_range : 0 <= v < 2147483648
}.

Record name (w : list Z) : Prop := {
  na_letters : Forall (fun c => isalpha c = true) w;
  na_some : w <> [];
  na_fits : (zlen w <? 500) = true
}.

Lemma sscanf_int f ds v r : numeral ds v -> stops isdigit r -> sscanf (DInt :: f) (ds ++ r) = IInt v :: sscanf f r.
Proof.
  intros [Hd Hn Hv Hr] Hs. cbn [sscanf]. rewrite strtol_digits by done. cbn [r_rest r_value].
  rewrite bool_decide_false.
  - rewrite Hv. assert (clamp v = v) as -> by (unfold clamp, LONG_MAX, LONG_MIN; lia). by rewrite i32_small by lia.
  - intros E. apply (f_equal length) in E. rewrite length_app in E. destruct ds; [done|]. cbn in E. lia.
Qed.

Lemma sscanf_letters f w r : name w -> stops isalpha r -> sscanf (DLetters :: f) (w ++ r) = ILetters w :: sscanf f r.
Proof.
  intros [Hl Hn _] Hs. cbn [sscanf]. rewrite span_while_app by done. by rewrite bool_decide_false.
Qed.

Lemma sscanf_char f c r : sscanf (DChar c :: f) (c :: r) = sscanf f r.
Proof. cbn [sscanf first hd tail]. by rewrite Z.eqb_refl, bool_decide_false. Qed.

Lemma sscanf_space f r : stops isspace r -> sscanf (DSpace :: f) (32 :: r) = sscanf f r.
Proof. intros Hs. cbn [sscanf]. change (32 :: r) with ([32] ++ r). by rewrite skip_while_app by (done || by repeat constructor). Qed.

Lemma numeral_stops ds v r : numeral ds v -> stops isspace (ds ++ r).
Proof. intros [Hd Hn _ _]. destruct ds as [|c ds]; [done|]. apply Forall_cons_1 in Hd as [Hc _]. by apply digit_not_space. Qed.

Lemma alpha_not_space c : isalpha c = true -> isspace c = false /\ isdigit c = false /\ c <> 45 /\ c <> 43.
Proof. unfold isalpha, isupper, islower, isspace, isdigit. intros Hc. split_and!; lia. Qed.

Lemma name_stops w r : name w -> stops isspace (w ++ r).
Proof. intros [Hl Hn _]. destruct w as [|c w]; [done|]. apply Forall_cons_1 in Hl as [Hc _]. by apply alpha_not_space. Qed.

(** A format that starts with a number does not match a name. *)
Lemma sscanf_no_int f w r : name w -> sscanf (DInt :: f) (w ++ r) = [].
Proof.
  intros Hw. pose proof (name_stops w r Hw) as Hs. destruct Hw as [Hl Hn _]. destruct w as [|c w]; [done|].
  apply Forall_cons_1 in Hl as [Hc _]. destruct (alpha_not_space c Hc) as (_ & Hd & H1 & H2).
  cbn [sscanf]. unfold strtol. rewrite skip_while_stops by done. unfold sign, first. cbn [hd app].
  rewrite (proj2 (Z.eqb_neq c 45)), (proj2 (Z.eqb_neq c 43)) by done. cbn [span_while]. rewrite Hd. cbn. by rewrite bool_decide_true.
Qed.

Lemma range_cases (P : Z -> bool) a n : forallb P (seqZ a n) = true -> forall k, a <= k < a + n -> P k = true.
Proof. intros Hf k Hk. apply (proj1 (forallb_forall _ _) Hf), list_elem_of_In, elem_of_seqZ. lia. Qed.

Lemma two_numeral n : 0 <= n < 100 -> numeral (two n) n /\ zlen (two n) = 2.
Proof.
  intros Hn. assert (H : forallb isdigit (two n) && (decimal (two n) =? n) && (zlen (two n) =? 2) = true).
  { apply (range_cases (fun n => forallb isdigit (two n) && (decimal (two n) =? n) && (zlen (two n) =? 2)) 0 100); [|lia].
    vm_compute. reflexivity. }
  rewrite !andb_true_iff, !Z.eqb_eq in H. destruct H as [[H1 H3] H4].
  split; [|done]. split; [|by intros E; rewrite E in H4|done|lia].
  apply list.Forall_forall. intros c Hc%list_elem_of_In. exact (proj1 (forallb_forall _ _) H1 c Hc).
Qed.

Lemma four_numeral n : 1000 <= n < 10000 -> numeral (four n) n /\ zlen (four n) = 4.
Proof.
  intros Hn. assert (H : Nat.eqb (length (dec n)) 4 = true).
  { apply (range_cases (fun n => Nat.eqb (length (dec n)) 4) 1000 9000); [|lia]. vm_compute. reflexivity. }
  apply Nat.eqb_eq in H. unfold four, pad. rewrite H. cbn [Nat.sub replicate app]. destruct (dec_spec n) as (E & Hf & Hne); [lia|].
  split; [|unfold zlen; lia]. split; try done. lia.
Qed.

Lemma day_name w d : day_of_week !! w = Some d -> name d /\ scan_wday d = Some (Some (Z.of_nat w)) /\ zlen d = 3.
Proof.
  intros Hd. do 7 (destruct w as [|w]; [injection Hd as <-; split_and!; [split; [by repeat constructor|done|done]|vm_compute; reflexivity|done]|]).
  done.
Qed.

Lemma month_name i m : months !! i = Some m -> name m /\ scan_mon m = Some (Some (Z.of_nat i)) /\ zlen m = 3.
Proof.
  intros Hm. do 12 (destruct i as [|i]; [injection Hm as <-; split_and!; [split; [by repeat constructor|done|done]|vm_compute; reflexivity|done]|]).
  done.
Qed.

Section Printed.
Context (d m md y h mi s : list Z) (vd vy vh vmi vs : Z).
Context (Hd : name d) (Hm : name m) (Hmd : numeral md vd) (Hy : numeral y vy) (Hh : numeral h vh) (Hmi : numeral mi vmi) (Hs : numeral s vs).

Definition printed : list Z :=
  d ++ 44 :: 32 :: md ++ 32 :: m ++ 32 :: y ++ 32 :: h ++ 58 :: mi ++ 58 :: s ++ 32 :: [71; 77; 84].

Lemma sscanf_fmt5 : sscanf fmt5 printed = [ILetters d; IInt vd].
Proof using Hd Hmd.
  unfold fmt5, fmt1, printed. cbn [app]. rewrite sscanf_letters, sscanf_char, sscanf_space by (done || by eapply numeral_stops).
  rewrite (sscanf_int _ md vd) by done. done.
Qed.

Lemma sscanf_fmt6 : sscanf fmt6 printed = [ILetters d; IInt vd; ILetters m; IInt vy; IInt vh; IInt vmi; IInt vs].
Proof using Hd Hh Hm Hmd Hmi Hs Hy.
  unfold fmt6, fmt2, hms, gmt, printed. cbn [app].
  rewrite sscanf_letters, sscanf_char, sscanf_space by (done || by eapply numeral_stops).
  rewrite (sscanf_int _ md vd), sscanf_space by (done || by apply name_stops).
  rewrite sscanf_letters, sscanf_space by (done || by eapply numeral_stops).
  rewrite (sscanf_int _ y vy), sscanf_space by (done || by eapply numeral_stops).
  rewrite (sscanf_int _ h vh), sscanf_char, (sscanf_int _ mi vmi), sscanf_char, (sscanf_int _ s vs) by done.
  by rewrite sscanf_space, !sscanf_char.
Qed.

Lemma try_formats_printed w k : scan_wday d = Some (Some w) -> scan_mon m = Some (Some k) ->
  try_formats formats printed = Ok (Some (Tm vs vmi vh vd k vy w)) tt.
Proof using Hd Hh Hm Hmd Hmi Hs Hy.
  intros Ew Ek.
  assert (Hno : forall f, sscanf (DInt :: f) printed = []) by (intros f; by apply sscanf_no_int).
  assert (H1 : sscanf fmt1 printed = []) by apply Hno. assert (H2 : sscanf fmt2 printed = []) by apply Hno.
  assert (H3 : sscanf fmt3 printed = []) by apply Hno. assert (H4 : sscanf fmt4 printed = []) by apply Hno.
  unfold formats. cbn [try_formats]. rewrite H1, H2, H3, H4, sscanf_fmt5, sscanf_fmt6.
  pose proof (na_fits _ Hd) as Fd. pose proof (na_fits _ Hm) as Fm.
  cbn [forallb fits]. rewrite Fd, Fm. cbn [andb negb convert]. unfold attempt_wday, attempt. by rewrite Ew, Ek.
Qed.

Lemma printed_length : zlen printed = zlen d + zlen md + zlen m + zlen y + zlen h + zlen mi + zlen s + 11.
Proof using.
  unfold printed. repeat (rewrite zlen_app || rewrite zlen_cons). change (zlen [32; 71; 77; 84]) with 4. change (zlen []) with 0. lia.
Qed.
End Printed.

Lemma print_date_printed g : proper g -> exists d m, day_of_week !! Z.to_nat (tm_wday g) = Some d /\
  months !! Z.to_nat (tm_mon g) = Some m /\
  print_date g = Some (printed d m (two (tm_mday g)) (four (tm_year g + 1900)) (two (tm_hour g)) (two (tm_min g)) (two (tm_sec g))).
Proof.
  intros [_ (_ & H1 & H2) _].
  destruct (lookup_lt_is_Some_2 day_of_week (Z.to_nat (tm_wday g))) as [d Ed]; [cbn; lia|].
  destruct (lookup_lt_is_Some_2 months (Z.to_nat (tm_mon g))) as [m Em]; [cbn; lia|].
  exists d, m. split; [done|]. split; [done|]. unfold print_date. by rewrite Ed, Em.
Qed.

Lemma months_nonneg Y n : 0 <= months_to Y n.
Proof. induction n as [|n IH]; cbn [months_to]; [lia|]. pose proof (month_days_range Y (Z.of_nat n)). lia. Qed.

Lemma proper_year g : proper g -> seconds g < 253402300800 -> tm_year g <= 8099.
Proof.
  intros [(G1 & G2 & G3) (G4 & _ & _) G5]. unfold seconds. rewrite years_closed. cbv zeta. rewrite Z2Nat.id by lia.
  pose proof (months_nonneg (tm_year g + 1900) (Z.to_nat (tm_mon g))). Z.div_mod_to_equations. lia.
Qed.

(** C37: printing and reading a date.  A time up to the end of the year 9999 is printed into
    a buffer of at least 30 bytes and read back as the same number of seconds, except from
    March on in the years 2000, 2400, ... (a day less) and 2300, 2700, ... (a day more). *)
Theorem httpdate_roundtrip (t n : Z) : 0 <= t < 253402300800 -> 30 <= n ->
  exists s, timet_to_httpdate t n = Some (0, s) /\
    httpdate_to_timet s =
      Ok (t + if 2 <=? tm_mon (gmtime t) then 86400 * misjudged (tm_year (gmtime t)) else 0) tt.
Proof.
  intros Ht Hn. destruct (gmtime_ok t) as [Es Hg]; [lia|]. set (g := gmtime t) in *.
  assert (Hy : tm_year g <= 8099) by (apply proper_year; [done|lia]).
  destruct (print_date_printed g Hg) as (d & m & Ed & Em & Ep). destruct Hg as [(G1 & G2 & G3) (G4 & G5 & G6) G7].
  destruct (day_name _ _ Ed) as (Nd & Sd & Ld). destruct (month_name _ _ Em) as (Nm & Sm & Lm).
  rewrite Z2Nat.id in Sd, Sm by lia.
  destruct (two_numeral (tm_mday g)) as [Q1 L1]; [lia|]. destruct (four_numeral (tm_year g + 1900)) as [Q2 L2]; [lia|].
  destruct (two_numeral (tm_hour g)) as [Q3 L3]; [lia|]. destruct (two_numeral (tm_min g)) as [Q4 L4]; [lia|].
  destruct (two_numeral (tm_sec g)) as [Q5 L5]; [lia|].
  set (s := printed _ _ _ _ _ _ _) in Ep. exists s.
  assert (Hlen : zlen s = 29).
  { unfold s. rewrite printed_length. lia. }
  split.
  - unfold timet_to_httpdate. fold g. rewrite Ep. cbn [mbind option_bind]. rewrite (proj2 (Z.eqb_neq _ _)) by lia.
    rewrite take_ge by (unfold zlen in Hlen; lia). done.
  - unfold httpdate_to_timet. rewrite skip_while_stops.
    2: { unfold s, printed. destruct Nd as [Hl Hne _]. destruct d as [|c d]; [done|]. apply Forall_cons_1 in Hl as [Hc _]. cbn.
         unfold isalpha, isupper, islower in Hc. lia. }
    unfold s. rewrite (try_formats_printed _ _ _ _ _ _ _ _ _ _ _ _ Nd Nm Q1 Q2 Q3 Q4 Q5 _ _ Sd Sm). cbn [tm_sec tm_min tm_hour tm_mday tm_mon tm_year tm_wday].
    unfold fix_year. rewrite (proj2 (Z.ltb_lt 1900 _)) by lia. replace (tm_year g + 1900 - 1900) with (tm_year g) by lia.
    rewrite tm_to_time_calendar by (cbn; lia). cbn [tm_mon tm_year]. rewrite <- Es at 1. destruct g; done.
Qed.

Lemma httpdate_roundtrip_witness : exists s, timet_to_httpdate 1301118837 100 = Some (0, s) /\
  httpdate_to_timet s = Ok 1301118837 tt /\ s = lit "Sat, 26 Mar 2011 05:53:57 GMT".
Proof.
  destruct (httpdate_roundtrip 1301118837 100 ltac:(lia) ltac:(lia)) as (s & E1 & E2). exists s.
  assert (Hs : timet_to_httpdate 1301118837 100 = Some (0, lit "Sat, 26 Mar 2011 05:53:57 GMT")) by (vm_compute; reflexivity).
  assert (Hz : 1301118837 + (if 2 <=? tm_mon (gmtime 1301118837) then 86400 * misjudged (tm_year (gmtime 1301118837)) else 0) = 1301118837)
    by (vm_compute; reflexivity).
  rewrite Hz in E2. split; [exact E1|]. split; [exact E2|]. rewrite Hs in E1. by injection E1.
Defined.

(** A buffer that is too small is only noticed if it is too small by one byte. *)
Lemma truncated_unnoticed : timet_to_httpdate 1301118837 20 = Some (0, lit "Sat, 26 Mar 2011 05").
Proof. vm_compute. reflexivity. Qed.
