(* ===== verification/Http.v ===== *)
(** * HTTP headers and options ([util/http_parsing.c], [util/netlib.c])

    A header is a C string; a read behind its end is a fault.  [errno] is an argument and a
    result where the code looks at it without resetting it.  Header values that are printed
    are read back; the end of a header is the first empty line. *)

From S2P Require Import Prelude CString Config Dates.

Definition space_or_tab (c : Z) : bool := (c =? 32) || (c =? 9).
Definition cr_or_newline (c : Z) : bool := (c =? 13) || (c =? 10).
Definition in_line (c : Z) : bool := negb (cr_or_newline c).

(** The two loops, character by character. *)
Fixpoint nre_strcasestr (buf key : list Z) : option (list Z) :=
  match buf with
  | [] => None
  | c :: buf' =>
      if (c =? first key) && starts_with_case (tail key) buf' then Some buf
      else nre_strcasestr buf' key
  end.

(** The loop of [find_http_header] over the string from position [pos] on. *)
Fixpoint header_loop (s : list Z) (pos len : Z) : Z :=
  match s with
  | [] => 0
  | c :: s' =>
      if c =? 10 then
        let temp := pos + 1 in
        if first s' =? 10 then temp + 1
        else if (0 <? len) && (first s' =? 13) && (first (tail s') =? 10) then temp + 2
        else header_loop s' temp len
      else header_loop s' (pos + 1) len
  end.

(** The length, and the buffer with the header terminated. *)
Definition find_http_header (data : list Z) (len : Z) : outcome unit (Z * list Z) :=
  if (len <? 0) || (zlen data <=? len) then Fault OutOfBounds
  else
    let hdr_len := header_loop (c_str (take (Z.to_nat len) data)) 0 len in
    Ok (hdr_len, if hdr_len =? 0 then data else <[Z.to_nat (hdr_len - 1) := 0]> data) tt.

Definition HTTP_STR : list Z := lit "HTTP".
Definition HTTP_GET : list Z := lit "GET".
Definition HTTP_POST : list Z := lit "POST".

Definition is_http_request (data : list Z) (len : Z) : Z :=
  if (3 <=? len) && starts_with HTTP_GET data then 1
  else if (4 <=? len) && starts_with HTTP_POST data then 2
  else 0.

Definition is_http_response (data : list Z) (len : Z) : Z :=
  if len <? 4 then 0 else if starts_with HTTP_STR data then 1 else 0.

(** [p + n] within a string. *)
Definition advance (n : Z) (s : list Z) : outcome unit (list Z) :=
  if zlen s <? n then Fault OutOfBounds else Ok (drop (Z.to_nat n) s) tt.

Definition ob {A B} (o : outcome unit A) (k : A -> outcome unit B) : outcome unit B :=
  match o with Ok a _ => k a | Fault e => Fault e end.

(** The copy of the value, at most [value_len] - 1 characters; [None] for a null pointer. *)
Definition http_header_str_val (buf key : list Z) (keylen value_len : Z) : outcome unit (option (list Z)) :=
  match nre_strcasestr buf key with
  | None => Ok None tt
  | Some temp =>
      ob (advance keylen temp) (fun temp =>
        let temp := skip_while space_or_tab temp in
        if bool_decide (temp = []) || cr_or_newline (first temp) then Ok None tt
        else
          let value := take (Z.to_nat (value_len - 1)) (span_while in_line temp).1 in
          Ok (if bool_decide (value = []) then None else Some value) tt)
  end.

(** [strtol] with [errno]: the new [errno] is [ERANGE] when the number is out of range. *)
Definition errno_after (errno : Z) (r : parsed) : Z := if r_range r then ERANGE else errno.
Definition bad_errno (e : Z) : bool := (e =? EINVAL_) || (e =? ERANGE).

Definition C_TYPE_LEN : Z := 50.

Definition http_header_long_val (response key : list Z) (key_len errno : Z) : outcome unit (Z * Z) :=
  ob (http_header_str_val response key key_len C_TYPE_LEN) (fun value =>
    match value with
    | None => Ok (-1, errno) tt
    | Some temp =>
        let r := strtol temp in
        let e := errno_after errno r in
        Ok (if bad_errno e then -1 else r_value r, e) tt
    end).

Inductive http_version := HTTP_09 | HTTP_10 | HTTP_11.

(** The return value, the status code and the version, and [errno]. *)
Definition http_parse_first_resp_line (data : list Z) (errno : Z) : outcome unit (Z * option (Z * http_version) * Z) :=
  if negb (starts_with HTTP_STR data) then Ok (0, None, errno) tt
  else
    ob (advance 5 data) (fun p =>
      let ver := if starts_with (lit "1.1") p then HTTP_11 else if starts_with (lit "1.0") p then HTTP_10 else HTTP_09 in
      ob (advance 4 p) (fun p =>
        let r := strtol p in
        let e := errno_after errno r in
        Ok (if bad_errno e then 0 else 1, Some (i32 (r_value r), ver), e) tt)).

Definition http_header_date (data field : list Z) (len : Z) : outcome unit Z :=
  ob (http_header_str_val data field len 256) (fun value =>
    match value with
    | None => Ok (-1) tt
    | Some buf => httpdate_to_timet buf
    end).

Definition http_check_header_field (data field : list Z) : Z :=
  match nre_strcasestr data field with Some _ => 1 | None => 0 end.

Definition http_get_http_version_resp (data : list Z) (len value_len : Z) : option (list Z) :=
  if len <? 4 then None
  else if negb (starts_with HTTP_STR data) then None
  else Some (take (Z.to_nat (value_len - 1)) (span_while (fun c => negb (space_or_tab c)) data).1).

(** The rest of the request from the URL on, and the copy of the URL. *)
Definition http_get_url (data : list Z) (value_len : Z) : outcome unit (option (list Z * list Z)) :=
  if negb (starts_with HTTP_GET data) then Ok None tt
  else
    ob (advance 4 data) (fun ret =>
      let ret := skip_while space_or_tab ret in
      Ok (Some (ret, take (Z.to_nat (value_len - 1)) (span_while (fun c => negb (c =? 32)) ret).1)) tt).

(** The loop that stops behind the first space or tab, or at the end. *)
Fixpoint behind_space (s : list Z) : list Z :=
  match s with
  | [] => []
  | c :: s' => if space_or_tab c then s' else behind_space s'
  end.

Definition http_get_status_code (response : list Z) (errno : Z) : Z * Z :=
  let r := strtol (behind_space response) in
  let e := errno_after errno r in
  (if bad_errno e then -1 else i32 (r_value r), e).

Definition MAXAGE : list Z := lit "max-age=".
Definition SMAXAGE : list Z := lit "s-maxage=".

(** The number behind the keyword and the character that follows it. *)
Definition age_behind (temp : list Z) (size errno : Z) : outcome unit (Z * Z) :=
  ob (advance size temp) (fun s =>
    let r := strtol s in
    let e := errno_after errno r in
    Ok (if bad_errno e then -1 else i32 (r_value r), e) tt).

Definition http_get_maxage (cache_ctl : list Z) (errno : Z) : outcome unit (Z * Z) :=
  if bool_decide (cache_ctl = []) then Ok (-1, errno) tt
  else match nre_strcasestr cache_ctl MAXAGE with
  | Some temp => age_behind temp 9 errno
  | None =>
      match nre_strcasestr cache_ctl SMAXAGE with
      | Some temp => age_behind temp 10 errno
      | None => Ok (-1, errno) tt
      end
  end.

(** ** [netlib.c] *)

(** The options of the command line: the values that are assigned, in order; [exit] is a
    fault. *)
Fixpoint ParseOptions (argv : list (list Z)) (ops : list (list Z)) : outcome unit (list (nat * list Z)) :=
  match argv with
  | [] => Ok [] tt
  | a :: argv' =>
      match list_find (fun n => streq n a = true) ops with
      | None => Fault ProcessExit
      | Some (j, _) =>
          match argv' with
          | [] => Fault ProcessExit
          | v :: argv'' =>
              ob (ParseOptions argv'' ops) (fun l => Ok ((j, v) :: l) tt)
          end
      end
  end.

Definition GetHeaderString (buf header : list Z) (hdrsize : Z) : outcome unit (option (list Z)) :=
  match strstr buf header with
  | None => Ok None tt
  | Some temp =>
      ob (advance hdrsize temp) (fun temp =>
        let temp := skip_while isspace temp in
        Ok (if bool_decide (temp = []) then None else Some temp) tt)
  end.

(** The value if there is one, and [errno]. *)
Definition GetHeaderLong (buf header : list Z) (hdrsize errno : Z) : outcome unit (option Z * Z) :=
  ob (GetHeaderString buf header hdrsize) (fun o =>
    match o with
    | None => Ok (None, errno) tt
    | Some temp =>
        let r := strtol temp in
        let e := errno_after errno r in
        Ok (if bad_errno e then None else Some (r_value r), e) tt
    end).

(** ** The end of a header *)

(** An empty line ends at position [k] of [s]. *)
Definition empty_line (s : list Z) (k : Z) : Prop :=
  exists pre post, (s = pre ++ 10 :: 10 :: post /\ k = zlen pre + 2) \/ (s = pre ++ 10 :: 13 :: 10 :: post /\ k = zlen pre + 3).

Lemma empty_line_nil k : ~ empty_line [] k.
Proof. intros ([|? pre] & post & [[E _]|[E _]]); done. Qed.

(** An empty line that does not start at the first character. *)
Lemma empty_line_cons c s k : empty_line (c :: s) k <->
  (c = 10 /\ ((first s = 10 /\ s <> [] /\ k = 2) \/ (first s = 13 /\ first (tail s) = 10 /\ k = 3))) \/ empty_line s (k - 1).
Proof.
  split.
  - intros (pre & post & He). destruct pre as [|x pre].
    + left. destruct He as [[[= -> ->] ->]|[[= -> ->] ->]]; (split; [done|]); [left|right]; done.
    + right. exists pre, post. rewrite !zlen_cons in He. destruct He as [[[= -> ->] ->]|[[= -> ->] ->]]; [left|right]; (split; [done|lia]).
  - intros [[-> [(H1 & H2 & ->)|(H1 & H2 & ->)]]|(pre & post & He)].
    + destruct s as [|x s]; [done|]. cbn in H1. subst x. exists [], s. by left.
    + destruct s as [|x [|y s]]; cbn in H1, H2; try lia. subst. exists [], s. by right.
    + exists (c :: pre), post. rewrite !zlen_cons. destruct He as [[-> Hk]|[-> Hk]]; [left|right]; (split; [done|lia]).
Qed.

Lemma header_loop_ok len s : 0 < len -> forall pos, 0 <= pos ->
  let r := header_loop s pos len in
  (r = 0 /\ forall k, ~ empty_line s k) \/
  (pos + 2 <= r /\ empty_line s (r - pos) /\ forall k, empty_line s k -> r - pos <= k).
Proof.
  intros Hlen. induction s as [|c s IH]; intros pos Hp; cbn [header_loop]; cbv zeta.
  { left. split; [done|]. apply empty_line_nil. }
  assert (Hk : forall s k, empty_line s k -> 2 <= k).
  { intros s' k (pre & post & [[_ ->]|[_ ->]]); pose proof (zlen_nonneg pre); lia. }
  specialize (IH (pos + 1) ltac:(lia)). cbv zeta in IH.
  assert (Hrest : forall t, t = header_loop s (pos + 1) len ->
    (c = 10 -> first s <> 10 \/ s = []) -> (c = 10 -> first s = 13 -> first (tail s) <> 10) ->
    (t = 0 /\ (forall k, ~ empty_line (c :: s) k)) \/
    (pos + 2 <= t /\ empty_line (c :: s) (t - pos) /\ forall k, empty_line (c :: s) k -> t - pos <= k)).
  { intros t -> H1 H2. destruct IH as [[-> Hn]|(H3 & H4 & H5)]; [left|right].
    - split; [done|]. intros k [[-> [(K1 & K2 & _)|(K1 & K2 & _)]]|K]%empty_line_cons; [|by apply H2|by apply (Hn _ K)].
      by destruct (H1 eq_refl).
    - split; [lia|]. split; [apply empty_line_cons; right; by replace (header_loop s (pos + 1) len - pos - 1) with (header_loop s (pos + 1) len - (pos + 1)) by lia|].
      intros k [[-> [(K1 & K2 & _)|(K1 & K2 & _)]]|K]%empty_line_cons; [by destruct (H1 eq_refl)|by destruct (H2 eq_refl K1)|].
      specialize (H5 _ K). lia. }
  destruct (Z.eqb_spec c 10) as [->|Hc]; [|by apply Hrest].
  destruct (Z.eqb_spec (first s) 10) as [E1|E1].
  { right. assert (Hne : s <> []) by (intros ->; done). split; [lia|]. replace (pos + 1 + 1 - pos) with 2 by lia.
    split; [apply empty_line_cons; left; auto|]. intros k K. by apply (Hk _ _ K). }
  rewrite (proj2 (Z.ltb_lt 0 len)) by done. cbn [andb].
  destruct (Z.eqb_spec (first s) 13) as [E2|E2]; cbn [andb].
  - destruct (Z.eqb_spec (first (tail s)) 10) as [E3|E3]; [|apply Hrest; auto].
    right. split; [lia|]. replace (pos + 1 + 2 - pos) with 3 by lia. split; [apply empty_line_cons; left; auto|].
    intros k [[_ [(K1 & _)|(_ & _ & ->)]]|K]%empty_line_cons; [lia|lia|]. specialize (Hk _ _ K). lia.
  - apply Hrest; auto.
Qed.

Lemma c_str_prefix l : exists r, l = c_str l ++ r /\ (r = [] \/ exists r', r = 0 :: r').
Proof.
  induction l as [|c l IH]; cbn [c_str]; [exists []; auto|]. destruct (Z.eqb_spec c 0) as [->|Hc]; [exists (0 :: l); eauto|].
  destruct IH as (r & E & Hr). exists r. split; [by rewrite E at 1|done].
Qed.

Lemma c_str_nonzero l : Forall (fun c => c <> 0) (c_str l).
Proof. induction l as [|c l IH]; cbn [c_str]; [constructor|]. destruct (Z.eqb_spec c 0); by constructor. Qed.

Lemma c_str_stops s r : Forall (fun c => c <> 0) s -> c_str (s ++ 0 :: r) = s.
Proof.
  induction s as [|c s IH]; intros Hs; [done|]. apply Forall_cons_1 in Hs as [Hc Hs]. cbn [c_str app].
  rewrite (proj2 (Z.eqb_neq _ _)) by done. by rewrite IH.
Qed.

(** C38: the end of a header.  [find_http_header] finds the first empty line of the text,
    returns where it ends, or 0 if there is none, and cuts the text in front of its last
    newline. *)
Theorem find_http_header_first (data : list Z) (len : Z) : 0 < len < zlen data ->
  let s := c_str (take (Z.to_nat len) data) in
  exists r data', find_http_header data len = Ok (r, data') tt /\
    ((r = 0 /\ data' = data /\ forall k, ~ empty_line s k) \/
     (empty_line s r /\ (forall k, empty_line s k -> r <= k) /\ c_str data' = take (Z.to_nat (r - 1)) s)).
Proof.
  intros Hlen s. unfold find_http_header. rewrite (proj2 (Z.ltb_ge _ _)), (proj2 (Z.leb_gt _ _)) by lia. cbn [orb]. fold s.
  pose proof (header_loop_ok len s ltac:(lia) 0 ltac:(lia)) as H. cbv zeta in H. rewrite !Z.sub_0_r in H.
  set (r := header_loop s 0 len) in *. exists r. eexists. split; [done|].
  destruct H as [[-> Hn]|(Hr & He & Hmin)]; [by left|right]. rewrite (proj2 (Z.eqb_neq _ _)) by lia. split_and!; [done|done|].
  assert (Hrs : r <= zlen s).
  { destruct He as (pre & post & [[E ->]|[E ->]]); rewrite E, zlen_app, !zlen_cons; pose proof (zlen_nonneg post); lia. }
  destruct (c_str_prefix (take (Z.to_nat len) data)) as (q & Eq & _). fold s in Eq.
  assert (Ed : data = s ++ q ++ drop (Z.to_nat len) data) by (rewrite app_assoc, <- Eq; symmetry; apply take_drop).
  set (n := Z.to_nat (r - 1)). assert (Hn : (n < length s)%nat) by (unfold n, zlen in *; lia).
  rewrite Ed, insert_app_l by done. rewrite insert_take_drop by done.
  rewrite <- app_assoc. cbn [app]. apply c_str_stops, Forall_take, c_str_nonzero.
Qed.

Lemma find_http_header_first_witness :
  let s := c_str (take 30 (lit "GET / HTTP/1.0" ++ [13; 10; 13; 10] ++ replicate 20 120)) in
  exists r data', find_http_header (lit "GET / HTTP/1.0" ++ [13; 10; 13; 10] ++ replicate 20 120) 30 = Ok (r, data') tt /\
    ((r = 0 /\ data' = lit "GET / HTTP/1.0" ++ [13; 10; 13; 10] ++ replicate 20 120 /\ forall k, ~ empty_line s k) \/
     (empty_line s r /\ (forall k, empty_line s k -> r <= k) /\ c_str data' = take (Z.to_nat (r - 1)) s)).
Proof.
  exact (find_http_header_first (lit "GET / HTTP/1.0" ++ [13; 10; 13; 10] ++ replicate 20 120) 30 ltac:(vm_compute; split; reflexivity)).
Defined.

(** ** The value of a header *)

(** The keyword is at the start of [s]: the first character in the same case, the others in
    any case. *)
Definition at_key (key s : list Z) : bool :=
  match s with [] => false | c :: s' => (c =? first key) && starts_with_case (tail key) s' end.

(** In [pre ++ rest] the keyword does not occur in front of [rest]. *)
Definition not_before (key pre rest : list Z) : Prop :=
  forall p q, pre = p ++ q -> q <> [] -> at_key key (q ++ rest) = false.

Lemma nre_strcasestr_first key pre rest : not_before key pre rest -> at_key key rest = true ->
  nre_strcasestr (pre ++ rest) key = Some rest.
Proof.
  intros Hn Hk. induction pre as [|c pre IH].
  - cbn [app]. destruct rest as [|c rest]; [done|]. cbn [nre_strcasestr at_key] in *. by rewrite Hk.
  - pose proof (Hn [] (c :: pre) eq_refl ltac:(done)) as Hc. cbn [app nre_strcasestr at_key] in *. rewrite Hc.
    apply IH. intros p q -> Hq. by apply (Hn (c :: p) q).
Qed.

Lemma starts_with_app k r : starts_with k (k ++ r) = true.
Proof. induction k as [|c k IH]; [done|]. cbn. by rewrite Z.eqb_refl. Qed.

Lemma at_key_self key r : key <> [] -> at_key key (key ++ r) = true.
Proof.
  intros Hk. destruct key as [|c key]; [done|]. cbn. rewrite Z.eqb_refl. unfold starts_with_case. rewrite fmap_app.
  apply starts_with_app.
Qed.

(** A value in a line: it does not start with a space and contains no end of line. *)
Record line_value (v : list Z) : Prop := {
  lv_some : v <> [];
  lv_start : space_or_tab (first v) = false;
  lv_line : Forall (fun c => in_line c = true) v
}.

Lemma header_line_read (key pre sp v post : list Z) (e n : Z) :
  key <> [] -> Forall (fun c => space_or_tab c = true) sp -> line_value v -> cr_or_newline e = true -> zlen v < n ->
  not_before key pre (key ++ sp ++ v ++ e :: post) ->
  http_header_str_val (pre ++ key ++ sp ++ v ++ e :: post) key (zlen key) n = Ok (Some v) tt.
Proof.
  intros Hk Hsp [Hv1 Hv2 Hv3] He Hn Hb. unfold http_header_str_val. rewrite nre_strcasestr_first by (done || by apply at_key_self).
  unfold advance. rewrite zlen_app. rewrite (proj2 (Z.ltb_ge _ _)) by (pose proof (zlen_nonneg (sp ++ v ++ e :: post)); lia).
  unfold zlen at 1. rewrite Nat2Z.id, drop_app_length. cbn [ob].
  assert (Hs : stops space_or_tab (v ++ e :: post)) by (destruct v; [done|exact Hv2]).
  rewrite skip_while_app by done.
  rewrite bool_decide_false by (destruct v; done). cbn [orb].
  assert (Hf : cr_or_newline (first (v ++ e :: post)) = false).
  { destruct v as [|c v]; [done|]. apply Forall_cons_1 in Hv3 as [Hc _]. by apply negb_true_iff. }
  rewrite Hf, span_while_app by (done || by unfold stops, in_line; cbn; rewrite He). cbn [fst].
  rewrite take_ge by (unfold zlen in Hn; lia). by rewrite bool_decide_false.
Qed.

(** the value of a header.  For a header line in a message, where the keyword does not
    occur earlier, the value behind the spaces up to the end of the line is returned. *)
Theorem http_header_value (key pre sp v post : list Z) (e n : Z) :
  key <> [] -> Forall (fun c => space_or_tab c = true) sp -> line_value v -> cr_or_newline e = true -> zlen v < n ->
  not_before key pre (key ++ sp ++ v ++ e :: post) ->
  http_header_str_val (pre ++ key ++ sp ++ v ++ e :: post) key (zlen key) n = Ok (Some v) tt.
Proof. apply header_line_read. Qed.

Lemma not_before_check key pre rest :
  forallb (fun i => negb (at_key key (drop i pre ++ rest))) (seq 0 (length pre)) = true -> not_before key pre rest.
Proof.
  intros Hf p q -> Hq. apply negb_true_iff. rewrite <- (drop_app_length p q).
  apply (proj1 (forallb_forall _ _) Hf). apply in_seq. rewrite length_app. destruct q; [done|cbn; lia].
Qed.

Definition demo_request : list Z := lit "GET /index.html HTTP/1.1" ++ [13].
Definition HOST_HDR : list Z := 10 :: lit "Host:".

Lemma http_header_value_witness :
  http_header_str_val (demo_request ++ HOST_HDR ++ [32] ++ lit "www.example.org" ++ 13 :: [10; 13; 10]) HOST_HDR (zlen HOST_HDR) 128 =
  Ok (Some (lit "www.example.org")) tt.
Proof.
  assert (Hb : not_before HOST_HDR demo_request (HOST_HDR ++ [32] ++ lit "www.example.org" ++ 13 :: [10; 13; 10]))
    by (apply not_before_check; vm_compute; reflexivity).
  assert (Hv : line_value (lit "www.example.org")).
  { split; [done|done|]. apply list.Forall_forall. intros c Hc%list_elem_of_In. revert c Hc. apply forallb_forall. vm_compute. reflexivity. }
  exact (http_header_value HOST_HDR demo_request [32] (lit "www.example.org") [10; 13; 10] 13 128 ltac:(done)
    ltac:(by repeat constructor) Hv eq_refl ltac:(vm_compute; reflexivity) Hb).
Defined.

(** ** Numbers *)

Lemma dec_digits_length fuel : forall n, (length (dec_digits fuel n) <= S fuel)%nat.
Proof.
  induction fuel as [|fuel IH]; intros n; cbn [dec_digits]; [done|]. destruct (n <? 10); [cbn; lia|].
  rewrite length_app. specialize (IH (n / 10)). cbn. lia.
Qed.

Lemma dec_length n : 0 <= n < 2 ^ 48 -> zlen (dec n) < C_TYPE_LEN.
Proof.
  intros Hn. pose proof (dec_digits_length (Z.to_nat (Z.log2 n)) n). unfold dec, zlen, C_TYPE_LEN.
  destruct (decide (n = 0)) as [->|]; [vm_compute; reflexivity|]. pose proof (proj1 (Z.log2_lt_pow2 n 48 ltac:(lia)) ltac:(lia)). lia.
Qed.

Lemma digit_plain c : isdigit c = true -> space_or_tab c = false /\ in_line c = true.
Proof. unfold isdigit, space_or_tab, in_line, cr_or_newline. intros Hc. split; lia. Qed.

Lemma dec_line_value n : 0 <= n -> line_value (dec n).
Proof.
  intros Hn. destruct (dec_spec n Hn) as (_ & Hf & Hne). split; [done| |].
  - destruct (dec n) as [|c ds]; [done|]. apply Forall_cons_1 in Hf as [Hc _]. by apply digit_plain.
  - eapply list.Forall_impl; [exact Hf|]. intros c Hc. by apply digit_plain.
Qed.

(** A number in a header is read back, unless [errno] was left set by an earlier call. *)
Lemma http_header_long_read key pre sp post e n errno :
  key <> [] -> Forall (fun c => space_or_tab c = true) sp -> 0 <= n < 2 ^ 48 -> cr_or_newline e = true ->
  not_before key pre (key ++ sp ++ dec n ++ e :: post) ->
  http_header_long_val (pre ++ key ++ sp ++ dec n ++ e :: post) key (zlen key) errno =
    Ok (if bad_errno errno then -1 else n, errno) tt.
Proof.
  intros Hk Hsp Hn He Hb. unfold http_header_long_val.
  assert (E : http_header_str_val (pre ++ key ++ sp ++ dec n ++ e :: post) key (zlen key) C_TYPE_LEN = Ok (Some (dec n)) tt).
  { apply header_line_read; try done; [apply dec_line_value; lia|by apply dec_length]. }
  rewrite E. cbn [ob]. pose proof (strtol_dec n [] (proj1 Hn) I) as Es. rewrite app_nil_r in Es. rewrite Es. cbn [r_value].
  assert (Hc : clamp n = n) by (unfold clamp, LONG_MAX, LONG_MIN; lia).
  unfold errno_after. cbn [r_range]. rewrite Hc, Z.eqb_refl. done.
Qed.

(** The offset of the number behind the keyword is one too large: its first digit is lost. *)
Lemma maxage_loses_digit d n errno : isdigit d = true -> 0 <= n < 2147483648 -> bad_errno errno = false ->
  http_get_maxage (MAXAGE ++ d :: dec n) errno = Ok (n, errno) tt.
Proof.
  intros Hd Hn He. unfold http_get_maxage. rewrite bool_decide_false by done.
  assert (E : nre_strcasestr (MAXAGE ++ d :: dec n) MAXAGE = Some (MAXAGE ++ d :: dec n)).
  { apply (nre_strcasestr_first MAXAGE [] _); [|by apply (at_key_self MAXAGE (d :: dec n))]. intros p q Hpq. by destruct p, q. }
  rewrite E. unfold age_behind, advance. rewrite zlen_app, zlen_cons. change (zlen MAXAGE) with 8.
  rewrite (proj2 (Z.ltb_ge _ _)) by (pose proof (zlen_nonneg (dec n)); lia). cbn [ob].
  change (drop (Z.to_nat 9) (MAXAGE ++ d :: dec n)) with (dec n).
  pose proof (strtol_dec n [] (proj1 Hn) I) as Es. rewrite app_nil_r in Es. rewrite Es. unfold errno_after. cbn [r_value r_range].
  assert (Hc : clamp n = n) by (unfold clamp, LONG_MAX, LONG_MIN; lia). rewrite Hc, Z.eqb_refl. cbn [negb]. rewrite He.
  by rewrite i32_small by lia.
Qed.
