(* ===== verification/AppBuffer.v ===== *)
(** * The buffers of relaying applications ([util/ring_buffer.c])

    A block of memory with the data from an offset on; the data are moved to the front when
    their offset is past the middle.  The operations refine a queue of bytes: [contents] is
    the abstraction, the well-formedness invariant is kept by every operation, data go out
    in the order they came in.  [MoveToREPData] cuts data into frames; the layout of the
    frame header ([rep.h], not in the tree) is an argument.  [MtcpReadFromBuffer] and
    [MtcpWriteFromBuffer] run on the stack of [Api.v]. *)

From S2P Require Import Prelude Queues MemPool RingBuffer TcpStream Sockets Mtcp Output Events Pipes Api Core Stack System.

Module Relay.

(** [struct ring_buffer]: [block] is the memory at [head], [off] is [data - head]. *)
Record ring_buffer := RingBufferCtx {
  block : list Z;
  off : Z;
  tot_size : Z;
  data_size : Z;
  cum_size : Z
}.

#[export] Instance ring_buffer_eta : Settable ring_buffer :=
  fun b => RingBufferCtx (block b) (off b) (tot_size b) (data_size b) (cum_size b).

(** [garbage] is what [malloc] returns. *)
Definition InitBuffer (garbage : list Z) (size : Z) : ring_buffer :=
  RingBufferCtx (take (Z.to_nat size) garbage) 0 size 0 0.

Definition GetRemainBufferSize : M ring_buffer Z :=
  b ← get;
  assertM (0 <=? off b);;
  assertM (off b <=? tot_size b - 1);;
  if Z.quot (tot_size b) 2 <? off b then
    d ← unwrap OutOfBounds (mem_read (block b) (off b) (data_size b));
    w ← unwrap OutOfBounds (mem_write (block b) 0 d);
    put (b <| block := w |> <| off := 0 |>);;
    mret (tot_size b - data_size b)
  else mret (tot_size b - data_size b - off b).

Definition CheckAvailableSize (size : Z) : M ring_buffer bool :=
  remain_size ← GetRemainBufferSize;
  mret (negb (remain_size <? size)).

(** The pointer, as an offset into the block. *)
Definition GetInputPoint : M ring_buffer Z :=
  b ← get;
  assertM (data_size b <=? tot_size b);;
  mret (off b + data_size b).

Definition RemoveDataFromBuffer (size : Z) : M ring_buffer Z :=
  b ← get;
  if size <? 0 then mret (-1)
  else if data_size b <? size then mret (-1)
  else
    let n := data_size b - size in
    put (b <| data_size := n |> <| off := if n =? 0 then 0 else off b + size |>);;
    mret size.

Definition AddDataLen (size : Z) : M ring_buffer Z :=
  b ← get;
  assertM (data_size b + size <=? tot_size b);;
  put (b <| data_size := data_size b + size |> <| cum_size := i32 (cum_size b + size) |>);;
  mret (data_size b + size).

(** [memcpy] to and from the block. *)
Definition copy_in (at_ : Z) (src : list Z) : M ring_buffer unit :=
  b ← get;
  w ← unwrap OutOfBounds (mem_write (block b) at_ src);
  put (b <| block := w |>).

Definition copy_out (n : Z) : M ring_buffer (list Z) :=
  b ← get;
  unwrap OutOfBounds (mem_read (block b) (off b) n).

(** Two different buffers. *)
Record pair := Pair { dest : ring_buffer; src : ring_buffer }.

#[export] Instance pair_eta : Settable pair := fun p => Pair (dest p) (src p).

Definition CopyData (len : Z) : M pair Z :=
  to_cpy ← zoom dest GetRemainBufferSize;
  if to_cpy <=? 0 then mret 0
  else
    p ← get;
    let to_cpy := Z.min (data_size (src p)) (Z.min to_cpy len) in
    ip ← zoom dest GetInputPoint;
    d ← zoom src (copy_out to_cpy);
    zoom dest (copy_in ip d);;
    zoom dest (AddDataLen to_cpy);;
    mret to_cpy.

Definition MoveData (len : Z) : M pair Z :=
  p ← get;
  let to_move := data_size (src p) in
  let to_move := if 0 <? len then Z.min to_move len else to_move in
  let to_move := Z.min (data_size (src p)) to_move in
  if to_move <=? 0 then mret 0
  else
    ip ← zoom dest GetInputPoint;
    d ← zoom src (copy_out to_move);
    zoom dest (copy_in ip d);;
    zoom dest (AddDataLen to_move);;
    ret ← zoom src (RemoveDataFromBuffer to_move);
    assertM (to_move =? ret);;
    mret ret.

Definition MAX_REP_LEN : Z := 10 * 1024.

Section Frames.
Context (sizeof_rephdr : Z) (rephdr : Z -> Z -> Z -> list Z).

(** The body of the loop behind the computation of [to_move]: one frame. *)
Definition move_frame (to_move : Z) : M pair unit :=
  ip ← zoom dest GetInputPoint;
  zoom dest (copy_in ip (rephdr 1 0 to_move));;
  zoom dest (AddDataLen sizeof_rephdr);;
  d ← zoom src (copy_out to_move);
  zoom dest (copy_in (ip + sizeof_rephdr) d);;
  zoom dest (AddDataLen to_move);;
  ret ← zoom src (RemoveDataFromBuffer to_move);
  assertM (to_move =? ret).

(** [sizeof] is a [size_t]: the comparisons and the first [MIN] are unsigned. *)
Fixpoint rep_loop (fuel : nat) (data_size remain_size sum : Z) : M pair Z :=
  if (0 <? data_size) && (sizeof_rephdr <? u64 remain_size) then
    match fuel with
    | O => throw OutOfFuel
    | S fuel =>
        let to_move := i32 (Z.min (u64 data_size) (u64 (remain_size - sizeof_rephdr))) in
        let to_move := Z.min to_move MAX_REP_LEN in
        if to_move <=? 0 then mret 0
        else
          move_frame to_move;;
          rep_loop fuel (data_size - to_move) (i32 (remain_size - sizeof_rephdr) - to_move) (sum + to_move)
    end
  else mret sum.

(** Every turn moves a byte at least: the size of the data is enough fuel. *)
Definition MoveToREPData (len : Z) : M pair Z :=
  p ← get;
  remain_size ← zoom dest GetRemainBufferSize;
  let n := if 0 <? len then Z.min (data_size (src p)) len else data_size (src p) in
  rep_loop (Z.to_nat n) n remain_size 0.

End Frames.

(** An application's stack and one of its buffers. *)
Record relay := RelayCtx { stack : mtcp_manager; r_buff : ring_buffer }.

#[export] Instance relay_eta : Settable relay := fun r => RelayCtx (stack r) (r_buff r).

Section Relaying.
Context `{!Platform}.

(** The [int] an API call returns; a call that blocks does not return one. *)
Definition MtcpWriteFromBuffer (c : app_ctx) (fid : Z) : M relay (api_result Z) :=
  r ← get;
  let to_send := data_size (r_buff r) in
  if to_send <=? 0 then mret (Ret 0)
  else
    d ← zoom r_buff (copy_out to_send);
    wr ← zoom stack (mtcp_write c fid d to_send);
    match wr with
    | Ret n =>
        if n <? 0 then mret wr
        else
          ret ← zoom r_buff (RemoveDataFromBuffer n);
          assertM (n =? ret);;
          mret wr
    | _ => mret wr
    end.

Definition MtcpReadFromBuffer (c : app_ctx) (fid : Z) : M relay (api_result Z) :=
  free_len ← zoom r_buff GetRemainBufferSize;
  ip ← zoom r_buff GetInputPoint;
  ret ← zoom stack (mtcp_read c fid free_len);
  match ret with
  | Ret d =>
      zoom r_buff (copy_in ip d);;
      zoom r_buff (AddDataLen (zlen d));;
      mret (Ret (zlen d))
  | Errno e => mret (Errno e)
  | Block => mret Block
  end.

End Relaying.

(** ** The queue of bytes a buffer implements

    [holds b q room]: the data of [b] are [q], with [room] bytes behind them.  An empty
    buffer starts at the front of its block. *)
Inductive holds : ring_buffer -> list Z -> Z -> Prop :=
| Holds pre q rest cum :
    0 < zlen (pre ++ q ++ rest) < 2147483648 -> (q = [] -> pre = []) ->
    holds (RingBufferCtx (pre ++ q ++ rest) (zlen pre) (zlen (pre ++ q ++ rest)) (zlen q) cum) q (zlen rest).

Lemma holds_of b q rest pre : block b = pre ++ q ++ rest -> off b = zlen pre -> tot_size b = zlen (block b) ->
  data_size b = zlen q -> 0 < tot_size b < 2147483648 -> (q = [] -> pre = []) -> holds b q (zlen rest).
Proof. destruct b. cbn. intros -> -> -> -> Ht Hq. by constructor. Qed.

Lemma InitBuffer_empty garbage size : zlen garbage = size -> 0 < size < 2147483648 -> holds (InitBuffer garbage size) [] size.
Proof.
  intros <- Hs. assert (E : take (Z.to_nat (zlen garbage)) garbage = garbage) by (apply take_ge; unfold zlen; lia).
  apply (holds_of _ [] garbage []); cbn; rewrite ?E; done.
Qed.

Lemma holds_room b q room : holds b q room ->
  0 <= room /\ data_size b = zlen q /\ 0 <= off b /\ off b + zlen q + room = tot_size b /\ 0 < tot_size b < 2147483648.
Proof.
  intros [pre q' rest cum Hz Hq]. cbn. rewrite !zlen_app in *. pose proof (zlen_nonneg pre); pose proof (zlen_nonneg rest).
  pose proof (zlen_nonneg q'). lia.
Qed.

Lemma read_middle {A} (pre q rest : list A) n : 0 <= n <= zlen q ->
  mem_read (pre ++ q ++ rest) (zlen pre) n = Some (take (Z.to_nat n) q).
Proof.
  intros Hn. pose proof (zlen_nonneg pre); pose proof (zlen_nonneg rest). rewrite mem_read_ok by (rewrite ?zlen_app; lia).
  unfold zlen in *. rewrite Nat2Z.id, drop_app_length, take_app_le by lia. done.
Qed.

Lemma write_middle {A} (pre d rest : list A) : zlen d <= zlen rest ->
  mem_write (pre ++ rest) (zlen pre) d = Some (pre ++ d ++ drop (length d) rest).
Proof.
  intros Hd. pose proof (zlen_nonneg pre). rewrite mem_write_ok by (rewrite ?zlen_app; lia).
  unfold zlen. rewrite Nat2Z.id, take_app_length, drop_app_add. done.
Qed.

Lemma zlen_drop {A} n (l : list A) : zlen (drop n l) = zlen l - Z.min (Z.of_nat n) (zlen l).
Proof. unfold zlen. rewrite length_drop. lia. Qed.

(** The data stay; the room is what lies behind them, or all that is free. *)
Lemma remain_ok b q room : holds b q room ->
  wp GetRemainBufferSize (fun n b' => holds b' q n /\ tot_size b' = tot_size b /\ (n = room \/ n = tot_size b - zlen q)) b.
Proof.
  intros H. pose proof (holds_room _ _ _ H) as (R0 & R1 & R2 & R3 & R4).
  unfold GetRemainBufferSize. rewrite wp_bind, wp_get, wp_bind, wp_assert, wp_bind, wp_assert.
  split; [lia|]. split.
  { destruct H as [pre [|x q] rest cum Hz Hq]; cbn in *; [rewrite Hq in * by done; cbn in *; lia|].
    rewrite zlen_cons in *. pose proof (zlen_nonneg q). lia. }
  destruct (_ <? _) eqn:E.
  - rewrite wp_bind, wp_unwrap. destruct H as [pre q rest cum Hz Hq]. cbn [block off data_size tot_size] in *.
    exists q. rewrite read_middle by (pose proof (zlen_nonneg q); lia). split; [f_equal; apply take_ge; unfold zlen; lia|].
    rewrite wp_bind, wp_unwrap. eexists. split.
    { apply (write_middle [] q (pre ++ q ++ rest)). rewrite !zlen_app. pose proof (zlen_nonneg pre); pose proof (zlen_nonneg rest); lia. }
    rewrite wp_bind, wp_put, wp_ret. cbn [tot_size upd]. split; [|split; [done|by right]].
    assert (E' : zlen (pre ++ q ++ rest) - zlen q = zlen (drop (length q) (pre ++ q ++ rest))).
    { rewrite zlen_drop, !zlen_app. pose proof (zlen_nonneg pre); pose proof (zlen_nonneg rest). unfold zlen in *. lia. }
    rewrite E'. apply (holds_of _ q _ []); cbn; try done. rewrite (zlen_app q), <- E'. lia.
  - rewrite wp_ret. split; [|split; [done|left; lia]]. by replace (tot_size b - data_size b - off b) with room by lia.
Qed.

Lemma input_ok b q room : holds b q room -> wp GetInputPoint (fun ip b' => ip = off b + data_size b /\ b' = b) b.
Proof.
  intros H. pose proof (holds_room _ _ _ H). unfold GetInputPoint. rewrite wp_bind, wp_get, wp_bind, wp_assert, wp_ret.
  split; [lia|done].
Qed.

Lemma out_ok b q room n : holds b q room -> 0 <= n <= zlen q ->
  wp (copy_out n) (fun d b' => d = take (Z.to_nat n) q /\ b' = b) b.
Proof.
  intros [pre q' rest cum Hz Hq] Hn. unfold copy_out. rewrite wp_bind, wp_get, wp_unwrap. eexists. split; [|done].
  by apply read_middle.
Qed.

Lemma append_ok b q room ip d n : holds b q room -> ip = off b + data_size b -> zlen d = n -> n <= room ->
  wp (copy_in ip d;; AddDataLen n) (fun r b' => holds b' (q ++ d) (room - n) /\ tot_size b' = tot_size b /\
    r = zlen q + n /\ off b' + data_size b' = ip + n) b.
Proof.
  intros H Hip <- Hn. pose proof (holds_room _ _ _ H) as (R0 & R1 & R2 & R3 & R4). pose proof (zlen_nonneg d).
  destruct H as [pre q rest cum Hz Hq]. cbn [block off data_size tot_size cum_size] in *. subst ip.
  unfold copy_in, AddDataLen. rewrite !wp_bind, wp_get, wp_bind, wp_unwrap. eexists. split.
  { cbn [block]. rewrite <- zlen_app, (app_assoc pre q rest). by apply write_middle. }
  rewrite wp_put, wp_bind, wp_get, wp_bind, wp_assert. cbn [upd block off data_size tot_size]. split; [lia|].
  rewrite wp_bind, wp_put, wp_ret. cbn. assert (E : zlen rest - zlen d = zlen (drop (length d) rest)).
  { rewrite zlen_drop. unfold zlen in *. lia. }
  split_and!; try done; [|lia]. rewrite E. apply (holds_of _ _ _ pre); cbn.
  - by rewrite <- !app_assoc.
  - done.
  - rewrite !zlen_app, <- E. lia.
  - by rewrite zlen_app.
  - done.
  - intros Hnil. apply app_nil in Hnil as [-> _]. by apply Hq.
Qed.

Lemma remove_ok b q room n : holds b q room -> 0 <= n <= zlen q ->
  wp (RemoveDataFromBuffer n) (fun r b' => r = n /\ tot_size b' = tot_size b /\
    exists room', room <= room' /\ holds b' (drop (Z.to_nat n) q) room') b.
Proof.
  intros H Hn. pose proof (holds_room _ _ _ H) as (R0 & R1 & R2 & R3 & R4).
  destruct H as [pre q rest cum Hz Hq]. cbn [block off data_size tot_size cum_size] in *.
  unfold RemoveDataFromBuffer. rewrite wp_bind, wp_get. rewrite (proj2 (Z.ltb_ge _ _)) by lia.
  cbn [block off data_size tot_size cum_size]. rewrite (proj2 (Z.ltb_ge (zlen q) n)) by lia.
  rewrite wp_bind, wp_put, wp_ret. cbn. split_and!; try done.
  destruct (Z.eqb_spec (zlen q - n) 0) as [Hz0|Hz0].
  - exists (zlen (pre ++ q ++ rest)). split; [rewrite !zlen_app; pose proof (zlen_nonneg pre); lia|].
    rewrite drop_ge by (unfold zlen in *; lia). apply (holds_of _ [] _ []); cbn; try done; lia.
  - exists (zlen rest). split; [done|]. apply (holds_of _ _ _ (pre ++ take (Z.to_nat n) q)); cbn.
    + by rewrite <- app_assoc, (app_assoc (take _ q)), take_drop.
    + rewrite zlen_app. unfold zlen in *. rewrite length_take. lia.
    + done.
    + rewrite zlen_drop. unfold zlen in *. lia.
    + done.
    + intros Hnil. apply (f_equal zlen) in Hnil. rewrite zlen_drop in Hnil. unfold zlen in *; cbn in Hnil; lia.
Qed.

(** ** From buffer to buffer *)

Lemma zoom_seq {S T A B C} (proj : S -> T) `{!Setter proj} (m : M T A) (m' : M T B) (k : B -> M S C) Q s :
  wp (m;; m') (fun b t => wp (k b) Q (upd proj (fun _ => t) s)) (proj s) ->
  (forall t, proj (upd proj (fun _ => t) s) = t) ->
  (forall t t', upd proj (fun _ => t') (upd proj (fun _ => t) s) = upd proj (fun _ => t') s) ->
  wp (zoom proj m;; b ← zoom proj m'; k b) Q s.
Proof.
  intros Hw H1 H2. rewrite wp_bind, wp_zoom. rewrite wp_bind in Hw. eapply wp_mono; [exact Hw|]. intros a t Ht. cbn beta.
  rewrite wp_bind, wp_zoom, H1. eapply wp_mono; [exact Ht|]. intros b t' Hb. cbn beta. by rewrite H2.
Qed.

(** The steps that carry data over: [n] bytes of [src], behind the data of [dest]. *)
Lemma append_dest {A} p q room ip d n (k : Z -> M pair A) Q : holds (dest p) q room ->
  ip = off (dest p) + data_size (dest p) -> zlen d = n -> n <= room ->
  (forall r b, holds b (q ++ d) (room - n) -> tot_size b = tot_size (dest p) ->
     off b + data_size b = ip + n -> wp (k r) Q (Pair b (src p))) ->
  wp (zoom dest (copy_in ip d);; r ← zoom dest (AddDataLen n); k r) Q p.
Proof.
  intros H Hip Hd Hn Hk. apply zoom_seq; [|done|done]. eapply wp_mono; [by eapply append_ok|].
  intros r b (Hb & Ht & _ & He). by apply Hk.
Qed.

Lemma read_src {A} p q room n (k : list Z -> M pair A) Q : holds (src p) q room -> 0 <= n <= zlen q ->
  wp (k (take (Z.to_nat n) q)) Q p -> wp (d ← zoom src (copy_out n); k d) Q p.
Proof.
  intros H Hn Hk. rewrite wp_bind, wp_zoom. eapply wp_mono; [by eapply out_ok|]. intros d b [-> ->]. by destruct p.
Qed.

Lemma zlen_take {A} n (l : list A) : 0 <= n <= zlen l -> zlen (take (Z.to_nat n) l) = n.
Proof. unfold zlen. rewrite length_take. lia. Qed.

Lemma CopyData_copies p q room s rs len : holds (dest p) q room -> holds (src p) s rs -> 0 <= len ->
  wp (CopyData len) (fun n p' => src p' = src p /\ 0 <= n <= zlen s /\ n <= len /\
    (n = len \/ n = zlen s \/ exists q', holds (dest p') q' 0) /\
    exists room', holds (dest p') (q ++ take (Z.to_nat n) s) room') p.
Proof.
  intros Hd Hs Hlen. pose proof (zlen_nonneg s). unfold CopyData. rewrite wp_bind, wp_zoom. eapply wp_mono; [by apply remain_ok|].
  intros n b (Hb & Ht & _). cbn beta. pose proof (holds_room _ _ _ Hb) as (Hn & _).
  destruct (Z.leb_spec n 0).
  - rewrite wp_ret. cbn. assert (n = 0) as -> by lia. rewrite app_nil_r. split_and!; try done; try lia; eauto.
  - rewrite wp_bind, wp_get, wp_bind, wp_zoom. eapply wp_mono; [by eapply input_ok|]. intros ip b' [-> ->]. cbn [src dest upd pair_eta].
    eapply read_src; [exact Hs|cbn; pose proof (holds_room _ _ _ Hs); lia|].
    pose proof (holds_room _ _ _ Hs) as (_ & Hds & _). set (k := Z.min _ _).
    assert (Hk : 0 <= k <= zlen s /\ k <= n /\ k <= len) by (subst k; cbn; lia).
    eapply append_dest; [exact Hb|done|apply zlen_take; lia|lia|]. intros r b' Hb' _ _. rewrite wp_ret. cbn.
    split_and!; try done; try lia; [|eauto].
    assert (k = len \/ k = zlen s \/ k = n) as [?|[?|Ek]] by (subst k; cbn; lia); eauto. right; right. replace (n - k) with 0 in Hb' by lia. eauto.
Qed.

Definition moved (len n : Z) : Z := if 0 <? len then Z.min n len else n.

Lemma moved_bounds len n : 0 <= n -> 0 <= moved len n <= n /\ (0 < len -> moved len n <= len).
Proof. unfold moved. destruct (Z.ltb_spec 0 len); lia. Qed.

(** With enough room behind the data of [dest], the data move over in order. *)
Lemma MoveData_moves p q room s rs len : holds (dest p) q room -> holds (src p) s rs -> moved len (zlen s) <= room ->
  wp (MoveData len) (fun n p' => n = moved len (zlen s) /\
    holds (dest p') (q ++ take (Z.to_nat n) s) (room - n) /\ exists rs', holds (src p') (drop (Z.to_nat n) s) rs') p.
Proof.
  intros Hd Hs Hroom. pose proof (holds_room _ _ _ Hs) as (_ & Es & _). unfold MoveData. rewrite wp_bind, wp_get, Es.
  pose proof (moved_bounds len (zlen s) (zlen_nonneg s)) as [Hm _].
  change (if 0 <? len then _ else _) with (moved len (zlen s)). rewrite Z.min_r by lia. set (n := moved len (zlen s)) in *.
  destruct (Z.leb_spec n 0).
  - rewrite wp_ret. split; [lia|]. cbn. rewrite app_nil_r, Z.sub_0_r. eauto.
  - rewrite wp_bind, wp_zoom. eapply wp_mono; [by eapply input_ok|]. intros ip b [-> ->].
    eapply read_src; [exact Hs|lia|]. eapply append_dest; [exact Hd|done|by apply zlen_take|lia|].
    intros r b Hb _ _. rewrite wp_bind, wp_zoom. eapply wp_mono; [by eapply remove_ok|]. intros r' b' (-> & _ & rs' & _ & Hb').
    rewrite wp_bind, wp_assert, wp_ret, Z.eqb_refl. cbn. split_and!; eauto.
Qed.

(** There is no test of the room: data that do not fit are copied past the end of the
    block of [dest], before the assertion of [AddDataLen] can stop them. *)
Lemma MoveData_overruns p q room s rs len : holds (dest p) q room -> holds (src p) s rs -> room < moved len (zlen s) ->
  MoveData len p = Fault OutOfBounds.
Proof.
  intros Hd Hs Hroom. pose proof (holds_room _ _ _ Hs) as (_ & Es & _). pose proof (holds_room _ _ _ Hd) as (Hr & _ & Ho & _).
  pose proof (moved_bounds len (zlen s) (zlen_nonneg s)) as [Hm _].
  destruct (wp_elim _ _ _ (input_ok _ _ _ Hd)) as (ip & b & Ei & -> & ->).
  destruct (wp_elim _ _ _ (out_ok _ _ _ _ Hs Hm)) as (d & b & Eo & -> & ->).
  unfold MoveData, mbind, M_bind, get. rewrite Es. change (if 0 <? len then _ else _) with (moved len (zlen s)).
  rewrite Z.min_r, (proj2 (Z.leb_gt _ _)) by lia. unfold zoom. rewrite Ei. cbn [upd src pair_eta]. 
  destruct p as [pd ps]. cbn in *. rewrite Eo. unfold copy_in, mbind, M_bind, get. cbn.
  destruct Hd as [pre q rest cum Hz Hq]. cbn in *. destruct (mem_write _ _ _) eqn:Ew; [|done].
  apply mem_write_bounds in Ew as [_ Ew]. rewrite zlen_take in Ew by lia. rewrite !zlen_app in Ew. lia.
Qed.

Section FramesOk.
Context (sizeof_rephdr : Z) (rephdr : Z -> Z -> Z -> list Z).
Context (Hsize : forall t c n, zlen (rephdr t c n) = sizeof_rephdr).

(** A frame: the header, with the length of the data, and the data. *)
Definition frame (c : list Z) : list Z := rephdr 1 0 (zlen c) ++ c.

Lemma move_frame_ok p q room s rs n : holds (dest p) q room -> holds (src p) s rs -> 0 <= n <= zlen s ->
  sizeof_rephdr + n <= room ->
  wp (move_frame sizeof_rephdr rephdr n) (fun _ p' =>
    holds (dest p') (q ++ frame (take (Z.to_nat n) s)) (room - sizeof_rephdr - n) /\
    exists rs', holds (src p') (drop (Z.to_nat n) s) rs') p.
Proof using Hsize.
  intros Hd Hs Hn Hr. unfold move_frame. rewrite wp_bind, wp_zoom. eapply wp_mono; [by eapply input_ok|]. intros ip b [-> ->].
  eapply append_dest; [exact Hd|done|apply Hsize|lia|]. intros r1 b1 H1 _ E1. eapply read_src; [exact Hs|lia|].
  eapply append_dest; [exact H1|cbn [dest]; lia|by apply zlen_take|lia|]. intros r2 b2 H2 _ _.
  rewrite wp_bind, wp_zoom. eapply wp_mono; [by eapply remove_ok|]. intros r' b' (-> & _ & rs' & _ & Hb').
  rewrite wp_assert, Z.eqb_refl. split; [done|]. cbn. unfold frame. rewrite zlen_take, app_assoc by done. eauto.
Qed.

(** Data [q] and [s] of the two buffers became those of [p'] by moving [n] bytes in frames. *)
Record framed (q s : list Z) (want n : Z) (chunks : list (list Z)) (p' : pair) : Prop := {
  fr_count : 0 <= n <= want;
  fr_chunks : Forall (fun c => 0 < zlen c <= MAX_REP_LEN) chunks;
  fr_bytes : concat chunks = take (Z.to_nat n) s;
  fr_src : exists rs, holds (src p') (drop (Z.to_nat n) s) rs;
  fr_dest : exists room, holds (dest p') (q ++ concat (frame <$> chunks)) room /\ (n = want \/ room <= sizeof_rephdr)
}.

Lemma rep_loop_ok fuel : forall p q room s rs n sum, holds (dest p) q room -> holds (src p) s rs -> 0 <= n <= zlen s ->
  n <= Z.of_nat fuel -> 0 <= sizeof_rephdr ->
  wp (rep_loop sizeof_rephdr rephdr fuel n room sum) (fun r p' => exists chunks, framed q s n (r - sum) chunks p') p.
Proof using Hsize.
  induction fuel as [|fuel IH]; intros p q room s rs n sum Hd Hs Hn Hf H0; cbn [rep_loop];
    pose proof (holds_room _ _ _ Hd) as (R0 & R1 & R2 & R3 & R4); pose proof (zlen_nonneg q);
    pose proof (holds_room _ _ _ Hs) as (S0 & S1 & S2 & S3 & S4);
    (destruct (_ && _) eqn:E; [|rewrite wp_ret; exists []; rewrite Z.sub_diag; split; cbn;
      [lia|constructor|done|eauto|exists room; rewrite app_nil_r; split; [done|mlia]]]).
  - lia.
  - apply andb_true_iff in E as [E1 E2]. apply Z.ltb_lt in E1, E2. assert (Hlt : sizeof_rephdr < room) by mlia.
    replace (i32 (Z.min (u64 n) (u64 (room - sizeof_rephdr)))) with (Z.min n (room - sizeof_rephdr)) by mlia.
    replace (i32 (room - sizeof_rephdr)) with (room - sizeof_rephdr) by mlia.
    set (k := Z.min (Z.min n (room - sizeof_rephdr)) MAX_REP_LEN).
    assert (Hk : 0 < k <= n /\ k <= room - sizeof_rephdr /\ k <= MAX_REP_LEN) by (subst k; unfold MAX_REP_LEN; lia).
    rewrite (proj2 (Z.leb_gt _ _)) by lia. rewrite wp_bind. eapply wp_mono; [eapply move_frame_ok; [exact Hd|exact Hs|lia|lia]|].
    intros [] p1 (D1 & rs1 & S1'). cbn beta.
    eapply wp_mono; [eapply (IH p1 _ _ _ rs1 (n - k)); [exact D1|exact S1'|rewrite zlen_drop; lia|lia|done]|].
    intros r p2 (chunks & [F1 F2 F3 [rs2 F4] (room2 & F5 & F6)]). exists (take (Z.to_nat k) s :: chunks).
    assert (Ej : Z.to_nat (r - sum) = (Z.to_nat k + Z.to_nat (r - (sum + k)))%nat) by lia.
    split.
    + lia.
    + constructor; [rewrite zlen_take; lia|done].
    + cbn [concat]. rewrite F3, Ej, take_take_drop. done.
    + exists rs2. by rewrite Ej, <- drop_drop.
    + exists room2. cbn [fmap list_fmap concat]. rewrite app_assoc. split; [done|lia].
Qed.

(** C39: the frames of a relay.  [MoveToREPData] returns, for every two well-formed buffers
    and every length: the bytes it takes off the front of [src] are appended to [dest] in
    order, cut into frames of 1 to [MAX_REP_LEN] bytes, each behind a header that carries
    its length; nothing is lost or written outside the block, and it stops only when all
    that was asked for has moved or when [dest] has no room for another frame. *)
Theorem MoveToREPData_frames p q room s rs len : holds (dest p) q room -> holds (src p) s rs ->
  wp (MoveToREPData sizeof_rephdr rephdr len)
     (fun n p' => exists chunks, framed q s (moved len (zlen s)) n chunks p') p.
Proof using Hsize.
  intros Hd Hs. pose proof (holds_room _ _ _ Hs) as (_ & Es & _). unfold MoveToREPData. rewrite wp_bind, wp_get, Es.
  change (if 0 <? len then _ else _) with (moved len (zlen s)). pose proof (moved_bounds len (zlen s) (zlen_nonneg s)) as [Hm _].
  rewrite wp_bind, wp_zoom. eapply wp_mono; [by apply remain_ok|]. intros n b (Hb & _). cbn beta.
  eapply wp_mono; [eapply rep_loop_ok; [exact Hb|exact Hs|lia|lia|rewrite <- (Hsize 0 0 0); apply zlen_nonneg]|]. intros r p'. cbn beta. by rewrite Z.sub_0_r.
Qed.

End FramesOk.

(** A header of a type, a command and a length in two bytes. *)
Definition demo_hdr (t c n : Z) : list Z := [t; c; n / 256 mod 256; n mod 256].

Definition demo_pair : pair :=
  Pair (RingBufferCtx [0; 9; 0; 0; 0; 0; 0; 0; 0] 1 9 1 0) (RingBufferCtx [7; 8; 6; 5] 0 4 4 0).

Lemma MoveToREPData_frames_witness :
  wp (MoveToREPData 4 demo_hdr 3)
     (fun n p' => exists chunks, framed 4 demo_hdr [9] [7; 8; 6; 5] (moved 3 4) n chunks p') demo_pair /\
  (exists b c, MoveToREPData 4 demo_hdr 3 demo_pair = Ok 3 (Pair b c) /\
     take 8 (drop 1 (block b)) = [9; 1; 0; 0; 3; 7; 8; 6] /\ data_size b = 8).
Proof.
  split.
  - apply (MoveToREPData_frames 4 demo_hdr) with (room := 7) (rs := 0); [done| |].
    + apply (holds_of _ [9] [0; 0; 0; 0; 0; 0; 0] [0]); done.
    + apply (holds_of _ [7; 8; 6; 5] [] []); done.
  - do 2 eexists. split; [vm_compute; reflexivity|done].
Defined.

(** ** Between a buffer and a connection

    What a call can answer: [yields R m] says that every result of [m] satisfies [R]. *)
Section Answers.
Context {S : Type}.

Definition yields {A} (R : A -> Prop) (m : M S A) : Prop :=
  forall s, wpe (fun _ => True) m (fun a _ => R a) s.

Lemma yields_ret {A} (R : A -> Prop) a : R a -> yields R (mret a).
Proof. by intros H s. Qed.

Lemma yields_any {A} (m : M S A) : yields (fun _ => True) m.
Proof. intros s. unfold wpe. by destruct (m s). Qed.

Lemma yields_bind {A B} (R' : A -> Prop) (R : B -> Prop) (m : M S A) (k : A -> M S B) :
  yields R' m -> (forall a, R' a -> yields R (k a)) -> yields R (mbind k m).
Proof. intros Hm Hk s. rewrite wpe_bind. eapply wpe_mono; [apply Hm|]. intros a s' Ha. by apply Hk. Qed.

Lemma yields_then {A B} (R : B -> Prop) (m : M S A) (k : A -> M S B) :
  (forall a, yields R (k a)) -> yields R (mbind k m).
Proof. intros Hk. eapply yields_bind; [apply yields_any|auto]. Qed.

Lemma yields_unwrap {A B} (R : B -> Prop) e (o : option A) (k : A -> M S B) :
  (forall a, o = Some a -> yields R (k a)) -> yields R (a ← unwrap e o; k a).
Proof. intros H s. destruct o as [a|]; [by apply H|done]. Qed.

Lemma yields_assert {A} (R : A -> Prop) b (k : unit -> M S A) :
  (b = true -> yields R (k tt)) -> yields R (u ← assertM b; k u).
Proof. intros H s. destruct b; [by apply H|done]. Qed.

End Answers.

Ltac answers :=
  repeat match goal with
  | |- yields _ (mret _) => apply yields_ret
  | |- yields _ (u ← assertM _; _) => apply yields_assert; intros ?
  | |- yields _ (u ← unwrap _ _; _) => apply yields_unwrap; intros ??
  | |- yields _ (let _ := _ in _) => cbv zeta
  | |- yields _ (mbind _ _) => apply yields_then; intros ?
  | |- yields _ (if ?b then _ else _) => destruct b eqn:?
  | |- yields _ (match ?x with _ => _ end) => destruct x eqn:?
  end.

Definition read_within (len : Z) (r : api_result (list Z)) : Prop :=
  match r with Ret d => zlen d <= Z.max 0 len | _ => True end.

Definition wrote_within (len : Z) (r : api_result Z) : Prop :=
  match r with Ret n => 0 <= n <= Z.max 0 len | _ => True end.

Lemma read_nothing len : read_within len (Ret []).
Proof. cbn. unfold zlen. cbn. lia. Qed.

Lemma with_manager_yields {A} (R : api_result A -> Prop) c k : (forall e, R (Errno e)) -> yields R k -> yields R (with_manager c k).
Proof. intros He Hk. unfold with_manager. destruct (GetMTCPManager c); [by apply yields_ret|done]. Qed.

Lemma with_socket_yields {A} (R : api_result A -> Prop) i k : (forall e, R (Errno e)) -> (forall s, yields R (k s)) ->
  yields R (with_socket i k).
Proof. intros He Hk. unfold with_socket. answers; auto. Qed.

Lemma with_pipe_yields {A} (R : api_result A -> Prop) c i k : (forall e, R (Errno e)) -> (forall s x, yields R (k s x)) ->
  yields R (with_pipe c i k).
Proof.
  intros He Hk. unfold with_pipe. apply with_manager_yields; [done|]. apply with_socket_yields; [done|]. intros s. answers; auto.
Qed.

Lemma pipe_take_length n x d y : pipe_take n x = Some (d, y) -> zlen d = n.
Proof.
  unfold pipe_take. destruct (_ <? _).
  - destruct (mem_read _ _ _) eqn:E; [|done]. cbn. intros [= <- _]. by eapply mem_read_length.
  - destruct (mem_read (pp_buf x) (buf_off x) _) eqn:E1; [|done]. cbn.
    destruct (mem_read (pp_buf x) 0 _) eqn:E2; [|done]. cbn. intros [= <- _].
    apply mem_read_length in E1, E2. rewrite zlen_app. lia.
Qed.

Lemma PipeRead_within c i len : yields (read_within len) (PipeRead c i len).
Proof.
  unfold PipeRead. apply with_pipe_yields; [done|]. intros s x. unfold pipe_read_wait, pipe_read_now. answers; try done; try apply read_nothing.
  - case_match; [done|apply read_nothing].
  - match goal with H : pipe_take _ _ = _ |- _ => apply pipe_take_length in H end. cbn. lia.
Qed.

Lemma PipeWrite_within c i d len : yields (wrote_within len) (PipeWrite c i d len).
Proof.
  unfold PipeWrite. apply with_pipe_yields; [done|]. intros s x. unfold pipe_write_wait, pipe_write_now. answers; cbn; try done; try lia.
  case_match; cbn; lia.
Qed.

Section RelayingOk.
Context `{!Platform}.

Lemma with_reader_yields {A} (R : api_result A -> Prop) sock e k : (forall e, R (Errno e)) -> R (Ret e) ->
  (forall a, yields R (k a)) -> yields R (with_reader sock e k).
Proof. intros He Hr Hk. unfold with_reader. answers; auto. Qed.

Lemma with_writer_yields {A} (R : api_result A -> Prop) sock k : (forall e, R (Errno e)) ->
  (forall a, yields R (k a)) -> yields R (with_writer sock k).
Proof. intros He Hk. unfold with_writer. answers; auto. Qed.

Lemma CopyToUser_within a len : yields (read_within len) (CopyToUser a len).
Proof.
  unfold CopyToUser. answers; cbn; try done. match goal with H : mem_read _ _ _ = _ |- _ => apply mem_read_length in H end. lia.
Qed.

Lemma mtcp_read_within c i len : 0 <= len < 2147483648 -> yields (read_within len) (mtcp_read c i len).
Proof.
  intros Hl. unfold mtcp_read, mtcp_recv. rewrite i32_small by lia. apply with_manager_yields; [done|]. apply with_socket_yields; [done|].
  intros sock. destruct (_ =? _); [by apply yields_ret|]. destruct (_ =? _); [apply PipeRead_within|].
  destruct (negb _); [by apply yields_ret|]. apply with_reader_yields; [done|apply read_nothing|]. intros a.
  eapply yields_bind; [apply CopyToUser_within|]. intros r Hr. by answers.
Qed.

Lemma CopyFromUser_within a d len : yields (wrote_within len) (CopyFromUser a d len).
Proof. unfold CopyFromUser. answers; try done. destruct (Z.leb_spec (i32 a3) 0); cbn; [done|lia]. Qed.

Lemma mtcp_write_within c i d len : 0 <= len < 2147483648 -> yields (wrote_within len) (mtcp_write c i d len).
Proof.
  intros Hl. unfold mtcp_write. rewrite i32_small by lia. apply with_manager_yields; [done|]. apply with_socket_yields; [done|].
  intros sock. destruct (_ =? _); [by apply yields_ret|]. destruct (_ =? _); [apply PipeWrite_within|].
  destruct (negb _); [by apply yields_ret|]. apply with_writer_yields; [done|]. intros a. destruct (_ <=? _).
  - apply yields_ret. case_match; cbn; lia.
  - eapply yields_bind; [apply CopyFromUser_within|]. intros r Hr. answers. destruct r as [[| |]| |]; try done. case_match; cbn; lia.
Qed.

(** What a read does to a relay whose buffer holds [q]: the faults are the call's own. *)
Definition read_to (q : list Z) (c : app_ctx) (fid : Z) (r : relay) (res : api_result Z) (r' : relay) : Prop :=
  exists n ans, mtcp_read c fid n (stack r) = Ok ans (stack r') /\ 0 <= n /\
    match ans with
    | Ret d => zlen d <= n /\ res = Ret (zlen d) /\ holds (r_buff r') (q ++ d) (n - zlen d)
    | Errno e => res = Errno e /\ holds (r_buff r') q n
    | Block => res = Block /\ holds (r_buff r') q n
    end.

Definition written_from (q : list Z) (c : app_ctx) (fid : Z) (r : relay) (res : api_result Z) (r' : relay) : Prop :=
  (q = [] /\ res = Ret 0 /\ r' = r) \/
  (q <> [] /\ mtcp_write c fid q (zlen q) (stack r) = Ok res (stack r') /\
    match res with
    | Ret n => 0 <= n <= zlen q /\ exists room, holds (r_buff r') (drop (Z.to_nat n) q) room
    | _ => r_buff r' = r_buff r
    end).

(** The faults of a call. *)
Definition call_fault {S A} (m : M S A) (s : S) (e : fault) : Prop := m s = Fault e.

Lemma MtcpReadFromBuffer_ok c fid r q room : holds (r_buff r) q room ->
  wpe (fun e => exists n, call_fault (mtcp_read c fid n) (stack r) e) (MtcpReadFromBuffer c fid) (read_to q c fid r) r.
Proof.
  intros Hb. unfold MtcpReadFromBuffer. rewrite wpe_bind, wpe_zoom. apply wpe_of_wp. eapply wp_mono; [by apply remain_ok|].
  intros n b (Hn & Ht & _). cbn beta. pose proof (holds_room _ _ _ Hn) as (R0 & R1 & R2 & R3 & R4). pose proof (zlen_nonneg q).
  rewrite wpe_bind, wpe_zoom. apply wpe_of_wp. eapply wp_mono; [by eapply input_ok|]. intros ip b' [-> ->]. cbn beta.
  rewrite wpe_bind, wpe_zoom. cbn [stack r_buff upd relay_eta].
  assert (Hy : yields (read_within n) (mtcp_read c fid n)) by (apply mtcp_read_within; lia).
  pose proof (Hy (stack r)) as Hw. unfold wpe in Hw |- * at 1. cbn [stack].
  destruct (mtcp_read c fid n (stack r)) as [ans m'|e] eqn:Em; [|by exists n].
  destruct ans as [d|e|]; cbn [read_within] in Hw.
  2,3: rewrite wpe_ret; exists n; eexists; split; [exact Em|done].
  apply wpe_of_wp. apply zoom_seq; [|done|done]. eapply wp_mono; [eapply append_ok; [exact Hn|done|done|lia]|].
  intros k b' (Hb' & _). cbn beta. rewrite wp_ret. exists n. eexists. split; [exact Em|]. split_and!; try done. lia.
Qed.

Lemma MtcpWriteFromBuffer_ok c fid r q room : holds (r_buff r) q room ->
  wpe (call_fault (mtcp_write c fid q (zlen q)) (stack r)) (MtcpWriteFromBuffer c fid) (written_from q c fid r) r.
Proof.
  intros Hb. pose proof (holds_room _ _ _ Hb) as (R0 & R1 & R2 & R3 & R4). pose proof (zlen_nonneg q).
  unfold MtcpWriteFromBuffer. rewrite wpe_bind, wpe_get, R1. destruct (Z.leb_spec (zlen q) 0).
  { rewrite wpe_ret. left. split; [|done]. destruct q; [done|rewrite zlen_cons in *; pose proof (zlen_nonneg q); lia]. }
  assert (Hq : q <> []) by (by intros ->).
  rewrite wpe_bind, wpe_zoom. apply wpe_of_wp. eapply wp_mono; [eapply out_ok; [exact Hb|lia]|]. intros d b [-> ->]. cbn beta.
  rewrite take_ge by (unfold zlen; lia). rewrite wpe_bind, wpe_zoom.
  assert (Hy : yields (wrote_within (zlen q)) (mtcp_write c fid q (zlen q))) by (apply mtcp_write_within; lia).
  pose proof (Hy (stack r)) as Hw. unfold wpe in Hw |- * at 1. cbn [stack upd relay_eta].
  destruct (mtcp_write c fid q (zlen q) (stack r)) as [ans m'|e] eqn:Em; [|done].
  destruct ans as [n|e|]; cbn [wrote_within] in Hw.
  2,3: rewrite wpe_ret; right; split; [done|]; split; [exact Em|done].
  rewrite (proj2 (Z.ltb_ge _ _)) by lia. rewrite wpe_bind, wpe_zoom. apply wpe_of_wp.
  eapply wp_mono; [eapply remove_ok; [exact Hb|lia]|]. intros k b (-> & _ & room' & _ & Hb'). cbn beta.
  rewrite wpe_bind, wpe_assert, Z.eqb_refl, wpe_ret. right. split; [done|]. split; [exact Em|]. split; [lia|]. by exists room'.
Qed.

(** C40: a relay loses nothing between its buffer and its connections.  A read appends to
    the buffer exactly the bytes that [mtcp_read] returned, never more than the room it
    offered; a write removes exactly the bytes that [mtcp_write] accepted, from the front;
    an error leaves the data as they were.  Neither writes outside the buffer or fails an
    assertion: the only faults are those of the calls. *)
Theorem relay_transfers c fid r q room : holds (r_buff r) q room ->
  wpe (fun e => exists n, call_fault (mtcp_read c fid n) (stack r) e) (MtcpReadFromBuffer c fid) (read_to q c fid r) r /\
  wpe (call_fault (mtcp_write c fid q (zlen q)) (stack r)) (MtcpWriteFromBuffer c fid) (written_from q c fid r) r.
Proof. intros Hb. split; [by eapply MtcpReadFromBuffer_ok|by eapply MtcpWriteFromBuffer_ok]. Qed.

End RelayingOk.

(** The server of [System.v] after it accepted the connection, with two bytes to relay and
    room for one more. *)
Definition demo_relay : relay :=
  RelayCtx (default demo_manager (plays (take 6 demo_events) demo_manager)) (RingBufferCtx [0; 7; 8; 0] 1 4 2 2).

Definition outcome_of (o : outcome relay (api_result Z)) : option (api_result Z * ring_buffer) :=
  match o with Ok a r => Some (a, r_buff r) | Fault _ => None end.

Lemma relay_transfers_witness :
  wpe (fun e => exists n, call_fault (mtcp_read demo_ctx 1 n) (stack demo_relay) e)
      (MtcpReadFromBuffer demo_ctx 1) (read_to [7; 8] demo_ctx 1 demo_relay) demo_relay /\
  outcome_of (MtcpReadFromBuffer demo_ctx 1 demo_relay) = Some (Ret 1, RingBufferCtx [0; 7; 8; 104] 1 4 3 3) /\
  outcome_of (MtcpWriteFromBuffer demo_ctx 1 demo_relay) = Some (Ret 2, RingBufferCtx [0; 7; 8; 0] 0 4 0 2).
Proof.
  split; [|split; vm_compute; reflexivity].
  assert (Hb : holds (r_buff demo_relay) [7; 8] 1).
  { exact (holds_of (r_buff demo_relay) [7; 8] [0] [0] eq_refl eq_refl eq_refl eq_refl (conj eq_refl eq_refl) (fun E => match nil_cons (eq_sym E) with end)). }
  exact (proj1 (relay_transfers demo_ctx 1 demo_relay [7; 8] 1 Hb)).
Defined.

End Relay.
